(* ===== verification/_CoqProject ===== *)
-Q . S2P
Prelude.v
Strs.v
Hash.v
Ids.v
PushErrors.v
Queue.v
Ledger.v
Snappy.v
Delivery.v
Publisher.v
Net.v
Header.v
Version.v
Checks.v
Validate.v
Updater.v
Desired.v
Connection.v
Labels.v
Scrape.v
Fleet.v
Collect.v
Collector.v
Telemetry.v
Tenants.v
Enums.v
ApiDb.v
ApiServer.v
ApiSync.v
Caches.v
Interpolation.v
Script.v
K6.v
PushV1.v
PromClient.v
Secrets.v
Features.v
Probers.v
HttpProbe.v
Testserver.v
DnsProbe.v
BbeConfig.v
Ping.v
Traceroute.v
Runner.v
LocalRun.v
Adhoc.v
Service.v
Lifecycle.v
Meters.v
Tools.v
