(* ===== verification/Prelude.v ===== *)
(** * Verification of the synthetic monitoring agent

    The agent runs checks (probes of HTTP, DNS, TCP and other targets, and k6
    scripts) for many tenants of Grafana Cloud and pushes their metrics and logs.
    It registers with an API over gRPC; the API streams it changes of its checks;
    each check gets a scraper, a goroutine that probes the target periodically and
    hands a payload to the publisher; the publisher queues payloads per tenant and
    sends them with the tenant's remote-write settings, which the tenant manager
    fetches and caches.  This library is a shallow embedding of that core in Rocq:
    the functions are translated from the Go sources, with the theorems that make
    each part correct.

    ** Conventions

    A function that may panic returns [go A]; one that returns [(T, error)]
    returns [result E T]; a lone [error] is an [option].  [int] and [int64] are
    [Z] within [int64], wrapped by [wrap64] where the code can overflow, [uint64]
    by [u64].  [float64] is [spec_float] at 53 bits.  Strings are byte strings.
    Maps are [gmap]s.  Pointers are addresses where identity or aliasing matters
    (handlers, scrapers, buffers), [option]s where it does not.  Clocks, random
    numbers, network answers and schedules are arguments or events, so that a
    theorem covers all of them.  Logging and tracing are left out; the agent's own
    metrics are modelled by their registration and labels ([Meters]).

    ** Files, bottom up

    - [Prelude] (this file): machine integers, [go], [result], list lemmas.
      [Strs], [Net], [Header]: the parts of Go's [strings], [strconv], [net],
      [net/http] and [encoding/base64] the agent relies on, as executable functions;
      [Hash]: its [hash/fnv].
    - [Ids] (src/pkg/pb/synthetic_monitoring/ids.go, src/internal/model/model.go):
      packing of a local id and a region into one negative id.
    - [PushErrors] (src/internal/pkg/prom/prom.go,
      src/internal/pusher/v2/errors.go): the errors of a push and the decision
      [parsePublishError] takes from them.
    - [Queue] (src/internal/pusher/v2/queue.go, condition.go, options.go): the
      bounded queue of a tenant, its limits, the buffer pool, retries and back-off,
      and the push loop, as a step relation between scrapers that insert and the
      loop ([step], [reachable]).  [Ledger]: the same runs with the events that settle
      the records.
    - [Snappy] (src/internal/pusher/v2/snappy_concat.go): the reader that serves
      the records of a push as one snappy block.  [Delivery] composes it with the queue,
      up to the decoding of a block as the snappy format defines it.
    - [Publisher] (src/internal/pusher/v2/publisher.go, tenant_pusher.go): the map
      of tenant handlers, compare-and-swap of handlers, and the goroutine that runs
      them, as a step relation over a heap of handlers.
    - [Checks], [Validate] (src/pkg/pb/synthetic_monitoring/string.go,
      checks_extra.go): the messages, their enumerations and every validator.
      [Enums] (multihttp_string.go, checks_extra.go): what the generator of
      enumerations writes for each type, and the writing of log lines.
    - [Updater] (src/internal/checks/checks.go): registration, and the set of
      running scrapers under batches of changes.  It needs validation only through
      the class [Validator], whose instance is [Check_Validate].
    - [Desired]: the abstract specification of the updater, a map of the checks
      that should run, and the simulation between the two.
    - [Connection] (src/internal/checks/checks.go): the life of [Updater.Run]: the
      goroutines of a connection as steps under an error group, and the connections
      one after another.
    - [ApiDb], [ApiServer] (src/cmd/test-api/internal/): the other end of the
      connection: the database of the test API and its data file; its servers, with
      the registry of probes as goroutines over controllers and the changes that it
      streams.  [ApiSync] composes them with [Desired].
    - [Labels], [Scrape] (src/internal/scraper/scraper.go): labels and time series
      of a run; the periodic loop, republication and stale markers, and the
      alerting state machine.  [Fleet] composes [Updater] with the goroutines of its
      scrapers.
    - [Collect] (src/internal/scraper/scraper.go, scrape_clock.go,
      src/pkg/collector/collector.go): one execution of a check: the prober and its
      registry, summaries and histograms over executions, durations, logs.
      [Collector]: the collector as a library, its options and its adapters.
    - [Telemetry] (src/internal/telemetry/): executions counted per region, tenant,
      check class and cost attribution labels, and the push loop of a region.
    - [Tenants] (src/internal/tenants/manager.go, src/internal/cache/,
      src/internal/limits/, labelmode/, cals/): the tenant manager as goroutines over
      a cache, given by the class [Cache] with its laws, and one mutex per tenant.
      [Caches] (src/internal/cache/): the local and memcached clients, any number of
      them over a network of servers whose stores are given by the class [ByteStore],
      which make an instance of [Cache]; the addresses of the servers and their refresh.
    - [Interpolation] (src/internal/prober/interpolation/interpolation.go):
      variables and secrets in settings, and the JavaScript of a template.
    - [Script] (src/internal/prober/multihttp/script.go, script.tmpl): the k6 script
      of a multihttp check, template included, and a lexer of JavaScript.
    - [K6] (src/internal/k6runner/): errors of a run, the remote runner and its
      retries, the processor of a run's output, the local runner and the repository
      of binaries.
    - [PushV1] (src/internal/pusher/v1/, src/internal/pkg/prom/prom.go): the first
      version of the publisher, back-off of a send, TLS transports.  [PromClient]
      (src/internal/pkg/prom/prom.go): the remote-write client, its requests, the
      redirects they follow and their retries.
    - [Secrets] (src/internal/secrets/): the provider of secrets and its cache, given
      by the class [TTLCache].
    - [Features] (src/internal/feature/, src/internal/accounting/): feature flags;
      accounting classes and active series.
    - [Probers] (src/internal/prober/): the factory, the modules made of the settings
      of each kind of check, HTTP headers and secrets, the address to ping.
      [HttpProbe] (src/internal/prober/http/): the query of a target with a
      cache-busting parameter; [Testserver] (testserver/): the server of the tests that
      answers what a URL asks for.  [DnsProbe], [BbeConfig]
      (src/internal/prober/dns/internal/bbe/): a DNS probe from its query to
      the validation of the response; the configuration of the fork.  [Ping]
      (src/internal/prober/icmp/): a ping from its address to its metrics.  [Traceroute]
      (src/internal/prober/traceroute/): the log entries and the metrics of a route.
    - [Runner] (src/internal/k6runner/, src/internal/prober/multihttp/): choice of
      the runner, the start of a local run and the k6 probers; it composes
      [Validate], [Script] and [K6].  [LocalRun] (local.go): the same local run in full, over a
      file system, with a small monad of the calls that it makes.
    - [Adhoc] (src/internal/adhoc/adhoc.go): sessions and requests of ad-hoc checks.
    - [Service] (src/cmd/synthetic-monitoring-agent/, src/internal/metamonitoring/,
      k6version/, usage/): the start of the agent from its flags, the HTTP server, the
      push of its own metrics, reports of k6 versions and of usage, the identifier of a
      probe, the connection to the API.  [Version] (src/internal/version/): the build
      settings and the user agent.  [Lifecycle] (main.go, src/internal/http/): the
      goroutines of the error group of the program, the HTTP server and the channel to the tenant
      manager, as a step relation over how each goroutine can return.
    - [Meters]: the metrics that the parts of the agent register on one registry,
      given by the class [Registerer], and the labels that the publishers use, on vectors
      given by the class [MetricVec].
    - [Tools] (src/cmd/synthetic-monitoring-proto/, src/pkg/accounting/, src/cmd/test-api/main.go):
      the program of example checks, the generator of the table of active series and
      the life of the test API.

    ** What the theorems show

    - Publishing: [Queue.no_lost_wakeup], [buffers_never_shared],
      [queued_bytes_bounded] hold in every interleaving, and
      [Ledger.records_accounted] says what becomes of every record in them;
      [get_takes_longest_prefix],
      [limitBytes_keeps_longest_suffix] and [limitAge_reports_kept] say what one
      call does; [backoff_closed_form] and [retries_are_exhausted] bound the
      retries.  [PushErrors.classify_response] gives the decision for each HTTP
      status, [server_errors_lose_status] a case where the status is lost.
      [Snappy.concat_reader_equivalent] equates the reader with one encoded block, and
      [Delivery.remote_decodes_payloads] follows payloads to what a remote decodes.
      [Publisher.one_goroutine_per_tenant], [runner_keeps_its_slot],
      [publish_reaches_a_pusher] and [run_lifecycle] are the protocol of handlers.
      [PushV1.payload_settled_once] and [send_with_backoff] are the same questions
      for the first version; [PromClient.push_sends] says which requests a push of
      its client makes, redirects included, and how it ends.
    - Checks: [Validate.check_valid] characterises the accepted checks,
      [validateHost_spec], [validateHttpUrl_safe], [multihttp_entry_valid] the
      accepted targets, URLs and requests, [enum_json_roundtrip] the JSON of
      enumerations.  [Updater.scrapers_accounted] is the invariant of the map of
      scrapers over any sequence of batches; [first_batch_reconciles],
      [later_operations] and [registration_retry_decision] say what operations do;
      [Desired.updater_refines_desired] is the refinement of the map of checks that
      should run; [Connection.agent_follows_api] extends it to whole runs of the agent,
      in every interleaving of the goroutines of its connections, and
      [connection_ends] says that a connection that must end does: its goroutines can
      return by the end of their contexts alone, and in no other case.
      [Fleet.fleet_runs_checks] relates the goroutines of scrapers to the checks that the
      updater has.
    - The test API: [ApiDb.db_consistent] is the invariant of its database,
      [ApiServer.registry_protocol] that of its registry in every interleaving.
      [ApiSync.agent_matches_api] is the protocol between the two programs: an agent
      that applies what the server sends for its probe runs the checks of the database
      for the probe, and the server knows which, unless neither has any check at first
      ([first_update_taken_as_list]); [loaded_checks_run] is the same from the
      data file on.
    - Scraping: [Scrape.tick_protocol] is the order and spacing of runs;
      [stop_publishes_stale_markers], [stale_markers_after_republish],
      [check_state_machine] what they publish and report.  [Collect.execution_observed]
      and [logs_of_execution] follow an execution from the prober to its metrics,
      derived metrics and log entries; observations are kept by the hash of name and labels,
      as the code keeps them, and the registry is given by its documented laws
      ([RegistryLaws]).  [Labels.execution_labels],
      [log_labels], [check_info_labels], [series_labels], [splitLogLabels_spec] fix
      which labels come out of every label mode, [label_limits] how many.  [Telemetry.cals_key] and
      [telemetry_totals] account for executions.
    - Tenants: [Tenants.one_fetch_per_tenant], [served_from_cache],
      [updates_never_regress] hold in every interleaving of callers;
      [manager_calls_alone] gives each branch of the two calls.
      [Caches.cache_serves_last_set] is the contract of the clients of a cache while servers
      fail and change ([refresh_serves_old_value] is what a change can bring back).
      [Secrets.secrets_isolated_and_fresh] bounds what the cache of secrets serves.
    - Settings: [Interpolation.Resolve_secrets] says what replaces the secrets of a
      value, [ToJavaScript_evaluates] that a template's JavaScript means the template.
      [Script.user_text_is_not_code] is that user text, URLs with a variable apart
      ([raw_url_adds_code]), cannot leave the literals of a script,
      [Runner.multihttp_prober_well_formed] that every validated multihttp check whose URLs
      are plain gets a well formed script.  [Probers.reserved_headers_win],
      [http_secrets_resolved], [HttpProbe.cache_bust_query],
      [Testserver.settings_served],
      [DnsProbe.dns_probe_success] and [Ping.ping_probe] are about single probers.
      [BbeConfig.accept_encoding_spec] says which headers go with a compression.
    - k6: [K6.remote_run_returns] bounds the retries of a remote run,
      [local_run_reports] and [processor_outcome] give what a run reports and what a
      probe makes of it, [Runner.successful_probe] what a success implies,
      while no scan of the repository failed ([failed_scan_is_kept]).
      [LocalRun.local_run_leaves_nothing] says that a local run, however it ends and whatever
      k6 does, leaves no file of its own that can be removed.
    - Ad-hoc checks: [Adhoc.adhoc_stream_handled] for the requests of a session,
      [adhoc_run_reconnects] for the sessions.
    - The agent: [Service.started_agent] says what an agent that starts runs with.
      [Lifecycle.agent_shuts_down] that a signal ends every goroutine of it, unless one of
      them waits for the tenant manager ([shutdown_hangs]);
      [agent_authenticates] that its calls are those of the probe of its token.
      [Meters.agent_metrics_registered] says that its metrics can be registered, and
      [publisher_metrics_labelled] that each is used with the labels it was made with.

    Several theorems and examples record defects of the code: they are named in
    their comments ([server_errors_lose_status], [stale_markers_after_republish],
    [cals_key], [first_batch_update_skips_validation], [waiting_call_mixes_versions],
    [check_without_settings_panics], [time_label_drops_logs], [redirected_push_is_lost],
    [refresh_serves_old_value], [late_store_serves_expired_token] and others).

    ** Bounds and fuel

    Recursion is structural wherever the code's is.  [sort.Search] runs with the
    size of its range as fuel ([search_spec] needs no more); following
    handlers of a [delayPusher] with fuel two, since a delay always points to a
    tenant handler ([Publisher.publish_at_total]); varints with ten bytes, enough
    for 64 bits ([Snappy.uvarint_putUvarint]); trimming and escaping with the
    length of their input, of which each round consumes at least one byte;
    hexadecimal digits with eight, enough for a rune; the loop of
    IPv6 addresses with nine rounds, one more than an address has groups; scanning of lines with
    the length of the text ([Tools.ActiveSeries.scanLines_unlines]).  Retries
    of a remote run are a list of rounds: [K6.remote_run_returns] says how many
    are enough; those of a DNS probe a list of exchanges ([DnsProbe.dns_probe_success]); the requests of
    a call of the HTTP client at most ten, its own limit ([PromClient.Do_loop]).  Transition systems have no bound on goroutines, payloads or steps.

    ** What is not modelled

    Network and process I/O (probing, the k6 process, the gRPC and HTTP clients and
    servers) enters as arguments: the outcome of a probe, of a request, of a stream.
    The Prometheus registry, logfmt and JSON codecs, semantic versions, snappy
    compression, geohash, parsing of URLs, of floating point numbers and of regular
    expressions, the ping library, the stores behind the
    caches and the gRPC stubs are third-party or library code, given by parameters,
    type classes or inputs; in [ApiSync] the protobuf codec gives back the checks it
    is given, and [Delivery] has a decoder that is the snappy format's own definition.
    [LocalRun] takes the names of temporary files as new, as [TempDir] and [TempFile]
    document; [Collect] takes of logfmt and RFC 3339 that they read back what they wrote only
    for the keys, texts, times and lengths that they can carry; of a sort no more than that
    it sorts ([Telemetry.LabelSort]); the headers that [net/http] keeps on a redirect are a
    parameter.  Counters are [Z] where the registry has [float64], exact below 2^53.
    Data races are out of scope: each critical section is
    one step.  Error groups behave as golang.org/x/sync documents.  [Connection] takes the
    sends to the tenant manager as done at once; that they block is in [Lifecycle].  Left out: the
    generated protobuf code; the helpers of the tests (contexts, loggers and files); the
    alerting rules, which the agent does not use; the loggers handed
    to third-party probers, but for the adapter of [HttpProbe]; the parsing of flags;
    the code of the TCP, gRPC and HTTP probes, which is that of a library. *)
From Stdlib Require Export ZArith Lia Ascii.
From stdpp Require Export base gmap strings list fin_maps pretty.

Set Default Proof Using "Type".

Create HintDb agent.

(** ** Machine integers *)

Definition two64 : Z := 18446744073709551616.
Definition maxInt64 : Z := 9223372036854775807.
Definition minInt64 : Z := -9223372036854775808.

(** [int64] arithmetic wraps around in two's complement. *)
Definition wrap64 (z : Z) : Z := (z - minInt64) `mod` two64 + minInt64.

(** [uint64] arithmetic is modulo 2^64. *)
Definition u64 (z : Z) : Z := z `mod` two64.

Definition int64 (z : Z) : Prop := (minInt64 ≤ z ≤ maxInt64)%Z.

Lemma wrap64_id z : int64 z → wrap64 z = z.
Proof.
  unfold int64, wrap64, minInt64, maxInt64, two64. intros Hz.
  rewrite Z.mod_small; lia.
Qed.

Lemma wrap64_int64 z : int64 (wrap64 z).
Proof.
  unfold int64, wrap64, minInt64, maxInt64, two64.
  pose proof (Z.mod_pos_bound (z - -9223372036854775808) 18446744073709551616).
  lia.
Qed.

Lemma u64_id z : (0 ≤ z < two64)%Z → u64 z = z.
Proof. apply Z.mod_small. Qed.

#[export] Hint Resolve wrap64_id wrap64_int64 u64_id : agent.

(** ** Control flow of Go functions *)

(** What a call ends with: a value, or a run-time panic. *)
Inductive go (A : Type) : Type :=
  | Ret (a : A)
  | Panic (why : string).
Arguments Ret {A} a.
Arguments Panic {A} why.

#[export] Instance go_ret : MRet go := λ A a, Ret a.
#[export] Instance go_bind : MBind go := λ A B f m,
  match m with Ret a => f a | Panic w => Panic w end.
#[export] Instance go_fmap : FMap go := λ A B f m,
  match m with Ret a => Ret (f a) | Panic w => Panic w end.

(** Functions returning [(T, error)]. *)
Inductive result (E A : Type) : Type :=
  | Ok (a : A)
  | Err (e : E).
Arguments Ok {E A} a.
Arguments Err {E A} e.

#[export] Instance result_ret E : MRet (result E) := λ A a, Ok a.
#[export] Instance result_bind E : MBind (result E) := λ A B f m,
  match m with Ok a => f a | Err e => Err e end.

(** Functions returning just an [error]: [None] is the nil error. *)
Notation error E := (option E).

(** [if err := f(); err != nil { return err }; g()], when the callee may
    also panic. *)
Definition andThen {E} (f : go (error E)) (g : go (error E)) : go (error E) :=
  match f with
  | Ret None => g
  | Ret (Some e) => Ret (Some e)
  | Panic w => Panic w
  end.
Arguments andThen {E} f g : simpl never.
Notation "f ;;? g" := (andThen f g) (at level 100, right associativity).

Lemma andThen_nil {E} (f g : go (error E)) :
  andThen f g = Ret None ↔ f = Ret None ∧ g = Ret None.
Proof. unfold andThen. destruct f as [[e|]|w]; simpl; naive_solver. Qed.

(** Length of a Go string or slice, as Go's [len]. *)
Definition slen (s : string) : Z := Z.of_nat (String.length s).
Definition llen {A} (l : list A) : Z := Z.of_nat (length l).

(** ** Lists *)

Lemma filter_all {A} (P : A → Prop) `{∀ x, Decision (P x)} l : Forall P l → filter P l = l.
Proof. induction 1; [done|]. rewrite filter_cons_True by done. congruence. Qed.

Lemma filter_none {A} (P : A → Prop) `{∀ x, Decision (P x)} l :
  Forall (λ x, ¬ P x) l → filter P l = [].
Proof. induction 1; [done|]. by rewrite filter_cons_False by done. Qed.

(** ** Bisection *)

(** [sort.Search(n, f)] on the half-open range [i, j): the standard library's
    bisection, with the size of the range as fuel. *)
Fixpoint search_loop (fuel : nat) (f : nat → bool) (i j : nat) : nat :=
  match fuel with
  | O => i
  | S fuel =>
      if (i <? j)%nat then
        let h := ((i + j) / 2)%nat in
        if f h then search_loop fuel f i h else search_loop fuel f (S h) j
      else i
  end.

Definition search (n : nat) (f : nat → bool) : nat := search_loop n f 0 n.

Lemma search_loop_spec f n fuel i j :
  (∀ a b, (a ≤ b < n)%nat → f a = true → f b = true) →
  (i ≤ j ≤ n)%nat → (j - i ≤ fuel)%nat →
  (∀ k, (k < i)%nat → f k = false) → (∀ k, (j ≤ k < n)%nat → f k = true) →
  let r := search_loop fuel f i j in
  (r ≤ n)%nat ∧ (∀ k, (k < r)%nat → f k = false) ∧ (∀ k, (r ≤ k < n)%nat → f k = true).
Proof.
  intros Hmono. revert i j.
  induction fuel as [|fuel IH]; intros i j Hij Hf Hlo Hhi; cbn [search_loop]; cbv zeta.
  { assert (i = j) as -> by lia. split_and!; [lia|done|done]. }
  destruct (Nat.ltb_spec i j).
  - assert (Hh : (i ≤ (i + j) `div` 2 < j)%nat).
    { split; [apply Nat.div_le_lower_bound|apply Nat.div_lt_upper_bound]; lia. }
    destruct (f ((i + j) `div` 2)%nat) eqn:E.
    + apply IH; [lia|lia|done|]. intros k Hk. apply Hmono with ((i + j) `div` 2)%nat; [lia|done].
    + apply IH; [lia|lia| |done]. intros k Hk.
      destruct (f k) eqn:Ek; [|done].
      rewrite (Hmono k ((i + j) `div` 2)%nat) in E; [done|lia|done].
  - assert (i = j) as -> by lia. split_and!; [lia|done|done].
Qed.

Lemma search_spec f n :
  (∀ a b, (a ≤ b < n)%nat → f a = true → f b = true) →
  (search n f ≤ n)%nat ∧ (∀ k, (k < search n f)%nat → f k = false) ∧
  (∀ k, (search n f ≤ k < n)%nat → f k = true).
Proof. intros Hmono. apply (search_loop_spec f n); [done|lia|lia|lia|lia]. Qed.
