(* ===== verification/Strs.v ===== *)
(** * The part of Go's [strings] package the agent uses

    Go strings are byte strings; they are stdpp strings here, one [ascii] per
    byte.  Every function below is executable. *)
From stdpp Require Import sorting.
From S2P Require Import Prelude.

(** [strings.HasPrefix(s, p)]. *)
Fixpoint hasPrefix (p s : string) : bool :=
  match p, s with
  | EmptyString, _ => true
  | String a p, String b s => Ascii.eqb a b && hasPrefix p s
  | String _ _, EmptyString => false
  end.

(** [strings.Contains(s, sub)]. *)
Fixpoint contains (sub s : string) : bool :=
  hasPrefix sub s ||
  match s with
  | EmptyString => false
  | String _ s => contains sub s
  end.

(** [strings.Split(s, sep)] for a one-byte separator: never empty. *)
Fixpoint split (sep : ascii) (s : string) : list string :=
  match s with
  | EmptyString => [EmptyString]
  | String a s =>
      if Ascii.eqb a sep then EmptyString :: split sep s
      else match split sep s with
           | [] => [String a EmptyString]
           | x :: l => String a x :: l
           end
  end.

(** [strings.Join(l, sep)]. *)
Fixpoint join (sep : string) (l : list string) : string :=
  match l with
  | [] => EmptyString
  | [x] => x
  | x :: l => x +:+ sep +:+ join sep l
  end.

(** The bytes of a string. *)
Fixpoint chars (s : string) : list ascii :=
  match s with
  | EmptyString => []
  | String a s => a :: chars s
  end.

Fixpoint of_chars (l : list ascii) : string :=
  match l with
  | [] => EmptyString
  | a :: l => String a (of_chars l)
  end.

Definition code (a : ascii) : N := Ascii.N_of_ascii a.

(** [string_has a s]: byte [a] occurs in [s]. *)
Definition string_has (a : ascii) (s : string) : bool := existsb (Ascii.eqb a) (chars s).

Definition isLetter (a : ascii) : bool :=
  ((97 <=? code a)%N && (code a <=? 122)%N) || ((65 <=? code a)%N && (code a <=? 90)%N).
Definition isDigit (a : ascii) : bool := (48 <=? code a)%N && (code a <=? 57)%N.
Definition isDash (a : ascii) : bool := Ascii.eqb a "-"%char.

Lemma code_bound a : (code a < 256)%N.
Proof. apply Ascii.N_ascii_bounded. Qed.

Lemma chars_of_chars l : chars (of_chars l) = l.
Proof. induction l; simpl; congruence. Qed.
Lemma of_chars_chars s : of_chars (chars s) = s.
Proof. induction s; simpl; congruence. Qed.
Lemma chars_app s t : chars (s +:+ t) = chars s ++ chars t.
Proof. induction s as [|a s IH]; [done|]. simpl. by rewrite <-IH. Qed.
Lemma append_assoc s t u : (s +:+ t) +:+ u = s +:+ t +:+ u.
Proof. induction s as [|a s IH]; [done|]. exact (f_equal (String a) IH). Qed.
Lemma length_chars s : length (chars s) = String.length s.
Proof. induction s; simpl; congruence. Qed.
Lemma chars_inj s t : chars s = chars t → s = t.
Proof. intros H. by rewrite <-(of_chars_chars s), H, of_chars_chars. Qed.

Lemma ascii_eqb_neq a b : a ≠ b → Ascii.eqb a b = false.
Proof. intros H. destruct (Ascii.eqb_spec a b); congruence. Qed.

Lemma split_nonempty sep s : split sep s ≠ [].
Proof.
  induction s as [|a s IH]; simpl; [done|].
  destruct (Ascii.eqb a sep); [done|]. by destruct (split sep s).
Qed.

(** A piece without the separator, followed by it, is split off whole. *)
Lemma split_app sep x s :
  string_has sep x = false →
  split sep (x +:+ String sep s) = x :: split sep s.
Proof.
  induction x as [|a x IH]; intros Hx.
  - simpl. by rewrite Ascii.eqb_refl.
  - unfold string_has in Hx. simpl in Hx. apply orb_false_iff in Hx as [Ha Hx].
    change (String a x +:+ String sep s) with (String a (x +:+ String sep s)).
    simpl. rewrite Ascii.eqb_sym, Ha, (IH Hx). done.
Qed.

Lemma split_none sep x : string_has sep x = false → split sep x = [x].
Proof.
  induction x as [|a x IH]; intros Hx; [done|].
  unfold string_has in Hx. simpl in Hx. apply orb_false_iff in Hx as [Ha Hx].
  simpl. rewrite Ascii.eqb_sym, Ha, (IH Hx). done.
Qed.

(** [Split] undoes [Join] when no element contains the separator. *)
Lemma split_join sep l :
  l ≠ [] → Forall (λ x, string_has sep x = false) l →
  split sep (join (String sep EmptyString) l) = l.
Proof.
  induction l as [|x [|y l] IH]; intros Hne Hall; [done| |].
  - apply split_none. by inversion Hall.
  - apply Forall_cons in Hall as [Hx Hall].
    change (join (String sep EmptyString) (x :: y :: l))
      with (x +:+ String sep (join (String sep EmptyString) (y :: l))).
    rewrite split_app by done. f_equal. by apply IH.
Qed.

Lemma join_split sep s : join (String sep EmptyString) (split sep s) = s.
Proof.
  induction s as [|a s IH]; [done|]. simpl.
  destruct (Ascii.eqb_spec a sep) as [->|Ha].
  - destruct (split sep s) eqn:E; [by apply split_nonempty in E|].
    rewrite <-IH. done.
  - destruct (split sep s) as [|x [|y l]] eqn:E; [by apply split_nonempty in E|..];
      simpl in *; by rewrite <-IH.
Qed.

(** No element of [Split] contains the separator. *)
Lemma split_clean sep s : Forall (λ x, string_has sep x = false) (split sep s).
Proof.
  induction s as [|a s IH]; simpl; [by constructor|].
  destruct (Ascii.eqb a sep) eqn:Ha; [by constructor|].
  destruct (split sep s) as [|x l]; constructor.
  - unfold string_has. simpl. by rewrite Ascii.eqb_sym, Ha.
  - done.
  - apply Forall_cons in IH as [Hx _]. unfold string_has in *. simpl.
    by rewrite Ascii.eqb_sym, Ha, Hx.
  - by apply Forall_cons in IH as [_ Hl].
Qed.

Lemma hasPrefix_app p s : hasPrefix p (p +:+ s) = true.
Proof. induction p as [|a p IH]; simpl; [done|]. by rewrite Ascii.eqb_refl. Qed.

Lemma contains_app l sub r : contains sub (l +:+ sub +:+ r) = true.
Proof.
  induction l as [|a l IH].
  - destruct sub as [|b sub]; [by destruct r|].
    change (EmptyString +:+ String b sub +:+ r) with (String b (sub +:+ r)).
    simpl. by rewrite Ascii.eqb_refl, hasPrefix_app.
  - change (String a l +:+ sub +:+ r) with (String a (l +:+ sub +:+ r)).
    simpl. rewrite IH. apply orb_true_r.
Qed.

(** The agent's labels and settings only ever need decimal integers. *)
Definition itoa (z : Z) : string := pretty z.

#[export] Hint Rewrite chars_app chars_of_chars of_chars_chars length_chars : agent.

(** [strings.HasSuffix] and [strings.TrimSuffix]. *)
Definition hasSuffix (suf s : string) : bool :=
  (String.length suf <=? String.length s)%nat &&
  String.eqb (String.substring (String.length s - String.length suf) (String.length suf) s) suf.
Definition trimSuffix (suf s : string) : string :=
  if hasSuffix suf s then String.substring 0 (String.length s - String.length suf) s else s.

(** ** Order *)

(** [sort.Strings] orders by bytes. *)
Fixpoint bytesLe (a b : string) : bool :=
  match a, b with
  | EmptyString, _ => true
  | String _ _, EmptyString => false
  | String x a, String y b => (code x <? code y)%N || ((code x =? code y)%N && bytesLe a b)
  end.
#[global] Instance bytesLe_dec a b : Decision (bytesLe a b = true).
Proof. apply _. Defined.
Definition sortStrings (l : list string) : list string := merge_sort (λ a b, bytesLe a b = true) l.

Lemma bytesLe_refl a : bytesLe a a = true.
Proof. induction a as [|x a IH]; [done|]. simpl. by rewrite N.eqb_refl, IH, orb_true_r. Qed.

Lemma bytesLe_trans a b c : bytesLe a b = true → bytesLe b c = true → bytesLe a c = true.
Proof.
  revert b c. induction a as [|x a IH]; intros [|y b] [|z c]; try done. simpl.
  rewrite !orb_true_iff, !andb_true_iff, !N.ltb_lt, !N.eqb_eq. intros [?|[E1 ?]] [?|[E2 ?]]; [left; lia..|right].
  split; [congruence|]. by eapply IH.
Qed.

Lemma bytesLe_total a b : bytesLe a b = true ∨ bytesLe b a = true.
Proof.
  revert b. induction a as [|x a IH]; intros [|y b]; try by auto. simpl.
  rewrite !orb_true_iff, !andb_true_iff, !N.ltb_lt, !N.eqb_eq. destruct (N.lt_total (code x) (code y)) as [?|[E|?]]; [auto| |auto].
  destruct (IH b); auto.
Qed.

Lemma bytesLe_antisym a b : bytesLe a b = true → bytesLe b a = true → a = b.
Proof.
  revert b. induction a as [|x a IH]; intros [|y b]; try done. simpl.
  rewrite !orb_true_iff, !andb_true_iff, !N.ltb_lt, !N.eqb_eq. intros [?|[E ?]] [?|[E2 ?]]; try lia.
  f_equal; [|by apply IH]. unfold code in E. rewrite <-(ascii_N_embedding x), <-(ascii_N_embedding y). by f_equal.
Qed.

Lemma sortStrings_elem l n : n ∈ sortStrings l ↔ n ∈ l.
Proof. unfold sortStrings. by rewrite merge_sort_Permutation. Qed.

Lemma substring_all s : String.substring 0 (String.length s) s = s.
Proof. induction s as [|a s IH]; simpl; congruence. Qed.

Lemma string_has_app a s t : string_has a (s +:+ t) = string_has a s || string_has a t.
Proof. unfold string_has. by rewrite chars_app, existsb_app. Qed.
