(* ===== verification/Hash.v ===== *)
(** * FNV hashes

    Go's [hash/fnv], which the agent uses for the route of a traceroute, the address
    of a DNS server and the identifier of usage reports. *)
From S2P Require Import Prelude Strs.

Open Scope Z_scope.

Definition byteOf (a : ascii) : Z := Z.of_N (code a).

(** One byte: FNV-1 multiplies first, FNV-1a last. *)
Definition fnv1 (prime size : Z) (h : Z) (b : Z) : Z := Z.lxor ((h * prime) `mod` size) b.
Definition fnv1a (prime size : Z) (h : Z) (b : Z) : Z := (Z.lxor h b * prime) `mod` size.

Definition two32 : Z := 4294967296.
Definition offset32 : Z := 2166136261.
Definition prime32 : Z := 16777619.
Definition offset64 : Z := 14695981039346656037.
Definition prime64 : Z := 1099511628211.

Definition New32 (l : list Z) : Z := fold_left (fnv1 prime32 two32) l offset32.
Definition New32a (l : list Z) : Z := fold_left (fnv1a prime32 two32) l offset32.
Definition New64a (l : list Z) : Z := fold_left (fnv1a prime64 two64) l offset64.

Definition isByte (b : Z) : Prop := 0 ≤ b < 256.

Lemma byteOf_isByte a : isByte (byteOf a).
Proof.
  unfold isByte, byteOf, code. pose proof (N_ascii_bounded a). lia.
Qed.

Lemma lxor_bound k h b : 8 ≤ k → 0 ≤ h < 2 ^ k → isByte b → 0 ≤ Z.lxor h b < 2 ^ k.
Proof.
  intros Hk Hh [Hb0 Hb]. split; [apply Z.lxor_nonneg; lia|].
  destruct (decide (Z.lxor h b = 0)) as [->|Hne]; [lia|].
  apply Z.log2_lt_pow2; [pose proof (proj2 (Z.lxor_nonneg h b)); lia|].
  eapply Z.le_lt_trans; [apply Z.log2_lxor; lia|]. apply Z.max_lub_lt.
  - destruct (decide (h = 0)) as [->|]; [simpl; lia|]. apply Z.log2_lt_pow2; lia.
  - destruct (decide (b = 0)) as [->|]; [simpl; lia|].
    assert (2 ^ 8 ≤ 2 ^ k) by (apply Z.pow_le_mono_r; lia). apply Z.log2_lt_pow2; lia.
Qed.

(** The hashes are words of their size. *)
Lemma New32_bound l : Forall isByte l → 0 ≤ New32 l < two32.
Proof.
  unfold New32. assert (H0 : 0 ≤ offset32 < 2 ^ 32) by (unfold offset32; lia). revert H0.
  generalize offset32. intros h Hh Hl. change two32 with (2 ^ 32) at 2. revert h Hh.
  induction Hl as [|b l Hb _ IH]; intros h Hh; [done|]. apply IH. unfold fnv1.
  apply lxor_bound; [lia| |done]. change two32 with (2 ^ 32). apply Z.mod_pos_bound. lia.
Qed.

Lemma New64a_bound l : 0 ≤ New64a l < two64.
Proof.
  unfold New64a. destruct l as [|b l] using rev_ind; [by vm_compute|].
  rewrite fold_left_app. simpl. unfold fnv1a. apply Z.mod_pos_bound. done.
Qed.

Lemma New32a_bound l : 0 ≤ New32a l < two32.
Proof.
  unfold New32a. destruct l as [|b l] using rev_ind; [by vm_compute|].
  rewrite fold_left_app. simpl. unfold fnv1a. apply Z.mod_pos_bound. done.
Qed.

(** Hashes of "foobar". *)
Example fnv_vectors :
  New32 (map byteOf (chars "foobar")) = 837857890 ∧
  New32a (map byteOf (chars "foobar")) = 3214735720 ∧
  New64a (map byteOf (chars "foobar")) = 9625390261332436968.
Proof. by vm_compute. Qed.
