(* ===== verification/Ids.v ===== *)
(** * Global and local identifiers

    [pkg/pb/synthetic_monitoring/ids.go] and [internal/model/model.go]. *)
From S2P Require Import Prelude Strs.

Open Scope Z_scope.

Definition MaxRegions : Z := 1000.
Definition MinRegionID : Z := 1.
Definition MaxRegionID : Z := MaxRegions - 1.
Definition BadID : Z := 0.
Definition MinLocalID : Z := 1.
Definition MaxLocalID : Z := Z.quot maxInt64 MaxRegions - 1.
Definition MaxGlobalID : Z := - (MinLocalID * MaxRegions + MinRegionID).
Definition MinGlobalID : Z := - (MaxLocalID * MaxRegions + MaxRegionID).

Inductive idError :=
  | BadRegionIDError (n : Z)
  | BadLocalIDError (n : Z)
  | BadGlobalIDError (n : Z).

Definition idError_ID (e : idError) : Z :=
  match e with BadRegionIDError n | BadLocalIDError n | BadGlobalIDError n => n end.
Definition idError_Error (e : idError) : string :=
  match e with
  | BadRegionIDError _ => "bad region ID: "
  | BadLocalIDError _ => "bad local ID: "
  | BadGlobalIDError _ => "bad global ID: "
  end +:+ itoa (idError_ID e).

Definition IsGlobalIDValid (id : Z) : bool :=
  (MinGlobalID <=? id) && (id <=? MaxGlobalID).

Definition IsRegionIDValid (id : Z) : bool :=
  (MinRegionID <=? id) && (id <=? MaxRegionID).

Definition IsLocalIDValid (id : Z) : bool :=
  (MinLocalID <=? id) && (id <=? MaxLocalID).

Definition LocalIDToGlobalID (localID regionID : Z) : result idError Z :=
  if negb (IsLocalIDValid localID) then Err (BadLocalIDError localID)
  else if negb (IsRegionIDValid regionID) then Err (BadRegionIDError regionID)
  else Ok (wrap64 (- wrap64 (wrap64 (localID * MaxRegions) + regionID))).

Definition GlobalIDToLocalID (globalID : Z) : result idError (Z * Z) :=
  if negb (IsGlobalIDValid globalID) then Err (BadGlobalIDError globalID)
  else
    let localID := Z.quot (wrap64 (- globalID)) MaxRegions in
    let regionID := Z.rem (wrap64 (- globalID)) MaxRegions in
    if negb (IsRegionIDValid regionID) then Err (BadGlobalIDError globalID)
    else Ok (localID, regionID).

Definition GetLocalAndRegionIDs (id : Z) : Z * Z :=
  match GlobalIDToLocalID id with
  | Err _ => (id, 0)
  | Ok p => p
  end.

(** [GlobalID] and [GlobalTenantID] of [internal/model.Check] apply the same
    fallback to the id and to the tenant id. *)
Definition globalOrLocal (id regionId : Z) : Z :=
  match LocalIDToGlobalID id regionId with
  | Err _ => id
  | Ok g => g
  end.

Lemma IsLocalIDValid_spec l :
  IsLocalIDValid l = true ↔ 1 ≤ l ≤ 9223372036854774.
Proof.
  unfold IsLocalIDValid. change MaxLocalID with 9223372036854774.
  change MinLocalID with 1. lia.
Qed.

Lemma IsRegionIDValid_spec r : IsRegionIDValid r = true ↔ 1 ≤ r ≤ 999.
Proof.
  unfold IsRegionIDValid. change MaxRegionID with 999. change MinRegionID with 1.
  lia.
Qed.

Lemma IsGlobalIDValid_spec g :
  IsGlobalIDValid g = true ↔ -9223372036854774999 ≤ g ≤ -1001.
Proof.
  unfold IsGlobalIDValid. change MinGlobalID with (-9223372036854774999).
  change MaxGlobalID with (-1001). lia.
Qed.

Ltac reflect_ids :=
  rewrite ?IsLocalIDValid_spec, ?IsRegionIDValid_spec, ?IsGlobalIDValid_spec in *.

Lemma LocalIDToGlobalID_eq l r :
  IsLocalIDValid l = true → IsRegionIDValid r = true →
  LocalIDToGlobalID l r = Ok (- (l * 1000 + r)).
Proof.
  intros Hl Hr. unfold LocalIDToGlobalID. rewrite Hl, Hr. simpl.
  reflect_ids. change MaxRegions with 1000. f_equal.
  rewrite (wrap64_id (l * 1000)), (wrap64_id (l * 1000 + r)), wrap64_id;
    unfold int64, minInt64, maxInt64; lia.
Qed.

Lemma GlobalIDToLocalID_eq l r :
  IsLocalIDValid l = true → IsRegionIDValid r = true →
  GlobalIDToLocalID (- (l * 1000 + r)) = Ok (l, r).
Proof.
  intros Hl Hr. unfold GlobalIDToLocalID.
  assert (IsGlobalIDValid (- (l * 1000 + r)) = true) as -> by (reflect_ids; lia).
  simpl. change MaxRegions with 1000.
  assert (wrap64 (- - (l * 1000 + r)) = l * 1000 + r) as ->.
  { rewrite Z.opp_involutive. reflect_ids. apply wrap64_id.
    unfold int64, minInt64, maxInt64; lia. }
  assert (Z.quot (l * 1000 + r) 1000 = l) as ->.
  { reflect_ids. symmetry. apply Z.quot_unique with r; lia. }
  assert (Z.rem (l * 1000 + r) 1000 = r) as ->.
  { reflect_ids. symmetry. apply Z.rem_unique with l; lia. }
  by rewrite Hr.
Qed.

(** Converting a valid local and region id to a global id and back gives
    the same pair, and the global id is a negative 64-bit integer in the
    documented global range, so it never collides with a local id. *)
Theorem local_global_roundtrip l r :
  IsLocalIDValid l = true → IsRegionIDValid r = true →
  ∃ g, LocalIDToGlobalID l r = Ok g ∧ GlobalIDToLocalID g = Ok (l, r) ∧
       IsGlobalIDValid g = true ∧ IsLocalIDValid g = false ∧ int64 g.
Proof.
  intros Hl Hr. exists (- (l * 1000 + r)).
  rewrite LocalIDToGlobalID_eq, GlobalIDToLocalID_eq by done.
  unfold int64, minInt64, maxInt64.
  rewrite <- not_true_iff_false. reflect_ids. split_and!; try done; lia.
Qed.

Lemma local_global_roundtrip_witness :
  ∃ g, LocalIDToGlobalID 1234 3 = Ok g ∧ GlobalIDToLocalID g = Ok (1234, 3) ∧
       IsGlobalIDValid g = true ∧ IsLocalIDValid g = false ∧ int64 g.
Proof. apply (local_global_roundtrip 1234 3); reflexivity. Defined.
