(* ===== verification/PushErrors.v ===== *)
(** * Errors of the remote-write client and their classification

    [internal/pkg/prom/prom.go] (the error types, [GetHttpStatusCode] and
    [StoreStream]) and [internal/pusher/v2/errors.go] ([errKind],
    [httpCodeMappings], [parsePublishError]).

    Go errors are trees of wrapped values; [goerr] has one constructor per
    error type that can reach [parsePublishError].  Whether a wrapper has an
    [Unwrap] method matters: [recoverableError] embeds the [error] interface,
    so it only has [Error]. *)
From S2P Require Import Prelude Strs.

Open Scope Z_scope.

Inductive goerr :=
  | ErrText (text : string)                 (** [errors.New], [errors.Errorf] *)
  | ErrCanceled                             (** [context.Canceled] *)
  | ErrDeadlineExceeded                     (** [context.DeadlineExceeded] *)
  | ErrWrap (prefix : string) (inner : goerr)
      (** [*url.Error] and [fmt.Errorf] with [%w]; [prefix] is the text before the colon *)
  | HttpError (StatusCode : Z) (Status : string) (Err : goerr)
  | recoverableError (cause : goerr).

#[export] Instance goerr_eq_dec : EqDecision goerr.
Proof. solve_decision. Defined.

(** [errors.Unwrap]: the [Unwrap] method, when the dynamic type has one. *)
Definition Unwrap (e : goerr) : option goerr :=
  match e with
  | ErrWrap _ inner => Some inner
  | HttpError _ _ inner => Some inner
  | ErrText _ | ErrCanceled | ErrDeadlineExceeded | recoverableError _ => None
  end.

Fixpoint Error (e : goerr) : string :=
  match e with
  | ErrText t => t
  | ErrCanceled => "context canceled"
  | ErrDeadlineExceeded => "context deadline exceeded"
  | ErrWrap prefix inner => prefix +:+ ": " +:+ Error inner
  | HttpError _ _ inner => Error inner
  | recoverableError cause => Error cause
  end.

(** [errors.Is(err, target)]: walk the [Unwrap] chain. *)
Fixpoint errorsIs (target e : goerr) : bool :=
  bool_decide (e = target) ||
  match e with
  | ErrWrap _ inner => errorsIs target inner
  | HttpError _ _ inner => errorsIs target inner
  | _ => false
  end.

(** [prom.GetHttpStatusCode]: the first [*HttpError] of the chain. *)
Fixpoint GetHttpStatusCode (e : goerr) : option Z :=
  match e with
  | HttpError code _ _ => Some code
  | ErrWrap _ inner => GetHttpStatusCode inner
  | ErrText _ | ErrCanceled | ErrDeadlineExceeded | recoverableError _ => None
  end.

Lemma GetHttpStatusCode_unfold e :
  GetHttpStatusCode e =
  match e with
  | HttpError code _ _ => Some code
  | _ => Unwrap e ≫= GetHttpStatusCode
  end.
Proof. by destruct e. Qed.

(** What the HTTP exchange of [StoreStream] can end with: [http.NewRequest]
    fails, [client.Do] fails, or a response arrives; [line] is the first line
    of its body, as read by the scanner. *)
Inductive httpOutcome :=
  | NewRequestFails (e : goerr)
  | DoFails (e : goerr)
  | Response (StatusCode : Z) (Status line : string).

Definition StoreStream (o : httpOutcome) : error goerr :=
  match o with
  | NewRequestFails e => Some e
  | DoFails e => Some (recoverableError e)
  | Response code status line =>
      let err :=
        if negb (Z.quot code 100 =? 2) then
          Some (HttpError code status
                  (ErrText ("server returned HTTP status " +:+ status +:+ ": " +:+ line)))
        else None in
      if Z.quot code 100 =? 5 then
        match err with
        | Some e => Some (recoverableError e)
        | None => None
        end
      else err
  end.

(** ** [errKind] *)

Inductive errKind :=
  | errKindNoError
  | errKindNetwork
  | errKindPayload
  | errKindWait
  | errKindTenant
  | errKindFatal
  | errKindTerminated
  | errKindLimit.

#[export] Instance errKind_eq_dec : EqDecision errKind.
Proof. solve_decision. Defined.

Record pushError := { kind : errKind; inner : error goerr }.

Definition IsRetriable (e : pushError) : bool := bool_decide (kind e = errKindNetwork).

Record alternativeMapping := { substr : string; alt_kind : errKind }.
Record codeMapping := { map_kind : errKind; alternatives : list alternativeMapping }.

Definition plain (k : errKind) : codeMapping := {| map_kind := k; alternatives := [] |}.

Definition httpCodeMappings : gmap Z codeMapping := list_to_map [
  (1, plain errKindNetwork);
  (2, plain errKindNoError);
  (3, plain errKindFatal);
  (4, plain errKindPayload);
  (5, plain errKindNetwork);
  (500, {| map_kind := errKindNetwork; alternatives := [
     {| substr := "looks like there is an issue with this instance";
        alt_kind := errKindTenant |} ] |});
  (400, {| map_kind := errKindPayload; alternatives := [
     {| substr := "err-mimir-max-series-per-user"; alt_kind := errKindFatal |} ] |});
  (429, {| map_kind := errKindWait; alternatives := [
     {| substr := "limit: 0 "; alt_kind := errKindFatal |};
     {| substr := "Maximum active stream limit exceeded"; alt_kind := errKindLimit |} ] |});
  (401, plain errKindTenant);
  (403, plain errKindFatal);
  (404, plain errKindFatal);
  (405, plain errKindFatal);
  (408, plain errKindNetwork) ].

(** [for _, alt := range mapping.alternatives]: the first one that matches. *)
Fixpoint pickAlternative (errText : string) (alts : list alternativeMapping) (base : errKind)
    : errKind :=
  match alts with
  | [] => base
  | alt :: alts =>
      if contains (substr alt) errText then alt_kind alt
      else pickAlternative errText alts base
  end.

Definition StatusOK : Z := 200.
Definition noHTTPCode : Z := 0.

Definition parsePublishError (err : error goerr) : Z * pushError :=
  match err with
  | None => (StatusOK, {| kind := errKindNoError; inner := None |})
  | Some e =>
      if errorsIs ErrCanceled e then
        (noHTTPCode, {| kind := errKindTerminated; inner := Some ErrCanceled |})
      else if errorsIs ErrDeadlineExceeded e then
        (noHTTPCode, {| kind := errKindNetwork; inner := Some e |})
      else
        match GetHttpStatusCode e with
        | None => (noHTTPCode, {| kind := errKindNetwork; inner := Some e |})
        | Some code =>
            let mapping :=
              match httpCodeMappings !! code with
              | Some m => Some m
              | None => httpCodeMappings !! (Z.quot code 100)
              end in
            match mapping with
            | None => (code, {| kind := errKindFatal; inner := Some e |})
            | Some m =>
                (code, {| kind := pickAlternative (Error e) (alternatives m) (map_kind m);
                          inner := Some e |})
            end
        end
  end.

(** ** Properties *)

(** The kind a remote's answer leads to: [parsePublishError] of the error
    [StoreStream] returns for it. *)
Definition classify (o : httpOutcome) : errKind := kind (parsePublishError (StoreStream o)).2.

(** A classification table for responses, independent of the lookup order of
    [parsePublishError] and of the error chain: what the queue will do with a
    response of status [code] whose error text is [text]. *)
Definition responseKind (code : Z) (text : string) : errKind :=
  let class := Z.quot code 100 in
  if class =? 2 then errKindNoError
  else if class =? 5 then errKindNetwork
  else if class =? 1 then errKindNetwork
  else if class =? 3 then errKindFatal
  else if class =? 4 then
    if code =? 400 then
      if contains "err-mimir-max-series-per-user" text then errKindFatal else errKindPayload
    else if code =? 401 then errKindTenant
    else if (code =? 403) || (code =? 404) || (code =? 405) then errKindFatal
    else if code =? 408 then errKindNetwork
    else if code =? 429 then
      if contains "limit: 0 " text then errKindFatal
      else if contains "Maximum active stream limit exceeded" text then errKindLimit
      else errKindWait
    else errKindPayload
  else errKindFatal.

Definition responseText (status line : string) : string :=
  "server returned HTTP status " +:+ status +:+ ": " +:+ line.

Lemma mapping_other code :
  100 ≤ code < 600 → code ∉ [500; 400; 429; 401; 403; 404; 405; 408] →
  httpCodeMappings !! code = None.
Proof.
  intros Hr Hn. apply not_elem_of_list_to_map_1. simpl. set_solver by lia.
Qed.

Lemma class_range code c :
  0 < c → Z.quot code 100 = c → c * 100 ≤ code < (c + 1) * 100.
Proof. intros Hc <-. Z.to_euclidean_division_equations. lia. Qed.

Lemma class_of code c : 0 < c → c * 100 ≤ code < (c + 1) * 100 → Z.quot code 100 = c.
Proof. intros Hc Hr. symmetry. apply Z.quot_unique with (code - c * 100); lia. Qed.

Lemma errorsIs_http target code status t :
  errorsIs target (HttpError code status (ErrText t)) = false ↔
  target ≠ HttpError code status (ErrText t) ∧ target ≠ ErrText t.
Proof.
  simpl. rewrite orb_false_r, orb_false_iff, !bool_decide_eq_false. naive_solver.
Qed.

Lemma classify_non5xx code status line :
  Z.quot code 100 ≠ 2 → Z.quot code 100 ≠ 5 →
  classify (Response code status line) =
  match (match httpCodeMappings !! code with
         | Some m => Some m
         | None => httpCodeMappings !! (Z.quot code 100) end) with
  | None => errKindFatal
  | Some m => pickAlternative (responseText status line) (alternatives m) (map_kind m)
  end.
Proof.
  intros H2 H5. unfold classify, StoreStream.
  apply Z.eqb_neq in H2, H5. cbv zeta. rewrite H2, H5. cbn [negb].
  unfold parsePublishError.
  rewrite !(proj2 (errorsIs_http _ _ _ _)) by (split; discriminate).
  cbn [GetHttpStatusCode Error].
  by destruct (httpCodeMappings !! code); [|destruct (httpCodeMappings !! (Z.quot code 100))].
Qed.

(** C29: what the publisher does with a response depends on its status exactly
    as [responseKind] says: 2xx is success, 1xx, 408 and every 5xx are retried,
    401 refreshes the tenant, 429 waits unless the body says the limit is 0 or
    that too many streams are active, 400 drops the payload unless the tenant
    is over its series limit, 3xx, 403, 404 and 405 stop the tenant, any other
    4xx drops the payload, and 6xx to 9xx are fatal ([net/http] accepts any three
    digit status). *)
Theorem classify_response code status line :
  100 ≤ code ≤ 999 →
  classify (Response code status line) = responseKind code (responseText status line).
Proof.
  intros Hlo. unfold responseKind.
  destruct (Z.eqb_spec (Z.quot code 100) 2) as [E2|E2].
  { unfold classify, StoreStream. by rewrite E2. }
  destruct (Z.eqb_spec (Z.quot code 100) 5) as [E5|E5].
  { unfold classify, StoreStream. by rewrite E5. }
  rewrite classify_non5xx by done.
  destruct (decide (code ∈ [400; 429; 401; 403; 404; 405; 408])) as [Hin|Hnin].
  { repeat (apply elem_of_cons in Hin as [->|Hin]; [reflexivity|]).
    by apply elem_of_nil in Hin. }
  assert (httpCodeMappings !! code = None) as ->.
  { destruct (decide (code < 600)).
    - apply mapping_other; [lia|]. rewrite elem_of_cons. intros [->|?]; [|done].
      by apply E5.
    - apply not_elem_of_list_to_map_1. simpl.
      repeat (apply not_elem_of_cons; split; [lia|]). apply not_elem_of_nil. }
  repeat (rewrite not_elem_of_cons in Hnin).
  destruct Hnin as (?&?&?&?&?&?&?&_).
  destruct (Z.eqb_spec (Z.quot code 100) 1) as [->|E1]; [reflexivity|].
  destruct (Z.eqb_spec (Z.quot code 100) 3) as [->|E3]; [reflexivity|].
  destruct (Z.eqb_spec (Z.quot code 100) 4) as [->|E4].
  { repeat (rewrite (proj2 (Z.eqb_neq code _)) by done). reflexivity. }
  assert (5 < Z.quot code 100 < 10) as Hclass.
  { Z.to_euclidean_division_equations. lia. }
  assert (httpCodeMappings !! Z.quot code 100 = None) as ->; [|done].
  apply not_elem_of_list_to_map_1. simpl.
  repeat (apply not_elem_of_cons; split; [lia|]). apply not_elem_of_nil.
Qed.

Lemma classify_response_witness :
  classify (Response 429 "429 Too Many Requests" "user 1 (limit: 0 bytes/sec)") =
  responseKind 429
    (responseText "429 Too Many Requests" "user 1 (limit: 0 bytes/sec)").
Proof. apply (classify_response 429); lia. Defined.

(** A response in the 5xx range is always retried, and it is counted
    without a status: [recoverableError] has no [Unwrap] method, so
    [GetHttpStatusCode] does not see the [HttpError] inside it.  The alternative
    registered for status 500, which should refresh the tenant, never applies
    to what [StoreStream] returns, whatever the body says. *)
Theorem server_errors_lose_status code status line :
  500 ≤ code < 600 →
  ∃ e, StoreStream (Response code status line) = Some e ∧
       parsePublishError (Some e) =
         (noHTTPCode, {| kind := errKindNetwork; inner := Some e |}).
Proof.
  intros Hr. assert (Z.quot code 100 = 5) as E by (by apply class_of).
  unfold StoreStream. cbv zeta. rewrite E. by eexists.
Qed.

Lemma server_errors_lose_status_witness :
  ∃ e, StoreStream (Response 500 "500 Internal Server Error"
         "looks like there is an issue with this instance") = Some e ∧
       parsePublishError (Some e) =
         (noHTTPCode, {| kind := errKindNetwork; inner := Some e |}).
Proof. apply server_errors_lose_status; lia. Defined.

(** A failed exchange is always retried, even when the context was cancelled:
    [client.Do]'s error is wrapped in a [recoverableError] as well. *)
Lemma do_fails_retriable e :
  IsRetriable (parsePublishError (StoreStream (DoFails e))).2 = true.
Proof. done. Qed.
