(* ===== verification/Queue.v ===== *)
(** * The publisher's bounded queue and its push loop

    [internal/pusher/v2/queue.go], [condition.go] and the helpers of
    [options.go] ([retriesCounter], [backoffer], [bufferPool]).

    A queue is shared by the scrapers that insert and the goroutine that runs
    [push]; both take [dataMutex], so each locked section is one step.  [time]
    is an explicit argument: instants and durations are nanoseconds. *)
From S2P Require Import Prelude Strs PushErrors.
From Stdlib Require Import Strings.Byte.
From stdpp Require Import sorting.

Open Scope Z_scope.

(** ** Options, counters and buffers *)

(** The fields of [pusherOptions] the queue reads. *)
Record pusherOptions := {
  maxPushBytes : Z;       (** uint64 *)
  maxQueuedBytes : Z;     (** uint64 *)
  maxQueuedTime : Z;      (** time.Duration *)
  maxRetries : Z;
  minBackoff : Z;
  maxBackoff : Z;
}.

Definition defaultPusherOptions : pusherOptions := {|
  maxPushBytes := 64 * 1024;
  maxQueuedBytes := 1024 * 1024;
  maxQueuedTime := 3600 * 10^9;
  maxRetries := 50;
  minBackoff := 50 * 10^6;
  maxBackoff := 30 * 10^9;
|}.

(** A [*[]byte]: the storage it points to, and its content. *)
Record buffer := { storage : nat; content : list byte }.

Record queueEntry := { data : buffer; ts : Z }.

Definition esize (e : queueEntry) : Z := llen (content (data e)).
Definition total (l : list queueEntry) : Z := foldr (λ e n, esize e + n) 0 l.

(** The counters of [pusher.Metrics] for one tenant and type; the ones with a
    [status] or [reason] label are maps from its value. *)
Record Metrics := {
  PushCounter : Z;
  BytesOut : Z;
  DroppedCounter : Z;
  RetriesCounter : Z;
  ErrorCounter : gmap string Z;
  FailedCounter : gmap string Z;
  ResponseCounter : gmap string Z;
}.

Definition add_push n m := {| PushCounter := PushCounter m + n; BytesOut := BytesOut m;
  DroppedCounter := DroppedCounter m; RetriesCounter := RetriesCounter m;
  ErrorCounter := ErrorCounter m; FailedCounter := FailedCounter m;
  ResponseCounter := ResponseCounter m |}.
Definition add_bytes n m := {| PushCounter := PushCounter m; BytesOut := BytesOut m + n;
  DroppedCounter := DroppedCounter m; RetriesCounter := RetriesCounter m;
  ErrorCounter := ErrorCounter m; FailedCounter := FailedCounter m;
  ResponseCounter := ResponseCounter m |}.
Definition add_dropped n m := {| PushCounter := PushCounter m; BytesOut := BytesOut m;
  DroppedCounter := DroppedCounter m + n; RetriesCounter := RetriesCounter m;
  ErrorCounter := ErrorCounter m; FailedCounter := FailedCounter m;
  ResponseCounter := ResponseCounter m |}.
Definition add_retries n m := {| PushCounter := PushCounter m; BytesOut := BytesOut m;
  DroppedCounter := DroppedCounter m; RetriesCounter := RetriesCounter m + n;
  ErrorCounter := ErrorCounter m; FailedCounter := FailedCounter m;
  ResponseCounter := ResponseCounter m |}.
Definition bump (k : string) (n : Z) (c : gmap string Z) : gmap string Z :=
  <[k := default 0 (c !! k) + n]> c.
Definition add_error k n m := {| PushCounter := PushCounter m; BytesOut := BytesOut m;
  DroppedCounter := DroppedCounter m; RetriesCounter := RetriesCounter m;
  ErrorCounter := bump k n (ErrorCounter m); FailedCounter := FailedCounter m;
  ResponseCounter := ResponseCounter m |}.
Definition add_failed k n m := {| PushCounter := PushCounter m; BytesOut := BytesOut m;
  DroppedCounter := DroppedCounter m; RetriesCounter := RetriesCounter m;
  ErrorCounter := ErrorCounter m; FailedCounter := bump k n (FailedCounter m);
  ResponseCounter := ResponseCounter m |}.
Definition add_response k n m := {| PushCounter := PushCounter m; BytesOut := BytesOut m;
  DroppedCounter := DroppedCounter m; RetriesCounter := RetriesCounter m;
  ErrorCounter := ErrorCounter m; FailedCounter := FailedCounter m;
  ResponseCounter := bump k n (ResponseCounter m) |}.

Definition zeroMetrics : Metrics := {| PushCounter := 0; BytesOut := 0; DroppedCounter := 0;
  RetriesCounter := 0; ErrorCounter := ∅; FailedCounter := ∅; ResponseCounter := ∅ |}.

Definition LabelValueClient : string := "client".
Definition LabelValueRetryExhausted : string := "retry_exhausted".

(** The queue with what its operations share: [entries] is the [data] slice,
    [pending] the one-slot condition channel, [pool] the storages currently in
    the buffer pool. *)
Record queue := {
  entries : list queueEntry;
  pending : bool;
  pool : list nat;
  metrics : Metrics;
}.

Definition upd_metrics (f : Metrics → Metrics) (q : queue) : queue :=
  {| entries := entries q; pending := pending q; pool := pool q; metrics := f (metrics q) |}.
Definition set_entries (l : list queueEntry) (q : queue) : queue :=
  {| entries := l; pending := pending q; pool := pool q; metrics := metrics q |}.

(** [condition.Signal]: a non-blocking send on a channel of capacity one. *)
Definition Signal (q : queue) : queue :=
  {| entries := entries q; pending := true; pool := pool q; metrics := metrics q |}.

(** Receiving from [condition.C()]. *)
Definition consume (q : queue) : queue :=
  {| entries := entries q; pending := false; pool := pool q; metrics := metrics q |}.

(** [bufferPool.put]. *)
Definition put (b : buffer) (q : queue) : queue :=
  {| entries := entries q; pending := pending q; pool := storage b :: pool q;
     metrics := metrics q |}.

(** [bufferPool.returnAll]: the size of the records, and the pool with their
    buffers in it. *)
Fixpoint returnAll (records : list queueEntry) (q : queue) : Z * queue :=
  match records with
  | [] => (0, q)
  | rec :: records =>
      let '(size, q) := returnAll records (put (data rec) q) in
      (u64 (esize rec + size), q)
  end.

(** ** Retry counter and back-off *)

Record retriesCounter := { r_left : Z; r_max : Z }.

Definition newRetriesCounter (o : pusherOptions) : retriesCounter :=
  {| r_left := maxRetries o; r_max := maxRetries o |}.

Definition retry (c : retriesCounter) : bool * retriesCounter :=
  if r_left c <=? 0 then (false, c)
  else (true, {| r_left := r_left c - 1; r_max := r_max c |}).

Definition reset_retries (c : retriesCounter) : retriesCounter :=
  {| r_left := r_max c; r_max := r_max c |}.

Record backoffer := { b_last : Z; b_min : Z; b_max : Z }.

Definition newBackoffer (o : pusherOptions) : backoffer :=
  {| b_last := 0; b_min := minBackoff o; b_max := maxBackoff o |}.

(** [backoffer.wait] up to the call of [sleepCtx]: the new state holds the
    duration to sleep in [b_last]. *)
Definition wait (b : backoffer) : backoffer :=
  {| b_last := if b_last b <? b_min b then b_min b
               else Z.min (wrap64 (2 * b_last b)) (b_max b);
     b_min := b_min b; b_max := b_max b |}.

Definition reset_backoff (b : backoffer) : backoffer :=
  {| b_last := 0; b_min := b_min b; b_max := b_max b |}.

(** ** Limits *)

(** The loop of [limitBytes]: [i] entries are left to look at, the last one is
    [q.data[i-1]]; the result is the number of entries to remove. *)
Fixpoint limitBytes_loop (max : Z) (l : list queueEntry) (i : nat) (numBytes : Z) : nat :=
  match i with
  | O => 0%nat
  | S i' =>
      match l !! i' with
      | None => 0%nat (* not reached: i' < len l *)
      | Some e =>
          let numBytes := u64 (numBytes + esize e) in
          if max <? numBytes then i else limitBytes_loop max l i' numBytes
      end
  end.

Definition limitBytes (max : Z) (q : queue) : nat * queue :=
  if max <=? 0 then (0%nat, q)
  else
    match limitBytes_loop max (entries q) (length (entries q)) 0 with
    | O => (0%nat, q)
    | k =>
        let '(_, q') := returnAll (take k (entries q)) q in
        (k, set_entries (drop k (entries q)) q')
    end.

(** [q.data[i].ts.Before(limit)], negated, as passed to [sort.Search]. *)
Definition notBefore (limit : Z) (l : list queueEntry) (i : nat) : bool :=
  match l !! i with
  | Some e => negb (ts e <? limit)
  | None => true
  end.

Definition limitAge (now maxAge : Z) (q : queue) : nat * queue :=
  match entries q with
  | [] => (0%nat, q)
  | e :: _ =>
      if maxAge <=? 0 then (0%nat, q)
      else
        let limit := now - maxAge in
        if negb (ts e <? limit) then (0%nat, q)
        else
          let n := length (entries q) in
          let idx := search n (notBefore limit (entries q)) in
          let q' :=
            if (idx <? n)%nat then
              let '(_, q') := returnAll (take idx (entries q)) q in
              set_entries (drop idx (entries q)) q'
            else q in
          ((n - idx)%nat, q')
  end.

Definition applyLimits (o : pusherOptions) (now : Z) (q : queue) : queue :=
  let '(n1, q1) := limitBytes (maxQueuedBytes o) q in
  let '(n2, q2) := limitAge now (maxQueuedTime o) q1 in
  let numDropped := (n1 + n2)%nat in
  if (0 <? numDropped)%nat then upd_metrics (add_dropped (Z.of_nat numDropped)) q2 else q2.

(** ** Operations *)

(** [insert]: [t] is the entry's timestamp, [now] the instant at which
    [limitAge] reads the clock. *)
Definition insert (o : pusherOptions) (b : buffer) (t now : Z) (q : queue) : queue :=
  Signal (applyLimits o now (set_entries (entries q ++ [{| data := b; ts := t |}]) q)).

Definition requeue (o : pusherOptions) (records : list queueEntry) (now : Z) (q : queue) : queue :=
  match records with
  | [] => q
  | _ => Signal (applyLimits o now (set_entries (records ++ entries q) q))
  end.

(** How many of the entries after the first fit: the loop of [get]. *)
Fixpoint get_loop (maxPush numBytes : Z) (rest : list queueEntry) : nat :=
  match rest with
  | [] => 0%nat
  | e :: rest =>
      if maxPush <? u64 (numBytes + esize e) then 0%nat
      else S (get_loop maxPush (u64 (numBytes + esize e)) rest)
  end.

Definition get (o : pusherOptions) (q : queue) : list queueEntry * queue :=
  match entries q with
  | [] => ([], q)
  | e :: rest =>
      let limit := S (get_loop (maxPushBytes o) (esize e) rest) in
      let q' := set_entries (drop limit (entries q)) q in
      (take limit (entries q), if (limit <? length (entries q))%nat then Signal q' else q')
  end.

(** ** The push loop

    [push] alternates between waiting on the condition and one round of
    get, send and handle; while it sends or sleeps, scrapers may insert. *)

(** What [push] returns. *)
Inductive pushEnd :=
  | EndPush (err : pushError)             (** a [pushError] *)
  | EndCtx                                (** [ctx.Err()] *)
  | EndOther (err : goerr).               (** an error of [ClientFromRemoteInfo] *)

Inductive phase :=
  | Waiting                               (** blocked in the [select] *)
  | Woken                                 (** received from [WaitC()], before [get] *)
  | Sending (records : list queueEntry)   (** inside [client.StoreStream] *)
  | Sleeping                              (** inside [backoff.wait] *)
  | Stopped (err : pushEnd).              (** [push] returned *)

Record pusher := {
  retries : retriesCounter;
  backoff : backoffer;
  retrying : bool;
  ph : phase;
}.

Definition newPusher (o : pusherOptions) : pusher :=
  {| retries := newRetriesCounter o; backoff := newBackoffer o; retrying := false;
     ph := Waiting |}.

Definition goto (p : pusher) (ph : phase) : pusher :=
  {| retries := retries p; backoff := backoff p; retrying := retrying p; ph := ph |}.

(** [push] before its loop: [cfgErr] and [clientErr] are the errors of
    [ClientFromRemoteInfo] and [prom.NewClient]. *)
Definition push_start (o : pusherOptions) (cfgErr clientErr : error goerr) (q : queue)
    : pusher * queue :=
  match cfgErr, clientErr with
  | Some e, _ => (goto (newPusher o) (Stopped (EndOther e)), q)
  | None, Some e =>
      (goto (newPusher o)
         (Stopped (EndPush {| kind := errKindFatal;
                              inner := Some (ErrWrap "creating client" e) |})),
       upd_metrics (add_failed LabelValueClient 1) q)
  | None, None => (newPusher o, q)
  end.

(** The part of a round before [StoreStream]. *)
Definition push_get (o : pusherOptions) (p : pusher) (q : queue) : pusher * queue :=
  let '(records, q') := get o q in
  match records with
  | [] => (goto p Waiting, q')
  | _ =>
      ({| retries := if retrying p then retries p else reset_retries (retries p);
          backoff := if retrying p then backoff p else reset_backoff (backoff p);
          retrying := false;
          ph := Sending records |}, q')
  end.

(** The [switch pushErr.Kind()] at the end of a round, once the records were
    returned to the pool. *)
Definition push_switch (status : string) (n size : Z) (pushErr : pushError)
    (p : pusher) (q : queue) : pusher * queue :=
  match kind pushErr with
  | errKindNoError =>
      (goto p Waiting, upd_metrics (add_bytes size) (upd_metrics (add_push n) q))
  | errKindNetwork =>
      (goto p Waiting, upd_metrics (add_failed LabelValueRetryExhausted n) q)
  | errKindPayload | errKindLimit =>
      (goto p Waiting, upd_metrics (add_error status n) q)
  | errKindTenant | errKindFatal | errKindWait =>
      (goto p (Stopped (EndPush pushErr)), upd_metrics (add_error status n) q)
  | errKindTerminated => (goto p (Stopped (EndPush pushErr)), q)
  end.

(** The part of a round after [StoreStream] returned [err]; [now] is read by
    [requeue].  It ends in [Sleeping] when the back-off is entered. *)
Definition push_response (o : pusherOptions) (now : Z) (err : error goerr)
    (records : list queueEntry) (p : pusher) (q : queue) : pusher * queue :=
  let '(code, pushErr) := parsePublishError err in
  let status := itoa code in
  let n := llen records in
  let q := upd_metrics (add_response status 1) q in
  let drop q p :=
    let '(size, q) := returnAll records q in push_switch status n size pushErr p q in
  if IsRetriable pushErr then
    let q := upd_metrics (add_error status n) q in
    let '(again, c) := retry (retries p) in
    let p' := {| retries := c; backoff := backoff p; retrying := again; ph := ph p |} in
    if again then
      let q := requeue o records now (upd_metrics (add_retries n) q) in
      ({| retries := c; backoff := wait (backoff p); retrying := true; ph := Sleeping |}, q)
    else drop q p'
  else drop q p.

(** ** The queue and its pusher as a transition system

    [now] is the clock; [insert] is called with buffers whose storage comes
    from the pool or is new.  The pool is shared with the other queues, which
    may take storages from it and return their own ([step_pool_*]). *)

Record system := { now : Z; sq : queue; sp : pusher }.

Definition inflight (p : pusher) : list queueEntry :=
  match ph p with Sending records => records | _ => [] end.

Definition addrs (l : list queueEntry) : list nat := map (λ e, storage (data e)) l.

Definition owned (s : system) : list nat :=
  addrs (inflight (sp s)) ++ addrs (entries (sq s)) ++ pool (sq s).

Definition set_pool (l : list nat) (q : queue) : queue :=
  {| entries := entries q; pending := pending q; pool := l; metrics := metrics q |}.

Inductive step (o : pusherOptions) : system → system → Prop :=
  | step_tick t q p t' : t ≤ t' → step o {| now := t; sq := q; sp := p |}
                                        {| now := t'; sq := q; sp := p |}
  | step_insert_new t t' q p b :
      storage b ∉ owned {| now := t; sq := q; sp := p |} →
      llen (content b) ≤ maxInt64 → t ≤ t' →
      step o {| now := t; sq := q; sp := p |} {| now := t'; sq := insert o b t t' q; sp := p |}
  | step_insert_pooled t t' q p b l1 l2 :
      pool q = l1 ++ storage b :: l2 →
      llen (content b) ≤ maxInt64 → t ≤ t' →
      step o {| now := t; sq := q; sp := p |}
             {| now := t'; sq := insert o b t t' (set_pool (l1 ++ l2) q); sp := p |}
  | step_pool_take t q p a l1 l2 :
      pool q = l1 ++ a :: l2 →
      step o {| now := t; sq := q; sp := p |}
             {| now := t; sq := set_pool (l1 ++ l2) q; sp := p |}
  | step_pool_put t q p a :
      a ∉ owned {| now := t; sq := q; sp := p |} →
      step o {| now := t; sq := q; sp := p |}
             {| now := t; sq := set_pool (a :: pool q) q; sp := p |}
  | step_wake t q p :
      ph p = Waiting → pending q = true →
      step o {| now := t; sq := q; sp := p |}
             {| now := t; sq := consume q; sp := goto p Woken |}
  | step_get t q p :
      ph p = Woken →
      step o {| now := t; sq := q; sp := p |}
             {| now := t; sq := (push_get o p q).2; sp := (push_get o p q).1 |}
  | step_response t q p records err :
      ph p = Sending records →
      step o {| now := t; sq := q; sp := p |}
             {| now := t; sq := (push_response o t err records p q).2;
                sp := (push_response o t err records p q).1 |}
  | step_slept t q p :
      ph p = Sleeping →
      step o {| now := t; sq := q; sp := p |} {| now := t; sq := q; sp := goto p Waiting |}
  | step_cancel t q p :
      ph p = Waiting ∨ ph p = Sleeping →
      step o {| now := t; sq := q; sp := p |}
             {| now := t; sq := q; sp := goto p (Stopped EndCtx) |}
  | step_restart t q p err :
      (** [tenantPusher.run] calls [push] again on the same queue. *)
      ph p = Stopped err →
      step o {| now := t; sq := q; sp := p |} {| now := t; sq := q; sp := newPusher o |}.

Definition init (t : Z) (o : pusherOptions) : system :=
  {| now := t;
     sq := {| entries := []; pending := false; pool := []; metrics := zeroMetrics |};
     sp := newPusher o |}.

Definition reachable (o : pusherOptions) (s : system) : Prop :=
  ∃ t, rtc (step o) (init t o) s.

(** ** Lemmas *)

Lemma returnAll_queue l q :
  (returnAll l q).2 =
  {| entries := entries q; pending := pending q;
     pool := rev (addrs l) ++ pool q; metrics := metrics q |}.
Proof.
  revert q. induction l as [|e l IH]; intros q; simpl; [by destruct q|].
  specialize (IH (put (data e) q)).
  destruct (returnAll l (put (data e) q)) as [sz q']. simpl in *. subst.
  simpl. by rewrite <-app_assoc.
Qed.

Lemma total_app l k : total (l ++ k) = total l + total k.
Proof. induction l as [|e l IH]; simpl; [done|]. unfold total in *. simpl. lia. Qed.

Lemma esize_nonneg e : 0 ≤ esize e.
Proof. unfold esize, llen. lia. Qed.

Lemma total_nonneg l : 0 ≤ total l.
Proof. induction l as [|e l IH]; simpl; [done|]. pose proof (esize_nonneg e). unfold total in *. simpl. lia. Qed.

#[export] Hint Resolve esize_nonneg total_nonneg : agent.

Definition sized (l : list queueEntry) : Prop := Forall (λ e, esize e ≤ maxInt64) l.

Lemma drop_S_total (l : list queueEntry) i e :
  l !! i = Some e → total (drop i l) = esize e + total (drop (S i) l).
Proof. intros H. rewrite (drop_S l e i H). done. Qed.

(** [limitBytes_loop] removes just enough entries from the front. *)
Lemma limitBytes_loop_spec max l i acc :
  0 ≤ max ≤ maxInt64 → sized l → (i ≤ length l)%nat → 0 ≤ acc ≤ max →
  acc = total (drop i l) →
  let k := limitBytes_loop max l i acc in
  (k ≤ i)%nat ∧ total (drop k l) ≤ max ∧
  match k with O => True | S k' => max < total (drop k' l) end.
Proof.
  intros Hmax Hsz. revert acc.
  induction i as [|i IH]; intros acc Hi Hacc Eacc; simpl.
  { split_and!; [lia|lia|done]. }
  destruct (lookup_lt_is_Some_2 l i ltac:(lia)) as [e He]. rewrite He.
  assert (Hse : 0 ≤ esize e ≤ maxInt64).
  { split; [apply esize_nonneg|]. by eapply Forall_lookup_1 in Hsz. }
  rewrite u64_id by (unfold maxInt64, two64 in *; lia).
  pose proof (drop_S_total l i e He) as Hd.
  destruct (Z.ltb_spec max (acc + esize e)).
  - split_and!; lia.
  - destruct (IH (acc + esize e)) as (?&?&?); [lia..|]. split_and!; [lia|done|done].
Qed.

(** Entries in the order of their timestamps. *)
Definition chrono : list queueEntry → Prop := StronglySorted (λ a b, ts a ≤ ts b).

Lemma chrono_lookup l i j a b :
  chrono l → (i ≤ j)%nat → l !! i = Some a → l !! j = Some b → ts a ≤ ts b.
Proof.
  intros Hl Hij Ha Hb. destruct (decide (i = j)) as [->|]; [naive_solver lia|].
  rewrite <-(take_drop (S i) l) in Hl.
  eapply StronglySorted_app_1_elem_of in Hl; [exact Hl|..].
  - apply list_elem_of_lookup. exists i. by rewrite lookup_take_lt by lia.
  - apply list_elem_of_lookup. exists (j - S i)%nat. rewrite lookup_drop.
    by replace (S i + (j - S i))%nat with j by lia.
Qed.

Lemma notBefore_mono limit l a b :
  chrono l → (a ≤ b < length l)%nat → notBefore limit l a = true → notBefore limit l b = true.
Proof.
  intros Hl Hab. unfold notBefore.
  destruct (lookup_lt_is_Some_2 l a) as [x Hx]; [lia|].
  destruct (lookup_lt_is_Some_2 l b) as [y Hy]; [lia|].
  rewrite Hx, Hy. pose proof (chrono_lookup l a b x y Hl (proj1 Hab) Hx Hy).
  rewrite !negb_true_iff. lia.
Qed.

(** On a chronological queue the bisection finds the first entry that is not
    older than the limit. *)
Lemma search_age limit l :
  chrono l →
  take (search (length l) (notBefore limit l)) l = filter (λ e, ts e < limit) l ∧
  drop (search (length l) (notBefore limit l)) l = filter (λ e, ¬ ts e < limit) l.
Proof.
  intros Hl. destruct (search_spec (notBefore limit l) (length l)) as (Hn & Hlo & Hhi).
  { intros a b. by apply notBefore_mono. }
  set (r := search _ _) in *.
  assert (Forall (λ e, ts e < limit) (take r l)) as Ht.
  { apply Forall_lookup. intros i e He. apply lookup_take_Some in He as [He Hi].
    specialize (Hlo i Hi). unfold notBefore in Hlo. rewrite He in Hlo. lia. }
  assert (Forall (λ e, ¬ ts e < limit) (drop r l)) as Hd.
  { apply Forall_lookup. intros i e He. rewrite lookup_drop in He.
    specialize (Hhi (r + i)%nat). unfold notBefore in Hhi. rewrite He in Hhi.
    apply lookup_lt_Some in He. lia. }
  rewrite <-(take_drop r l) at 2 4. rewrite !filter_app.
  rewrite (filter_all (λ e, ts e < limit) _ Ht), (filter_all _ _ Hd),
    (filter_none _ _ Hd), (filter_none (λ e, ¬ ts e < limit) (take r l)).
  - by rewrite app_nil_r.
  - eapply Forall_impl; [exact Ht|]. simpl. lia.
Qed.

(** ** What the limits do to a queue *)

(** [q'] is [q] without its first [k] entries, whose buffers went to the pool. *)
Definition dropped (k : nat) (q q' : queue) : Prop :=
  entries q' = drop k (entries q) ∧
  pool q' = rev (addrs (take k (entries q))) ++ pool q ∧
  pending q' = pending q.

Lemma dropped_0 q : dropped 0 q q.
Proof. unfold dropped. by rewrite drop_0. Qed.

Lemma dropped_returnAll k q :
  dropped k q (set_entries (drop k (entries q)) (returnAll (take k (entries q)) q).2).
Proof. rewrite returnAll_queue. done. Qed.

(** [limitBytes] drops exactly the entries that have to go: what is left fits,
    and the last dropped entry would not have. *)
Lemma limitBytes_spec max q :
  max ≤ maxInt64 → sized (entries q) →
  let '(k, q') := limitBytes max q in
  dropped k q q' ∧
  (0 < max → total (entries q') ≤ max) ∧
  match k with O => True | S k' => max < total (drop k' (entries q)) end.
Proof.
  intros Hmax Hsz. unfold limitBytes.
  destruct (Z.leb_spec max 0); [by split_and!; [apply dropped_0|lia|]|].
  destruct (limitBytes_loop_spec max (entries q) (length (entries q)) 0) as (_ & Hle & Hgt);
    [lia|done|lia|lia|by rewrite drop_all|].
  destruct (limitBytes_loop _ _ _ _) as [|k] eqn:E.
  - rewrite drop_0 in Hle. by split_and!; [apply dropped_0| |].
  - destruct (returnAll (take (S k) (entries q)) q) as [sz q'] eqn:Er.
    pose proof (dropped_returnAll (S k) q) as Hd. rewrite Er in Hd.
    by split_and!.
Qed.

(** [limitAge] on a chronological queue.  [old] are the entries whose time is
    up; the entries are dropped only when some other entry is left, and the
    count returned is the number of entries that stay. *)
Lemma limitAge_spec now maxAge q :
  chrono (entries q) →
  let old := filter (λ e, ts e < now - maxAge) (entries q) in
  let young := filter (λ e, ¬ ts e < now - maxAge) (entries q) in
  let '(n, q') := limitAge now maxAge q in
  (maxAge ≤ 0 ∨ old = [] → n = 0%nat ∧ q' = q) ∧
  (0 < maxAge → old ≠ [] → young = [] → n = 0%nat ∧ q' = q) ∧
  (0 < maxAge → old ≠ [] → young ≠ [] →
   n = length young ∧ entries q' = young ∧ dropped (length old) q q').
Proof.
  intros Hc old young. unfold limitAge.
  destruct (entries q) as [|e l] eqn:El.
  { split_and!; [done|by intros _ []|by intros _ []]. }
  destruct (Z.leb_spec maxAge 0); [split_and!; [done|lia|lia]|].
  destruct (Z.ltb_spec (ts e) (now - maxAge)) as [Hlt|Hge]; cbn [negb]; cbv zeta.
  2:{ assert (old = []) as Hold.
      { unfold old. apply filter_none, Forall_forall. intros x Hx Hlt.
        apply list_elem_of_lookup in Hx as [i Hi].
        pose proof (chrono_lookup _ 0 i e x Hc ltac:(lia) eq_refl Hi). lia. }
      split_and!; [done|done|done]. }
  destruct (search_age (now - maxAge) (e :: l) Hc) as [Ht Hd].
  fold old in Ht. fold young in Hd.
  set (n := length (e :: l)) in *. set (idx := search n _) in *.
  assert (Hidx : (idx ≤ n)%nat).
  { apply search_spec. intros a b. by apply notBefore_mono. }
  assert (Hold : old ≠ []).
  { unfold old. rewrite filter_cons_True by done. done. }
  assert (Hlo : length old = idx) by (rewrite <-Ht, length_take; unfold n in *; lia).
  assert (Hly : length young = (n - idx)%nat) by (by rewrite <-Hd, length_drop).
  destruct (Nat.ltb_spec idx n).
  - destruct (returnAll (take idx (e :: l)) q) as [sz q'] eqn:Er.
    pose proof (dropped_returnAll idx q) as Hdr. rewrite El, Er in Hdr.
    assert (young ≠ []) by (intros Hy; rewrite Hy in Hly; simpl in Hly; lia).
    split_and!; [by intros [?|?]; [lia|]|done|].
    intros _ _ _. rewrite Hlo. split_and!; [done|by rewrite <-Hd|done].
  - split_and!; [by intros [?|?]; [lia|]| |].
    + intros _ _ _. split; [lia|done].
    + intros _ _ Hy. destruct Hy. apply length_zero_iff_nil. lia.
Qed.

Lemma dropped_trans k1 k2 q1 q2 q3 :
  dropped k1 q1 q2 → dropped k2 q2 q3 → dropped (k1 + k2) q1 q3.
Proof.
  unfold dropped. intros (E1 & P1 & S1) (E2 & P2 & S2). split_and!; [..|congruence].
  - by rewrite E2, E1, drop_drop.
  - rewrite P2, P1, E1. unfold addrs. rewrite app_assoc, <-rev_app_distr, <-map_app.
    by rewrite take_take_drop.
Qed.

Lemma dropped_metrics k f q q' : dropped k q q' → dropped k q (upd_metrics f q').
Proof. done. Qed.

Lemma limitAge_dropped now maxAge q : ∃ k, dropped k q (limitAge now maxAge q).2.
Proof.
  unfold limitAge. destruct (entries q) as [|e l] eqn:El; [exists 0%nat; apply dropped_0|].
  destruct (maxAge <=? 0); [exists 0%nat; apply dropped_0|].
  destruct (negb (ts e <? now - maxAge)); [exists 0%nat; apply dropped_0|].
  cbv zeta. rewrite <-El.
  destruct (_ <? _)%nat; [|exists 0%nat; apply dropped_0].
  set (idx := search _ _). exists idx.
  destruct (returnAll (take idx (entries q)) q) as [sz q'] eqn:Er.
  pose proof (dropped_returnAll idx q) as Hd. by rewrite Er in Hd.
Qed.

Lemma dropped_sized k q q' : dropped k q q' → sized (entries q) → sized (entries q').
Proof. intros (-> & _). by apply Forall_drop. Qed.

Lemma total_drop_le k l : total (drop k l) ≤ total l.
Proof.
  rewrite <-(take_drop k l) at 2. rewrite total_app. pose proof (total_nonneg (take k l)). lia.
Qed.

(** [applyLimits] only drops a prefix, and leaves a queue within the byte limit. *)
Lemma applyLimits_spec o now q :
  maxQueuedBytes o ≤ maxInt64 → sized (entries q) →
  (∃ k, dropped k q (applyLimits o now q)) ∧
  (0 < maxQueuedBytes o → total (entries (applyLimits o now q)) ≤ maxQueuedBytes o).
Proof.
  intros Hmax Hsz. unfold applyLimits.
  pose proof (limitBytes_spec (maxQueuedBytes o) q Hmax Hsz) as Hb.
  destruct (limitBytes (maxQueuedBytes o) q) as [n1 q1].
  destruct Hb as (Hd1 & Hle & _).
  destruct (limitAge_dropped now (maxQueuedTime o) q1) as [k2 Hd2].
  destruct (limitAge now (maxQueuedTime o) q1) as [n2 q2]. simpl in Hd2.
  pose proof (dropped_trans _ _ _ _ _ Hd1 Hd2) as Hd.
  assert (0 < maxQueuedBytes o → total (entries q2) ≤ maxQueuedBytes o) as Ht.
  { intros H. destruct Hd2 as (-> & _). pose proof (total_drop_le k2 (entries q1)). lia. }
  destruct (0 <? n1 + n2)%nat; split; eauto using dropped_metrics.
Qed.

(** ** Invariants of the transition system *)

Record inv (o : pusherOptions) (s : system) : Prop := {
  inv_owned : NoDup (owned s);
  inv_chrono : chrono (inflight (sp s) ++ entries (sq s));
  inv_past : Forall (λ e, ts e ≤ now s) (inflight (sp s) ++ entries (sq s));
  inv_sized : sized (inflight (sp s) ++ entries (sq s));
  inv_wake : entries (sq s) ≠ [] → pending (sq s) = true ∨ ph (sp s) = Woken;
  inv_bytes : 0 < maxQueuedBytes o → total (entries (sq s)) ≤ maxQueuedBytes o;
}.

(** The limits, applied to a queue whose content satisfies the invariant. *)
Lemma inv_applyLimits o t t' q p fl :
  maxQueuedBytes o ≤ maxInt64 → fl = inflight p →
  NoDup (addrs fl ++ addrs (entries q) ++ pool q) →
  chrono (fl ++ entries q) → Forall (λ e, ts e ≤ t) (fl ++ entries q) →
  sized (fl ++ entries q) →
  inv o {| now := t; sq := Signal (applyLimits o t' q); sp := p |}.
Proof.
  intros Hmax -> Hnd Hch Hpast Hsz.
  apply Forall_app in Hpast as [Hp1 Hp2].
  pose proof Hsz as [Hs1 Hs2]%Forall_app.
  destruct (applyLimits_spec o t' q Hmax Hs2) as [[k (He & Hpool & Hpend)] Hbytes].
  set (q' := applyLimits o t' q) in *.
  split; simpl; unfold owned, chrono, sized; simpl; rewrite ?He in *; eauto.
  - rewrite Hpool. eapply NoDup_Permutation_proper; [|exact Hnd].
    rewrite <-(take_drop k (entries q)) at 3. unfold addrs.
    rewrite map_app, <-Permutation_rev. solve_Permutation.
  - unfold chrono in *. rewrite <-(take_drop k (entries q)) in Hch.
    rewrite StronglySorted_app in Hch. destruct Hch as (Ha & Hb & Hc%StronglySorted_app_1_r).
    apply StronglySorted_app. split_and!; [|done|done]. intros x y Hx Hy. apply Ha; [done|].
    set_solver.
  - apply Forall_app. split; [done|]. by apply Forall_drop.
  - apply Forall_app. split; [done|]. by apply Forall_drop.
Qed.

(** ** [get] *)

Lemma get_loop_spec maxPush n rest :
  maxPush ≤ maxInt64 → sized rest → 0 ≤ n ≤ maxInt64 →
  let k := get_loop maxPush n rest in
  (k ≤ length rest)%nat ∧
  (k ≠ 0%nat → n + total (take k rest) ≤ maxPush) ∧
  (drop k rest ≠ [] → maxPush < n + total (take (S k) rest)).
Proof.
  intros Hmax. revert n. induction rest as [|e rest IH]; intros n Hsz Hn; simpl.
  { by split_and!. }
  apply Forall_cons in Hsz as [He Hsz]. pose proof (esize_nonneg e).
  rewrite u64_id by (unfold maxInt64, two64 in *; lia).
  destruct (Z.ltb_spec maxPush (n + esize e)); simpl.
  - split_and!; [lia|done|]. intros _. unfold total. simpl. lia.
  - destruct (IH (n + esize e) Hsz) as (Hk & Hle & Hgt); [lia|].
    split_and!; [lia| |].
    + intros _. unfold total in *. simpl.
      destruct (get_loop maxPush (n + esize e) rest); simpl in *; [lia|]. 
      specialize (Hle ltac:(lia)). lia.
    + intros Hne. specialize (Hgt Hne). unfold total in *. simpl in *. lia.
Qed.

Lemma get_shape o q :
  entries q ≠ [] →
  ∃ n, (0 < n ≤ length (entries q))%nat ∧ (get o q).1 = take n (entries q) ∧
       entries (get o q).2 = drop n (entries q) ∧ pool (get o q).2 = pool q ∧
       metrics (get o q).2 = metrics q ∧
       (drop n (entries q) ≠ [] → pending (get o q).2 = true).
Proof.
  intros Hne. unfold get. destruct (entries q) as [|e rest] eqn:El; [done|].
  rewrite <-El. set (k := get_loop _ _ _). exists (S k).
  assert (Hk : (k ≤ length rest)%nat).
  { unfold k. clear. generalize (esize e) as n.
    induction rest as [|x rest IH]; intros n; simpl; [lia|].
    destruct (_ <? _); [lia|]. specialize (IH (u64 (n + esize x))). lia. }
  split; [rewrite El; simpl; lia|].
  destruct (Nat.ltb_spec (S k) (length (entries q))); simpl; split_and!; try done.
  intros Hd. by rewrite drop_ge in Hd.
Qed.

Lemma get_empty o q : entries q = [] → get o q = ([], q).
Proof. intros H. unfold get. by rewrite H. Qed.

(** ** Every step preserves the invariant *)

Lemma push_switch_shape st n sz e p q :
  entries (push_switch st n sz e p q).2 = entries q ∧
  pool (push_switch st n sz e p q).2 = pool q ∧
  pending (push_switch st n sz e p q).2 = pending q ∧
  inflight (push_switch st n sz e p q).1 = [] ∧
  ph (push_switch st n sz e p q).1 ≠ Woken.
Proof. unfold push_switch. by destruct (kind e). Qed.

(** A round either puts the records back at the front of the queue, applies the
    limits and goes to sleep, or returns their buffers to the pool. *)
Lemma push_response_shape o t err records p q :
  let '(p', q') := push_response o t err records p q in
  inflight p' = [] ∧ ph p' ≠ Woken ∧
  ((∃ m, q' = requeue o records t (upd_metrics m q) ∧ ph p' = Sleeping) ∨
   entries q' = entries q ∧ pool q' = rev (addrs records) ++ pool q ∧ pending q' = pending q).
Proof.
  unfold push_response. destruct (parsePublishError err) as [code pe].
  assert (Hdrop : ∀ q0 p0 m, q0 = upd_metrics m q →
    let '(p', q') := (let '(size, q) := returnAll records q0 in
                      push_switch (itoa code) (llen records) size pe p0 q) in
    inflight p' = [] ∧ ph p' ≠ Woken ∧
    ((∃ m, q' = requeue o records t (upd_metrics m q) ∧ ph p' = Sleeping) ∨
     entries q' = entries q ∧ pool q' = rev (addrs records) ++ pool q ∧
     pending q' = pending q)).
  { intros q0 p0 m ->. pose proof (returnAll_queue records (upd_metrics m q)) as Hr.
    destruct (returnAll records (upd_metrics m q)) as [size q1]. simpl in Hr. subst q1.
    destruct (push_switch_shape (itoa code) (llen records) size pe p0
      {| entries := entries q; pending := pending q;
         pool := rev (addrs records) ++ pool q; metrics := m (metrics q) |})
      as (?&?&?&?&?).
    destruct (push_switch _ _ _ _ _ _) as [p' q'].
    split_and!; [done|done|]. right. done. }
  cbv zeta.
  destruct (IsRetriable pe).
  - destruct (retry (retries p)) as [[] c].
    + split_and!; [done|done|]. left. eexists. split; [|done].
      unfold upd_metrics. simpl.
      instantiate (1 := λ m, add_retries _ (add_error _ _ (add_response _ _ m))). done.
    + apply (Hdrop _ _ (λ m, add_error (itoa code) (llen records)
        (add_response (itoa code) 1 m))). done.
  - apply (Hdrop _ _ (add_response (itoa code) 1)). done.
Qed.

Lemma requeue_unfold o records t q :
  records ≠ [] →
  requeue o records t q = Signal (applyLimits o t (set_entries (records ++ entries q) q)).
Proof. by destruct records. Qed.

Lemma inv_init t o : inv o (init t o).
Proof.
  split; simpl; unfold owned, chrono, sized; simpl; try done; try constructor.
  unfold total. simpl. lia.
Qed.

(** A phase change that neither takes nor releases records. *)
Lemma inv_goto o t q p ph' :
  inv o {| now := t; sq := q; sp := p |} → inflight p = [] → inflight (goto p ph') = [] →
  (ph p = Woken → entries q = [] ∨ ph' = Woken) →
  inv o {| now := t; sq := q; sp := goto p ph' |}.
Proof.
  intros [Ho Hc Hp Hs Hw Hb] Hi Hi' Hk. unfold owned in *. simpl in *. rewrite Hi in *.
  split; simpl; unfold owned; simpl; rewrite ?Hi'; try done.
  intros Hne. destruct (Hw Hne) as [|Hwk]; [by left|].
  destruct (Hk Hwk); [done|by right].
Qed.

Lemma inv_insert o t t' q p b pl :
  maxQueuedBytes o ≤ maxInt64 → inv o {| now := t; sq := q; sp := p |} →
  NoDup (storage b :: addrs (inflight p) ++ addrs (entries q) ++ pl) →
  llen (content b) ≤ maxInt64 → t ≤ t' →
  inv o {| now := t'; sq := insert o b t t' (set_pool pl q); sp := p |}.
Proof.
  intros Hmax [_ Hc Hp Hs _ _] Hnd Hlen Ht. simpl in *.
  assert (Hsnoc : ∀ P : queueEntry → Prop, P {| data := b; ts := t |} →
    Forall P (inflight p ++ entries q) →
    Forall P (inflight p ++ entries q ++ [{| data := b; ts := t |}])).
  { intros P Hb Hall. rewrite app_assoc. apply Forall_app. split; [done|].
    by constructor. }
  apply inv_applyLimits with (inflight p); [done|done|..]; simpl.
  - eapply NoDup_Permutation_proper; [|exact Hnd].
    unfold addrs. rewrite map_app. simpl. solve_Permutation.
  - rewrite app_assoc. apply StronglySorted_app. split_and!.
    + intros x y Hx ->%list_elem_of_singleton. simpl.
      rewrite Forall_forall in Hp. by apply Hp.
    + done.
    + by repeat constructor.
  - apply Hsnoc; [done|]. eapply Forall_impl; [exact Hp|]. simpl. lia.
  - by apply Hsnoc.
Qed.

Lemma inv_get o t q p :
  inv o {| now := t; sq := q; sp := p |} → ph p = Woken →
  inv o {| now := t; sq := (push_get o p q).2; sp := (push_get o p q).1 |}.
Proof.
  intros Hinv Hw. unfold push_get.
  assert (Hi : inflight p = []) by (unfold inflight; by rewrite Hw).
  destruct (decide (entries q = [])) as [He|He].
  { rewrite get_empty by done. simpl. apply inv_goto; eauto. }
  destruct Hinv as [Ho Hc Hp Hs _ Hb]. unfold owned in *. simpl in *. rewrite Hi in *.
  destruct (get_shape o q He) as (n & Hn & Htk & Hdr & Hpl & Hm & Hpend).
  destruct (get o q) as [records q']. simpl in *. subst records.
  destruct (take n (entries q)) as [|e l] eqn:E.
  { apply (f_equal length) in E. rewrite length_take in E. simpl in E. lia. }
  rewrite <-E. split; simpl; unfold owned, inflight; simpl; rewrite ?Hdr, ?take_drop.
  - rewrite Hpl, app_assoc. unfold addrs. rewrite <-map_app, take_drop. done.
  - done.
  - done.
  - done.
  - intros Hne. left. by apply Hpend.
  - intros H. pose proof (total_drop_le n (entries q)). specialize (Hb H). lia.
Qed.

Lemma inv_response o t q p records err :
  maxQueuedBytes o ≤ maxInt64 →
  inv o {| now := t; sq := q; sp := p |} → ph p = Sending records →
  inv o {| now := t; sq := (push_response o t err records p q).2;
           sp := (push_response o t err records p q).1 |}.
Proof.
  intros Hmax [Ho Hc Hp Hs Hw Hb] Hph. unfold owned, inflight in *. simpl in *. rewrite Hph in *.
  pose proof (push_response_shape o t err records p q) as Hsh.
  destruct (push_response o t err records p q) as [p' q']. simpl in *.
  destruct Hsh as (Hi' & Hwk' & [(m & -> & Hsl)|(He & Hpl & Hpd)]).
  - destruct (decide (records = [])) as [->|Hne].
    { split; simpl; unfold owned; simpl; rewrite ?Hi'; try done.
      intros H. left. destruct (Hw H); [done|congruence]. }
    rewrite requeue_unfold by done.
    apply inv_applyLimits with []; simpl; unfold addrs; rewrite ?map_app; try done.
    + by rewrite <-(app_assoc (map _ records)).
  - split; simpl; unfold owned; simpl; rewrite ?Hi', ?He, ?Hpl, ?Hpd; try done.
    + eapply NoDup_Permutation_proper; [|exact Ho]. rewrite <-Permutation_rev.
      unfold addrs. solve_Permutation.
    + by apply StronglySorted_app_1_r in Hc.
    + by apply Forall_app in Hp as [_ Hp].
    + by apply Forall_app in Hs as [_ Hs].
    + intros H. left. destruct (Hw H); [done|congruence].
Qed.

Lemma step_inv o s s' :
  maxQueuedBytes o ≤ maxInt64 → inv o s → step o s s' → inv o s'.
Proof.
  intros Hmax Hinv Hstep. pose proof (inv_owned _ _ Hinv) as Hnd.
  destruct Hstep as [t q p t' Ht|t t' q p b Hfr Hl Ht|t t' q p b l1 l2 Hpl Hl Ht
    |t q p a l1 l2 Hpl|t q p a Hfr|t q p Hph Hpd|t q p Hph|t q p r err Hph
    |t q p Hph|t q p Hph|t q p err Hph]; unfold owned in Hnd; simpl in Hnd.
  - destruct Hinv as [? ? Hp ? ? ?]; split; simpl in *; try done.
    eapply Forall_impl; [exact Hp|]. simpl. lia.
  - replace q with (set_pool (pool q) q) by (by destruct q).
    apply inv_insert with (pl := pool q); [done|done| |done|done].
    apply NoDup_cons. split; [|done]. exact Hfr.
  - apply inv_insert; [done|done| |done|done]. rewrite Hpl in Hnd.
    eapply NoDup_Permutation_proper; [|exact Hnd]. solve_Permutation.
  - rewrite Hpl in Hnd. destruct Hinv. split; simpl in *; try done.
    unfold owned. simpl. rewrite !app_assoc in *.
    rewrite <-Permutation_middle in Hnd. by apply NoDup_cons in Hnd as [_ Hnd].
  - destruct Hinv. split; simpl in *; try done. unfold owned in *. simpl in *.
    rewrite app_assoc in *. rewrite <-Permutation_middle. by apply NoDup_cons.
  - assert (Hi : inflight p = []) by (unfold inflight; by rewrite Hph).
    destruct Hinv as [Ho Hc Hp Hs Hw Hb]. unfold owned in *. simpl in *. rewrite Hi in *.
    split; simpl; unfold owned, inflight; simpl; try done. by right.
  - by apply inv_get.
  - by apply inv_response.
  - apply inv_goto; [done|unfold inflight; by rewrite Hph|done|congruence].
  - assert (inflight p = []) by (unfold inflight; by destruct Hph as [-> | ->]).
    apply inv_goto; [done|done|done|]. intros ?; destruct Hph; congruence.
  - destruct Hinv as [Ho Hc Hp Hs Hw Hb]. unfold owned, inflight in *. simpl in *.
    rewrite Hph in *. split; simpl; unfold owned, inflight; simpl; try done.
    intros Hne. left. destruct (Hw Hne); [done|congruence].
Qed.

Lemma reachable_inv o s : maxQueuedBytes o ≤ maxInt64 → reachable o s → inv o s.
Proof.
  intros Hmax [t Hr]. pose proof (inv_init t o) as Hi.
  induction Hr as [|s1 s2 s3 Hs _ IH]; [done|]. eauto using step_inv.
Qed.

(** ** Properties *)

(** C17: what [get] takes from a non-empty queue is a non-empty prefix, in order;
    it fits in [maxPushBytes] unless it is a single record, it is as long as
    that allows, and the condition is signalled again when records are left. *)
Theorem get_takes_longest_prefix o q :
  maxPushBytes o ≤ maxInt64 → sized (entries q) → entries q ≠ [] →
  let '(records, q') := get o q in
  records ≠ [] ∧ records ++ entries q' = entries q ∧
  (length records = 1%nat ∨ total records ≤ maxPushBytes o) ∧
  (∀ e rest, entries q' = e :: rest →
     maxPushBytes o < total (records ++ [e]) ∧ pending q' = true).
Proof.
  intros Hmax Hsz Hne. unfold get. destruct (entries q) as [|e rest] eqn:El; [done|].
  apply Forall_cons in Hsz as [He Hsz]. rewrite <-El.
  destruct (get_loop_spec (maxPushBytes o) (esize e) rest Hmax Hsz) as (Hk & Hle & Hgt);
    [pose proof (esize_nonneg e); lia|].
  set (k := get_loop _ _ _) in *.
  assert (Hent : entries (if (S k <? length (entries q))%nat
      then Signal (set_entries (drop (S k) (entries q)) q)
      else set_entries (drop (S k) (entries q)) q) = drop (S k) (entries q))
    by (by destruct (_ <? _)%nat).
  rewrite Hent. split_and!.
  - by rewrite El.
  - apply take_drop.
  - rewrite El. simpl. destruct k eqn:Ek; [by left|right].
    rewrite <-Ek in *. apply Hle. lia.
  - intros x xs Hx. rewrite El in Hx. simpl in Hx. rewrite El. simpl. split.
    + assert (Hxs : rest !! k = Some x).
      { rewrite <-(Nat.add_0_r k), <-lookup_drop, Hx. done. }
      rewrite Hx in Hgt. specialize (Hgt ltac:(done)).
      rewrite (take_S_r _ _ _ Hxs) in Hgt. unfold total in *. simpl. lia.
    + destruct (Nat.ltb_spec (S k) (S (length rest))); [done|].
      rewrite drop_ge in Hx by lia. done.
Qed.

Definition example_entry (n : nat) (t : Z) : queueEntry :=
  {| data := {| storage := n; content := repeat x00 n |}; ts := t |}.
Definition example_queue (l : list queueEntry) : queue :=
  {| entries := l; pending := false; pool := []; metrics := zeroMetrics |}.
Definition example_options : pusherOptions :=
  {| maxPushBytes := 8; maxQueuedBytes := 12; maxQueuedTime := 10; maxRetries := 2;
     minBackoff := 50; maxBackoff := 300 |}.

Lemma get_takes_longest_prefix_witness :
  maxPushBytes example_options ≤ maxInt64 ∧
  length (get example_options (example_queue [example_entry 3 0; example_entry 4 1;
     example_entry 5 2])).1 = 2%nat ∧
  let '(records, q') := get example_options
    (example_queue [example_entry 3 0; example_entry 4 1; example_entry 5 2]) in
  records ≠ [] ∧ records ++ entries q' = [example_entry 3 0; example_entry 4 1; example_entry 5 2] ∧
  (length records = 1%nat ∨ total records ≤ maxPushBytes example_options) ∧
  (∀ e rest, entries q' = e :: rest →
     maxPushBytes example_options < total (records ++ [e]) ∧ pending q' = true).
Proof.
  split; [done|]. split; [reflexivity|].
  apply (get_takes_longest_prefix example_options
    (example_queue [example_entry 3 0; example_entry 4 1; example_entry 5 2])).
  - done.
  - repeat constructor; done.
  - done.
Defined.

(** [limitBytes] keeps the longest suffix of the queue that fits in the
    limit: it drops [k] entries from the front, returns their buffers to the
    pool, what remains is within the limit, and dropping one entry less would
    not be. *)
Theorem limitBytes_keeps_longest_suffix max q :
  0 < max ≤ maxInt64 → sized (entries q) →
  let '(k, q') := limitBytes max q in
  entries q' = drop k (entries q) ∧
  pool q' = rev (addrs (take k (entries q))) ++ pool q ∧
  total (entries q') ≤ max ∧
  (∀ j, (j < k)%nat → max < total (drop j (entries q))).
Proof.
  intros Hmax Hsz. pose proof (limitBytes_spec max q ltac:(lia) Hsz) as H.
  destruct (limitBytes max q) as [k q'].
  destruct H as ((He & Hp & _) & Hle & Hgt). split_and!; [done|done|by apply Hle; lia|].
  intros j Hj. destruct k as [|k]; [lia|].
  assert (total (drop k (entries q)) ≤ total (drop j (entries q))); [|lia].
  replace k with (j + (k - j))%nat by lia. rewrite <-drop_drop. apply total_drop_le.
Qed.

Lemma limitBytes_keeps_longest_suffix_witness :
  let q := example_queue [example_entry 3 0; example_entry 4 1; example_entry 5 2] in
  let '(k, q') := limitBytes 9 q in
  entries q' = drop k (entries q) ∧
  pool q' = rev (addrs (take k (entries q))) ++ pool q ∧
  total (entries q') ≤ 9 ∧ (∀ j, (j < k)%nat → 9 < total (drop j (entries q))).
Proof.
  apply (limitBytes_keeps_longest_suffix 9
    (example_queue [example_entry 3 0; example_entry 4 1; example_entry 5 2])).
  - done.
  - repeat constructor; done.
Defined.

(** On a chronological queue with expired and fresh entries, [limitAge]
    keeps exactly the fresh ones, but the number it reports as removed is the
    number it keeps.  When every entry has expired it removes none. *)
Theorem limitAge_reports_kept now maxAge q :
  0 < maxAge → chrono (entries q) →
  let old := filter (λ e, ts e < now - maxAge) (entries q) in
  let young := filter (λ e, ¬ ts e < now - maxAge) (entries q) in
  old ≠ [] →
  let '(numRemoved, q') := limitAge now maxAge q in
  numRemoved = length young ∧
  entries q' = (if decide (young = []) then entries q else young).
Proof.
  intros Hage Hc old young Hold.
  pose proof (limitAge_spec now maxAge q Hc) as H. fold old young in H. cbv zeta in H.
  destruct (limitAge now maxAge q) as [n q']. destruct H as (_ & Hnone & Hsome).
  destruct (decide (young = [])) as [Hy|Hy].
  - destruct (Hnone Hage Hold Hy) as [-> ->]. by rewrite Hy.
  - by destruct (Hsome Hage Hold Hy) as (-> & -> & _).
Qed.

Lemma limitAge_reports_kept_witness :
  let q := example_queue [example_entry 1 0; example_entry 2 0; example_entry 3 15] in
  let '(numRemoved, q') := limitAge 15 10 q in
  numRemoved = 1%nat ∧ entries q' = [example_entry 3 15].
Proof.
  apply (limitAge_reports_kept 15 10
    (example_queue [example_entry 1 0; example_entry 2 0; example_entry 3 15])).
  - done.
  - repeat constructor; done.
  - done.
Defined.

(** A reachable state: two buffers were inserted, the pusher is waiting. *)
Definition example_reached : system :=
  {| now := 5;
     sq := insert example_options {| storage := 1; content := [x00; x01] |} 5 5
             (insert example_options {| storage := 0; content := [x02] |} 0 5
                (sq (init 0 example_options)));
     sp := newPusher example_options |}.

Lemma example_reached_reachable : reachable example_options example_reached.
Proof.
  exists 0. eapply rtc_l; [|eapply rtc_l; [|apply rtc_refl]].
  - apply (step_insert_new example_options 0 5 (sq (init 0 example_options))
      (newPusher example_options) {| storage := 0; content := [x02] |}).
    + apply not_elem_of_nil.
    + done.
    + done.
  - apply (step_insert_new example_options 5 5 _
      (newPusher example_options) {| storage := 1; content := [x00; x01] |}).
    + change (1%nat ∉ [0%nat]). set_solver.
    + done.
    + done.
Qed.

(** C1: no wake-up is lost.  Whenever records are queued and the push loop is
    blocked in its [select], the condition is signalled: it can wake, take
    records, and start sending a non-empty prefix of the queue. *)
Theorem no_lost_wakeup o s :
  maxQueuedBytes o ≤ maxInt64 → reachable o s →
  ph (sp s) = Waiting → entries (sq s) ≠ [] →
  ∃ s1 s2 records, step o s s1 ∧ step o s1 s2 ∧ ph (sp s2) = Sending records ∧
    records ≠ [] ∧ records ++ entries (sq s2) = entries (sq s).
Proof.
  intros Hmax Hr Hph Hne. pose proof (inv_wake _ _ (reachable_inv o s Hmax Hr) Hne) as Hw.
  destruct s as [t q p]. simpl in *. destruct Hw as [Hpd|]; [|congruence].
  destruct (get_shape o (consume q) Hne) as (n & Hn & Htk & Hdr & _). simpl in *.
  exists {| now := t; sq := consume q; sp := goto p Woken |}.
  eexists {| now := t; sq := (push_get o (goto p Woken) (consume q)).2;
             sp := (push_get o (goto p Woken) (consume q)).1 |}, (take n (entries q)).
  split; [by apply step_wake|]. split; [by apply step_get|]. simpl.
  unfold push_get. destruct (get o (consume q)) as [records q']. simpl in *. subst.
  destruct (take n (entries q)) as [|e l] eqn:E.
  { apply (f_equal length) in E. rewrite length_take in E. simpl in E. lia. }
  simpl. rewrite Hdr. split_and!; [done|done|].
  change (e :: l ++ drop n (entries q)) with ((e :: l) ++ drop n (entries q)).
  by rewrite <-E, take_drop.
Qed.

Lemma no_lost_wakeup_witness :
  ∃ s1 s2 records, step example_options example_reached s1 ∧ step example_options s1 s2 ∧
    ph (sp s2) = Sending records ∧ records ≠ [] ∧
    records ++ entries (sq s2) = entries (sq example_reached).
Proof.
  apply (no_lost_wakeup example_options example_reached).
  - done.
  - apply example_reached_reachable.
  - reflexivity.
  - vm_compute. done.
Defined.

(** C36: in every interleaving of inserts, pushes, retries and restarts, no
    buffer is in the pool while a queued or in-flight record still uses it, and
    no two records share a buffer; and the in-flight records followed by the
    queue are in chronological order, as the bisection of [limitAge] needs. *)
Theorem buffers_never_shared o s :
  maxQueuedBytes o ≤ maxInt64 → reachable o s →
  NoDup (addrs (inflight (sp s)) ++ addrs (entries (sq s)) ++ pool (sq s)) ∧
  chrono (inflight (sp s) ++ entries (sq s)).
Proof.
  intros Hmax Hr. destruct (reachable_inv o s Hmax Hr) as [Ho Hc _ _ _ _]. done.
Qed.

Lemma buffers_never_shared_witness :
  NoDup (addrs (inflight (sp example_reached)) ++ addrs (entries (sq example_reached)) ++
         pool (sq example_reached)) ∧
  chrono (inflight (sp example_reached) ++ entries (sq example_reached)).
Proof.
  apply (buffers_never_shared example_options example_reached).
  - done.
  - apply example_reached_reachable.
Defined.

(** C35: the queue never holds more than [maxQueuedBytes] bytes, whatever the
    scrapers insert and however often the push loop puts records back. *)
Theorem queued_bytes_bounded o s :
  0 < maxQueuedBytes o ≤ maxInt64 → reachable o s →
  total (entries (sq s)) ≤ maxQueuedBytes o.
Proof.
  intros [Hpos Hmax] Hr. by apply (inv_bytes _ _ (reachable_inv o s Hmax Hr)).
Qed.

Lemma queued_bytes_bounded_witness :
  total (entries (sq example_reached)) ≤ maxQueuedBytes example_options.
Proof.
  apply (queued_bytes_bounded example_options example_reached).
  - done.
  - apply example_reached_reachable.
Defined.

Lemma wait_last b :
  b_last (wait b) =
  if b_last b <? b_min b then b_min b else Z.min (wrap64 (2 * b_last b)) (b_max b).
Proof. done. Qed.

(** The back-off doubles from [minBackoff] up to [maxBackoff]: the n-th
    wait after a reset sleeps for [min(minBackoff * 2^(n-1), maxBackoff)]. *)
Theorem backoff_closed_form o n :
  0 < minBackoff o ≤ maxBackoff o → 2 * maxBackoff o ≤ maxInt64 →
  b_last (Nat.iter (S n) wait (reset_backoff (newBackoffer o))) =
  Z.min (minBackoff o * 2 ^ Z.of_nat n) (maxBackoff o).
Proof.
  intros Hmin Hmax.
  assert (Hpres : ∀ n b, b_min (Nat.iter n wait b) = b_min b ∧ b_max (Nat.iter n wait b) = b_max b).
  { clear. intros n b. by induction n as [|n [IH1 IH2]]; simpl; rewrite ?IH1, ?IH2. }
  induction n as [|n IH].
  - simpl. destruct (Z.ltb_spec 0 (minBackoff o)); lia.
  - set (b := reset_backoff (newBackoffer o)) in *.
    change (Nat.iter (S (S n)) wait b) with (wait (Nat.iter (S n) wait b)).
    destruct (Hpres (S n) b) as [Hbmin Hbmax]. rewrite wait_last.
    rewrite IH, Hbmin, Hbmax. cbn [b b_min b_max reset_backoff newBackoffer].
    assert (1 ≤ 2 ^ Z.of_nat n) by (pose proof (Z.pow_pos_nonneg 2 (Z.of_nat n)); lia).
    rewrite Nat2Z.inj_succ, Z.pow_succ_r by lia.
    set (x := 2 ^ Z.of_nat n) in *.
    assert (minBackoff o ≤ minBackoff o * x) by nia.
    destruct (Z.ltb_spec (Z.min (minBackoff o * x) (maxBackoff o)) (minBackoff o)); [lia|].
    rewrite wrap64_id by (unfold int64, minInt64; lia). lia.
Qed.

Lemma backoff_closed_form_witness :
  b_last (Nat.iter 4 wait (reset_backoff (newBackoffer defaultPusherOptions))) =
  Z.min (minBackoff defaultPusherOptions * 2 ^ 3) (maxBackoff defaultPusherOptions).
Proof. 
  apply (backoff_closed_form defaultPusherOptions 3);
    [split; vm_compute; congruence | vm_compute; congruence].
Defined.

(** One round of the push loop of a pusher that is waiting: wake up, take the
    records and handle the answer [err].  The clock reads [t]. *)
Definition round (o : pusherOptions) (t : Z) (err : error goerr) (st : pusher * queue)
    : pusher * queue :=
  let '(p, q) := push_get o (goto st.1 Woken) (consume st.2) in
  match ph p with
  | Sending records => push_response o t err records p q
  | _ => (p, q)
  end.

Lemma round_empty o t err p q :
  entries q = [] → round o t err (p, q) = (goto p Waiting, consume q).
Proof. intros H. unfold round, push_get. simpl. by rewrite get_empty. Qed.

(** A retriable answer: either a retry is left, the records go back to the front
    of the queue, or the records are dropped and the loop goes on. *)
Lemma push_response_retriable o t err records p q :
  IsRetriable (parsePublishError err).2 = true →
  push_response o t err records p q =
  let status := itoa (parsePublishError err).1 in
  let q1 := upd_metrics (add_error status (llen records))
              (upd_metrics (add_response status 1) q) in
  if r_left (retries p) <=? 0 then
    let '(_, q2) := returnAll records q1 in
    ({| retries := retries p; backoff := backoff p; retrying := false; ph := Waiting |},
     upd_metrics (add_failed LabelValueRetryExhausted (llen records)) q2)
  else
    ({| retries := {| r_left := r_left (retries p) - 1; r_max := r_max (retries p) |};
        backoff := wait (backoff p); retrying := true; ph := Sleeping |},
     requeue o records t (upd_metrics (add_retries (llen records)) q1)).
Proof.
  intros Hr. unfold push_response.
  destruct (parsePublishError err) as [code pe]. simpl in *. rewrite Hr.
  unfold retry. destruct (r_left (retries p) <=? 0) eqn:E; [|done].
  unfold IsRetriable in Hr. apply bool_decide_eq_true in Hr.
  destruct (returnAll _ _) as [size q2]. unfold push_switch. by rewrite Hr.
Qed.

(** What a failing round does: the queue is what it was, less a prefix, and
    either something was dropped or a retry was used up. *)
Lemma round_failing o t err p q :
  maxQueuedBytes o ≤ maxInt64 → sized (entries q) →
  IsRetriable (parsePublishError err).2 = true → entries q ≠ [] →
  let left := if retrying p then r_left (retries p) else r_max (retries p) in
  let '(p', q') := round o t err (p, q) in
  r_max (retries p') = r_max (retries p) ∧
  ∃ k, entries q' = drop k (entries q) ∧
    (left ≤ 0 → (0 < k)%nat) ∧
    (0 < left → retrying p' = true ∧ r_left (retries p') = left - 1).
Proof.
  intros Hmax Hsz Hret Hne left. unfold round, push_get. simpl.
  destruct (get_shape o (consume q) Hne) as (n & Hn & Htk & Hdr & _). simpl in *.
  destruct (get o (consume q)) as [records q1]. simpl in *. subst records.
  destruct (take n (entries q)) as [|e l] eqn:E.
  { apply (f_equal length) in E. rewrite length_take in E. simpl in E. lia. }
  rewrite <-E. simpl. rewrite push_response_retriable by done. simpl.
  assert (Hleft : r_left (if retrying p then retries p else reset_retries (retries p)) = left)
    by (unfold left; by destruct (retrying p)).
  assert (Hrm : r_max (if retrying p then retries p else reset_retries (retries p)) =
    r_max (retries p)) by (by destruct (retrying p)).
  rewrite Hleft. destruct (Z.leb_spec left 0).
  - pose proof (returnAll_queue (take n (entries q)) (upd_metrics
      (add_error (itoa (parsePublishError err).1) (llen (take n (entries q))))
      (upd_metrics (add_response (itoa (parsePublishError err).1) 1) q1))) as Hra.
    destruct (returnAll _ _) as [size q2]. simpl in *. subst q2. simpl.
    split; [done|]. exists n. split_and!; [done|lia|lia].
  - rewrite requeue_unfold by (rewrite E; done). simpl. split; [done|].
    destruct (applyLimits_spec o t (set_entries (take n (entries q) ++ entries q1)
      (upd_metrics (add_retries (llen (take n (entries q))))
        (upd_metrics (add_error (itoa (parsePublishError err).1) (llen (take n (entries q))))
          (upd_metrics (add_response (itoa (parsePublishError err).1) 1) q1)))) Hmax)
      as [[k (He & _)] _].
    { simpl. by rewrite Hdr, take_drop. }
    exists k. split_and!; [|lia|done]. simpl in He. rewrite He.
    by rewrite Hdr, take_drop.
Qed.

Lemma round_suffix o t err p q :
  maxQueuedBytes o ≤ maxInt64 → sized (entries q) →
  IsRetriable (parsePublishError err).2 = true →
  ∃ k, entries (round o t err (p, q)).2 = drop k (entries q).
Proof.
  intros Hmax Hsz Hret. destruct (decide (entries q = [])) as [He|He].
  - exists 0%nat. rewrite round_empty by done. by rewrite drop_0.
  - pose proof (round_failing o t err p q Hmax Hsz Hret He) as H.
    destruct (round o t err (p, q)). destruct H as (_ & k & ? & _). by exists k.
Qed.

(** The state after [n] failing rounds, the answers being [errs]. *)
Lemma failing_rounds o t err p q n :
  maxQueuedBytes o ≤ maxInt64 → sized (entries q) →
  IsRetriable (parsePublishError err).2 = true → entries q ≠ [] →
  retrying p = false → Z.of_nat n ≤ r_max (retries p) →
  let '(p', q') := Nat.iter n (round o t err) (p, q) in
  ∃ k, entries q' = drop k (entries q) ∧
    ((0 < k)%nat ∨ k = 0%nat ∧ r_max (retries p') = r_max (retries p) ∧
     (if retrying p' then r_left (retries p') else r_max (retries p')) =
       r_max (retries p) - Z.of_nat n).
Proof.
  intros Hmax Hsz Hret Hne Hp. induction n as [|n IH]; intros Hn.
  { simpl. exists 0%nat. rewrite drop_0, Hp. split; [done|]. right. split_and!; lia. }
  specialize (IH ltac:(lia)). change (Nat.iter (S n) (round o t err) (p, q))
    with (round o t err (Nat.iter n (round o t err) (p, q))).
  destruct (Nat.iter n (round o t err) (p, q)) as [p1 q1].
  destruct IH as (k & He & Hk).
  assert (Hsz1 : sized (entries q1)) by (rewrite He; by apply Forall_drop).
  destruct (round_suffix o t err p1 q1 Hmax Hsz1 Hret) as [k2 He2].
  destruct Hk as [Hk|(-> & Hrm & Hleft)].
  - destruct (round o t err (p1, q1)) as [p2 q2]. simpl in He2.
    exists (k + k2)%nat. rewrite He2, He, drop_drop. split; [done|left; lia].
  - rewrite drop_0 in He.
    pose proof (round_failing o t err p1 q1 Hmax Hsz1 Hret ltac:(by rewrite He)) as H.
    cbv zeta in H. rewrite Hleft in H.
    destruct (round o t err (p1, q1)) as [p2 q2].
    destruct H as (Hrm2 & k3 & He3 & _ & Hgt). exists k3. rewrite He3, He. split; [done|].
    destruct (decide (k3 = 0)%nat) as [->|]; [right|left; lia].
    destruct Hgt as [-> ->]; [lia|]. split_and!; [done|congruence|lia].
Qed.

(** A remote that keeps failing with retriable errors does not block the
    queue for ever: after [maxRetries] retries the next failing round drops
    records from the front, and what is left is a suffix of the queue, so the
    records that survive keep their order. *)
Theorem retries_are_exhausted o t err p q :
  maxQueuedBytes o ≤ maxInt64 → sized (entries q) → 0 ≤ maxRetries o →
  IsRetriable (parsePublishError err).2 = true → entries q ≠ [] →
  p = newPusher o →
  let '(_, q') := Nat.iter (S (Z.to_nat (maxRetries o))) (round o t err) (p, q) in
  ∃ k, (0 < k)%nat ∧ entries q' = drop k (entries q).
Proof.
  intros Hmax Hsz Hpos Hret Hne ->.
  pose proof (failing_rounds o t err (newPusher o) q (Z.to_nat (maxRetries o))
    Hmax Hsz Hret Hne eq_refl ltac:(simpl; lia)) as H.
  set (m := Z.to_nat (maxRetries o)) in *.
  change (Nat.iter (S m) (round o t err) (newPusher o, q))
    with (round o t err (Nat.iter m (round o t err) (newPusher o, q))).
  destruct (Nat.iter m (round o t err) (newPusher o, q)) as [p1 q1].
  destruct H as (k & He & Hk).
  assert (Hsz1 : sized (entries q1)) by (rewrite He; by apply Forall_drop).
  destruct Hk as [Hk|(-> & Hrm & Hleft)].
  - destruct (round_suffix o t err p1 q1 Hmax Hsz1 Hret) as [k2 He2].
    destruct (round o t err (p1, q1)) as [p2 q2]. simpl in He2.
    exists (k + k2)%nat. rewrite He2, He, drop_drop. split; [lia|done].
  - rewrite drop_0 in He.
    pose proof (round_failing o t err p1 q1 Hmax Hsz1 Hret ltac:(by rewrite He)) as H.
    cbv zeta in H. rewrite Hleft in H. simpl in H.
    destruct (round o t err (p1, q1)) as [p2 q2]. destruct H as (_ & k & He2 & Hlt & _).
    exists k. rewrite He2, He. split; [|done]. apply Hlt. unfold m. lia.
Qed.

Lemma retries_are_exhausted_witness :
  let q := example_queue [example_entry 3 0; example_entry 4 1; example_entry 5 2] in
  let '(_, q') := Nat.iter 3 (round example_options 0 (Some (ErrText "connection refused")))
                    (newPusher example_options, q) in
  ∃ k, (0 < k)%nat ∧ entries q' = drop k (entries q).
Proof.
  apply (retries_are_exhausted example_options 0 (Some (ErrText "connection refused"))
    (newPusher example_options)
    (example_queue [example_entry 3 0; example_entry 4 1; example_entry 5 2])).
  - done.
  - repeat constructor; done.
  - done.
  - reflexivity.
  - done.
  - reflexivity.
Defined.
