(* ===== verification/Ledger.v ===== *)
(** * What becomes of the records of a queue

    The steps of [Queue.v] with the events that a ledger of the queue would record: the
    records that are inserted, what becomes of those whose push was answered, and the ones
    that the limits evict.  Runs with events are the runs of [Queue.step]. *)
From S2P Require Import Prelude Strs PushErrors Queue.

Open Scope Z_scope.

(** ** Events *)

Inductive outcome := Retried | Delivered | GivenUp.

(** What [push] does with records whose push returned [err]. *)
Definition outcomeOf (p : pusher) (err : error goerr) : outcome :=
  let pushErr := (parsePublishError err).2 in
  if IsRetriable pushErr && (retry (retries p)).1 then Retried
  else match kind pushErr with errKindNoError => Delivered | _ => GivenUp end.

Inductive event :=
  | Inserted (e : queueEntry) (evicted : list queueEntry)
  | Answered (records : list queueEntry) (out : outcome) (evicted : list queueEntry)
  | Quiet.

(** The front of [before] that is not in [after]. *)
Definition lost (before after : list queueEntry) : list queueEntry :=
  take (length before - length after) before.

(** The records of a system that are not settled, oldest first. *)
Definition unsettled (s : system) : list queueEntry := inflight (sp s) ++ entries (sq s).

(** The buffer of an insertion is new, or comes from the pool. *)
Definition available (s : system) (b : buffer) (rest : list nat) : Prop :=
  (storage b ∉ owned s ∧ rest = pool (sq s)) ∨
  ∃ l1 l2, pool (sq s) = l1 ++ storage b :: l2 ∧ rest = l1 ++ l2.

Inductive traced (o : pusherOptions) : event → system → system → Prop :=
  | traced_insert t t' q p b rest :
      available {| now := t; sq := q; sp := p |} b rest → llen (content b) ≤ maxInt64 → t ≤ t' →
      let e := {| data := b; ts := t |} in
      let q' := insert o b t t' (set_pool rest q) in
      traced o (Inserted e (lost (entries q ++ [e]) (entries q')))
        {| now := t; sq := q; sp := p |} {| now := t'; sq := q'; sp := p |}
  | traced_answer t q p records err :
      ph p = Sending records →
      let r := push_response o t err records p q in
      let evicted := match outcomeOf p err with Retried => lost (records ++ entries q) (entries r.2) | _ => [] end in
      traced o (Answered records (outcomeOf p err) evicted)
        {| now := t; sq := q; sp := p |} {| now := t; sq := r.2; sp := r.1 |}
  | traced_quiet s s' :
      step o s s' → unsettled s' = unsettled s → metrics (sq s') = metrics (sq s) →
      traced o Quiet s s'.

Inductive run (o : pusherOptions) : list event → system → system → Prop :=
  | run_nil s : run o [] s s
  | run_snoc evs ev s1 s2 s3 : run o evs s1 s2 → traced o ev s2 s3 → run o (evs ++ [ev]) s1 s3.

(** ** The ledger of a run *)

Definition inserted (evs : list event) : list queueEntry :=
  omap (λ ev, match ev with Inserted e _ => Some e | _ => None end) evs.
Definition settledAs (ok : outcome → bool) (evs : list event) : list queueEntry :=
  concat (map (λ ev, match ev with Answered records out _ => if ok out then records else [] | _ => [] end) evs).
Definition delivered : list event → list queueEntry :=
  settledAs (λ out, match out with Delivered => true | _ => false end).
Definition abandoned : list event → list queueEntry :=
  settledAs (λ out, match out with GivenUp => true | _ => false end).
Definition evicted (evs : list event) : list queueEntry :=
  concat (map (λ ev, match ev with Inserted _ l | Answered _ _ l => l | Quiet => [] end) evs).

Lemma settledAs_snoc ok evs ev : settledAs ok (evs ++ [ev]) = settledAs ok evs ++ settledAs ok [ev].
Proof. unfold settledAs. by rewrite map_app, concat_app. Qed.
Lemma evicted_snoc evs ev : evicted (evs ++ [ev]) = evicted evs ++ evicted [ev].
Proof. unfold evicted. by rewrite map_app, concat_app. Qed.
Lemma inserted_snoc evs ev : inserted (evs ++ [ev]) = inserted evs ++ inserted [ev].
Proof. unfold inserted. by rewrite omap_app. Qed.

(** ** Runs with events are the runs of the queue *)

Lemma traced_step o ev s s' : traced o ev s s' → step o s s'.
Proof.
  destruct 1 as [t t' q p b rest Hav Hl Ht e q'|t q p records err Hph r|]; [|by apply step_response|done].
  destruct Hav as [[Hfr ->]|(l1 & l2 & Hp & ->)]; [|by eapply step_insert_pooled].
  unfold q'. cbn [sq]. replace (set_pool (pool q) q) with q by by destruct q. by apply step_insert_new.
Qed.

Lemma push_get_unsettled o t q p :
  ph p = Woken →
  let s' := {| now := t; sq := (push_get o p q).2; sp := (push_get o p q).1 |} in
  unsettled s' = unsettled {| now := t; sq := q; sp := p |} ∧ metrics (sq s') = metrics q.
Proof.
  intros Hph. assert (Hi : inflight p = []) by (unfold inflight; by rewrite Hph).
  unfold push_get, unsettled. cbn [sq sp]. rewrite Hi. destruct (decide (entries q = [])) as [He|He].
  { rewrite get_empty by done. done. }
  destruct (get_shape o q He) as (n & Hn & Htk & Hdr & _ & Hm & _).
  destruct (get o q) as [records q']. simpl in Htk, Hdr, Hm. subst records.
  destruct (take n (entries q)) as [|e l] eqn:E.
  { apply (f_equal length) in E. rewrite length_take in E. simpl in E. lia. }
  cbn [fst snd sq sp inflight ph]. by rewrite Hdr, <-E, take_drop.
Qed.

Lemma step_traced o s s' : step o s s' → ∃ ev, traced o ev s s'.
Proof.
  intros Hs. pose proof Hs as H0.
  destruct Hs as [t q p t' Ht|t t' q p b Hfr Hl Ht|t t' q p b l1 l2 Hpl Hl Ht
    |t q p a l1 l2 Hpl|t q p a Hfr|t q p Hph Hpd|t q p Hph|t q p r err Hph|t q p Hph|t q p Hph|t q p err Hph].
  2: { eexists. replace q with (set_pool (pool q) q) at 3 by by destruct q. apply traced_insert; [by left|done..]. }
  2: { eexists. apply traced_insert; [right; by exists l1, l2|done..]. }
  5: { exists Quiet. destruct (push_get_unsettled o t q p Hph). by constructor. }
  5: { eexists. by apply traced_answer. }
  all: exists Quiet; constructor; try done; unfold unsettled, inflight; simpl; rewrite ?Hph; try done.
  by destruct Hph as [-> | ->].
Qed.

Lemma run_reachable o t evs s : run o evs (init t o) s → reachable o s.
Proof.
  intros H. exists t. remember (init t o) as s0 eqn:E. induction H as [|evs ev s1 s2 s3 _ IH Hs]; [done|].
  apply rtc_r with s2; [by apply IH|by eapply traced_step].
Qed.

Lemma reachable_run o s : reachable o s → ∃ t evs, run o evs (init t o) s.
Proof.
  intros [t H]. exists t. revert s H. apply rtc_ind_r; [exists []; constructor|].
  intros s1 s2 _ [ev Hev]%step_traced [evs IH]. exists (evs ++ [ev]). by econstructor.
Qed.

(** ** Every record is accounted for *)

Lemma lost_drop k before after : after = drop k before → lost before after ++ after = before.
Proof.
  intros ->. unfold lost. rewrite length_drop. destruct (decide (k ≤ length before)%nat).
  - replace (length before - (length before - k))%nat with k by lia. apply take_drop.
  - rewrite !drop_ge by lia. rewrite take_ge by lia. by rewrite app_nil_r.
Qed.

Lemma lost_applyLimits o now q :
  maxQueuedBytes o ≤ maxInt64 → sized (entries q) →
  lost (entries q) (entries (applyLimits o now q)) ++ entries (applyLimits o now q) = entries q.
Proof.
  intros Hmax Hsz. destruct (applyLimits_spec o now q Hmax Hsz) as [[k (He & _)] _]. by eapply lost_drop.
Qed.

(** What an answer does to the records and to the counter of pushed records. *)
Lemma push_response_outcome o t err records p q :
  let r := push_response o t err records p q in
  inflight r.1 = [] ∧
  match outcomeOf p err with
  | Retried => ∃ m, r.2 = requeue o records t (upd_metrics m q) ∧ PushCounter (m (metrics q)) = PushCounter (metrics q)
  | out => entries r.2 = entries q ∧
      PushCounter (metrics r.2) = PushCounter (metrics q) + match out with Delivered => llen records | _ => 0 end
  end.
Proof.
  unfold push_response, outcomeOf. destruct (parsePublishError err) as [code pe]. cbn [snd].
  assert (Hdrop : ∀ q0 p0, entries q0 = entries q → PushCounter (metrics q0) = PushCounter (metrics q) →
    let r := (let '(size, q1) := returnAll records q0 in push_switch (itoa code) (llen records) size pe p0 q1) in
    inflight r.1 = [] ∧ entries r.2 = entries q ∧
    PushCounter (metrics r.2) = PushCounter (metrics q) + match kind pe with errKindNoError => llen records | _ => 0 end).
  { intros q0 p0 He Hm. pose proof (returnAll_queue records q0) as Hr. destruct (returnAll records q0) as [size q1].
    simpl in Hr. subst q1. unfold push_switch. destruct (kind pe); simpl; rewrite He, Hm; (split; [done|split; [done|lia]]). }
  cbv zeta. destruct (IsRetriable pe) eqn:Er; cbn [andb].
  - destruct (retry (retries p)) as [[] c]; cbn [fst].
    + split; [done|]. eexists. split; [unfold upd_metrics; simpl; instantiate (1 := λ m, add_retries _ (add_error _ _ (add_response _ _ m))); reflexivity|done].
    + edestruct Hdrop as (H1 & H2 & H3); [..|split; [exact H1|]]; [done|done|].
      destruct (kind pe); (split; [exact H2|exact H3]).
  - edestruct Hdrop as (H1 & H2 & H3); [..|split; [exact H1|]]; [done|done|].
    destruct (kind pe); (split; [exact H2|exact H3]).
Qed.

Lemma limits_push_counter o now q : PushCounter (metrics (applyLimits o now q)) = PushCounter (metrics q).
Proof.
  assert (Hr : ∀ l q, metrics (returnAll l q).2 = metrics q) by (intros; by rewrite returnAll_queue).
  assert (H1 : metrics (limitBytes (maxQueuedBytes o) q).2 = metrics q).
  { unfold limitBytes. destruct (_ <=? 0); [done|]. destruct (limitBytes_loop _ _ _ _) as [|k]; [done|].
    specialize (Hr (take (S k) (entries q)) q). by destruct (returnAll _ _). }
  assert (H2 : ∀ q, metrics (limitAge now (maxQueuedTime o) q).2 = metrics q).
  { clear H1 q. intros q. unfold limitAge. destruct (entries q) as [|e l]; [done|]. destruct (_ <=? 0); [done|].
    destruct (negb _); [done|]. cbv zeta. set (idx := search _ _). destruct (_ <? _)%nat; [|done].
    specialize (Hr (take idx (e :: l)) q). by destruct (returnAll _ _). }
  unfold applyLimits. destruct (limitBytes _ _) as [n1 q1]. specialize (H2 q1). destruct (limitAge _ _ _) as [n2 q2].
  simpl in H1, H2. destruct (_ <? _)%nat; simpl; by rewrite H2, H1.
Qed.

(** The ledger of a run that ends in [s]. *)
Record balanced (evs : list event) (s : system) : Prop := {
  bal_all : inserted evs ≡ₚ (delivered evs ++ abandoned evs ++ evicted evs) ++ unsettled s;
  bal_order : delivered evs ++ unsettled s `sublist_of` inserted evs;
  bal_pushed : PushCounter (metrics (sq s)) = llen (delivered evs);
}.

(** A step that settles [d] as delivered and [x] otherwise, after adding [i]. *)
Lemma balanced_snoc evs ev s s' d x :
  balanced evs s →
  delivered [ev] = d → abandoned [ev] ++ evicted [ev] = x →
  unsettled s ++ inserted [ev] ≡ₚ d ++ x ++ unsettled s' → d ++ unsettled s' `sublist_of` unsettled s ++ inserted [ev] →
  PushCounter (metrics (sq s')) = PushCounter (metrics (sq s)) + llen d →
  balanced (evs ++ [ev]) s'.
Proof.
  intros [Ha Ho Hp] Hd Hx Hperm Hsub Hm. unfold delivered, abandoned in *.
  split; unfold delivered, abandoned; rewrite ?settledAs_snoc, ?evicted_snoc, ?inserted_snoc, ?Hd.
  - rewrite Ha. rewrite <-app_assoc, Hperm, <-Hx. solve_Permutation.
  - rewrite <-app_assoc. transitivity (settledAs (λ out, match out with Delivered => true | _ => false end) evs ++ unsettled s ++ inserted [ev]).
    + by apply sublist_app.
    + rewrite app_assoc. by apply sublist_app.
  - rewrite Hm, Hp. unfold llen. rewrite length_app. lia.
Qed.

Lemma traced_balanced o evs ev s s' :
  maxQueuedBytes o ≤ maxInt64 → inv o s → traced o ev s s' → balanced evs s → balanced (evs ++ [ev]) s'.
Proof.
  intros Hmax Hinv Ht Hb. pose proof (inv_sized _ _ Hinv) as [_ Hsz]%Forall_app.
  pose proof (inv_sized _ _ Hinv) as Hall.
  destruct Ht as [t t' q p b rest Hav Hl Hle e q'|t q p records err Hph r ev'|s s' Hst Hu Hm]; cbn [sq sp] in *.
  - assert (El : lost (entries q ++ [e]) (entries q') ++ entries q' = entries q ++ [e]).
    { apply (lost_applyLimits o t' (set_entries (entries (set_pool rest q) ++ [e]) (set_pool rest q)) Hmax).
      apply Forall_app. split; [done|]. by repeat constructor. }
    assert (Hm : PushCounter (metrics q') = PushCounter (metrics q)).
    { unfold q', insert. cbn [metrics Signal]. by rewrite limits_push_counter. }
    revert El. generalize (lost (entries q ++ [e]) (entries q')) as l. intros l El. clearbody e q'.
    eapply balanced_snoc; [done|done|done|..]; unfold unsettled; cbn [sq sp].
    + cbn. rewrite app_nil_r, <-app_assoc, <-El. solve_Permutation.
    + cbn. rewrite <-app_assoc, <-El. apply sublist_app; [done|]. by apply sublist_inserts_l.
    + rewrite Hm. symmetry. apply Z.add_0_r.
  - destruct (push_response_outcome o t err records p q) as [Hi Ho]. fold r in Hi, Ho.
    assert (Hin : unsettled {| now := t; sq := q; sp := p |} = records ++ entries q).
    { unfold unsettled, inflight. cbn [sp sq]. by rewrite Hph. }
    unfold inflight in Hall. cbn [sp sq] in Hall. rewrite Hph in Hall.
    destruct (outcomeOf p err).
    + destruct Ho as (m & Er & Hm).
      assert (El : ev' ++ entries r.2 = records ++ entries q ∧ PushCounter (metrics r.2) = PushCounter (metrics q)).
      { unfold ev'. rewrite Er. destruct (decide (records = [])) as [->|Hne].
        - cbn. split; [|done]. by apply (lost_drop 0%nat).
        - rewrite requeue_unfold by done. cbn [Signal entries metrics]. rewrite limits_push_counter. split; [|done].
          by apply (lost_applyLimits o t (set_entries (records ++ entries q) (upd_metrics m q)) Hmax). }
      destruct El as [El Em]. clearbody ev'.
      eapply balanced_snoc; [done|done|done|..]; rewrite ?Hin; unfold unsettled; cbn [sq sp]; rewrite ?Hi.
      * cbn. by rewrite !app_nil_r, <-El.
      * cbn. rewrite app_nil_r, <-El. by apply sublist_inserts_l.
      * rewrite Em. symmetry. apply Z.add_0_r.
    + destruct Ho as [He Hm]. subst ev'. eapply balanced_snoc; [done|done|done|..]; rewrite ?Hin; unfold unsettled; cbn [sq sp]; rewrite ?Hi, ?He.
      * cbn. by rewrite !app_nil_r.
      * cbn. by rewrite !app_nil_r.
      * rewrite Hm. cbn. by rewrite app_nil_r.
    + destruct Ho as [He Hm]. subst ev'. eapply balanced_snoc; [done|done|done|..]; rewrite ?Hin; unfold unsettled; cbn [sq sp]; rewrite ?Hi, ?He.
      * cbn. by rewrite !app_nil_r.
      * cbn. rewrite app_nil_r. by apply sublist_inserts_l.
      * exact Hm.
  - eapply balanced_snoc; [done|done|done|..]; rewrite ?Hu, ?Hm; cbn; rewrite ?app_nil_r; try done.
    symmetry. apply Z.add_0_r.
Qed.

Lemma run_balanced o t evs s :
  maxQueuedBytes o ≤ maxInt64 → run o evs (init t o) s → inv o s ∧ balanced evs s.
Proof.
  intros Hmax H. remember (init t o) as s0 eqn:E. induction H as [s|evs ev s1 s2 s3 _ IH Ht].
  - subst s. split; [apply inv_init|]. by split.
  - destruct (IH E) as [Hi Hb]. split; [by eapply step_inv, traced_step|by eapply traced_balanced].
Qed.

(** Without limits nothing is evicted. *)
Lemma applyLimits_off o now q : maxQueuedBytes o ≤ 0 → maxQueuedTime o ≤ 0 → applyLimits o now q = q.
Proof.
  intros Hb Ht. unfold applyLimits, limitBytes. destruct (Z.leb_spec (maxQueuedBytes o) 0); [|lia].
  unfold limitAge. destruct (entries q); [done|]. destruct (Z.leb_spec (maxQueuedTime o) 0); [done|lia].
Qed.

Lemma lost_same l : lost l l = [].
Proof. unfold lost. by rewrite Nat.sub_diag. Qed.

Lemma run_unlimited o t evs s :
  maxQueuedBytes o ≤ 0 → maxQueuedTime o ≤ 0 → run o evs (init t o) s → evicted evs = [].
Proof.
  intros Hb Ht H. induction H as [|evs ev s1 s2 s3 _ IH Hs]; [done|]. rewrite evicted_snoc, IH. cbn [app].
  destruct Hs as [t1 t' q p b rest Hav Hl Hle e q'|t1 q p records err Hph r ev'|]; [..|done]; cbn; rewrite app_nil_r.
  - unfold q', insert. cbn [entries Signal]. rewrite applyLimits_off by done. apply lost_same.
  - destruct (push_response_outcome o t1 err records p q) as [_ Ho]. fold r in Ho.
    unfold ev'. destruct (outcomeOf p err); [|done..]. destruct Ho as (m & -> & _).
    destruct records as [|x records]; [apply lost_same|]. cbn [requeue Signal entries].
    rewrite applyLimits_off by done. apply lost_same.
Qed.

(** C2: every record is accounted for. In every run of a queue and its push loop, however
    insertions, answers, retries, cancellations and restarts interleave, the records that
    were inserted are exactly those that were delivered, given up after an answer, evicted
    by a limit, in flight or queued, each once. Delivery keeps the order of insertion: the
    delivered records followed by those in flight and the queued ones are a subsequence
    of the inserted ones, so no record is delivered twice or out of order. The counter of
    pushed records is the number delivered (a float64, exact below 2^53), and without limits
    nothing is evicted. *)
Theorem records_accounted o t evs s :
  maxQueuedBytes o ≤ maxInt64 → run o evs (init t o) s →
  inserted evs ≡ₚ (delivered evs ++ abandoned evs ++ evicted evs) ++ inflight (sp s) ++ entries (sq s) ∧
  delivered evs ++ inflight (sp s) ++ entries (sq s) `sublist_of` inserted evs ∧
  PushCounter (metrics (sq s)) = llen (delivered evs) ∧
  (maxQueuedBytes o ≤ 0 → maxQueuedTime o ≤ 0 → evicted evs = []).
Proof.
  intros Hmax H. destruct (run_balanced o t evs s Hmax H) as [_ [Ha Ho Hp]].
  split_and!; [done..|]. intros Hb Ht. by eapply run_unlimited.
Qed.

(** ** Runs step by step *)

Definition inserting (o : pusherOptions) (b : buffer) (s : system) : system :=
  {| now := now s; sq := insert o b (now s) (now s) (set_pool (pool (sq s)) (sq s)); sp := sp s |}.
Definition waking (s : system) : system := {| now := now s; sq := consume (sq s); sp := goto (sp s) Woken |}.
Definition getting (o : pusherOptions) (s : system) : system :=
  let r := push_get o (sp s) (sq s) in {| now := now s; sq := r.2; sp := r.1 |}.
Definition answering (o : pusherOptions) (err : error goerr) (s : system) : system :=
  let r := push_response o (now s) err (inflight (sp s)) (sp s) (sq s) in {| now := now s; sq := r.2; sp := r.1 |}.

Lemma run_inserting o evs e l s0 s :
  bool_decide (storage (data e) ∉ owned s) = true → esize e ≤ maxInt64 → ts e = now s →
  lost (entries (sq s) ++ [e]) (entries (sq (inserting o (data e) s))) = l →
  run o evs s0 s → run o (evs ++ [Inserted e l]) s0 (inserting o (data e) s).
Proof.
  intros Hb Hsz Ht <- Hr. eapply run_snoc; [exact Hr|]. destruct s as [t q p], e as [b t']. cbn [now sq sp data ts] in *. subst t'.
  apply (traced_insert o t t q p b (pool q)); [left|done|lia]. split; [by apply (bool_decide_unpack _); rewrite Hb|done].
Qed.

Lemma run_waking o evs s0 s :
  ph (sp s) = Waiting → pending (sq s) = true → run o evs s0 s → run o (evs ++ [Quiet]) s0 (waking s).
Proof.
  intros Hp Hq Hr. eapply run_snoc; [exact Hr|]. destruct s as [t q p]. constructor; [by apply step_wake| |done].
  unfold unsettled, inflight. cbn [sp waking goto ph sq consume entries]. cbn [sp] in Hp. by rewrite Hp.
Qed.

Lemma run_getting o evs s0 s : ph (sp s) = Woken → run o evs s0 s → run o (evs ++ [Quiet]) s0 (getting o s).
Proof.
  intros Hp Hr. eapply run_snoc; [exact Hr|]. destruct s as [t q p].
  destruct (push_get_unsettled o t q p Hp). by constructor; [apply step_get| |].
Qed.

Lemma run_answering o evs records err out l s0 s :
  ph (sp s) = Sending records → outcomeOf (sp s) err = out →
  match out with Retried => lost (records ++ entries (sq s)) (entries (sq (answering o err s))) | _ => [] end = l →
  run o evs s0 s → run o (evs ++ [Answered records out l]) s0 (answering o err s).
Proof.
  intros Hp <- <- Hr. eapply run_snoc; [exact Hr|]. destruct s as [t q p]. unfold answering, inflight.
  cbn [sp] in Hp. cbn [sp sq now]. rewrite Hp. by apply traced_answer.
Qed.

(** A push of the first of two records fails; while it is out a third is inserted, so that
    the first is evicted when it is put back, and then the second is delivered. *)
Definition sampleRecord (n : nat) : queueEntry := example_entry (n + 4) 0.
Definition sampleEvents : list event :=
  [Inserted (sampleRecord 0) []; Inserted (sampleRecord 1) []; Quiet; Quiet; Inserted (sampleRecord 2) [];
   Answered [sampleRecord 0] Retried [sampleRecord 0]; Quiet; Quiet; Quiet; Answered [sampleRecord 1] Delivered []].

Definition sampleSent : system :=
  inserting example_options (data (sampleRecord 2)) (getting example_options (waking
    (inserting example_options (data (sampleRecord 1))
      (inserting example_options (data (sampleRecord 0)) (init 0 example_options))))).
Definition sampleRetried : system := answering example_options (Some (ErrText "connection refused")) sampleSent.
Definition sampleSlept : system :=
  {| now := now sampleRetried; sq := sq sampleRetried; sp := goto (sp sampleRetried) Waiting |}.
Definition sampleEnd : system :=
  answering example_options None (getting example_options (waking sampleSlept)).

Lemma sample_run : run example_options sampleEvents (init 0 example_options) sampleEnd.
Proof.
  assert (Hsent : run example_options (take 5 sampleEvents) (init 0 example_options) sampleSent).
  { apply (run_inserting _ (take 4 sampleEvents) (sampleRecord 2)); [vm_compute; congruence..|].
    apply (run_getting _ (take 3 sampleEvents)), (run_waking _ (take 2 sampleEvents)); [reflexivity..|].
    apply (run_inserting _ (take 1 sampleEvents) (sampleRecord 1)); [vm_compute; congruence..|].
    apply (run_inserting _ [] (sampleRecord 0)); [vm_compute; congruence..|]. constructor. }
  assert (Hretried : run example_options (take 6 sampleEvents) (init 0 example_options) sampleRetried).
  { apply (run_answering _ (take 5 sampleEvents)); [by vm_compute..|exact Hsent]. }
  assert (Hslept : run example_options (take 7 sampleEvents) (init 0 example_options) sampleSlept).
  { eapply (run_snoc _ (take 6 sampleEvents)); [exact Hretried|]. constructor; [|by vm_compute..].
    apply (step_slept example_options 0 (sq sampleRetried)). by vm_compute. }
  apply (run_answering _ (take 9 sampleEvents)); [by vm_compute..|].
  apply (run_getting _ (take 8 sampleEvents)), (run_waking _ (take 7 sampleEvents)); [by vm_compute..|exact Hslept].
Qed.

Lemma records_accounted_witness :
  inserted sampleEvents = map sampleRecord [0; 1; 2]%nat ∧
  inserted sampleEvents ≡ₚ ([sampleRecord 1] ++ [] ++ [sampleRecord 0]) ++ [] ++ [sampleRecord 2] ∧
  PushCounter (metrics (sq sampleEnd)) = 1.
Proof.
  destruct (records_accounted example_options 0 sampleEvents sampleEnd) as (Ha & _ & Hp & _).
  - vm_compute. discriminate.
  - apply sample_run.
  - split; [reflexivity|]. split; [exact Ha|exact Hp].
Defined.
