(* ===== verification/Snappy.v ===== *)
(** * Concatenation of snappy streams

    [internal/pusher/v2/snappy_concat.go]: a reader that serves several
    snappy-encoded buffers as one, by summing the lengths in their headers.
    Also [newConcatReader] of [queue.go].  The varint codec is the one of Go's
    [encoding/binary]. *)
From S2P Require Import Prelude Strs PushErrors Queue.
From Stdlib Require Import Strings.Byte.

Open Scope Z_scope.

(** ** [encoding/binary] varints *)

Definition byteZ (b : byte) : Z := Z.of_N (Byte.to_N b).
Definition Zbyte (z : Z) : byte :=
  match Byte.of_N (Z.to_N (z `mod` 256)) with Some b => b | None => x00 end.

Definition MaxVarintLen64 : Z := 10.

(** [binary.AppendUvarint]/[PutUvarint]: the bytes of [x]; a 64-bit number
    needs ten of them at most. *)
Fixpoint uvarint_bytes (fuel : nat) (x : Z) : list byte :=
  match fuel with
  | O => []
  | S fuel =>
      if 128 <=? x then Zbyte (Z.lor x 128) :: uvarint_bytes fuel (Z.shiftr x 7)
      else [Zbyte x]
  end.
Definition putUvarint (x : Z) : list byte := uvarint_bytes 10 x.
Arguments putUvarint : simpl never.

(** [binary.Uvarint(buf)]: the value and the number of bytes read; (0, 0) when
    the buffer is too short, (0, -(i+1)) when the value overflows 64 bits. *)
Fixpoint uvarint_loop (i : Z) (x s : Z) (buf : list byte) : Z * Z :=
  match buf with
  | [] => (0, 0)
  | b :: buf =>
      if i =? MaxVarintLen64 then (0, - (i + 1))
      else if byteZ b <? 128 then
        if (i =? MaxVarintLen64 - 1) && (1 <? byteZ b) then (0, - (i + 1))
        else (Z.lor x (u64 (Z.shiftl (byteZ b) s)), i + 1)
      else uvarint_loop (i + 1) (Z.lor x (u64 (Z.shiftl (Z.land (byteZ b) 127) s))) (s + 7) buf
  end.
Definition uvarint (buf : list byte) : Z * Z := uvarint_loop 0 0 0 buf.

(** ** The reader *)

Record SnappyConcatReader := { Streams : list (list byte); init : bool }.

Definition newConcatReader (records : list queueEntry) : SnappyConcatReader :=
  {| Streams := map (λ rec, content (data rec)) records; init := false |}.

(** [s.Streams[idx][skip:]] panics when [skip] is negative. *)
Fixpoint stripHeaders (streams : list (list byte)) : go (Z * list (list byte)) :=
  match streams with
  | [] => Ret (0, [])
  | s :: streams =>
      let '(streamLen, skip) := uvarint s in
      if skip <? 0 then Panic "slice bounds out of range"
      else
        '(totalLength, rest) ← stripHeaders streams;
        Ret (u64 (streamLen + totalLength), drop (Z.to_nat skip) s :: rest)
  end.

(** The two loops of [Read] that copy streams: [room] is the space left in the
    output; the bytes written and the streams left. *)
Fixpoint copyStreams (room : nat) (streams : list (list byte)) : list byte * list (list byte) :=
  match streams with
  | [] => ([], [])
  | s :: streams' =>
      if (length s <=? room)%nat then
        let '(out, rest) := copyStreams (room - length s) streams' in (s ++ out, rest)
      else
        if (0 <? room)%nat then (take room s, drop room s :: streams') else ([], streams)
  end.

Inductive readErr := ErrShortBuffer | EOF.

(** [Read(out)] with [len(out) = n]: the bytes written and the error. *)
Definition Read (n : nat) (r : SnappyConcatReader)
    : go (list byte * error readErr * SnappyConcatReader) :=
  '(hdr, streams, err) ←
    (if init r then Ret ([], Streams r, None)
     else
       '(decodedLen, streams) ← stripHeaders (Streams r);
       if (Z.of_nat n <? MaxVarintLen64) && (Z.shiftl 1 (7 * Z.of_nat n) <=? decodedLen)
       then Ret ([], streams, Some ErrShortBuffer)
       else if (length (putUvarint decodedLen) <=? n)%nat
            then Ret (putUvarint decodedLen, streams, None)
            else Panic "index out of range");
  match err with
  | Some e => Ret ([], Some e, {| Streams := streams; init := true |})
  | None =>
      match hdr, streams with
      | [], [] => Ret ([], Some EOF, {| Streams := []; init := true |})
      | _, _ =>
          let '(out, rest) := copyStreams (n - length hdr) streams in
          Ret (hdr ++ out, None, {| Streams := rest; init := true |})
      end
  end.

(** What the consumer does: read with buffers of the given sizes, until [EOF]. *)
Fixpoint readAll (sizes : list nat) (r : SnappyConcatReader) : go (list byte * error readErr) :=
  match sizes with
  | [] => Ret ([], None)
  | n :: sizes =>
      '(out, err, r) ← Read n r;
      match err with
      | Some e => Ret (out, Some e)
      | None => '(out', err) ← readAll sizes r; Ret (out ++ out', err)
      end
  end.

(** ** Reference: one snappy block *)

(** A snappy block is the varint of the decoded length and a body. *)
Definition block (len : Z) (body : list byte) : list byte := putUvarint len ++ body.

(** The block the reader stands for. *)
Definition concatBlock (blocks : list (Z * list byte)) : list byte :=
  block (foldr (λ b n, u64 (b.1 + n)) 0 blocks) (concat (map snd blocks)).

(** ** The codec *)

Lemma byteZ_Zbyte z : byteZ (Zbyte z) = z `mod` 256.
Proof.
  unfold byteZ, Zbyte. pose proof (Z.mod_pos_bound z 256 ltac:(lia)).
  destruct (Byte.of_N (Z.to_N (z `mod` 256))) as [b|] eqn:E.
  - apply Byte.to_of_N in E. rewrite E. lia.
  - apply Byte.of_N_None_iff in E. lia.
Qed.

(** Bits above and below [s] do not interfere. *)
Lemma lor_shiftl acc y s :
  0 ≤ s → 0 ≤ acc < 2 ^ s → Z.lor acc (Z.shiftl y s) = acc + y * 2 ^ s.
Proof.
  intros Hs Hacc. rewrite <-Z.shiftl_mul_pow2 by done. symmetry. apply Z.add_nocarry_lor.
  apply Z.bits_inj'. intros n Hn. rewrite Z.land_spec, Z.bits_0.
  destruct (Z_lt_le_dec n s).
  - rewrite Z.shiftl_spec_low by done. apply andb_false_r.
  - rewrite <-(Z.mod_small acc (2 ^ s)) by done. by rewrite Z.mod_pow2_bits_high by lia.
Qed.

Lemma lor_128 x : 0 ≤ x → (Z.lor x 128) `mod` 256 = x `mod` 128 + 128.
Proof.
  intros Hx. assert (Hb : 0 ≤ x `mod` 128 < 128) by (apply Z.mod_pos_bound; lia).
  transitivity (Z.lor (x `mod` 2 ^ 7) (Z.shiftl 1 7)).
  - change 256 with (2 ^ 8). change 128 with (Z.shiftl 1 7).
    rewrite <-!Z.land_ones by lia. rewrite Z.land_lor_distr_l.
    change (Z.land (Z.shiftl 1 7) (Z.ones 8)) with (Z.shiftl 1 7).
    apply Z.bits_inj'. intros n Hn. rewrite !Z.lor_spec, !Z.land_spec.
    change (Z.shiftl 1 7) with (2 ^ 7). rewrite Z.pow2_bits_eqb by lia.
    destruct (Z.eqb_spec 7 n) as [->|]; [by rewrite !orb_true_r|]. rewrite !orb_false_r.
    destruct (Z_lt_le_dec n 7); [by rewrite !Z.ones_spec_low by lia|].
    by rewrite !Z.ones_spec_high by lia.
  - change (x `mod` 2 ^ 7) with (x `mod` 128).
    rewrite lor_shiftl by (change (2 ^ 7) with 128; lia). done.
Qed.

Lemma uvarint_loop_spec fuel i acc x rest :
  Z.of_nat fuel + i = 10 → (0 < fuel)%nat → 0 ≤ i →
  0 ≤ acc < 2 ^ (7 * i) → 0 ≤ x → acc + x * 2 ^ (7 * i) < two64 →
  uvarint_loop i acc (7 * i) (uvarint_bytes fuel x ++ rest) =
  (acc + x * 2 ^ (7 * i), i + llen (uvarint_bytes fuel x)).
Proof.
  revert i acc x. induction fuel as [|fuel IH]; intros i acc x Hf Hpos Hi Hacc Hx Hlt; [lia|].
  assert (Hp : 0 < 2 ^ (7 * i)) by (apply Z.pow_pos_nonneg; lia).
  assert (Hi9 : i ≤ 9) by lia.
  cbn [uvarint_bytes]. destruct (Z.leb_spec 128 x) as [Hge|Hsm].
  - (* more bytes follow *)
    assert (Hfuel : (0 < fuel)%nat).
    { destruct fuel; [|lia]. assert (i = 9) as -> by lia.
      change (2 ^ (7 * 9)) with 9223372036854775808 in *. unfold two64 in *. lia. }
    change ((Zbyte (Z.lor x 128) :: uvarint_bytes fuel (Z.shiftr x 7)) ++ rest)
      with (Zbyte (Z.lor x 128) :: (uvarint_bytes fuel (Z.shiftr x 7) ++ rest)).
    cbn [uvarint_loop]. rewrite byteZ_Zbyte, lor_128 by lia.
    unfold MaxVarintLen64. rewrite (proj2 (Z.eqb_neq i 10)) by lia.
    pose proof (Z.mod_pos_bound x 128 ltac:(lia)) as Hm.
    rewrite (proj2 (Z.ltb_ge _ 128)) by lia.
    change 127 with (Z.ones 7). rewrite Z.land_ones by lia. change (2 ^ 7) with 128.
    assert ((x `mod` 128 + 128) `mod` 128 = x `mod` 128) as ->.
    { replace (x `mod` 128 + 128) with (x `mod` 128 + 1 * 128) by lia.
      rewrite Z.mod_add by lia. by apply Z.mod_small. }
    pose proof (Z.div_mod x 128 ltac:(lia)) as Hdm.
    assert (Hdp : 0 ≤ x / 128) by (apply Z.div_pos; lia).
    rewrite u64_id; [|rewrite Z.shiftl_mul_pow2 by lia; nia].
    rewrite lor_shiftl by lia.
    rewrite Z.shiftr_div_pow2 by lia. change (2 ^ 7) with 128.
    assert (Epow : 2 ^ (7 * (i + 1)) = 128 * 2 ^ (7 * i)).
    { replace (7 * (i + 1)) with (7 + 7 * i) by lia. rewrite Z.pow_add_r by lia. done. }
    replace (7 * i + 7) with (7 * (i + 1)) by lia.
    rewrite IH; [|lia|lia|lia|rewrite Epow; nia|lia|rewrite Epow; nia].
    f_equal; [rewrite Epow; nia|]. unfold llen. simpl length. lia.
  - (* the last byte *)
    cbn [app uvarint_loop]. rewrite byteZ_Zbyte, Z.mod_small by lia.
    unfold MaxVarintLen64. rewrite (proj2 (Z.eqb_neq i 10)) by lia.
    rewrite (proj2 (Z.ltb_lt _ 128)) by lia.
    assert ((i =? 10 - 1) && (1 <? x) = false) as ->.
    { destruct (Z.eqb_spec i (10 - 1)) as [->|]; [|done].
      change (2 ^ (7 * (10 - 1))) with 9223372036854775808 in *. unfold two64 in *. lia. }
    rewrite u64_id by (rewrite Z.shiftl_mul_pow2 by lia; nia).
    rewrite lor_shiftl by lia. done.
Qed.

Lemma uvarint_putUvarint x rest :
  0 ≤ x < two64 → uvarint (putUvarint x ++ rest) = (x, llen (putUvarint x)).
Proof.
  intros Hx. unfold uvarint, putUvarint.
  change 0 with (7 * 0) at 3. rewrite uvarint_loop_spec; try lia.
  f_equal; lia.
Qed.

Lemma uvarint_bytes_length fuel x : (length (uvarint_bytes fuel x) ≤ fuel)%nat.
Proof.
  revert x. induction fuel as [|fuel IH]; intros x; simpl; [lia|].
  destruct (128 <=? x); simpl; [|lia]. specialize (IH (Z.shiftr x 7)). lia.
Qed.

Lemma uvarint_bytes_pos fuel x : (0 < fuel)%nat → (1 ≤ length (uvarint_bytes fuel x))%nat.
Proof. destruct fuel; [lia|]. intros _. simpl. destruct (128 <=? x); simpl; lia. Qed.

Lemma putUvarint_length x : (1 ≤ length (putUvarint x) ≤ 10)%nat.
Proof. split; [apply uvarint_bytes_pos; lia|apply uvarint_bytes_length]. Qed.

(** ** The reader serves the reference block *)

Definition valid_block (b : Z * list byte) : Prop := 0 ≤ b.1 < two64.

Lemma stripHeaders_blocks blocks :
  Forall valid_block blocks →
  stripHeaders (map (λ b, block b.1 b.2) blocks) =
  Ret (foldr (λ b n, u64 (b.1 + n)) 0 blocks, map snd blocks).
Proof.
  induction 1 as [|b blocks Hb _ IH]; [done|]. cbn [map stripHeaders foldr].
  unfold block at 1. rewrite uvarint_putUvarint by done.
  rewrite (proj2 (Z.ltb_ge _ 0)) by (unfold llen; lia).
  rewrite IH. cbn. repeat f_equal. unfold llen. rewrite Nat2Z.id.
  unfold block. by rewrite drop_app_length.
Qed.

Definition bytesLeft (streams : list (list byte)) : nat := length (concat streams).

(** Reading never skips, repeats or reorders a byte. *)
Lemma copyStreams_app room streams :
  let '(out, rest) := copyStreams room streams in
  out ++ concat rest = concat streams ∧ (length out ≤ room)%nat ∧
  (length rest ≤ length streams)%nat ∧
  (rest ≠ [] → length out = room).
Proof.
  revert room. induction streams as [|s streams IH]; intros room; simpl; [split_and!; [done|lia|lia|done]|].
  destruct (Nat.leb_spec (length s) room).
  - specialize (IH (room - length s)%nat).
    destruct (copyStreams (room - length s) streams) as [out rest].
    destruct IH as (E & Hl & Hr & Hf). rewrite <-app_assoc, E, length_app.
    split_and!; [done|lia|lia|]. intros Hne. specialize (Hf Hne). lia.
  - destruct (Nat.ltb_spec 0 room); simpl.
    + rewrite app_assoc, take_drop, length_take. split_and!; [done|lia|lia|lia].
    + split_and!; [done|lia|lia|lia].
Qed.

Lemma copyStreams_progress room streams :
  (0 < room)%nat → streams ≠ [] →
  let '(_, rest) := copyStreams room streams in
  (bytesLeft rest + length rest < bytesLeft streams + length streams)%nat.
Proof.
  intros Hroom Hne. pose proof (copyStreams_app room streams) as H.
  destruct (copyStreams room streams) as [out rest] eqn:E.
  destruct H as (Eq & Hl & Hr & Hf). unfold bytesLeft.
  assert (length (concat streams) = length out + length (concat rest))%nat
    by (by rewrite <-Eq, length_app).
  destruct rest as [|r rest]; [destruct streams; simpl in *; [done|lia]|].
  specialize (Hf ltac:(done)). simpl in *. lia.
Qed.

Definition started (streams : list (list byte)) : SnappyConcatReader :=
  {| Streams := streams; init := true |}.

(** Once the header was served, enough reads with non-empty buffers give the
    bytes that are left, then [EOF]. *)
Lemma readAll_started sizes streams :
  Forall (λ n, (0 < n)%nat) sizes →
  (bytesLeft streams + length streams < length sizes)%nat →
  readAll sizes (started streams) = Ret (concat streams, Some EOF).
Proof.
  revert streams. induction sizes as [|n sizes IH]; intros streams Hpos Hlen; [simpl in Hlen; lia|].
  apply Forall_cons in Hpos as [Hn Hpos]. cbn [readAll]. unfold Read. cbn.
  destruct streams as [|s streams]; [done|]. rewrite Nat.sub_0_r.
  pose proof (copyStreams_app n (s :: streams)) as Happ.
  pose proof (copyStreams_progress n (s :: streams) Hn ltac:(done)) as Hpr.
  destruct (copyStreams n (s :: streams)) as [out rest]. destruct Happ as (Eq & _).
  cbn. change {| Streams := rest; init := true |} with (started rest).
  rewrite IH by (done || simpl in *; lia). cbn. by rewrite Eq.
Qed.

(** The reader is equivalent to encoding one block.  Given valid
    snappy blocks, a first buffer of at least ten bytes and any non-empty
    buffers after it, reading to the end gives, without panic or error, exactly
    the block whose header is the sum of the lengths and whose body is the
    concatenation of the bodies, however the reads are cut. *)
Theorem concat_reader_equivalent blocks n sizes :
  Forall valid_block blocks → (10 ≤ n)%nat → Forall (λ m, (0 < m)%nat) sizes →
  (length (concat (map snd blocks)) + length blocks < length sizes)%nat →
  readAll (n :: sizes)
    {| Streams := map (λ b, block b.1 b.2) blocks; init := false |} =
  Ret (concatBlock blocks, Some EOF).
Proof.
  intros Hv Hn Hpos Hlen. cbn [readAll]. unfold Read. cbn [init Streams].
  rewrite stripHeaders_blocks by done. cbn.
  set (total := foldr (λ b n, u64 (b.1 + n)) 0 blocks).
  unfold MaxVarintLen64. rewrite (proj2 (Z.ltb_ge _ 10)) by lia. cbn [andb].
  pose proof (putUvarint_length total) as Hh.
  destruct (Nat.leb_spec (length (putUvarint total)) n); [|lia]. cbn.
  destruct (putUvarint total) as [|h hdr] eqn:Ehdr; [simpl in Hh; lia|]. rewrite <-Ehdr.
  pose proof (copyStreams_app (n - length (putUvarint total)) (map snd blocks)) as Happ.
  destruct (copyStreams _ _) as [out rest]. destruct Happ as (Eq & _ & Hr & _). cbn.
  change {| Streams := rest; init := true |} with (started rest).
  rewrite readAll_started; [cbn|done|].
  - unfold concatBlock, block. fold total. by rewrite <-Eq, app_assoc.
  - rewrite length_map in Hr. unfold bytesLeft.
    assert (length (concat rest) ≤ length (concat (map snd blocks)))%nat; [|lia].
    rewrite <-Eq, length_app. lia.
Qed.

Lemma concat_reader_equivalent_witness :
  readAll [10; 1; 1; 1; 1; 1; 1; 1; 1]%nat
    {| Streams := map (λ b, block b.1 b.2) [(300, [x01; x02; x03]); (7, [x04])]; init := false |} =
  Ret (concatBlock [(300, [x01; x02; x03]); (7, [x04])], Some EOF).
Proof.
  apply (concat_reader_equivalent [(300, [x01; x02; x03]); (7, [x04])] 10 [1; 1; 1; 1; 1; 1; 1; 1]%nat).
  - repeat constructor; done.
  - lia.
  - repeat constructor; lia.
  - simpl. lia.
Defined.

(** The header is not served again once a read failed for lack of room: a larger
    read then gets the bare bodies. *)
Lemma short_buffer_loses_header :
  match Read 0 {| Streams := [block 1 [x61]]; init := false |} with
  | Ret (out, err, r) =>
      out = [] ∧ err = Some ErrShortBuffer ∧ readAll [20%nat; 20%nat] r = Ret ([x61], Some EOF)
  | Panic _ => False
  end.
Proof. by vm_compute. Qed.
