(* ===== verification/Delivery.v ===== *)
(** * What a remote receives

    The composition of the queue ([Queue.v], [Ledger.v]) with the reader that serves its
    records ([Snappy.v]), up to what a remote decodes.  The decoder is the one that the
    description of the snappy block format defines: the length of the content, and then
    literals and copies from the content so far. *)
From Stdlib Require Import Strings.Byte.
From S2P Require Import Prelude Strs PushErrors Queue Ledger Snappy.

Open Scope Z_scope.

(** ** The format of a snappy block *)

(** A number of [n] bytes, least significant first, and what follows it. *)
Fixpoint littleEndian (n : nat) (l : list byte) : option (Z * list byte) :=
  match n, l with
  | O, _ => Some (0, l)
  | S n, b :: l => '(x, rest) ← littleEndian n l; Some (byteZ b + 256 * x, rest)
  | S _, [] => None
  end.

(** The content so far is kept last byte first. *)
Fixpoint copyBack (len offset : nat) (acc : list byte) : option (list byte) :=
  match len with
  | O => Some acc
  | S len => b ← acc !! (offset - 1)%nat; copyBack len offset (b :: acc)
  end.

(** What the first bytes of a body ask for. *)
Inductive action := Literal (len : nat) | Copy (len offset : nat).
Definition copyOf (offset len : Z) : action := Copy (Z.to_nat len) (Z.to_nat offset).

(** The tag of an element says its kind, and the length or its size; copies have offsets of
    one, two or four bytes. *)
Definition header (body : list byte) : option (action * list byte) :=
  match body with
  | [] => None
  | tag :: body =>
      let t := byteZ tag in
      let m := Z.shiftr t 2 in
      let kind := Z.land t 3 in
      if kind =? 0 then
        '(len, body) ← littleEndian (if m <? 60 then 0 else Z.to_nat (m - 59)) body;
        Some (Literal (S (Z.to_nat (if m <? 60 then m else len))), body)
      else if kind =? 1 then
        '(low, body) ← littleEndian 1 body;
        Some (copyOf (Z.shiftr t 5 * 256 + low) (4 + Z.land m 7), body)
      else
        '(offset, body) ← littleEndian (if kind =? 2 then 2 else 4) body;
        Some (copyOf offset (1 + m), body)
  end.

Definition perform (a : action) (acc body : list byte) : option (list byte * list byte) :=
  match a with
  | Literal n => if (n <=? length body)%nat then Some (rev (take n body) ++ acc, drop n body) else None
  | Copy n O => None
  | Copy n offset => acc ← copyBack n offset acc; Some (acc, body)
  end.

Definition element (acc body : list byte) : option (list byte * list byte) :=
  '(a, body) ← header body; perform a acc body.

(** A body of [n] bytes has at most [n] elements. *)
Fixpoint elements (n : nat) (acc body : list byte) : option (list byte) :=
  match body, n with
  | [], _ => Some acc
  | _, O => None
  | _, S n => '(acc, body) ← element acc body; elements n acc body
  end.
Definition decodeBody (acc body : list byte) : option (list byte) := elements (length body) acc body.

(** The length has 32 bits. *)
Definition maxDecoded : Z := 4294967295.
Definition decodeBlock (b : list byte) : option (list byte) :=
  let '(len, skip) := uvarint b in
  if (skip <=? 0) || (maxDecoded <? len) then None
  else
    acc ← decodeBody [] (drop (Z.to_nat skip) b);
    if llen acc =? len then Some (rev acc) else None.

(** ** Bodies one after another *)

Lemma littleEndian_app n l x rest more :
  littleEndian n l = Some (x, rest) → littleEndian n (l ++ more) = Some (x, rest ++ more).
Proof.
  revert l x rest. induction n as [|n IH]; intros l x rest; [by intros [= <- <-]|]. destruct l as [|b l]; [done|]. simpl.
  destruct (littleEndian n l) as [[y r]|] eqn:E; [|done]. rewrite (IH _ _ _ E). by intros [= <- <-].
Qed.

Lemma littleEndian_length n l x rest : littleEndian n l = Some (x, rest) → (length rest ≤ length l)%nat.
Proof.
  revert l x rest. induction n as [|n IH]; intros l x rest; [by intros [= <- <-]|]. destruct l as [|b l]; [done|]. simpl.
  destruct (littleEndian n l) as [[y r]|] eqn:E; [|done]. intros [= _ <-]. specialize (IH _ _ _ E). lia.
Qed.

Lemma copyBack_app len offset acc acc' before :
  copyBack len offset acc = Some acc' → copyBack len offset (acc ++ before) = Some (acc' ++ before).
Proof.
  revert acc. induction len as [|len IH]; intros acc; simpl; [by intros [= <-]|].
  destruct (acc !! (offset - 1)%nat) as [b|] eqn:E; [|done]. rewrite (lookup_app_l_Some _ _ _ _ E). simpl. intros H.
  by apply (IH (b :: acc)).
Qed.

Lemma header_app body a rest more :
  header body = Some (a, rest) → header (body ++ more) = Some (a, rest ++ more) ∧ (length rest < length body)%nat.
Proof.
  destruct body as [|tag body]; [done|]. cbn [header app length].
  assert (Hle : ∀ n (f : Z → action), (p ← littleEndian n body; let '(x, b) := p in Some (f x, b)) = Some (a, rest) →
    (p ← littleEndian n (body ++ more); let '(x, b) := p in Some (f x, b)) = Some (a, rest ++ more) ∧
    (length rest < S (length body))%nat).
  { intros n f. destruct (littleEndian n body) as [[x b]|] eqn:E; [|done]. intros [= <- <-].
    rewrite (littleEndian_app _ _ _ _ _ E). split; [done|]. apply littleEndian_length in E. lia. }
  destruct (Z.land (byteZ tag) 3 =? 0); [|destruct (Z.land (byteZ tag) 3 =? 1)]; apply Hle.
Qed.

Lemma perform_app a acc body acc' rest before more :
  perform a acc body = Some (acc', rest) →
  perform a (acc ++ before) (body ++ more) = Some (acc' ++ before, rest ++ more) ∧ (length rest ≤ length body)%nat.
Proof.
  destruct a as [n|n [|offset]]; cbn [perform]; [|done|].
  - destruct (Nat.leb_spec n (length body)) as [Hn|]; [|done]. intros [= <- <-].
    rewrite length_app. destruct (Nat.leb_spec n (length body + length more)); [|lia].
    rewrite take_app_le, drop_app_le by lia. rewrite <-app_assoc, length_drop. split; [done|lia].
  - destruct (copyBack n (S offset) acc) as [acc1|] eqn:E; [|done]. intros [= <- <-].
    by rewrite (copyBack_app _ _ _ _ before E).
Qed.

(** An element means the same after other content and before other elements. *)
Lemma element_app acc body acc' rest before more :
  element acc body = Some (acc', rest) →
  element (acc ++ before) (body ++ more) = Some (acc' ++ before, rest ++ more) ∧ (length rest < length body)%nat.
Proof.
  unfold element. destruct (header body) as [[a b]|] eqn:E; [|done]. cbn [mbind option_bind]. intros H.
  destruct (header_app _ _ _ more E) as [-> ?]. cbn [mbind option_bind].
  destruct (perform_app _ _ _ _ _ before more H) as [-> ?]. split; [done|lia].
Qed.

Lemma elements_fuel n acc body : (length body ≤ n)%nat → elements n acc body = decodeBody acc body.
Proof.
  unfold decodeBody. remember (length body) as m eqn:Em. revert n m acc body Em.
  induction n as [n IH] using lt_wf_ind. intros m acc body -> Hn.
  destruct body as [|tag body]; [by destruct n|]. destruct n as [|n]; [simpl in Hn; lia|]. cbn [elements length].
  destruct (element acc (tag :: body)) as [[acc1 rest]|] eqn:E; [|done]. cbn [mbind option_bind].
  apply (element_app _ _ _ _ [] []) in E as [_ Hl]. simpl in Hl, Hn.
  rewrite (IH n ltac:(lia) _ acc1 rest eq_refl) by lia.
  destruct (decide (length body = n)) as [->|]; [by rewrite (IH n ltac:(lia) _ acc1 rest eq_refl) by lia|].
  by rewrite (IH (length body) ltac:(lia) _ acc1 rest eq_refl) by lia.
Qed.

Lemma decodeBody_app acc body acc' before more :
  decodeBody acc body = Some acc' → decodeBody (acc ++ before) (body ++ more) = decodeBody (acc' ++ before) more.
Proof.
  unfold decodeBody at 1. revert acc. remember (length body) as n eqn:En. revert body En.
  induction n as [n IH] using lt_wf_ind. intros body -> acc.
  destruct body as [|tag body]; [by intros [= <-]|]. cbn [elements length].
  destruct (element acc (tag :: body)) as [[acc1 rest]|] eqn:E; [|done]. cbn [mbind option_bind].
  destruct (element_app _ _ _ _ before more E) as [E' Hl]. simpl in Hl.
  intros H. rewrite elements_fuel in H by lia. unfold decodeBody at 1. cbn [app elements length] in E' |- *. rewrite E'.
  cbn [mbind option_bind]. rewrite elements_fuel by (rewrite !length_app; lia).
  eapply (IH (length rest)); [simpl; lia|done|exact H].
Qed.

(** ** Blocks one after another *)

(** What an encoder makes of a payload: a block with its length, whose body decodes to it. *)
Definition encodes (b payload : list byte) : Prop :=
  ∃ body, b = block (llen payload) body ∧ decodeBody [] body = Some (rev payload).

Lemma decodeBody_concat (blocks : list (Z * list byte)) (payloads : list (list byte)) acc :
  Forall2 (λ b p, decodeBody [] b.2 = Some (rev p)) blocks payloads →
  decodeBody acc (concat (map snd blocks)) = Some (rev (concat payloads) ++ acc).
Proof.
  intros H. revert acc. induction H as [|b p blocks payloads Hb _ IH]; intros acc; [done|]. cbn [map concat].
  rewrite (decodeBody_app [] b.2 (rev p) acc _ Hb), IH. by rewrite rev_app_distr, <-app_assoc.
Qed.

Lemma decodeBlock_block len body payload :
  len = llen payload → len ≤ maxDecoded → decodeBody [] body = Some (rev payload) → decodeBlock (block len body) = Some payload.
Proof.
  intros -> Hlt Hb. unfold decodeBlock, block. rewrite uvarint_putUvarint by (unfold llen, maxDecoded, two64 in *; lia).
  pose proof (putUvarint_length (llen payload)) as Hl.
  destruct (Z.leb_spec (llen (putUvarint (llen payload))) 0); [unfold llen in *; lia|].
  destruct (Z.ltb_spec maxDecoded (llen payload)); [lia|]. cbn [orb].
  assert (Hd : ∀ l : list byte, Z.to_nat (llen l) = length l) by (intros; apply Nat2Z.id).
  rewrite Hd, drop_app_length, Hb. cbn [mbind option_bind].
  assert (E : llen (rev payload) = llen payload) by (unfold llen; by rewrite length_rev).
  rewrite E, Z.eqb_refl. by rewrite rev_involutive.
Qed.

Lemma total_concat (blocks : list (Z * list byte)) (payloads : list (list byte)) :
  Forall2 (λ b p, b.1 = llen p) blocks payloads → llen (concat payloads) < two64 →
  foldr (λ b n, u64 (b.1 + n)) 0 blocks = llen (concat payloads).
Proof.
  induction 1 as [|b p blocks payloads E _ IH]; [done|]. cbn [foldr concat]. rewrite E. unfold llen in *.
  rewrite length_app. intros Hlt. rewrite IH by lia. rewrite u64_id; lia.
Qed.

(** The reader of encoded payloads serves an encoding of their concatenation. *)
Lemma reader_serves_concatenation records (payloads : list (list byte)) n sizes :
  Forall2 (λ e p, encodes (content (data e)) p) records payloads →
  llen (concat payloads) ≤ maxDecoded → (10 ≤ n)%nat → Forall (λ m, (0 < m)%nat) sizes →
  (length (concat (map (λ e, content (data e)) records)) + length records < length sizes)%nat →
  ∃ b, readAll (n :: sizes) (newConcatReader records) = Ret (b, Some EOF) ∧ decodeBlock b = Some (concat payloads).
Proof.
  intros Henc Hmax Hn Hpos Hlen.
  assert (Hlt : llen (concat payloads) < two64) by (unfold maxDecoded, two64 in *; lia).
  assert (Hbs : ∃ blocks : list (Z * list byte), map (λ e, content (data e)) records = map (λ b, block b.1 b.2) blocks ∧
    Forall2 (λ b p, b.1 = llen p) blocks payloads ∧ Forall2 (λ b p, decodeBody [] b.2 = Some (rev p)) blocks payloads).
  { clear -Henc. induction Henc as [|e p records payloads (body & E & Hb) _ (blocks & Em & H1 & H2)].
    - exists []. by split_and!; try constructor.
    - exists ((llen p, body) :: blocks). cbn [map fst snd]. rewrite E, Em. by split_and!; try constructor. }
  destruct Hbs as (blocks & Em & H1 & H2). exists (concatBlock blocks). split.
  - unfold newConcatReader. rewrite Em. rewrite Em in Hlen. apply concat_reader_equivalent; [|done..|].
    + clear -H1 Hlt. revert Hlt. induction H1 as [|b p blocks payloads E _ IH]; intros Hlt; [constructor|].
      cbn [concat] in Hlt. unfold llen in *. rewrite length_app in Hlt. constructor; [unfold valid_block; lia|].
      apply IH. lia.
    + assert (Hl : length records = length blocks) by (by apply (f_equal length) in Em; rewrite !length_map in Em).
      assert (length (concat (map snd blocks)) ≤ length (concat (map (λ b, block b.1 b.2) blocks)))%nat; [|lia].
      clear. induction blocks as [|b blocks IH]; [done|]. cbn [map concat]. unfold block at 1. rewrite !length_app. lia.
  - unfold concatBlock. apply decodeBlock_block; [by apply total_concat| |].
    + by rewrite (total_concat _ _ H1 Hlt).
    + rewrite (decodeBody_concat _ _ [] H2). by rewrite app_nil_r.
Qed.

(** ** What a remote receives in a run *)

Lemma sublist_map {A B} (f : A → B) l k : l `sublist_of` k → map f l `sublist_of` map f k.
Proof. induction 1; simpl; by constructor. Qed.
Lemma Forall2_map_self {A B} (R : A → B → Prop) (f : A → B) l : Forall (λ x, R x (f x)) l → Forall2 R l (map f l).
Proof. induction 1; simpl; by constructor. Qed.

Lemma answered_inserted o t evs s records out l :
  maxQueuedBytes o ≤ maxInt64 → run o evs (Queue.init t o) s → Answered records out l ∈ evs → ∀ e, e ∈ records → e ∈ inserted evs.
Proof.
  intros Hmax H. remember (Queue.init t o) as s0 eqn:E. induction H as [|evs ev s1 s2 s3 Hr IH Ht]; [by intros ?%elem_of_nil|].
  subst s1. intros Hin e He. rewrite inserted_snoc. apply elem_of_app. left.
  apply elem_of_app in Hin as [Hin|Hin%list_elem_of_singleton]; [by apply IH|]. subst ev.
  destruct (run_balanced o t evs s2 Hmax Hr) as [_ [Ha _ _]]. rewrite Ha. apply elem_of_app. right.
  inversion Ht as [|t2 q p rs err Hph|]; subst. unfold unsettled, inflight. cbn [sp]. rewrite Hph. apply elem_of_app. by left.
Qed.

(** C3: a remote gets what was published. In every run of a queue whose records are encoded
    payloads, each push that is answered is read without error as one snappy block, however
    the reads are cut, if the first has room for a header, there are enough of them, and the payloads
    together have less than 2^32 bytes (snappy refuses longer blocks); the content of the block is the payloads of the records of that push, one after another.
    And the payloads that the remote accepts are, in their order, among those that were
    published, none of them twice. *)
Theorem remote_decodes_payloads o t evs s (payload : queueEntry → list byte) :
  maxQueuedBytes o ≤ maxInt64 → run o evs (Queue.init t o) s →
  Forall (λ e, encodes (content (data e)) (payload e)) (inserted evs) →
  (∀ records out l n sizes, Answered records out l ∈ evs →
     llen (concat (map payload records)) ≤ maxDecoded → (10 ≤ n)%nat → Forall (λ m, (0 < m)%nat) sizes →
     (length (concat (map (λ e, content (data e)) records)) + length records < length sizes)%nat →
     ∃ b, readAll (n :: sizes) (newConcatReader records) = Ret (b, Some EOF) ∧
       decodeBlock b = Some (concat (map payload records))) ∧
  map payload (delivered evs) `sublist_of` map payload (inserted evs).
Proof.
  intros Hmax Hr Henc. split.
  - intros records out l n sizes Hin Hlt Hn Hpos Hlen. apply reader_serves_concatenation; [|done..].
    apply Forall2_map_self, Forall_forall. intros e He. rewrite Forall_forall in Henc. apply Henc.
    by eapply answered_inserted.
  - destruct (run_balanced o t evs s Hmax Hr) as [_ [_ Ho _]]. apply sublist_map.
    etransitivity; [|exact Ho]. by apply sublist_inserts_r.
Qed.

(** Two payloads, aaaaa with a copy and b, published and pushed together. *)
Definition sampleBuffer (n : nat) (l : list byte) : buffer := {| storage := n; content := l |}.
Definition sampleA : buffer := sampleBuffer 0 [x05; x00; x61; x01; x01].
Definition sampleB : buffer := sampleBuffer 1 [x01; x00; x62].
Definition samplePayload (e : queueEntry) : list byte :=
  if (storage (data e) =? 0)%nat then [x61; x61; x61; x61; x61] else [x62].
Definition sampleEntry (b : buffer) : queueEntry := {| data := b; ts := 0 |}.
Definition deliveryEvents : list event :=
  [Inserted (sampleEntry sampleA) []; Inserted (sampleEntry sampleB) []; Quiet; Quiet;
   Answered [sampleEntry sampleA; sampleEntry sampleB] Delivered []].
Definition deliverySystem : system :=
  answering example_options None (getting example_options (waking
    (inserting example_options sampleB (inserting example_options sampleA (Queue.init 0 example_options))))).

Lemma delivery_run : run example_options deliveryEvents (Queue.init 0 example_options) deliverySystem.
Proof.
  apply (run_answering _ (take 4 deliveryEvents)); [by vm_compute..|].
  apply (run_getting _ (take 3 deliveryEvents)), (run_waking _ (take 2 deliveryEvents)); [reflexivity..|].
  apply (run_inserting _ (take 1 deliveryEvents) (sampleEntry sampleB)); [vm_compute; congruence..|].
  apply (run_inserting _ [] (sampleEntry sampleA)); [vm_compute; congruence..|]. constructor.
Qed.

Lemma remote_decodes_payloads_witness :
  ∃ b, readAll (10 :: repeat 3 12)%nat (newConcatReader [sampleEntry sampleA; sampleEntry sampleB]) = Ret (b, Some EOF) ∧
    decodeBlock b = Some [x61; x61; x61; x61; x61; x62].
Proof.
  destruct (remote_decodes_payloads example_options 0 deliveryEvents deliverySystem samplePayload) as [H _].
  - vm_compute. discriminate.
  - apply delivery_run.
  - repeat constructor; eexists; (split; [reflexivity|reflexivity]).
  - apply (H [sampleEntry sampleA; sampleEntry sampleB] Delivered [] 10%nat (repeat 3%nat 12)).
    + do 4 right. left.
    + vm_compute. discriminate.
    + lia.
    + repeat constructor.
    + simpl. lia.
Defined.
