(* ===== verification/Publisher.v ===== *)
(** * The publisher: one handler and one goroutine per tenant

    [internal/pusher/v2/publisher.go] and [tenant_pusher.go].

    Handlers are heap objects: [payloadHandler] values are compared by pointer,
    so a handler is an address into [store].  A step of the transition system is
    one critical section of [handlerMutex], one [publish] of a handler, or the
    return of a [run]. *)
From S2P Require Import Prelude Strs PushErrors Queue.
From Stdlib Require Import Strings.Byte.

Open Scope Z_scope.

(** The durations of [pusherOptions] a handler sleeps for. *)
Record handlerOptions := {
  tenantDelay : Z;
  waitPeriod : Z;
  discardPeriod : Z;
  queueOptions : pusherOptions;
}.

Definition LabelValueMetrics : string := "metrics".
Definition LabelValueLogs : string := "logs".

Record tenantPusher := {
  tenantID : Z;
  pushCounter : Z;
  logs : queue;
  metricsQ : queue;
}.

Inductive payloadHandler :=
  | HTenant (p : tenantPusher)
  | HDelay (next : nat) (delay : Z)
  | HDiscard (tenant : Z) (duration : Z).

Definition newQueue : queue :=
  {| entries := []; pending := false; pool := []; metrics := zeroMetrics |}.

Definition newTenantPusher (id : Z) : tenantPusher :=
  {| tenantID := id; pushCounter := 0; logs := newQueue; metricsQ := newQueue |}.

(** ** [tenantPusher.run] after [runPushers] returned *)

(** What [runPushers] returns: [nil], [context.Canceled] itself,
    [errTenantIdle], a [pushError], or some other error. *)
Inductive runError :=
  | RunNil
  | RunCanceled
  | RunIdle
  | RunPush (e : pushError)
  | RunOther (e : goerr).

(** [errMaxLifeTimeExceeded]. *)
Definition errMaxLifeTimeExceeded : pushError :=
  {| kind := errKindTenant; inner := Some (ErrText "max life time exceeded") |}.

(** The handler [run] returns for the pusher at address [self]. *)
Definition tenantPusher_run (o : handlerOptions) (self : nat) (tenant : Z) (err : runError)
    : option payloadHandler :=
  match err with
  | RunNil | RunCanceled | RunIdle => None
  | RunOther _ => None
  | RunPush e =>
      match kind e with
      | errKindWait => Some (HDelay self (waitPeriod o))
      | errKindTenant => Some (HDelay self (tenantDelay o))
      | errKindFatal => Some (HDiscard tenant (discardPeriod o))
      | _ => None
      end
  end.

(** The start of [runPushers]: a tenant that cannot be fetched is fatal. *)
Definition runPushers_tenant {T} (got : result goerr T) : result runError T :=
  match got with
  | Ok t => Ok t
  | Err e => Err (RunPush {| kind := errKindFatal; inner := Some e |})
  end.

(** [maxLifetimeChecker]: its result when the timer, not the context, fires
    first. *)
Definition maxLifetimeChecker (ctxDone : bool) : runError :=
  if ctxDone then RunCanceled else RunPush errMaxLifeTimeExceeded.

(** One tick of [idleChecker]: the next [lastValue], or the error. *)
Definition idleChecker (lastValue curValue : Z) : result runError Z :=
  if curValue =? lastValue then Err RunIdle else Ok curValue.

(** ** Publishing *)

Section publish.
Context {TimeSeries Stream : Type}.

Record payload := {
  Tenant : Z;
  Metrics_ : list TimeSeries;
  Streams_ : list Stream;
}.

(** Marshalling and snappy encoding are library code: the encoded requests. *)
Variable marshalMetrics : list TimeSeries → option (list byte).
Variable marshalStreams : list Stream → option (list byte).
Variable snappyEncode : list byte → list byte.

(** [toRequest]: [at_] is the storage of the encoded buffer, from the pool or new. *)
Definition toRequest (at_ : nat) (m : option (list byte)) : go buffer :=
  match m with
  | Some data => Ret {| storage := at_; content := snappyEncode data |}
  | None => Panic "marshal"
  end.

(** Two storages and the clock readings of the two inserts. *)
Record insertEnv := { mStorage : nat; lStorage : nat; mT : Z; mNow : Z; lT : Z; lNow : Z }.

Definition tenantPusher_publish (o : handlerOptions) (env : insertEnv) (pl : payload)
    (p : tenantPusher) : go tenantPusher :=
  let p := {| tenantID := tenantID p; pushCounter := u64 (pushCounter p + 1);
              logs := logs p; metricsQ := metricsQ p |} in
  p ← match Metrics_ pl with
      | [] => Ret p
      | ms =>
          b ← toRequest (mStorage env) (marshalMetrics ms);
          Ret {| tenantID := tenantID p; pushCounter := pushCounter p; logs := logs p;
                 metricsQ := insert (queueOptions o) b (mT env) (mNow env) (metricsQ p) |}
      end;
  match Streams_ pl with
  | [] => Ret p
  | ss =>
      b ← toRequest (lStorage env) (marshalStreams ss);
      Ret {| tenantID := tenantID p; pushCounter := pushCounter p;
             logs := insert (queueOptions o) b (lT env) (lNow env) (logs p);
             metricsQ := metricsQ p |}
  end.

(** [discardPusher.publish]: one drop per kind of data present. *)
Definition discardPusher_publish (tenant : Z) (pl : payload) (dropped : gmap (Z * string) Z)
    : gmap (Z * string) Z :=
  let inc k m := <[(tenant, k) := default 0 (m !! (tenant, k)) + 1]> m in
  let dropped := match Metrics_ pl with [] => dropped | _ => inc LabelValueMetrics dropped end in
  match Streams_ pl with [] => dropped | _ => inc LabelValueLogs dropped end.

Record heap := { store : gmap nat payloadHandler; discards : gmap (Z * string) Z }.

(** [handler.publish(payload)] by dynamic type; [delayPusher] forwards to its
    [next], so the address is followed at most [fuel] times. *)
Fixpoint publish_at (fuel : nat) (o : handlerOptions) (env : insertEnv) (pl : payload)
    (h : nat) (hp : heap) : go heap :=
  match fuel with
  | O => Panic "out of fuel"
  | S fuel =>
      match store hp !! h with
      | None => Panic "nil pointer dereference"
      | Some (HTenant p) =>
          p' ← tenantPusher_publish o env pl p;
          Ret {| store := <[h := HTenant p']> (store hp); discards := discards hp |}
      | Some (HDelay next _) => publish_at fuel o env pl next hp
      | Some (HDiscard tenant _) =>
          Ret {| store := store hp; discards := discardPusher_publish tenant pl (discards hp) |}
      end
  end.

(** ** The publisher *)

(** A call of [Publish] between its steps. *)
Inductive call :=
  | CallSwap (pl : payload) (new : nat)      (** before [replaceHandler] *)
  | CallPublish (pl : payload) (h : nat).    (** before [handler.publish] *)

Record publisherImpl := {
  handlers : gmap Z nat;
  InstalledHandlers : Z;
  hp : heap;
  running : list (Z * nat);                  (** goroutines in [runHandler] *)
  calls : list call;
}.

(** [replaceHandler]: the handler in effect, and whether it was changed. *)
Definition replaceHandler (tenant : Z) (old new : option nat) (s : publisherImpl)
    : option nat * bool * publisherImpl :=
  let current := handlers s !! tenant in
  if bool_decide (current ≠ old) then (current, false, s)
  else
    let hs := match new with
              | Some h => <[tenant := h]> (handlers s)
              | None => delete tenant (handlers s)
              end in
    (new, true,
     {| handlers := hs; InstalledHandlers := Z.of_nat (size hs); hp := hp s;
        running := running s; calls := calls s |}).

Definition set_calls (l : list call) (s : publisherImpl) : publisherImpl :=
  {| handlers := handlers s; InstalledHandlers := InstalledHandlers s; hp := hp s;
     running := running s; calls := l |}.
Definition set_running (l : list (Z * nat)) (s : publisherImpl) : publisherImpl :=
  {| handlers := handlers s; InstalledHandlers := InstalledHandlers s; hp := hp s;
     running := l; calls := calls s |}.
Definition set_heap (h : heap) (s : publisherImpl) : publisherImpl :=
  {| handlers := handlers s; InstalledHandlers := InstalledHandlers s; hp := h;
     running := running s; calls := calls s |}.

(** A new object at a fresh address. *)
Definition alloc (a : nat) (h : payloadHandler) (s : publisherImpl) : publisherImpl :=
  set_heap {| store := <[a := h]> (store (hp s)); discards := discards (hp s) |} s.

(** [Publish] up to the first unlock: [getHandler], and a new pusher at [a] when
    there is none. *)
Definition Publish_get (pl : payload) (a : nat) (s : publisherImpl) : publisherImpl :=
  match handlers s !! Tenant pl with
  | Some h => set_calls (CallPublish pl h :: calls s) s
  | None =>
      let s := alloc a (HTenant (newTenantPusher (Tenant pl))) s in
      set_calls (CallSwap pl a :: calls s) s
  end.

(** [replaceHandler(tenantID, nil, newHandler)], and [go runHandler] if swapped. *)
Definition Publish_swap (pl : payload) (a : nat) (s : publisherImpl) : go publisherImpl :=
  let '(handler, swapped, s) := replaceHandler (Tenant pl) None (Some a) s in
  let s := if swapped
           then match handler with
                | Some h => set_running ((Tenant pl, h) :: running s) s
                | None => s
                end
           else s in
  match handler with
  | Some h => Ret (set_calls (CallPublish pl h :: calls s) s)
  | None => Panic "nil pointer dereference"
  end.

(** The body of the loop of [runHandler] once [h.run] returned [next]. *)
Definition runHandler_next (tenant : Z) (h : nat) (next : option nat) (s : publisherImpl)
    : publisherImpl :=
  let '(h', ok, s) := replaceHandler tenant (Some h) next s in
  match ok, h' with
  | true, Some h' => set_running ((tenant, h') :: running s) s
  | _, _ => s
  end.

(** What [h.run(p.ctx)] returns for the handler at [h]: the next handler, and
    the state with any new object (at [a]).  [err] is the error of [runPushers],
    [cancelled] tells whether the context ended a sleep. *)
Definition run_result (o : handlerOptions) (h a : nat) (err : runError) (cancelled : bool)
    (s : publisherImpl) : option nat * publisherImpl :=
  match store (hp s) !! h with
  | Some (HTenant p) =>
      match tenantPusher_run o h (tenantID p) err with
      | Some nh => (Some a, alloc a nh s)
      | None => (None, s)
      end
  | Some (HDelay next _) => (if cancelled then None else Some next, s)
  | Some (HDiscard _ _) => (None, s)
  | None => (None, s)
  end.

Inductive step (o : handlerOptions) : publisherImpl → publisherImpl → Prop :=
  | step_publish pl a s :
      store (hp s) !! a = None → step o s (Publish_get pl a s)
  | step_swap pl a s s' l1 l2 :
      calls s = l1 ++ CallSwap pl a :: l2 →
      Publish_swap pl a (set_calls (l1 ++ l2) s) = Ret s' →
      step o s s'
  | step_deliver pl h env s hp' l1 l2 :
      calls s = l1 ++ CallPublish pl h :: l2 →
      publish_at 2 o env pl h (hp s) = Ret hp' →
      step o s (set_heap hp' (set_calls (l1 ++ l2) s))
  | step_work h p p' s :
      (** the goroutines of [runPushers] work on the queues *)
      store (hp s) !! h = Some (HTenant p) →
      step o s (alloc h (HTenant p') s)
  | step_run_returns tenant h a err cancelled s l1 l2 :
      running s = l1 ++ (tenant, h) :: l2 →
      store (hp s) !! a = None →
      step o s
        (let '(next, s') := run_result o h a err cancelled (set_running (l1 ++ l2) s) in
         runHandler_next tenant h next s').

Definition init : publisherImpl :=
  {| handlers := ∅; InstalledHandlers := 0; hp := {| store := ∅; discards := ∅ |};
     running := []; calls := [] |}.

Definition reachable (o : handlerOptions) (s : publisherImpl) : Prop := rtc (step o) init s.

(** ** Invariant *)

Definition call_ok (st : gmap nat payloadHandler) (c : call) : Prop :=
  match c with
  | CallSwap _ a => is_Some (st !! a)
  | CallPublish _ h => is_Some (st !! h)
  end.

(** A delayed handler sleeps on behalf of a tenant pusher. *)
Definition store_ok (st : gmap nat payloadHandler) : Prop :=
  ∀ a next d, st !! a = Some (HDelay next d) → ∃ p, st !! next = Some (HTenant p).

Record inv (s : publisherImpl) : Prop := {
  inv_nodup : NoDup (running s);
  inv_running : ∀ t h, handlers s !! t = Some h ↔ (t, h) ∈ running s;
  inv_gauge : InstalledHandlers s = Z.of_nat (size (handlers s));
  inv_alive : ∀ t h, (t, h) ∈ running s → is_Some (store (hp s) !! h);
  inv_store : store_ok (store (hp s));
  inv_calls : Forall (call_ok (store (hp s))) (calls s);
}.

(** The store only grows, and tenant pushers stay tenant pushers. *)
Definition extends (st st' : gmap nat payloadHandler) : Prop :=
  (∀ a, is_Some (st !! a) → is_Some (st' !! a)) ∧
  (∀ a p, st !! a = Some (HTenant p) → ∃ p', st' !! a = Some (HTenant p')) ∧
  store_ok st'.

Lemma extends_calls st st' l :
  extends st st' → Forall (call_ok st) l → Forall (call_ok st') l.
Proof. intros (H & _) Hl. eapply Forall_impl; [exact Hl|]. intros []; apply H. Qed.

Lemma extends_insert st a nh :
  store_ok st →
  (st !! a = None ∨ ∃ p p', st !! a = Some (HTenant p) ∧ nh = HTenant p') →
  (∀ next d, nh = HDelay next d → ∃ p, st !! next = Some (HTenant p)) →
  extends st (<[a := nh]> st).
Proof.
  intros Hok Ha Hnh. split_and!.
  - intros b Hb. rewrite lookup_insert. case_decide; [eauto|done].
  - intros b p Hb. rewrite lookup_insert. case_decide as E; [|eauto].
    subst b. destruct Ha as [Ha|(? & ? & ? & ->)]; [congruence|eauto].
  - intros b next d. rewrite lookup_insert.
    assert (Hnext : ∀ next, (∃ p, st !! next = Some (HTenant p)) →
      ∃ p, <[a := nh]> st !! next = Some (HTenant p)).
    { intros n [p Hp]. rewrite lookup_insert. case_decide; [subst|eauto].
      destruct Ha as [Ha|(? & ? & ? & ->)]; [congruence|eauto]. }
    case_decide as E; intros Hb.
    + injection Hb as ->. eapply Hnext, Hnh. done.
    + eapply Hnext, Hok, Hb.
Qed.

Lemma extends_refl st : store_ok st → extends st st.
Proof. unfold extends. intros H. split_and!; eauto. Qed.

Lemma extends_alloc a nh s :
  store_ok (store (hp s)) →
  (store (hp s) !! a = None ∨ ∃ p p', store (hp s) !! a = Some (HTenant p) ∧ nh = HTenant p') →
  (∀ next d, nh = HDelay next d → ∃ p, store (hp s) !! next = Some (HTenant p)) →
  extends (store (hp s)) (store (hp (alloc a nh s))).
Proof. apply extends_insert. Qed.

(** A change of the heap that extends it keeps the invariant. *)
Lemma inv_set_heap s h' :
  inv s → extends (store (hp s)) (store h') → inv (set_heap h' s).
Proof.
  intros [Hnd Hrun Hg Hal Hst Hc] Hext. split; simpl; eauto.
  - intros t h Hin. apply Hext; eauto.
  - apply Hext.
  - by eapply extends_calls.
Qed.

Lemma inv_set_calls s l :
  inv s → Forall (call_ok (store (hp s))) l → inv (set_calls l s).
Proof. intros [] Hl. by split. Qed.

Lemma publish_at_extends fuel o env pl h hp0 hp' :
  store_ok (store hp0) → publish_at fuel o env pl h hp0 = Ret hp' →
  extends (store hp0) (store hp').
Proof.
  revert h. induction fuel as [|fuel IH]; intros h Hok; simpl; [done|].
  destruct (store hp0 !! h) as [[p|next d|t d]|] eqn:E; [| |intros [= <-]; by apply extends_refl|done].
  - destruct (tenantPusher_publish o env pl p) as [p'|]; [|done]. intros [= <-].
    simpl. apply extends_insert; [done|right; eauto|done].
  - by apply IH.
Qed.

Lemma replaceHandler_inv s t h next l1 l2 :
  inv s → running s = l1 ++ (t, h) :: l2 →
  (∀ n, next = Some n → is_Some (store (hp s) !! n)) →
  inv (runHandler_next t h next (set_running (l1 ++ l2) s)) ∧
  handlers s !! t = Some h.
Proof.
  intros [Hnd Hrun Hg Hal Hst Hc] Er Hn.
  assert (Hh : handlers s !! t = Some h) by (apply Hrun; rewrite Er; set_solver).
  split; [|done]. rewrite Er in *.
  rewrite <-Permutation_middle in Hnd. apply NoDup_cons in Hnd as [Hnot Hnd].
  assert (Hrest : ∀ t' h', (t', h') ∈ l1 ++ l2 ↔ t' ≠ t ∧ handlers s !! t' = Some h').
  { intros t' h'. rewrite Hrun, elem_of_app, elem_of_app, elem_of_cons. split.
    - intros Hin. split; [intros ->|by destruct Hin; auto].
      assert (handlers s !! t = Some h') as Hh' by (apply Hrun; set_solver).
      rewrite Hh in Hh'. injection Hh' as ->. apply Hnot. set_solver.
    - intros [Hne [?|[[= -> ->]|?]]]; [by left|done|by right]. }
  unfold runHandler_next, replaceHandler. simpl.
  rewrite bool_decide_eq_false_2 by (rewrite Hh; tauto).
  destruct next as [n|].
  - split; simpl; try done.
    + apply NoDup_cons. split; [|done]. rewrite Hrest. naive_solver.
    + intros t' h'. rewrite lookup_insert, elem_of_cons, Hrest. case_decide; naive_solver.
    + intros t' h' Hin. apply elem_of_cons in Hin as [[= -> ->]|Hin]; [eauto|].
      eapply (Hal t'). apply elem_of_app in Hin. set_solver.
  - split; simpl; try done.
    + intros t' h'. rewrite lookup_delete, Hrest. case_decide; naive_solver.
    + intros t' h' Hin. eapply (Hal t'). apply elem_of_app in Hin. set_solver.
Qed.

Lemma Publish_get_inv pl a s :
  inv s → store (hp s) !! a = None → inv (Publish_get pl a s).
Proof.
  intros Hi Ha. unfold Publish_get. destruct (handlers s !! Tenant pl) as [h|] eqn:E.
  - apply inv_set_calls; [done|]. constructor; [|apply Hi].
    simpl. eapply inv_alive, inv_running; eauto.
  - assert (Hi' : inv (alloc a (HTenant (newTenantPusher (Tenant pl))) s)).
    { apply inv_set_heap; [done|]. apply extends_insert; [apply Hi|by left|done]. }
    apply inv_set_calls; [done|]. constructor; [|apply Hi'].
    simpl. rewrite lookup_insert_eq. eauto.
Qed.

(** A swap never fails, and starts a goroutine exactly when it installs. *)
Lemma Publish_swap_inv pl a l1 l2 s :
  inv s → calls s = l1 ++ CallSwap pl a :: l2 →
  ∃ s', Publish_swap pl a (set_calls (l1 ++ l2) s) = Ret s' ∧ inv s'.
Proof.
  intros Hi Ec. pose proof (inv_calls _ Hi) as Hc. rewrite Ec in Hc.
  apply Forall_app in Hc as [Hc1 Hc2]. apply Forall_cons in Hc2 as [Ha Hc2].
  unfold Publish_swap, replaceHandler. simpl.
  destruct (handlers s !! Tenant pl) as [h|] eqn:E.
  - rewrite bool_decide_eq_true_2 by done. simpl. eexists. split; [done|].
    apply inv_set_calls; [by apply inv_set_calls, Forall_app|].
    constructor; [|by apply Forall_app]. simpl. eapply inv_alive, inv_running; eauto.
  - rewrite bool_decide_eq_false_2 by tauto. simpl. eexists. split; [done|].
    destruct Hi as [Hnd Hrun Hg Hal Hst _]. split; simpl; try done.
    + apply NoDup_cons. split; [|done]. rewrite <-Hrun. congruence.
    + intros t h. rewrite lookup_insert, elem_of_cons, <-Hrun. case_decide; naive_solver.
    + intros t h Hin. apply elem_of_cons in Hin as [[= -> ->]|Hin]; eauto.
    + constructor; [done|]. by apply Forall_app.
Qed.

(** The object [run] returned is alive, and the heap was extended. *)
Lemma run_result_spec o h a err cancelled s :
  store_ok (store (hp s)) → store (hp s) !! a = None →
  ∃ h', (run_result o h a err cancelled s).2 = set_heap h' s ∧
    extends (store (hp s)) (store h') ∧
    ∀ n, (run_result o h a err cancelled s).1 = Some n → is_Some (store h' !! n).
Proof.
  intros Hok Ha. unfold run_result.
  destruct (store (hp s) !! h) as [[p|next d|t d]|] eqn:E; simpl.
  - destruct (tenantPusher_run o h (tenantID p) err) as [nh|] eqn:Er; simpl.
    + eexists. split; [reflexivity|]. simpl. split.
      * apply extends_insert; [done|by left|]. intros next d ->.
        assert (next = h) as ->; [|eauto].
        destruct err as [| | |[[] ?]|]; simpl in Er; congruence.
      * intros n [= <-]. rewrite lookup_insert_eq. eauto.
    + exists (hp s). destruct s. split_and!; [done|by apply extends_refl|done].
  - exists (hp s). destruct s. split_and!; [done|by apply extends_refl|].
    simpl in *. intros n. destruct cancelled; [done|]. intros [= <-].
    destruct (Hok _ _ _ E) as [? ->]. eauto.
  - exists (hp s). destruct s. split_and!; [done|by apply extends_refl|done].
  - exists (hp s). destruct s. split_and!; [done|by apply extends_refl|done].
Qed.

Lemma run_returns_inv o t h a err cancelled l1 l2 s :
  inv s → running s = l1 ++ (t, h) :: l2 → store (hp s) !! a = None →
  inv (let '(next, s') := run_result o h a err cancelled (set_running (l1 ++ l2) s) in
       runHandler_next t h next s').
Proof.
  intros Hi Er Ha.
  destruct (run_result_spec o h a err cancelled (set_running (l1 ++ l2) s))
    as (h' & E2 & Hext & Hn); [apply Hi|done|].
  destruct (run_result _ _ _ _ _ _) as [next s'] eqn:E. simpl in E2, Hn, Hext. subst s'.
  assert (Hi' : inv (set_heap h' s)) by by apply inv_set_heap.
  exact (proj1 (replaceHandler_inv _ _ _ next _ _ Hi' Er Hn)).
Qed.

Lemma publisher_step_inv o s s' : inv s → step o s s' → inv s'.
Proof.
  intros Hi Hs. destruct Hs as [pl a s Ha|pl a s s' l1 l2 Ec Es|pl h env s hp' l1 l2 Ec Ep
    |h p p' s Eh|t h a err c s l1 l2 Er Ha].
  - by apply Publish_get_inv.
  - destruct (Publish_swap_inv _ _ _ _ _ Hi Ec) as (s'' & E & ?). congruence.
  - apply inv_set_heap.
    + apply inv_set_calls; [done|]. pose proof (inv_calls _ Hi) as Hc. rewrite Ec in Hc.
      apply Forall_app in Hc as [? Hc]. apply Forall_cons in Hc as [_ ?]. by apply Forall_app.
    + eapply publish_at_extends; [|exact Ep]. apply Hi.
  - apply inv_set_heap; [done|]. apply extends_insert; [apply Hi|right; eauto|done].
  - by apply run_returns_inv.
Qed.

Lemma init_inv : inv init.
Proof. split; simpl; try done; try (by constructor); set_solver. Qed.

Lemma publisher_reachable_inv o s : reachable o s → inv s.
Proof.
  intros H. unfold reachable in H. revert H. generalize init_inv. generalize init.
  intros s0 Hi H. induction H; eauto using publisher_step_inv.
Qed.

(** Two levels of [publish_at] reach a tenant or a discard pusher. *)
Lemma publish_at_total o env pl h hp0 :
  store_ok (store hp0) → is_Some (store hp0 !! h) →
  (∀ ms, is_Some (marshalMetrics ms)) → (∀ ss, is_Some (marshalStreams ss)) →
  ∃ hp', publish_at 2 o env pl h hp0 = Ret hp'.
Proof.
  intros Hok [nh E] Hm Hs.
  assert (Ht : ∀ p, ∃ p', tenantPusher_publish o env pl p = Ret p').
  { intros p. unfold tenantPusher_publish, toRequest.
    destruct (Metrics_ pl) as [|m ms]; [|destruct (Hm (m :: ms)) as [? ->]];
      (destruct (Streams_ pl) as [|y ys]; [|destruct (Hs (y :: ys)) as [? ->]]);
      simpl; eauto. }
  simpl. rewrite E. destruct nh as [p|next d|t d]; [| |eauto].
  - destruct (Ht p) as [p' ->]. eauto.
  - destruct (Hok _ _ _ E) as [p Ep]. rewrite Ep. destruct (Ht p) as [p' ->]. eauto.
Qed.

(** ** Properties *)

(** C9: in every interleaving of publishers, goroutines and swaps, a tenant has
    exactly one goroutine when a handler is installed for it, running that very
    handler, and none otherwise; the InstalledHandlers gauge is the number of
    goroutines. *)
Theorem one_goroutine_per_tenant o s :
  reachable o s →
  (∀ t, filter (λ x, x.1 = t) (running s) =
        match handlers s !! t with Some h => [(t, h)] | None => [] end) ∧
  InstalledHandlers s = llen (running s).
Proof.
  intros [Hnd Hrun Hg _ _ _]%publisher_reachable_inv. split.
  - intros t. destruct (handlers s !! t) as [h|] eqn:E.
    + assert (Hp : filter (λ x, x.1 = t) (running s) ≡ₚ [(t, h)]).
      { apply NoDup_Permutation; [by apply NoDup_filter|apply NoDup_singleton|].
        intros [t' h']. rewrite list_elem_of_filter, list_elem_of_singleton, <-Hrun. simpl.
        split; [intros [-> ?]|intros [= -> ->]]; [congruence|done]. }
      by apply Permutation_singleton_r in Hp.
    + apply filter_none, Forall_forall. intros [t' h'] Hin. simpl. intros ->.
      apply Hrun in Hin. congruence.
  - rewrite Hg. unfold llen. f_equal.
    assert (Hp : map_to_list (handlers s) ≡ₚ running s).
    { apply NoDup_Permutation; [apply NoDup_map_to_list|done|].
      intros [t h]. by rewrite elem_of_map_to_list, Hrun. }
    rewrite <-Hp. symmetry. apply length_map_to_list.
Qed.

(** The branch of runHandler that reports a hijacked tenant is never taken:
    whatever a run returns, the goroutine still owns its tenant's slot and its
    swap succeeds. *)
Theorem runner_keeps_its_slot o s t h a err cancelled l1 l2 :
  reachable o s → running s = l1 ++ (t, h) :: l2 → store (hp s) !! a = None →
  let '(next, s') := run_result o h a err cancelled (set_running (l1 ++ l2) s) in
  let '(h', ok, s'') := replaceHandler t (Some h) next s' in
  ok = true ∧ h' = next ∧ handlers s'' !! t = next.
Proof.
  intros Hi%publisher_reachable_inv Er Ha.
  destruct (run_result_spec o h a err cancelled (set_running (l1 ++ l2) s))
    as (h0 & E2 & _ & _); [apply Hi|done|].
  destruct (run_result _ _ _ _ _ _) as [next s'] eqn:E. simpl in E2. subst s'.
  assert (Hh : handlers s !! t = Some h) by (apply Hi; rewrite Er; set_solver).
  unfold replaceHandler. simpl. rewrite bool_decide_eq_false_2 by (rewrite Hh; tauto).
  split_and!; [done..|]. destruct next; simpl; [apply lookup_insert_eq|apply lookup_delete_eq].
Qed.

(** The pusher a handler's payloads end in, if any. *)
Definition destination (st : gmap nat payloadHandler) (h : nat) : option nat :=
  match st !! h with
  | Some (HTenant _) => Some h
  | Some (HDelay next _) => Some next
  | _ => None
  end.

(** A pending publish never dereferences nil, through any sleeping handler:
    the payload is handed to exactly one tenant pusher, whose publish succeeds,
    or to a discarding handler, which counts one drop per kind of data and
    leaves every pusher alone. *)
Theorem publish_reaches_a_pusher o env s pl h :
  (∀ ms, is_Some (marshalMetrics ms)) → (∀ ss, is_Some (marshalStreams ss)) →
  reachable o s → CallPublish pl h ∈ calls s →
  (∃ d p p', destination (store (hp s)) h = Some d ∧
     store (hp s) !! d = Some (HTenant p) ∧
     tenantPusher_publish o env pl p = Ret p' ∧
     pushCounter p' = u64 (pushCounter p + 1) ∧
     publish_at 2 o env pl h (hp s) =
       Ret {| store := <[d := HTenant p']> (store (hp s)); discards := discards (hp s) |}) ∨
  (∃ t dur, store (hp s) !! h = Some (HDiscard t dur) ∧
     publish_at 2 o env pl h (hp s) =
       Ret {| store := store (hp s); discards := discardPusher_publish t pl (discards (hp s)) |}).
Proof.
  intros Hm Hs Hi%publisher_reachable_inv Hin.
  pose proof (inv_calls _ Hi) as Hc. rewrite Forall_forall in Hc. apply Hc in Hin as [nh E].
  assert (Ht : ∀ p, ∃ p', tenantPusher_publish o env pl p = Ret p' ∧
                         pushCounter p' = u64 (pushCounter p + 1)).
  { intros p. unfold tenantPusher_publish, toRequest.
    destruct (Metrics_ pl) as [|m ms]; [|destruct (Hm (m :: ms)) as [? ->]];
      (destruct (Streams_ pl) as [|y ys]; [|destruct (Hs (y :: ys)) as [? ->]]);
      simpl; eauto. }
  unfold destination. simpl. rewrite E. destruct nh as [p|next d|t d]; [left|left|right; eauto].
  - destruct (Ht p) as (p' & Ep & ?). exists h, p, p'. by rewrite Ep.
  - destruct (inv_store _ Hi _ _ _ E) as [p En]. destruct (Ht p) as (p' & Ep & ?).
    exists next, p, p'. by rewrite En, Ep.
Qed.

(** A pusher that stops with a retryable kind of error gives its slot to a
    sleeping handler in front of it and takes it back after the sleep, with
    the records it accumulated; the sleep is waitPeriod for errKindWait and
    tenantDelay for errKindTenant, the end of its maximum life included; a
    fatal error leaves a discarding handler and drops the pusher, and any other
    outcome clears the slot. *)
Theorem run_lifecycle o s t h p a err l1 l2 :
  reachable o s → running s = l1 ++ (t, h) :: l2 →
  store (hp s) !! h = Some (HTenant p) → store (hp s) !! a = None →
  let s' := (let '(next, s') := run_result o h a err false (set_running (l1 ++ l2) s) in
             runHandler_next t h next s') in
  match err with
  | RunPush {| kind := errKindWait |} =>
      handlers s' = <[t := a]> (handlers s) ∧ store (hp s') !! a = Some (HDelay h (waitPeriod o))
  | RunPush {| kind := errKindTenant |} =>
      handlers s' = <[t := a]> (handlers s) ∧ store (hp s') !! a = Some (HDelay h (tenantDelay o))
  | RunPush {| kind := errKindFatal |} =>
      handlers s' = <[t := a]> (handlers s) ∧
      store (hp s') !! a = Some (HDiscard (tenantID p) (discardPeriod o))
  | _ => handlers s' = delete t (handlers s)
  end ∧
  store (hp s') !! h = Some (HTenant p) ∧
  (∀ d b err' s1 l3 l4, rtc (step o) s' s1 → store (hp s1) !! a = Some (HDelay h d) →
     running s1 = l3 ++ (t, a) :: l4 →
     let s2 := (let '(next, s2) := run_result o a b err' false (set_running (l3 ++ l4) s1) in
                runHandler_next t a next s2) in
     handlers s2 = <[t := h]> (handlers s1) ∧ hp s2 = hp s1).
Proof.
  intros Hr Er Eh Ha s'.
  assert (Hh : handlers s !! t = Some h) by (apply (publisher_reachable_inv _ _ Hr); rewrite Er; set_solver).
  assert (Hah : a ≠ h) by congruence.
  assert (Hr' : reachable o s').
  { unfold reachable. eapply rtc_r; [exact Hr|]. by apply step_run_returns. }
  split_and!.
  - unfold s', run_result. simpl. rewrite Eh.
    destruct err as [| | |[[] ?]|]; simpl; unfold runHandler_next, replaceHandler; simpl;
      rewrite Hh, bool_decide_eq_false_2 by tauto; simpl; rewrite ?lookup_insert_eq; done.
  - unfold s', run_result. simpl. rewrite Eh.
    destruct err as [| | |[[] ?]|]; simpl; unfold runHandler_next, replaceHandler; simpl;
      rewrite Hh, bool_decide_eq_false_2 by tauto; simpl; by rewrite ?lookup_insert_ne by done.
  - intros d b err' s1 l3 l4 Hs1 Ea E1.
    assert (H1 : handlers s1 !! t = Some a).
    { apply (publisher_reachable_inv o). { unfold reachable. by transitivity s'. }
      rewrite E1. set_solver. }
    unfold run_result. simpl. rewrite Ea. unfold runHandler_next, replaceHandler. simpl.
    rewrite H1, bool_decide_eq_false_2 by tauto. done.
Qed.

End publish.

(** ** Witnesses: one payload of tenant 5, published to a new pusher *)

Section witnesses.

Definition example_handlerOptions : handlerOptions :=
  {| tenantDelay := 10; waitPeriod := 60; discardPeriod := 900;
     queueOptions := defaultPusherOptions |}.
Definition example_marshal (l : list nat) : option (list byte) :=
  Some (map (λ _, Byte.x00) l).
Definition example_payload : @payload nat nat :=
  {| Tenant := 5; Metrics_ := [1]%nat; Streams_ := [] |}.
Definition example_env : insertEnv :=
  {| mStorage := 0; lStorage := 1; mT := 0; mNow := 0; lT := 0; lNow := 0 |}.
Definition example_got : publisherImpl := Publish_get example_payload 0%nat init.
Definition example_swapped : @publisherImpl nat nat :=
  match Publish_swap example_payload 0%nat (set_calls [] example_got) with
  | Ret s => s
  | Panic _ => init
  end.
Notation ex_reachable :=
  (reachable example_marshal example_marshal id example_handlerOptions).

Lemma example_reachable : ex_reachable example_swapped.
Proof.
  eapply rtc_l; [apply (step_publish _ _ _ _ example_payload 0%nat); reflexivity|].
  eapply rtc_l; [|apply rtc_refl].
  by eapply (step_swap _ _ _ _ example_payload 0%nat _ _ [] []).
Qed.

Lemma one_goroutine_per_tenant_witness :
  running example_swapped = [(5, 0%nat)] ∧ InstalledHandlers example_swapped = 1.
Proof.
  split; [reflexivity|].
  exact (proj2 (one_goroutine_per_tenant example_marshal example_marshal id
    example_handlerOptions example_swapped example_reachable)).
Defined.

Lemma runner_keeps_its_slot_witness :
  let '(next, s') := run_result example_handlerOptions 0 1 (RunPush errMaxLifeTimeExceeded) false
    (set_running [] example_swapped) in
  let '(h', ok, s'') := replaceHandler 5 (Some 0%nat) next s' in
  ok = true ∧ h' = next ∧ handlers s'' !! 5 = next.
Proof.
  apply (runner_keeps_its_slot example_marshal example_marshal id example_handlerOptions
    example_swapped 5 0%nat 1%nat (RunPush errMaxLifeTimeExceeded) false [] []).
  - exact example_reachable.
  - reflexivity.
  - reflexivity.
Defined.

Lemma publish_reaches_a_pusher_witness :
  calls example_swapped = [CallPublish example_payload 0%nat] ∧
  ((∃ d p p', destination (store (hp example_swapped)) 0%nat = Some d ∧
     store (hp example_swapped) !! d = Some (HTenant p) ∧
     tenantPusher_publish example_marshal example_marshal id example_handlerOptions example_env
       example_payload p = Ret p' ∧
     pushCounter p' = u64 (pushCounter p + 1) ∧
     publish_at example_marshal example_marshal id 2 example_handlerOptions example_env
       example_payload 0%nat (hp example_swapped) =
       Ret {| store := <[d := HTenant p']> (store (hp example_swapped));
              discards := discards (hp example_swapped) |}) ∨
  (∃ t dur, store (hp example_swapped) !! 0%nat = Some (HDiscard t dur) ∧
     publish_at example_marshal example_marshal id 2 example_handlerOptions example_env
       example_payload 0%nat (hp example_swapped) =
       Ret {| store := store (hp example_swapped);
              discards := discardPusher_publish t example_payload
                            (discards (hp example_swapped)) |})).
Proof.
  split; [reflexivity|].
  apply publish_reaches_a_pusher.
  - intros ms. by eexists.
  - intros ss. by eexists.
  - exact example_reachable.
  - left.
Defined.

Lemma run_lifecycle_witness :
  let s' := (let '(next, s') := run_result example_handlerOptions 0 1
               (RunPush errMaxLifeTimeExceeded) false (set_running [] example_swapped) in
             runHandler_next 5 0%nat next s') in
  handlers s' = <[5 := 1%nat]> (handlers example_swapped) ∧
  store (hp s') !! 1%nat = Some (HDelay 0 10).
Proof.
  refine (proj1 (run_lifecycle example_marshal example_marshal id example_handlerOptions
    example_swapped 5 0%nat (newTenantPusher 5) 1%nat (RunPush errMaxLifeTimeExceeded) [] []
    _ _ _ _)).
  - exact example_reachable.
  - reflexivity.
  - reflexivity.
  - reflexivity.
Defined.

End witnesses.
