(* ===== verification/Net.v ===== *)
(** * The parts of Go's [strings], [strconv] and [net] that validation uses

    [strings.TrimSpace], [strings.SplitN(s, ":", 2)], [strings.ToLower],
    [strconv.ParseUint(s, 10, 16)], [net.SplitHostPort] and
    [net.ParseIP], as executable functions on byte strings. *)
From S2P Require Import Prelude Strs.

Open Scope Z_scope.

(** ** [strings] *)

(** The UTF-8 encodings of the code points [unicode.IsSpace] accepts. *)
Definition spaces : list (list N) :=
  [[9]; [10]; [11]; [12]; [13]; [32]; [194; 133]; [194; 160]; [225; 154; 128];
   [226; 128; 128]; [226; 128; 129]; [226; 128; 130]; [226; 128; 131]; [226; 128; 132];
   [226; 128; 133]; [226; 128; 134]; [226; 128; 135]; [226; 128; 136]; [226; 128; 137];
   [226; 128; 138]; [226; 128; 168]; [226; 128; 169]; [226; 128; 175]; [226; 129; 159];
   [227; 128; 128]]%N.

(** [l] without the prefix [p], given by character codes. *)
Fixpoint stripCodes (p : list N) (l : list ascii) : option (list ascii) :=
  match p, l with
  | [], l => Some l
  | c :: p, a :: l => if (code a =? c)%N then stripCodes p l else None
  | _ :: _, [] => None
  end.

Definition stripOne (encodings : list (list N)) (l : list ascii) : option (list ascii) :=
  foldr (λ p acc, match stripCodes p l with Some l' => Some l' | None => acc end)
    None encodings.

Fixpoint trimWith (fuel : nat) (encodings : list (list N)) (l : list ascii) : list ascii :=
  match fuel with
  | O => l
  | S fuel => match stripOne encodings l with Some l' => trimWith fuel encodings l' | None => l end
  end.

(** [strings.TrimSpace]: leading spaces, then trailing ones (on the reversed
    bytes). *)
Definition TrimSpace (s : string) : string :=
  let l := trimWith (String.length s) spaces (chars s) in
  of_chars (reverse (trimWith (length l) (map reverse spaces) (reverse l))).

(** [strings.SplitN(s, sep, 2)] for a one-byte separator: before and after the
    first one. *)
Fixpoint cut (sep : ascii) (s : string) : option (string * string) :=
  match s with
  | EmptyString => None
  | String a s =>
      if Ascii.eqb a sep then Some (EmptyString, s)
      else '(x, y) ← cut sep s; Some (String a x, y)
  end.

(** The last separator: [strings.LastIndexByte]. *)
Fixpoint cutLast (sep : ascii) (s : string) : option (string * string) :=
  match s with
  | EmptyString => None
  | String a s' =>
      match cutLast sep s' with
      | Some (x, y) => Some (String a x, y)
      | None => if Ascii.eqb a sep then Some (EmptyString, s') else None
      end
  end.

(** [strings.ToLower]: ASCII letters, and the two characters outside ASCII whose
    lower case is an ASCII letter, U+0130 and U+212A.  Other characters stay
    outside ASCII and are kept as they are: the result is only ever compared with
    ASCII names. *)
Definition lower (a : ascii) : ascii :=
  if (65 <=? code a)%N && (code a <=? 90)%N then Ascii.ascii_of_N (code a + 32) else a.
Fixpoint lowerChars (l : list ascii) : list ascii :=
  match l with
  | [] => []
  | a :: l1 =>
      match l1 with
      | b :: l2 =>
          if (code a =? 196)%N && (code b =? 176)%N then "i"%char :: lowerChars l2
          else match l2 with
          | c :: l3 =>
              if (code a =? 226)%N && (code b =? 132)%N && (code c =? 170)%N
              then "k"%char :: lowerChars l3
              else lower a :: lowerChars l1
          | [] => lower a :: lowerChars l1
          end
      | [] => [lower a]
      end
  end.
Definition ToLower (s : string) : string := of_chars (lowerChars (chars s)).

(** ** [strconv] *)

Definition digitZ (a : ascii) : Z := Z.of_N (code a) - 48.

(** [strconv.ParseUint(s, 10, bits)]: [None] is its error. *)
Fixpoint parseDigits (max acc : Z) (l : list ascii) : option Z :=
  match l with
  | [] => Some acc
  | a :: l =>
      if isDigit a then
        let acc := acc * 10 + digitZ a in
        if max <? acc then None else parseDigits max acc l
      else None
  end.
Definition ParseUint16 (s : string) : option Z :=
  match s with EmptyString => None | _ => parseDigits 65535 0 (chars s) end.

(** ** [net.SplitHostPort] *)

Definition colon : ascii := ":"%char.
Definition lbracket : ascii := "["%char.
Definition rbracket : ascii := "]"%char.
Definition dot : ascii := "."%char.

(** Only success is told apart: the errors differ in their text. *)
Definition SplitHostPort (hostport : string) : option (string * string) :=
  match cutLast colon hostport with
  | None => None
  | Some (before, port) =>
      if string_has rbracket port || string_has lbracket port then None
      else match hostport with
      | String "["%char rest =>
          '(host, after) ← cut rbracket rest;
          (* the first ']' has to be just before the last ':' *)
          if String.eqb after (String colon port)
          then (if string_has lbracket host then None else Some (host, port))
          else None
      | _ =>
          if string_has colon before || string_has lbracket before || string_has rbracket before
          then None else Some (before, port)
      end
  end.

(** ** [net.ParseIP] *)

(** [netip.parseIPv4Fields]: [val] and [digLen] of the current octet, [pos] octets
    before it. *)
Fixpoint ipv4_loop (l : list ascii) (val digLen pos : Z) : bool :=
  match l with
  | [] => negb (pos <? 3) && (0 <? digLen)
  | a :: l =>
      if isDigit a then
        if (digLen =? 1) && (val =? 0) then false
        else
          let val := val * 10 + digitZ a in
          if 255 <? val then false else ipv4_loop l val (digLen + 1) pos
      else if Ascii.eqb a dot then
        if digLen =? 0 then false
        else if pos =? 3 then false
        else ipv4_loop l 0 0 (pos + 1)
      else false
  end.
Definition parseIPv4Fields (l : list ascii) : bool := ipv4_loop l 0 0 0.

Definition isHex (a : ascii) : bool :=
  isDigit a || ((97 <=? code a)%N && (code a <=? 102)%N) || ((65 <=? code a)%N && (code a <=? 70)%N).

(** The leading hexadecimal digits. *)
Fixpoint spanHex (l : list ascii) : list ascii * list ascii :=
  match l with
  | a :: l' => if isHex a then let '(x, y) := spanHex l' in (a :: x, y) else ([], l)
  | [] => ([], [])
  end.

(** The loop of [netip.parseIPv6]: [groups] 16-bit groups filled so far (of 8),
    [ellipsis] tells whether "::" was seen. *)
Fixpoint ipv6_loop (fuel : nat) (l : list ascii) (groups : Z) (ellipsis : bool) : bool :=
  let finish groups ellipsis rest :=
    match rest with
    | [] => if groups <? 8 then ellipsis else negb ellipsis
    | _ => false
    end in
  match fuel with
  | O => finish groups ellipsis l
  | S fuel =>
      if negb (groups <? 8) then finish groups ellipsis l
      else
        let '(digits, rest) := spanHex l in
        if (length digits =? 0)%nat || (4 <? length digits)%nat then false
        else match rest with
        | [] => finish (groups + 1) ellipsis []
        | a :: rest' =>
            if Ascii.eqb a dot then
              if negb ellipsis && negb (groups =? 6) then false
              else if 8 <? groups + 2 then false
              else parseIPv4Fields l && finish (groups + 2) ellipsis []
            else if negb (Ascii.eqb a colon) then false
            else match rest' with
            | [] => false
            | b :: rest'' =>
                if Ascii.eqb b colon then
                  if ellipsis then false
                  else match rest'' with
                  | [] => finish (groups + 1) true []
                  | _ => ipv6_loop fuel rest'' (groups + 1) true
                  end
                else ipv6_loop fuel rest' (groups + 1) ellipsis
            end
        end
  end.

Definition parseIPv6 (l : list ascii) : bool :=
  match l with
  | a :: b :: l' =>
      if Ascii.eqb a colon && Ascii.eqb b colon
      then match l' with [] => true | _ => ipv6_loop 9 l' 0 true end
      else ipv6_loop 9 l 0 false
  | _ => ipv6_loop 9 l 0 false
  end.

(** [netip.ParseAddr] decides by the first of '.', ':' and '%'. *)
Fixpoint addrKind (l : list ascii) : option bool :=
  match l with
  | [] => None
  | a :: l =>
      if Ascii.eqb a dot then Some false
      else if Ascii.eqb a colon then Some true
      else if Ascii.eqb a "%" then None
      else addrKind l
  end.

(** [net.ParseIP(s) != nil]; a zone ("%...") is never accepted. *)
Definition ParseIP (s : string) : bool :=
  match addrKind (chars s) with
  | Some false => parseIPv4Fields (chars s)
  | Some true => negb (string_has "%" s) && parseIPv6 (chars s)
  | None => false
  end.

Example ParseIP_examples :
  map ParseIP ["127.0.0.1"; "256.1.1.1"; "1.2.3"; "01.2.3.4"; "::"; "::1"; "1::"; "fe80::1%eth0";
               "1:2:3:4:5:6:7:8"; "1:2:3:4:5:6:7::8"; "1:2:3:4:5:6:7"; "::ffff:1.2.3.4";
               "1:2:3:4:5:6:1.2.3.4"; "1::2::3"; "1:2:3:4:5:6:7:8:9"; "12345::"; "1:";
               "1:2:3:4:5:6:7:8::"; "1.2.3."; "1.2.3.4.5"]%string =
  [true; false; false; false; true; true; true; false;
   true; false; false; true;
   true; false; false; false; false; false; false; false].
Proof. by vm_compute. Qed.

Example SplitHostPort_examples :
  map SplitHostPort ["a.b:80"; "[::1]:443"; "a.b"; "::1:80"; "[::1]"; "[a]b:1"; "a:[1"; ":80"]%string =
  [Some ("a.b", "80"); Some ("::1", "443"); None; None; None; None; None; Some ("", "80")]%string.
Proof. by vm_compute. Qed.

Example TrimSpace_examples :
  TrimSpace " a b  " = "a b"%string ∧ TrimSpace "   " = EmptyString.
Proof. by vm_compute. Qed.
