(* ===== verification/Header.v ===== *)
(** * HTTP headers

    [http.Header] with the canonical form of its keys, and the Basic authorization of a
    request, as the standard library defines them. *)
From S2P Require Import Prelude Strs Net.

Open Scope Z_scope.

(** ** Canonical keys: [textproto.CanonicalMIMEHeaderKey] *)

Definition validHeaderFieldByte (a : ascii) : bool :=
  isLetter a || isDigit a || existsb (Ascii.eqb a) (chars "!#$%&'*+-.^_`|~").

Definition upperByte (a : ascii) : ascii :=
  if (97 <=? code a)%N && (code a <=? 122)%N then Ascii.ascii_of_N (code a - 32) else a.
Fixpoint canonicalChars (up : bool) (l : list ascii) : list ascii :=
  match l with
  | [] => []
  | a :: l => (if up then upperByte a else lower a) :: canonicalChars (isDash a) l
  end.
Definition CanonicalHeaderKey (s : string) : string :=
  if forallb validHeaderFieldByte (chars s) then of_chars (canonicalChars true (chars s)) else s.

(** ** [http.Header] *)

Notation Header := (gmap string (list string)).
Definition Header_Set (key value : string) (h : Header) : Header := <[CanonicalHeaderKey key := [value]]> h.
Definition Header_Add (key value : string) (h : Header) : Header :=
  <[CanonicalHeaderKey key := default [] (h !! CanonicalHeaderKey key) ++ [value]]> h.
Definition Header_Get (key : string) (h : Header) : string :=
  default "" (h !! CanonicalHeaderKey key ≫= head).

(** ** Base64 *)

(** [base64.RawStdEncoding]. *)
Definition base64Digit (n : N) : ascii :=
  if (n <? 26)%N then ascii_of_N (65 + n)
  else if (n <? 52)%N then ascii_of_N (71 + n)
  else if (n <? 62)%N then ascii_of_N (n - 4)
  else if (n =? 62)%N then "+"%char else "/"%char.
Fixpoint base64 (l : list ascii) : list ascii :=
  match l with
  | [] => []
  | [a] =>
      [base64Digit (code a / 4); base64Digit (code a mod 4 * 16)]
  | [a; b] =>
      [base64Digit (code a / 4); base64Digit (code a mod 4 * 16 + code b / 16);
       base64Digit (code b mod 16 * 4)]
  | a :: b :: c :: l =>
      [base64Digit (code a / 4); base64Digit (code a mod 4 * 16 + code b / 16);
       base64Digit (code b mod 16 * 4 + code c / 64); base64Digit (code c mod 64)] ++ base64 l
  end.

(** [base64.StdEncoding] fills up the last group of four. *)
Definition base64Std (l : list ascii) : list ascii :=
  base64 l ++ match (length l mod 3)%nat with 1 => ["="; "="] | 2 => ["="] | _ => [] end%char%nat.

(** [Request.SetBasicAuth]. *)
Definition basicAuth (username password : string) : string :=
  "Basic " +:+ of_chars (base64Std (chars (username +:+ ":" +:+ password))).

(** The examples of the standards. *)
Example base64_examples :
  map (λ s, of_chars (base64Std (chars s))) ["f"; "fo"; "foo"; "foob"; "fooba"; "foobar"]%string =
    ["Zg=="; "Zm8="; "Zm9v"; "Zm9vYg=="; "Zm9vYmE="; "Zm9vYmFy"]%string ∧
  basicAuth "Aladdin" "open sesame" = "Basic QWxhZGRpbjpvcGVuIHNlc2FtZQ=="%string.
Proof. by vm_compute. Qed.

(** ** Facts *)

Lemma canonicalChars_idem up l : canonicalChars up (canonicalChars up l) = canonicalChars up l.
Proof.
  revert up. induction l as [|a l IH]; intros up; [done|]. cbn [canonicalChars].
  assert (E : (if up then upperByte (if up then upperByte a else lower a) else lower (if up then upperByte a else lower a))
            = (if up then upperByte a else lower a) ∧
              isDash (if up then upperByte a else lower a) = isDash a).
  { by destruct up, a as [[] [] [] [] [] [] [] []]. }
  destruct E as [-> ->]. by rewrite IH.
Qed.

Lemma canonicalChars_valid up l :
  forallb validHeaderFieldByte l = true → forallb validHeaderFieldByte (canonicalChars up l) = true.
Proof.
  revert up. induction l as [|a l IH]; intros up; [done|]. cbn [canonicalChars forallb].
  intros [Ha Hl]%andb_true_iff. rewrite IH, andb_true_r by done. clear -Ha.
  destruct up, a as [[] [] [] [] [] [] [] []]; first [discriminate Ha|reflexivity].
Qed.

Lemma canonicalChars_lower up l : canonicalChars up (map lower l) = canonicalChars up l.
Proof.
  revert up. induction l as [|a l IH]; intros up; [done|]. cbn [canonicalChars map].
  assert (E : (if up then upperByte (lower a) else lower (lower a)) = (if up then upperByte a else lower a) ∧
              isDash (lower a) = isDash a) by by destruct up, a as [[] [] [] [] [] [] [] []].
  destruct E as [-> ->]. by rewrite IH.
Qed.

Lemma valid_lower l : forallb validHeaderFieldByte (map lower l) = forallb validHeaderFieldByte l.
Proof.
  induction l as [|a l IH]; [done|]. cbn [map forallb]. rewrite IH. f_equal.
  by destruct a as [[] [] [] [] [] [] [] []].
Qed.

(** A canonical key is its own canonical form. *)
Lemma CanonicalHeaderKey_idem s : CanonicalHeaderKey (CanonicalHeaderKey s) = CanonicalHeaderKey s.
Proof.
  unfold CanonicalHeaderKey at 2 3. destruct (forallb _ (chars s)) eqn:E.
  - unfold CanonicalHeaderKey. rewrite chars_of_chars, canonicalChars_valid, canonicalChars_idem by done. done.
  - unfold CanonicalHeaderKey. by rewrite E.
Qed.

(** Keys of tokens that differ only in the case of letters are the same key. *)
Lemma CanonicalHeaderKey_case s t :
  forallb validHeaderFieldByte (chars s) = true → map lower (chars s) = map lower (chars t) →
  CanonicalHeaderKey s = CanonicalHeaderKey t.
Proof.
  intros Hs E. assert (Ht : forallb validHeaderFieldByte (chars t) = true) by by rewrite <-valid_lower, <-E, valid_lower.
  unfold CanonicalHeaderKey. rewrite Hs, Ht. by rewrite <-(canonicalChars_lower _ (chars s)), E, canonicalChars_lower.
Qed.

Lemma Header_Get_Set key value h : Header_Get key (Header_Set key value h) = value.
Proof. unfold Header_Get, Header_Set. by rewrite lookup_insert_eq. Qed.
