(* ===== verification/Version.v ===== *)
(** * The version of the agent

    [internal/version/version.go]: the settings recorded in the binary, sorted and searched
    by bisection, and the user agent made of them.  [debug.ReadBuildInfo] and the platform
    are inputs. *)
From stdpp Require Import sorting.
From S2P Require Import Prelude Strs.

Open Scope Z_scope.

Record BuildSetting := { bs_Key : string; bs_Value : string }.
Record BuildInfo := { bi_Path : string; bi_Version : string; bi_Settings : list BuildSetting }.

Definition revisionKey : string := "vcs.revision".
Definition timeKey : string := "vcs.time".
Definition smHomepage : string := "https://github.com/grafana/synthetic-monitoring-agent".

(** [cmpBuildSettings(a, b) <= 0]: by key, then by value. *)
Definition cmpBuildSettings (a b : BuildSetting) : bool :=
  if String.eqb (bs_Key a) (bs_Key b) then bytesLe (bs_Value a) (bs_Value b) else bytesLe (bs_Key a) (bs_Key b).
Definition settingLe (a b : BuildSetting) : Prop := cmpBuildSettings a b = true.
#[global] Instance settingLe_dec : RelDecision settingLe.
Proof. intros a b. unfold settingLe. apply _. Defined.

(** [getBuildInfo], from what [ReadBuildInfo] returns. *)
Definition getBuildInfo (read : option BuildInfo) : option BuildInfo :=
  bi ← read; Some {| bi_Path := bi_Path bi; bi_Version := bi_Version bi; bi_Settings := merge_sort settingLe (bi_Settings bi) |}.

(** [isKey(a, key) >= 0]. *)
Definition notBelow (key : string) (l : list BuildSetting) (i : nat) : bool :=
  match l !! i with Some s => bytesLe key (bs_Key s) | None => true end.
(** [slices.BinarySearchFunc] with [isKey]. *)
Definition searchKey (key : string) (l : list BuildSetting) : option BuildSetting :=
  s ← l !! search (length l) (notBelow key l); if String.eqb (bs_Key s) key then Some s else None.

Definition getBuildInfoByKey (read : option BuildInfo) (key : string) : string :=
  match getBuildInfo read with
  | None => "invalid"
  | Some bi => match searchKey key (bi_Settings bi) with Some s => bs_Value s | None => "unknown" end
  end.

Definition nilDereference : string := "invalid memory address or nil pointer dereference".
Definition Short (read : option BuildInfo) : go string :=
  match getBuildInfo read with Some bi => Ret (bi_Version bi) | None => Panic nilDereference end.
Definition Commit (read : option BuildInfo) : string := getBuildInfoByKey read revisionKey.
Definition Buildstamp (read : option BuildInfo) : string := getBuildInfoByKey read timeKey.

(** [filepath.Base]: the last element without trailing slashes. *)
Fixpoint dropSlashes (l : list ascii) : list ascii :=
  match l with a :: l' => if Ascii.eqb a "/" then dropSlashes l' else l | [] => [] end.
Fixpoint upToSlash (l : list ascii) : list ascii :=
  match l with a :: l => if Ascii.eqb a "/" then [] else a :: upToSlash l | [] => [] end.
Definition Base (path : string) : string :=
  if String.eqb path "" then "."
  else match dropSlashes (rev (chars path)) with
       | [] => "/"
       | l => of_chars (rev (upToSlash l))
       end.

Definition UserAgent (goos goarch : string) (read : option BuildInfo) : go string :=
  match getBuildInfo read with
  | None => Panic nilDereference
  | Some bi =>
      short ← Short read;
      Ret (Base (bi_Path bi) +:+ "/" +:+ short +:+ " (" +:+ goos +:+ " " +:+ goarch +:+ "; " +:+ Commit read +:+ "; " +:+
           Buildstamp read +:+ "; +" +:+ smHomepage +:+ ")")
  end.

(** ** The search finds what is there *)

#[global] Instance settingLe_total : Total settingLe.
Proof.
  intros a b. unfold settingLe, cmpBuildSettings. rewrite (String.eqb_sym (bs_Key b)).
  destruct (String.eqb (bs_Key a) (bs_Key b)); apply bytesLe_total.
Qed.
#[global] Instance settingLe_trans : Transitive settingLe.
Proof.
  intros a b c. unfold settingLe, cmpBuildSettings.
  destruct (String.eqb_spec (bs_Key a) (bs_Key b)) as [E1|N1], (String.eqb_spec (bs_Key b) (bs_Key c)) as [E2|N2];
    destruct (String.eqb_spec (bs_Key a) (bs_Key c)) as [E3|N3]; intros H1 H2; try congruence; try by eapply bytesLe_trans.
  exfalso. apply N2. apply bytesLe_antisym; [done|congruence].
Qed.

Lemma settingLe_key a b : settingLe a b → bytesLe (bs_Key a) (bs_Key b) = true.
Proof. unfold settingLe, cmpBuildSettings. destruct (String.eqb_spec (bs_Key a) (bs_Key b)) as [->|]; [intros _; apply bytesLe_refl|done]. Qed.

Lemma sorted_lookup (l : list BuildSetting) i j a b :
  StronglySorted settingLe l → (i < j)%nat → l !! i = Some a → l !! j = Some b → settingLe a b.
Proof.
  intros Hl Hij Ha Hb. rewrite <-(take_drop (S i) l) in Hl.
  eapply StronglySorted_app_1_elem_of in Hl; [exact Hl|..]; apply list_elem_of_lookup.
  - exists i. by rewrite lookup_take_lt by lia.
  - exists (j - S i)%nat. rewrite lookup_drop. by replace (S i + (j - S i))%nat with j by lia.
Qed.

(** The value reported for a key is the least one recorded for it; a key that is not
    recorded is unknown. *)
Lemma getBuildInfoByKey_spec bi key :
  (∃ s, s ∈ bi_Settings bi ∧ bs_Key s = key ∧ getBuildInfoByKey (Some bi) key = bs_Value s ∧
     ∀ s', s' ∈ bi_Settings bi → bs_Key s' = key → bytesLe (bs_Value s) (bs_Value s') = true) ∨
  (Forall (λ s, bs_Key s ≠ key) (bi_Settings bi) ∧ getBuildInfoByKey (Some bi) key = "unknown"%string).
Proof.
  unfold getBuildInfoByKey, searchKey. cbn [getBuildInfo mbind option_bind bi_Settings].
  set (l := merge_sort settingLe (bi_Settings bi)).
  assert (Hp : l ≡ₚ bi_Settings bi) by apply merge_sort_Permutation.
  assert (Hl : StronglySorted settingLe l) by (apply StronglySorted_merge_sort; apply _).
  destruct (search_spec (notBelow key l) (length l)) as (Hn & Hlo & Hhi).
  { intros i j Hij. unfold notBelow. destruct (decide (i = j)) as [->|]; [done|].
    destruct (l !! i) as [a|] eqn:Ea; [|apply lookup_ge_None in Ea; lia]. destruct (l !! j) as [b|] eqn:Eb; [|done].
    intros Ha. eapply bytesLe_trans; [exact Ha|]. eapply settingLe_key, sorted_lookup; [done| |done|done]. lia. }
  set (r := search _ _) in *.
  assert (Habove : ∀ s', s' ∈ l → bs_Key s' = key → ∃ s, l !! r = Some s ∧ bs_Key s = key ∧
    bytesLe (bs_Value s) (bs_Value s') = true).
  { intros s' [j Hj]%list_elem_of_lookup Hk. assert (Hrj : (r ≤ j)%nat).
    { destruct (decide (j < r)%nat) as [H|]; [|lia]. specialize (Hlo j H). unfold notBelow in Hlo.
      rewrite Hj, Hk, bytesLe_refl in Hlo. done. }
    pose proof (lookup_lt_Some _ _ _ Hj) as Hlt. destruct (lookup_lt_is_Some_2 l r) as [s Hs]; [lia|]. exists s.
    assert (Hge : bytesLe key (bs_Key s) = true).
    { specialize (Hhi r ltac:(lia)). unfold notBelow in Hhi. by rewrite Hs in Hhi. }
    assert (Hle : settingLe s s').
    { destruct (decide (r = j)) as [E|]; [|by apply (sorted_lookup l r j); [|lia| |]].
      replace s' with s by congruence. by destruct (total settingLe s s). }
    assert (Ek : bs_Key s = key).
    { apply bytesLe_antisym; [|done]. rewrite <-Hk. by apply settingLe_key. }
    split_and!; [done|done|]. unfold settingLe, cmpBuildSettings in Hle. by rewrite Ek, <-Hk, String.eqb_refl in Hle. }
  destruct (decide (Exists (λ s, bs_Key s = key) l)) as [(s' & Hin & Hk)%Exists_exists|Hno].
  - left. destruct (Habove s' Hin Hk) as (s & Hs & Ek & _). exists s. rewrite Hs. cbn [mbind option_bind].
    rewrite Ek, String.eqb_refl. split_and!; [|done|done|].
    + rewrite <-Hp. by eapply list_elem_of_lookup_2.
    + intros s2 Hin2 Hk2. rewrite <-Hp in Hin2. destruct (Habove s2 Hin2 Hk2) as (s3 & Hs3 & _ & H).
      by replace s with s3 by congruence.
  - right. assert (Hall : Forall (λ s, bs_Key s ≠ key) l) by by apply not_Exists_Forall in Hno; [|apply _].
    split; [by rewrite <-Hp|]. destruct (l !! r) as [s|] eqn:Es; [|done]. cbn [mbind option_bind].
    rewrite Forall_forall in Hall. destruct (String.eqb_spec (bs_Key s) key) as [E|]; [|done].
    destruct (Hall s); [by eapply list_elem_of_lookup_2|done].
Qed.

(** Without build information the commit is reported as invalid, but asking for the version
    or the user agent panics. *)
Lemma no_build_info goos goarch :
  Commit None = "invalid"%string ∧ Short None = Panic nilDereference ∧ UserAgent goos goarch None = Panic nilDereference.
Proof. done. Qed.

Example user_agent_example :
  UserAgent "linux" "amd64" (Some {| bi_Path := "github.com/grafana/x/cmd/agent"; bi_Version := "v1.2";
    bi_Settings := [{| bs_Key := "vcs.time"; bs_Value := "now" |}; {| bs_Key := "GOOS"; bs_Value := "linux" |}] |}) =
  Ret "agent/v1.2 (linux amd64; unknown; now; +https://github.com/grafana/synthetic-monitoring-agent)"%string.
Proof. by vm_compute. Qed.
