(* ===== verification/Checks.v ===== *)
(** * Checks, probes and labels: the data and the enumerations

    [pkg/pb/synthetic_monitoring/checks.pb.go] (the message structs, with the
    fields the modelled code reads; a pointer is an [option]), [string.go] and
    the name tables of the enumerations.  An enumeration that arrives on the
    wire is an [int32] and can hold any number; [CheckType] is only ever made by
    [Type] and [CheckTypeString], so it is an inductive type. *)
From S2P Require Import Prelude Strs Net.
From Stdlib Require Import Floats.SpecFloat.

Open Scope Z_scope.

(** ** Enumerations *)

Inductive CheckType :=
  | CheckTypeDns | CheckTypeHttp | CheckTypePing | CheckTypeTcp | CheckTypeTraceroute
  | CheckTypeScripted | CheckTypeMultiHttp | CheckTypeGrpc | CheckTypeBrowser.

#[export] Instance CheckType_eq_dec : EqDecision CheckType.
Proof. solve_decision. Defined.

Definition CheckType_value (c : CheckType) : nat :=
  match c with
  | CheckTypeDns => 0 | CheckTypeHttp => 1 | CheckTypePing => 2 | CheckTypeTcp => 3
  | CheckTypeTraceroute => 4 | CheckTypeScripted => 5 | CheckTypeMultiHttp => 6
  | CheckTypeGrpc => 7 | CheckTypeBrowser => 8
  end.

Definition CheckTypeValues : list CheckType :=
  [CheckTypeDns; CheckTypeHttp; CheckTypePing; CheckTypeTcp; CheckTypeTraceroute;
   CheckTypeScripted; CheckTypeMultiHttp; CheckTypeGrpc; CheckTypeBrowser].

#[export] Instance CheckType_countable : Countable CheckType.
Proof.
  refine (inj_countable' CheckType_value
    (λ n, nth n CheckTypeValues CheckTypeDns) _). by intros [].
Defined.

Definition _CheckTypeName : string := "dnshttppingtcptraceroutescriptedmultihttpgrpcbrowser".
Definition _CheckTypeIndex : list nat := [0; 3; 7; 11; 14; 24; 32; 41; 45; 52]%nat.

(** [s[i:j]]. *)
Definition slice (i j : nat) (s : string) : string := String.substring i (j - i) s.

(** [CheckType.String]: the out-of-range branch cannot be taken. *)
Definition CheckType_String (c : CheckType) : string :=
  let i := CheckType_value c in
  slice (nth i _CheckTypeIndex 0%nat) (nth (S i) _CheckTypeIndex 0%nat) _CheckTypeName.

Definition _CheckTypeNameToValueMap : gmap string CheckType :=
  list_to_map (map (λ c, (CheckType_String c, c)) CheckTypeValues).

Definition CheckTypeString (s : string) : option CheckType :=
  match _CheckTypeNameToValueMap !! s with
  | Some c => Some c
  | None => _CheckTypeNameToValueMap !! ToLower s
  end.

Definition CheckTypeFromString (s : string) : CheckType * bool :=
  match CheckTypeString s with Some c => (c, true) | None => (CheckTypeDns, false) end.

Inductive CheckClass := CheckClass_PROTOCOL | CheckClass_SCRIPTED | CheckClass_BROWSER.

(** The [_name] tables. *)
Definition HttpMethod_name : list (Z * string) :=
  [(0, "GET"); (1, "CONNECT"); (2, "DELETE"); (3, "HEAD"); (4, "OPTIONS"); (5, "POST");
   (6, "PUT"); (7, "TRACE"); (8, "PATCH")]%string.
Definition DnsRecordType_name : list (Z * string) :=
  [(0, "ANY"); (1, "A"); (2, "AAAA"); (3, "CNAME"); (4, "MX"); (5, "NS"); (6, "PTR");
   (7, "SOA"); (8, "SRV"); (9, "TXT")]%string.
Definition DnsProtocol_name : list (Z * string) := [(0, "TCP"); (1, "UDP")]%string.
Definition IpVersion_name : list (Z * string) := [(0, "Any"); (1, "V4"); (2, "V6")]%string.
Definition CompressionAlgorithm_name : list (Z * string) :=
  [(0, "none"); (1, "identity"); (2, "gzip"); (3, "br"); (4, "deflate")]%string.
Definition MultiHttpEntryAssertionType_name : list (Z * string) :=
  [(0, "TEXT"); (1, "JSON_PATH_VALUE"); (2, "JSON_PATH_ASSERTION"); (3, "REGEX_ASSERTION")]%string.
Definition MultiHttpEntryAssertionSubjectVariant_name : list (Z * string) :=
  [(0, "DEFAULT_SUBJECT"); (1, "RESPONSE_HEADERS"); (2, "HTTP_STATUS_CODE");
   (3, "RESPONSE_BODY")]%string.
Definition MultiHttpEntryAssertionConditionVariant_name : list (Z * string) :=
  [(0, "DEFAULT_CONDITION"); (1, "NOT_CONTAINS"); (2, "EQUALS"); (3, "STARTS_WITH");
   (4, "ENDS_WITH"); (5, "TYPE_OF"); (6, "CONTAINS")]%string.
Definition MultiHttpEntryVariableType_name : list (Z * string) :=
  [(0, "JSON_PATH"); (1, "REGEX"); (2, "CSS_SELECTOR")]%string.

(** ** Messages *)

Record Label := { l_Name : string; l_Value : string }.

Record PingSettings := {
  ping_IpVersion : Z; ping_SourceIpAddress : string; ping_PayloadSize : Z;
  ping_DontFragment : bool; ping_PacketCount : Z }.

Record HeaderMatch := { hm_Header : string; hm_Regexp : string; hm_AllowMissing : bool }.

(** The TLS, basic-auth and OAuth2 sub-messages are not read by validation. *)
Record HttpSettings := {
  http_IpVersion : Z; http_Method : Z; http_Headers : list string; http_Body : string;
  http_NoFollowRedirects : bool; http_BearerToken : string; http_ProxyURL : string;
  http_ProxyConnectHeaders : list string; http_FailIfSSL : bool; http_FailIfNotSSL : bool;
  http_ValidStatusCodes : list Z; http_ValidHTTPVersions : list string;
  http_FailIfBodyMatchesRegexp : list string; http_FailIfBodyNotMatchesRegexp : list string;
  http_FailIfHeaderMatchesRegexp : list HeaderMatch;
  http_FailIfHeaderNotMatchesRegexp : list HeaderMatch;
  http_Compression : Z; http_CacheBustingQueryParamName : string;
  http_SecretManagerEnabled : bool }.

Record DnsSettings := {
  dns_IpVersion : Z; dns_SourceIpAddress : string; dns_Server : string; dns_Port : Z;
  dns_RecordType : Z; dns_Protocol : Z; dns_ValidRCodes : list string }.

Record TcpSettings := { tcp_IpVersion : Z; tcp_SourceIpAddress : string; tcp_Tls : bool }.
Record TracerouteSettings := {
  tr_MaxHops : Z; tr_MaxUnknownHops : Z; tr_PtrLookup : bool; tr_HopTimeout : Z }.
Record GrpcSettings := { grpc_IpVersion : Z; grpc_Service : string; grpc_Tls : bool }.
Record ScriptedSettings := { sc_Script : list ascii }.
Record BrowserSettings := { br_Script : list ascii }.

Record HttpHeader := { h_Name : string; h_Value : string }.
Record QueryField := { q_Name : string; q_Value : string }.
Record HttpRequestBody := {
  b_ContentType : string; b_ContentEncoding : string; b_Payload : list ascii }.
Record MultiHttpEntryRequest := {
  r_Method : Z; r_Url : string; r_Headers : list (option HttpHeader);
  r_QueryFields : list (option QueryField); r_Body : option HttpRequestBody }.
Record MultiHttpEntryAssertion := {
  as_Type : Z; as_Subject : Z; as_Condition : Z; as_Expression : string; as_Value : string }.
Record MultiHttpEntryVariable := {
  v_Type : Z; v_Name : string; v_Expression : string; v_Attribute : string }.
Record MultiHttpEntry := {
  e_Request : option MultiHttpEntryRequest;
  e_Assertions : list (option MultiHttpEntryAssertion);
  e_Variables : list (option MultiHttpEntryVariable) }.
Record MultiHttpSettings := {
  mh_Entries : list (option MultiHttpEntry); mh_LogResponses : bool }.

Record CheckSettings := {
  Ping : option PingSettings;
  Http : option HttpSettings;
  Dns : option DnsSettings;
  Tcp : option TcpSettings;
  Traceroute : option TracerouteSettings;
  Scripted : option ScriptedSettings;
  Multihttp : option MultiHttpSettings;
  Grpc : option GrpcSettings;
  Browser : option BrowserSettings }.

Definition noSettings : CheckSettings :=
  {| Ping := None; Http := None; Dns := None; Tcp := None; Traceroute := None;
     Scripted := None; Multihttp := None; Grpc := None; Browser := None |}.

(** [Created] and [Modified] are [float64]. *)
Record Check := {
  Id : Z; TenantId : Z; Frequency : Z; Offset : Z; Timeout : Z; Enabled : bool;
  Labels : list Label; Settings : CheckSettings; Probes : list Z; Target : string;
  Job : string; BasicMetricsOnly : bool; AlertSensitivity : string;
  Created : spec_float; Modified : spec_float }.

Record AdHocCheck := {
  a_Id : string; a_TenantId : Z; a_Timeout : Z; a_Settings : CheckSettings;
  a_Probes : list Z; a_Target : string }.

Record Probe_Capabilities := { DisableScriptedChecks : bool; DisableBrowserChecks : bool }.

(** [Latitude] and [Longitude] are [float32]. *)
Record Probe := {
  p_Id : Z; p_TenantId : Z; p_Name : string; p_Latitude : spec_float; p_Longitude : spec_float;
  p_Labels : list Label; p_Region : string; p_Public : bool;
  p_Version : string; p_Created : spec_float; p_Modified : spec_float;
  p_Capabilities : option Probe_Capabilities }.

(** ** The type and the class of a check *)

(** [Check.Type] and [AdHocCheck.Type] have the same body. *)
Definition Settings_Type (s : CheckSettings) : go CheckType :=
  match s with
  | {| Dns := Some _ |} => Ret CheckTypeDns
  | {| Http := Some _ |} => Ret CheckTypeHttp
  | {| Ping := Some _ |} => Ret CheckTypePing
  | {| Tcp := Some _ |} => Ret CheckTypeTcp
  | {| Traceroute := Some _ |} => Ret CheckTypeTraceroute
  | {| Scripted := Some _ |} => Ret CheckTypeScripted
  | {| Multihttp := Some _ |} => Ret CheckTypeMultiHttp
  | {| Grpc := Some _ |} => Ret CheckTypeGrpc
  | {| Browser := Some _ |} => Ret CheckTypeBrowser
  | _ => Panic "unhandled check type"
  end.

Definition Type_ (c : Check) : go CheckType := Settings_Type (Settings c).
Definition AdHoc_Type (c : AdHocCheck) : go CheckType := Settings_Type (a_Settings c).

Definition Class_ (c : CheckType) : CheckClass :=
  match c with
  | CheckTypeDns | CheckTypeHttp | CheckTypePing | CheckTypeTcp | CheckTypeTraceroute
  | CheckTypeGrpc => CheckClass_PROTOCOL
  | CheckTypeScripted | CheckTypeMultiHttp => CheckClass_SCRIPTED
  | CheckTypeBrowser => CheckClass_BROWSER
  end.

(** ** [ConfigVersion]: [int64(c.Modified * 1000000000)] in decimal *)

(** [float64] is binary64; 10^9 as a float. *)
Definition f64_1e9 : spec_float :=
  binary_normalize 53 1024 1000000000 0 false.
(** The [int64] conversion of a float truncates towards zero; out of range the
    result is implementation-defined ([minInt64] on amd64). *)
Definition float_to_int64 (f : spec_float) : Z :=
  match f with
  | S754_finite s m e =>
      let z := Z.shiftl (Zpos m) e in
      let z := if s then - z else z in
      if (minInt64 <=? z) && (z <=? maxInt64) then z else minInt64
  | S754_zero _ => 0
  | _ => minInt64
  end.
(** [float64(z)], and [time.Duration.Seconds]. *)
Definition f64_of (z : Z) : spec_float := binary_normalize 53 1024 z 0 false.
Definition seconds (d : Z) : spec_float :=
  SFadd 53 1024 (f64_of (Z.quot d 1000000000)) (SFdiv 53 1024 (f64_of (Z.rem d 1000000000)) f64_1e9).

Definition ConfigVersion (c : Check) : string :=
  itoa (float_to_int64 (SFmul 53 1024 (Modified c) f64_1e9)).

(** ** The names of check types *)

Lemma CheckTypeString_String c : CheckTypeString (CheckType_String c) = Some c.
Proof. by destruct c. Qed.

(** The names of the check types are pairwise different and parse back, in
    any letter case; nothing else parses. *)
Theorem check_type_names s c :
  CheckTypeString s = Some c ↔ ToLower s = CheckType_String c.
Proof.
  assert (Hkeys : ∀ k c', _CheckTypeNameToValueMap !! k = Some c' ↔ k = CheckType_String c').
  { intros k c'. split.
    - intros Hk. apply elem_of_list_to_map_2 in Hk.
      apply list_elem_of_fmap in Hk as (c0 & [= -> ->] & _). done.
    - intros ->. by destruct c'. }
  unfold CheckTypeString. split.
  - destruct (_CheckTypeNameToValueMap !! s) as [c0|] eqn:E.
    + intros [= ->]. apply Hkeys in E as ->. by destruct c.
    + by rewrite Hkeys.
  - intros Hl. destruct (_CheckTypeNameToValueMap !! s) as [c0|] eqn:E.
    + apply Hkeys in E as ->.
      destruct c0, c; try done; vm_compute in Hl; discriminate.
    + by rewrite Hkeys.
Qed.
