(* ===== verification/Validate.v ===== *)
(** * Validation of checks and probes

    [pkg/pb/synthetic_monitoring/checks_extra.go].  [url.Parse],
    [regexp.Compile], [mime.ParseMediaType], [strconv.Unquote] of literals with
    escapes, and [golang.org/x/net/http/httpguts] are parameters: every theorem
    holds whatever they accept. *)
From S2P Require Import Prelude Strs Net Ids Checks.
From Stdlib Require Import Floats.SpecFloat.

Open Scope Z_scope.

Inductive verr :=
  | ErrInvalidTenantId | ErrInvalidCheckProbes | ErrInvalidCheckTarget | ErrInvalidCheckJob
  | ErrInvalidCheckFrequency | ErrInvalidCheckTimeout
  | ErrInvalidLabelName | ErrInvalidLabelValue | ErrDuplicateLabelName (name : string)
  | ErrInvalidTargetValue | ErrInvalidCheckSettings
  | ErrInvalidFQDNLength | ErrInvalidFQHNElements | ErrInvalidFQDNElementLength
  | ErrInvalidFQHNElement
  | ErrInvalidPingHostname | ErrInvalidPingPayloadSize | ErrInvalidPingPacketCount
  | ErrInvalidDnsName | ErrInvalidDnsNameElement | ErrInvalidDnsServer | ErrInvalidDnsPort
  | ErrInvalidHttpUrl | ErrInvalidHttpMethodValue | ErrInvalidHttpHeaders
  | ErrInvalidHttpFailIfBodyMatchesRegexp | ErrInvalidHttpFailIfBodyNotMatchesRegexp
  | ErrInvalidHttpFailIfHeaderMatchesRegexp | ErrInvalidHttpFailIfHeaderNotMatchesRegexp
  | ErrHttpUrlContainsPassword | ErrHttpUrlContainsUsername
  | ErrInvalidProxyConnectHeaders | ErrInvalidProxyUrl | ErrInvalidProxySettings
  | ErrInvalidTracerouteHostname | ErrInvalidK6Script
  | ErrInvalidMultiHttpTargets | ErrTooManyMultiHttpTargets | ErrTooManyMultiHttpAssertions
  | ErrTooManyMultiHttpVariables | ErrMultiHttpVariableNamesNotUnique
  | ErrInvalidHostname | ErrInvalidPort
  | ErrInvalidProbeName | ErrTooManyProbeLabels | ErrInvalidProbeLatitude
  | ErrInvalidProbeLongitude
  | ErrInvalidHttpRequestBodyContentType | ErrInvalidQueryFieldName
  | ErrInvalidMultiHttpAssertion | ErrInvalidMultiHttpEntryVariable
  | ErrInvalidMultiHttpAssertionMissingValue
  | ErrInvalidMultiHttpAssertionExpressionNotAllowed.

#[export] Instance verr_eq_dec : EqDecision verr.
Proof. solve_decision. Defined.

(** [if cond { return err }]. *)
Definition failIf (cond : bool) (e : verr) : error verr := if cond then Some e else None.

(** [if err := f(); err != nil { return err }; g()] for callees that cannot panic. *)
Definition orElse (f g : error verr) : error verr :=
  match f with Some e => Some e | None => g end.
Notation "f ;;! g" := (orElse f g) (at level 100, right associativity).

Lemma orElse_nil f g : (f ;;! g) = None ↔ f = None ∧ g = None.
Proof. destruct f; naive_solver. Qed.
Lemma failIf_nil b e : failIf b e = None ↔ b = false.
Proof. by destruct b. Qed.
#[export] Hint Rewrite orElse_nil failIf_nil : agent.

(** ** Constants, in milliseconds where the code compares milliseconds *)

Definition Second : Z := 1000000000.
Definition Minute : Z := 60 * Second.
Definition Hour : Z := 60 * Minute.
(** [Duration.Milliseconds]. *)
Definition Milliseconds (d : Z) : Z := d ÷ 1000000.

Definition MaxMetricLabels : Z := 22.
Definition MaxLogLabels : Z := 15.
Definition MaxProbeLabels : Z := 3.
(** How many labels the agent itself sets, for those who limit the labels of users. *)
Definition maxAgentMetricLabels : Z := 9.
Definition maxAgentLogLabels : Z := 7.
Definition maxAgentCheckInfoLabels : Z := 9.
Definition MaxAgentMetricLabels : Z := maxAgentMetricLabels.
Definition MaxAgentLogLabels : Z := maxAgentLogLabels.
Definition MaxAgentCheckInfoLabels : Z := maxAgentCheckInfoLabels.
Definition maxValidLabelValueLength : Z := 2048.
Definition MaxLabelValueLength : Z := 128.
Definition MaxPingPackets : Z := 10.
Definition MaxMultiHttpTargets : Z := 10.
Definition MaxMultiHttpAssertions : Z := 5.
Definition MaxMultiHttpVariables : Z := 5.
Definition maxCheckFrequency : Z := Hour.
Definition minCheckFrequency : Z := Second.
Definition minTracerouteFrequency : Z := 2 * Minute.
Definition minK6Frequency : Z := Minute.
Definition minCheckTimeout : Z := minCheckFrequency.
Definition maxCheckTimeout : Z := Minute.
Definition minScriptedTimeout : Z := minCheckTimeout.
Definition MaxScriptedTimeout : Z := 3 * Minute.
Definition minTracerouteTimeout : Z := 30 * Second.
Definition maxTracerouteTimeout : Z := 30 * Second.
Definition internalMarker : string := "__internal__".

Definition systemLabels : list string :=
  ["check"; "check_name"; "cipher"; "config_version"; "execution_id"; "fingerprint_sha256";
   "frequency"; "geohash"; "instance"; "issuer"; "job"; "le"; "method"; "name"; "phase";
   "probe"; "probe_success"; "proto"; "rating"; "result"; "scenario"; "serialnumber";
   "sm_region"; "source"; "status"; "subject"; "subjectalternative"; "tls_version"; "url";
   "version"]%string.
Definition IsSystemLabel (name : string) : bool := bool_decide (name ∈ systemLabels).

Definition inClosedRange (v lower upper : Z) : bool := (lower <=? v) && (v <=? upper).

(** ** Labels *)

Definition validateLabelValue (v : string) : error verr :=
  failIf ((slen v =? 0) || (MaxLabelValueLength <? slen v)) ErrInvalidLabelValue.

(** The character test of the loop on the name. *)
Definition labelNameChar (b : ascii) : bool :=
  isLetter b || Ascii.eqb b "_" || isDigit b.

Definition Label_Validate (l : Label) : error verr :=
  (match validateLabelValue (l_Name l) with Some _ => Some ErrInvalidLabelName | None => None end) ;;!
  failIf (negb (forallb labelNameChar (chars (l_Name l)))) ErrInvalidLabelName ;;!
  validateLabelValue (l_Value l).

Fixpoint validateLabels_loop (seenLabels : gset string) (labels : list Label) : error verr :=
  match labels with
  | [] => None
  | label :: labels =>
      failIf (bool_decide (l_Name label ∈ seenLabels)) (ErrDuplicateLabelName (l_Name label)) ;;!
      Label_Validate label ;;!
      validateLabels_loop ({[l_Name label]} ∪ seenLabels) labels
  end.
Definition validateLabels (labels : list Label) : error verr := validateLabels_loop ∅ labels.

(** ** Host names *)

Definition isAlnum (r : ascii) : bool := isLetter r || isDigit r.

(** [validateFQHNLabel]; the first and last rune of a label are ASCII letters or
    digits exactly when its first and last byte are. *)
Definition validateFQHNLabel (label : string) (isLast : bool) : error verr :=
  let runes := chars label in
  failIf ((slen label =? 0) || (63 <? slen label)) ErrInvalidFQDNElementLength ;;!
  failIf (negb (match head runes with Some r => isAlnum r | None => false end))
    ErrInvalidFQHNElement ;;!
  failIf (negb (match last runes with Some r => isAlnum r | None => false end))
    ErrInvalidFQHNElement ;;!
  failIf (isLast && forallb isDigit runes) ErrInvalidFQHNElement ;;!
  failIf (negb (forallb (λ r, isAlnum r || isDash r) runes)) ErrInvalidFQHNElement.

(** [for i, label := range labels { f(label, i == len(labels)-1) }]. *)
Fixpoint forLabels (f : string → bool → error verr) (labels : list string) : error verr :=
  match labels with
  | [] => None
  | label :: labels => f label (match labels with [] => true | _ => false end) ;;! forLabels f labels
  end.

Definition checkFQHN (fqhn : string) : error verr :=
  failIf ((slen fqhn =? 0) || (255 <? slen fqhn)) ErrInvalidFQDNLength ;;!
  let labels := split dot fqhn in
  failIf (llen labels <? 2) ErrInvalidFQHNElements ;;!
  forLabels validateFQHNLabel labels.

Definition validateHost (target : string) : error verr :=
  if ParseIP target then None else checkFQHN target.

Definition validateDnsLabel (label : string) (isLast : bool) : error verr :=
  failIf ((slen label =? 0) || (63 <? slen label)) ErrInvalidDnsNameElement.

Definition validateDnsTarget (target : string) : error verr :=
  let labels := split dot target in
  if llen labels =? 1 then
    if bool_decide (target = "localhost"%string) then None else Some ErrInvalidDnsName
  else
    let labels := match last labels with
                  | Some EmptyString => take (length labels - 1) labels
                  | _ => labels
                  end in
    forLabels validateDnsLabel labels.

Definition validateHostPort (target : string) : error verr :=
  match SplitHostPort target with
  | None => Some ErrInvalidCheckTarget
  | Some (host, port) =>
      match validateHost host with
      | Some _ => Some ErrInvalidHostname
      | None =>
          match ParseUint16 port with
          | None => Some ErrInvalidPort
          | Some n => failIf (n =? 0) ErrInvalidPort
          end
      end
  end.

(** ** Timeouts and frequencies *)

Definition validateTimeout (checkType : CheckType) (timeout frequency : Z) : error verr :=
  let '(minTimeout, maxTimeout) :=
    match checkType with
    | CheckTypeTraceroute =>
        (Milliseconds minTracerouteTimeout, Z.min frequency (Milliseconds maxTracerouteTimeout))
    | CheckTypeScripted | CheckTypeMultiHttp | CheckTypeBrowser =>
        (Milliseconds minScriptedTimeout, Z.min frequency (Milliseconds MaxScriptedTimeout))
    | _ => (Milliseconds minCheckTimeout, Z.min frequency (Milliseconds maxCheckTimeout))
    end in
  failIf (negb (inClosedRange timeout minTimeout maxTimeout)) ErrInvalidCheckTimeout.

Definition validateFrequency (c : Check) : go (error verr) :=
  ct ← Type_ c;
  let minFrequency :=
    match ct with
    | CheckTypeTraceroute => Milliseconds minTracerouteFrequency
    | CheckTypeScripted | CheckTypeMultiHttp | CheckTypeBrowser => Milliseconds minK6Frequency
    | _ => Milliseconds minCheckFrequency
    end in
  Ret (failIf (negb (inClosedRange (Frequency c) minFrequency (Milliseconds maxCheckFrequency)))
         ErrInvalidCheckFrequency).

Definition Check_validateTimeout (c : Check) : go (error verr) :=
  ct ← Type_ c; Ret (validateTimeout ct (Timeout c) (Frequency c)).

Definition AdHoc_validateTimeout (c : AdHocCheck) : go (error verr) :=
  ct ← AdHoc_Type c; Ret (validateTimeout ct (a_Timeout c) (a_Timeout c)).

(** ** Collections *)

(** [validateCollection]: a validator can panic (on a nil element). *)
Fixpoint validateCollection {A} (validate : A → go (error verr)) (collection : list A)
    : go (error verr) :=
  match collection with
  | [] => Ret None
  | item :: collection => validate item ;;? validateCollection validate collection
  end.

(** The method of a value receiver called through a pointer. *)
Definition deref {A B} (f : A → go B) (p : option A) : go B :=
  match p with Some a => f a | None => Panic "nil pointer dereference" end.

(** [hasUniqueValues]; [fn] dereferences its argument. *)
Fixpoint hasUniqueValues_loop {U} (fn : U → go string) (set : gset string) (slice : list U)
    : go bool :=
  match slice with
  | [] => Ret true
  | elem :: slice =>
      value ← fn elem;
      if bool_decide (value ∈ set) then Ret false
      else hasUniqueValues_loop fn ({[value]} ∪ set) slice
  end.
Definition hasUniqueValues {U} (fn : U → go string) (slice : list U) : go bool :=
  hasUniqueValues_loop fn ∅ slice.

Definition known (name : list (Z * string)) (v : Z) : bool := existsb (λ p, p.1 =? v) name.

(** ** Multi-HTTP assertions and variables *)

(** [a == nil] is accepted. *)
Definition MultiHttpEntryAssertion_Validate (a : option MultiHttpEntryAssertion)
    : go (error verr) :=
  match a with
  | None => Ret None
  | Some a => Ret (
      failIf (negb (known MultiHttpEntryAssertionType_name (as_Type a)))
        ErrInvalidMultiHttpAssertion ;;!
      failIf (negb (known MultiHttpEntryAssertionSubjectVariant_name (as_Subject a)))
        ErrInvalidMultiHttpAssertion ;;!
      failIf (negb (known MultiHttpEntryAssertionConditionVariant_name (as_Condition a)))
        ErrInvalidMultiHttpAssertion ;;!
      match as_Type a with
      | 0 =>
          failIf (slen (as_Value a) =? 0) ErrInvalidMultiHttpAssertionMissingValue ;;!
          failIf (negb (as_Subject a =? 1) && negb (slen (as_Expression a) =? 0))
            ErrInvalidMultiHttpAssertionExpressionNotAllowed
      | 1 =>
          failIf (negb (as_Subject a =? 0)) ErrInvalidMultiHttpAssertion ;;!
          failIf (slen (as_Value a) =? 0) ErrInvalidMultiHttpAssertion ;;!
          failIf (slen (as_Expression a) =? 0) ErrInvalidMultiHttpAssertion
      | 2 =>
          failIf (negb (as_Subject a =? 0)) ErrInvalidMultiHttpAssertion ;;!
          failIf (negb (as_Condition a =? 0)) ErrInvalidMultiHttpAssertion ;;!
          failIf (negb (slen (as_Value a) =? 0)) ErrInvalidMultiHttpAssertion ;;!
          failIf (slen (as_Expression a) =? 0) ErrInvalidMultiHttpAssertion
      | 3 =>
          failIf (negb (as_Condition a =? 0)) ErrInvalidMultiHttpAssertion ;;!
          failIf (negb (slen (as_Value a) =? 0)) ErrInvalidMultiHttpAssertion ;;!
          failIf (slen (as_Expression a) =? 0) ErrInvalidMultiHttpAssertion
      | _ => None
      end)
  end.

Definition MultiHttpEntryVariable_Validate (v : MultiHttpEntryVariable) : go (error verr) :=
  Ret (
    failIf (negb (known MultiHttpEntryVariableType_name (v_Type v)))
      ErrInvalidMultiHttpEntryVariable ;;!
    failIf (slen (v_Name v) =? 0) ErrInvalidMultiHttpEntryVariable ;;!
    failIf (slen (v_Expression v) =? 0) ErrInvalidMultiHttpEntryVariable ;;!
    match v_Type v with
    | 0 | 1 => failIf (negb (slen (v_Attribute v) =? 0)) ErrInvalidMultiHttpEntryVariable
    | _ => None
    end).

Definition QueryField_Validate (f : QueryField) : go (error verr) :=
  Ret (failIf (slen (q_Name f) =? 0) ErrInvalidQueryFieldName).

Definition HttpMethod_Validate (v : Z) : error verr :=
  failIf (negb (known HttpMethod_name v)) ErrInvalidHttpMethodValue.

(** ** Settings whose validation needs no library *)

Definition PingSettings_Validate (s : PingSettings) : error verr :=
  failIf ((ping_PayloadSize s <? 0) || (65499 <? ping_PayloadSize s)) ErrInvalidPingPayloadSize ;;!
  failIf ((ping_PacketCount s <? 0) || (MaxPingPackets <? ping_PacketCount s))
    ErrInvalidPingPacketCount.

Definition DnsSettings_Validate (s : DnsSettings) : error verr :=
  failIf ((slen (dns_Server s) =? 0) || bool_decide (validateHost (dns_Server s) ≠ None))
    ErrInvalidDnsServer ;;!
  failIf ((dns_Port s <? 0) || (65535 <? dns_Port s)) ErrInvalidDnsPort.

Definition TcpSettings_Validate (s : TcpSettings) : error verr := None.
Definition TracerouteSettings_Validate (s : TracerouteSettings) : error verr := None.
Definition GrpcSettings_Validate (s : GrpcSettings) : error verr := None.
Definition ScriptedSettings_Validate (s : ScriptedSettings) : error verr :=
  failIf (llen (sc_Script s) =? 0) ErrInvalidK6Script.
Definition BrowserSettings_Validate (s : BrowserSettings) : error verr :=
  failIf (llen (br_Script s) =? 0) ErrInvalidK6Script.

(** ** Probes *)

(** Bounds as [float32] constants: 90 and 180. *)
Definition f32 (z : Z) : spec_float := binary_normalize 24 128 z 0 false.

Definition Probe_Validate (p : Probe) : error verr :=
  failIf (p_TenantId p <? 0) ErrInvalidTenantId ;;!
  failIf (bool_decide (p_Name p = EmptyString)) ErrInvalidProbeName ;;!
  failIf (MaxProbeLabels <? llen (p_Labels p)) ErrTooManyProbeLabels ;;!
  foldr (λ l rest, Label_Validate l ;;! rest) None (p_Labels p) ;;!
  failIf (SFltb (p_Latitude p) (f32 (-90)) || SFltb (f32 90) (p_Latitude p))
    ErrInvalidProbeLatitude ;;!
  failIf (SFltb (p_Longitude p) (f32 (-180)) || SFltb (f32 180) (p_Longitude p))
    ErrInvalidProbeLongitude.

(** ** Enumerations in JSON *)

Section json.
(** [strconv.Unquote] of a literal with a backslash, a newline, a quote inside, a
    byte outside ASCII, or not in double quotes. *)
Variable unquoteSlow : string → option string.

Definition quoteChar : ascii := ascii_of_N 34.
Definition quoted (s : string) : string := String quoteChar (s +:+ String quoteChar EmptyString).

(** The characters [Unquote] copies as they are. *)
Definition plainChar (a : ascii) : bool :=
  negb (Ascii.eqb a quoteChar) && negb (Ascii.eqb a (ascii_of_N 92)) &&
  negb (Ascii.eqb a (ascii_of_N 10)) && (code a <? 128)%N.

Definition Unquote (s : string) : option string :=
  match s with
  | String q rest =>
      match cutLast quoteChar rest with
      | Some (body, EmptyString) =>
          if Ascii.eqb q quoteChar && forallb plainChar (chars body) then Some body
          else unquoteSlow s
      | _ => unquoteSlow s
      end
  | EmptyString => unquoteSlow s
  end.

(** [lookupValue]: the JSON of an enumeration's value, if it has a name. *)
Definition lookupValue (v : Z) (m : list (Z * string)) : option string :=
  p ← head (filter (λ p, p.1 = v) m); Some (quoted p.2).

(** [lookupString]; the [_value] table is the inverse of the [_name] table. *)
Definition lookupString (b : string) (m : list (Z * string)) : option Z :=
  if bool_decide (b = EmptyString) || bool_decide (b = quoted EmptyString) ||
     bool_decide (b = "null"%string)
  then Some 0
  else
    in_ ← Unquote b;
    match head (filter (λ p, p.2 = in_) m) with
    | Some (v, _) => Some v
    | None =>
        p ← head (filter (λ p, ToLower p.2 = ToLower in_) m);
        Some p.1
    end.

(** [MarshalJSON] and [UnmarshalJSON] of IpVersion, CompressionAlgorithm,
    HttpMethod, DnsRecordType and DnsProtocol: [None] is the error. *)
Definition MarshalJSON (name : list (Z * string)) (v : Z) : option string := lookupValue v name.
Definition UnmarshalJSON (name : list (Z * string)) (b : string) : option Z := lookupString b name.

End json.

(** [IpVersion.ToIpProtocol]. *)
Definition ToIpProtocol (v : Z) : string * bool :=
  match v with
  | 1 => ("ip4"%string, false)
  | 2 => ("ip6"%string, false)
  | 0 => ("ip6"%string, true)
  | _ => (EmptyString, false)
  end.

(** ** Settings and targets that need the libraries *)

(** What validation reads of a [url.URL]; [User] is the user name and the
    password, if set. *)
Record url := { Scheme : string; User : option (string * option string); Host : string }.

Section libraries.
Variable urlParse : string → option url.
Variable regexpCompile : string → bool.
Variable ParseMediaType : string → bool.
Variable ValidHeaderFieldName ValidHeaderFieldValue : string → bool.

(** [hasPort]: the loop over [h[l]] from the end down to [l = 1]. *)
Definition hasPort (h : string) : bool :=
  (fix loop (l : list ascii) : bool :=
     match l with
     | [] | [_] => false
     | a :: l =>
         if Ascii.eqb a colon then true
         else if Ascii.eqb a rbracket || Ascii.eqb a dot then false
         else loop l
     end) (reverse (chars h)).

Definition httpScheme (u : url) : bool :=
  bool_decide (Scheme u = "http"%string) || bool_decide (Scheme u = "https"%string).

(** [hostport] of [validateHttpUrl]. *)
Definition url_hostport (u : url) : string :=
  let h := Host u in
  let bracketed := match head (chars h), last (chars h) with
                   | Some a, Some b => Ascii.eqb a lbracket && Ascii.eqb b rbracket
                   | _, _ => false
                   end in
  if bracketed || negb (hasPort h)
  then h +:+ (if bool_decide (Scheme u = "https"%string) then ":443" else ":80")
  else h.

Definition validateHttpUrl (target : string) : error verr :=
  failIf (negb (slen target =? slen (TrimSpace target))) ErrInvalidHttpUrl ;;!
  match urlParse target with
  | None => Some ErrInvalidHttpUrl
  | Some u =>
      failIf (match User u with Some (_, Some _) => true | _ => false end)
        ErrHttpUrlContainsPassword ;;!
      failIf (match User u with Some (name, _) => negb (bool_decide (name = EmptyString))
                              | None => false end) ErrHttpUrlContainsUsername ;;!
      failIf (negb (httpScheme u)) ErrInvalidHttpUrl ;;!
      failIf (slen (Host u) =? 0) ErrInvalidHostname ;;!
      validateHostPort (url_hostport u)
  end.

(** One header line "name: value" of [Headers] or [ProxyConnectHeaders]. *)
Definition headerLine (e : verr) (h : string) : error verr :=
  match cut colon h with
  | None => Some e
  | Some (name, value) =>
      failIf (negb (ValidHeaderFieldName name)) e ;;!
      failIf (negb (ValidHeaderFieldValue (TrimSpace value))) e
  end.

(** [for _, x := range l { if err := f(x); err != nil { return err } }]. *)
Definition forEach {A} (f : A → error verr) (l : list A) : error verr :=
  foldr (λ x rest, f x ;;! rest) None l.

Definition HttpSettings_Validate (s : HttpSettings) : error verr :=
  forEach (headerLine ErrInvalidHttpHeaders) (http_Headers s) ;;!
  (if 0 <? slen (http_ProxyURL s) then
     match urlParse (http_ProxyURL s) with
     | None => Some ErrInvalidProxyUrl
     | Some u => failIf (negb (httpScheme u)) ErrInvalidProxyUrl
     end
   else None) ;;!
  failIf ((0 <? llen (http_ProxyConnectHeaders s)) && (slen (http_ProxyURL s) =? 0))
    ErrInvalidProxySettings ;;!
  forEach (headerLine ErrInvalidProxyConnectHeaders) (http_ProxyConnectHeaders s) ;;!
  forEach (λ reg, failIf (negb (regexpCompile reg)) ErrInvalidHttpFailIfBodyMatchesRegexp)
    (http_FailIfBodyMatchesRegexp s) ;;!
  forEach (λ reg, failIf (negb (regexpCompile reg)) ErrInvalidHttpFailIfBodyNotMatchesRegexp)
    (http_FailIfBodyNotMatchesRegexp s) ;;!
  forEach (λ m, failIf (negb (regexpCompile (hm_Regexp m))) ErrInvalidHttpFailIfHeaderMatchesRegexp)
    (http_FailIfHeaderMatchesRegexp s) ;;!
  forEach (λ m, failIf (negb (regexpCompile (hm_Regexp m)))
                  ErrInvalidHttpFailIfHeaderNotMatchesRegexp)
    (http_FailIfHeaderNotMatchesRegexp s).

Definition HttpHeader_Validate (h : HttpHeader) : go (error verr) :=
  Ret (failIf (negb (ValidHeaderFieldName (h_Name h))) ErrInvalidHttpHeaders ;;!
       failIf (negb (ValidHeaderFieldValue (h_Value h))) ErrInvalidHttpHeaders).

Definition HttpRequestBody_Validate (b : option HttpRequestBody) : error verr :=
  match b with
  | None => None
  | Some b =>
      failIf (slen (b_ContentType b) =? 0) ErrInvalidHttpRequestBodyContentType ;;!
      failIf (negb (ValidHeaderFieldValue (b_ContentType b)))
        ErrInvalidHttpRequestBodyContentType ;;!
      forEach (λ v, failIf (negb (ParseMediaType v)) ErrInvalidHttpRequestBodyContentType)
        (split ","%char (b_ContentType b)) ;;!
      failIf ((0 <? slen (b_ContentEncoding b)) &&
              negb (ValidHeaderFieldValue (b_ContentEncoding b)))
        ErrInvalidHttpRequestBodyContentType
  end.

Definition MultiHttpEntryRequest_Validate (r : MultiHttpEntryRequest) : go (error verr) :=
  Ret (HttpMethod_Validate (r_Method r)) ;;?
  Ret (if contains "${" (r_Url r) then None else validateHttpUrl (r_Url r)) ;;?
  Ret (HttpRequestBody_Validate (r_Body r)) ;;?
  validateCollection (deref HttpHeader_Validate) (r_Headers r) ;;?
  validateCollection (deref QueryField_Validate) (r_QueryFields r).

Definition MultiHttpEntry_Validate (e : MultiHttpEntry) : go (error verr) :=
  match e_Request e with
  | None => Ret (Some ErrInvalidMultiHttpTargets)
  | Some r =>
      MultiHttpEntryRequest_Validate r ;;?
      Ret (failIf (MaxMultiHttpAssertions <? llen (e_Assertions e)) ErrTooManyMultiHttpAssertions) ;;?
      Ret (failIf (MaxMultiHttpVariables <? llen (e_Variables e)) ErrTooManyMultiHttpVariables) ;;?
      validateCollection MultiHttpEntryAssertion_Validate (e_Assertions e) ;;?
      validateCollection (deref MultiHttpEntryVariable_Validate) (e_Variables e) ;;?
      (unique ← hasUniqueValues (deref (λ v, Ret (v_Name v))) (e_Variables e);
       Ret (failIf (negb unique) ErrMultiHttpVariableNamesNotUnique))
  end.

Definition MultiHttpSettings_Validate (s : MultiHttpSettings) : go (error verr) :=
  Ret (failIf (llen (mh_Entries s) =? 0) ErrInvalidMultiHttpTargets) ;;?
  Ret (failIf (MaxMultiHttpTargets <? llen (mh_Entries s)) ErrTooManyMultiHttpTargets) ;;?
  validateCollection (deref MultiHttpEntry_Validate) (mh_Entries s).

(** [CheckSettings.Validate]: the count and the last validator set. *)
Definition CheckSettings_Validate (s : CheckSettings) : go (error verr) :=
  let count {A} (o : option A) (validate : A → go (error verr)) (acc : Z * go (error verr)) :=
    match o with Some a => (acc.1 + 1, validate a) | None => acc end in
  let acc := (0, Panic "nil function call") in
  let acc := count (Ping s) (λ x, Ret (PingSettings_Validate x)) acc in
  let acc := count (Http s) (λ x, Ret (HttpSettings_Validate x)) acc in
  let acc := count (Dns s) (λ x, Ret (DnsSettings_Validate x)) acc in
  let acc := count (Tcp s) (λ x, Ret (TcpSettings_Validate x)) acc in
  let acc := count (Traceroute s) (λ x, Ret (TracerouteSettings_Validate x)) acc in
  let acc := count (Scripted s) (λ x, Ret (ScriptedSettings_Validate x)) acc in
  let acc := count (Multihttp s) MultiHttpSettings_Validate acc in
  let acc := count (Grpc s) (λ x, Ret (GrpcSettings_Validate x)) acc in
  let acc := count (Browser s) (λ x, Ret (BrowserSettings_Validate x)) acc in
  let '(settingsCount, validateFn) := acc in
  if negb (settingsCount =? 1) then Ret (Some ErrInvalidCheckSettings) else validateFn.

(** The switch of [Check.validateTarget] and [AdHocCheck.validateTarget]. *)
Definition targetOfType (ct : CheckType) (target : string) : error verr :=
  match ct with
  | CheckTypeDns =>
      match validateDnsTarget target with Some _ => Some ErrInvalidDnsName | None => None end
  | CheckTypeHttp => validateHttpUrl target
  | CheckTypePing =>
      match validateHost target with Some _ => Some ErrInvalidPingHostname | None => None end
  | CheckTypeTcp => validateHostPort target
  | CheckTypeTraceroute =>
      match validateHost target with Some _ => Some ErrInvalidTracerouteHostname | None => None end
  | CheckTypeScripted | CheckTypeMultiHttp => None
  | CheckTypeGrpc => validateHostPort target
  | CheckTypeBrowser => None
  end.

Definition Check_validateTarget (c : Check) : go (error verr) :=
  Ret (failIf (maxValidLabelValueLength <? slen (Target c)) ErrInvalidTargetValue) ;;?
  (ct ← Type_ c; Ret (targetOfType ct (Target c))).

Definition Check_Validate (c : Check) : go (error verr) :=
  Ret (failIf (TenantId c =? BadID) ErrInvalidTenantId) ;;?
  Ret (failIf (llen (Probes c) =? 0) ErrInvalidCheckProbes) ;;?
  Ret (failIf ((slen (Target c) =? 0) || bool_decide (Target c = internalMarker))
         ErrInvalidCheckTarget) ;;?
  Ret (failIf ((slen (Job c) =? 0) || bool_decide (Job c = internalMarker))
         ErrInvalidCheckJob) ;;?
  validateFrequency c ;;?
  Check_validateTimeout c ;;?
  Ret (validateLabels (Labels c)) ;;?
  CheckSettings_Validate (Settings c) ;;?
  Check_validateTarget c.

Definition AdHoc_validateTarget (c : AdHocCheck) : go (error verr) :=
  ct ← AdHoc_Type c; Ret (targetOfType ct (a_Target c)).

Definition AdHocCheck_Validate (c : AdHocCheck) : go (error verr) :=
  Ret (failIf (a_TenantId c <? 0) ErrInvalidTenantId) ;;?
  Ret (failIf (llen (a_Probes c) =? 0) ErrInvalidCheckProbes) ;;?
  Ret (failIf ((slen (a_Target c) =? 0) || bool_decide (a_Target c = internalMarker))
         ErrInvalidCheckTarget) ;;?
  AdHoc_validateTimeout c ;;?
  CheckSettings_Validate (a_Settings c) ;;?
  AdHoc_validateTarget c.

End libraries.

(** ** Specifications *)

(** A label: [/^[a-zA-Z0-9_]{1,128}$/] and a value of 1 to 128 bytes. *)
Definition valid_label (l : Label) : Prop :=
  Forall (λ a, labelNameChar a = true) (chars (l_Name l)) ∧
  1 ≤ slen (l_Name l) ≤ 128 ∧ 1 ≤ slen (l_Value l) ≤ 128.

(** RFC 1123 host names, with a last element that is not a number. *)
Definition hostname_label (s : string) : Prop :=
  1 ≤ slen s ≤ 63 ∧
  Forall (λ a, isAlnum a = true ∨ isDash a = true) (chars s) ∧
  (∃ a, head (chars s) = Some a ∧ isAlnum a = true) ∧
  (∃ a, last (chars s) = Some a ∧ isAlnum a = true).
Definition numeric (s : string) : Prop := Forall (λ a, isDigit a = true) (chars s).
Definition hostname (s : string) : Prop :=
  slen s ≤ 255 ∧
  Forall hostname_label (split dot s) ∧
  (2 ≤ length (split dot s))%nat ∧
  (∃ tld, last (split dot s) = Some tld ∧ ¬ numeric tld).

(** The limits of the frequency and of the timeout, in milliseconds. *)
Definition frequency_bounds (ct : CheckType) : Z * Z :=
  match Class_ ct, ct with
  | _, CheckTypeTraceroute => (120000, 3600000)
  | CheckClass_PROTOCOL, _ => (1000, 3600000)
  | _, _ => (60000, 3600000)
  end.
Definition timeout_bounds (ct : CheckType) : Z * Z :=
  match Class_ ct, ct with
  | _, CheckTypeTraceroute => (30000, 30000)
  | CheckClass_PROTOCOL, _ => (1000, 60000)
  | _, _ => (1000, 180000)
  end.

Lemma inClosedRange_spec v l u : inClosedRange v l u = true ↔ l ≤ v ≤ u.
Proof. unfold inClosedRange. rewrite andb_true_iff, !Z.leb_le. done. Qed.

Lemma validateTimeout_spec ct t f :
  validateTimeout ct t f = None ↔
  (timeout_bounds ct).1 ≤ t ≤ Z.min f (timeout_bounds ct).2.
Proof.
  unfold validateTimeout.
  destruct ct; rewrite failIf_nil, negb_false_iff, inClosedRange_spec; apply iff_refl.
Qed.

Lemma validateFrequency_spec c ct :
  Type_ c = Ret ct →
  validateFrequency c = Ret None ↔
  (frequency_bounds ct).1 ≤ Frequency c ≤ (frequency_bounds ct).2.
Proof.
  unfold validateFrequency. intros ->. simpl.
  assert (Hinj : ∀ a b : error verr, Ret a = Ret b ↔ a = b) by (intros; split; congruence).
  rewrite Hinj, failIf_nil, negb_false_iff, inClosedRange_spec.
  destruct ct; apply iff_refl.
Qed.

Lemma validateLabelValue_spec v : validateLabelValue v = None ↔ 1 ≤ slen v ≤ 128.
Proof.
  unfold validateLabelValue, MaxLabelValueLength. rewrite failIf_nil, orb_false_iff.
  rewrite Z.eqb_neq, Z.ltb_ge. unfold slen. lia.
Qed.

Lemma forallb_Forall' {A} (f : A → bool) l : forallb f l = true ↔ Forall (λ a, f a = true) l.
Proof. rewrite forallb_forall, Forall_forall. setoid_rewrite list_elem_of_In. done. Qed.

Lemma Label_Validate_spec l : Label_Validate l = None ↔ valid_label l.
Proof.
  unfold Label_Validate, valid_label. rewrite !orElse_nil, failIf_nil, negb_false_iff.
  rewrite forallb_Forall', validateLabelValue_spec.
  destruct (validateLabelValue (l_Name l)) as [e|] eqn:E.
  - split; [intros [? _]; done|]. intros (_ & H & _). apply validateLabelValue_spec in H. congruence.
  - apply validateLabelValue_spec in E. naive_solver.
Qed.

Lemma validateLabels_loop_spec ls seen :
  validateLabels_loop seen ls = None ↔
  Forall valid_label ls ∧ NoDup (map l_Name ls) ∧ Forall (λ l, l_Name l ∉ seen) ls.
Proof.
  revert seen. induction ls as [|l ls IH]; intros seen.
  { split; [intros _|done]. split_and!; constructor. }
  cbn [validateLabels_loop map]. rewrite !orElse_nil, failIf_nil, bool_decide_eq_false, IH.
  rewrite Label_Validate_spec, !Forall_cons, NoDup_cons.
  assert (Hs : Forall (λ l0, l_Name l0 ∉ {[l_Name l]} ∪ seen) ls ↔
    l_Name l ∉ map l_Name ls ∧ Forall (λ l0, l_Name l0 ∉ seen) ls).
  { rewrite !Forall_forall. rewrite list_elem_of_fmap. set_solver. }
  rewrite Hs. naive_solver.
Qed.

(** The labels of a check are accepted exactly when every one is well
    formed and no name occurs twice. *)
Theorem validateLabels_spec ls :
  validateLabels ls = None ↔ Forall valid_label ls ∧ NoDup (map l_Name ls).
Proof.
  unfold validateLabels. rewrite validateLabels_loop_spec.
  assert (Forall (λ l, l_Name l ∉ (∅ : gset string)) ls) by (apply Forall_forall; set_solver).
  naive_solver.
Qed.

(** ** Host names *)

Lemma slen_chars s : slen s = llen (chars s).
Proof. unfold slen, llen. by rewrite length_chars. Qed.

Lemma validateFQHNLabel_spec s b :
  validateFQHNLabel s b = None ↔ hostname_label s ∧ (b = true → ¬ numeric s).
Proof.
  assert (Hn : (b && forallb isDigit (chars s) = false) ↔ (b = true → ¬ numeric s)).
  { unfold numeric. rewrite <-forallb_Forall'.
    destruct b, (forallb isDigit (chars s)); simpl; naive_solver. }
  assert (Ho : ∀ o : option ascii, match o with Some r => isAlnum r | None => false end = true ↔
     ∃ a, o = Some a ∧ isAlnum a = true).
  { intros [a|]; split; [eauto|intros (? & [= ->] & ?); done|done|intros (? & ? & _); done]. }
  unfold validateFQHNLabel, hostname_label.
  rewrite !orElse_nil, !failIf_nil, orb_false_iff, !negb_false_iff, Z.eqb_neq, Z.ltb_ge.
  rewrite Hn, !Ho.
  assert (Hf : forallb (λ r, isAlnum r || isDash r) (chars s) = true ↔
     Forall (λ a, isAlnum a = true ∨ isDash a = true) (chars s)).
  { rewrite forallb_Forall'. apply Forall_iff. intros a. apply orb_true_iff. }
  assert (Hl : (slen s ≠ 0 ∧ slen s ≤ 63) ↔ 1 ≤ slen s ≤ 63) by (unfold slen; lia).
  rewrite Hl, Hf. tauto.
Qed.

Lemma forLabels_spec f labels :
  forLabels f labels = None ↔
  ∀ l1 x l2, labels = l1 ++ x :: l2 → f x (match l2 with [] => true | _ => false end) = None.
Proof.
  induction labels as [|x l IH]; simpl.
  { split; [|done]. intros _ [|? ?] ? ?; done. }
  rewrite orElse_nil, IH. split.
  - intros [Hx Hl] [|y l1] z l2 [= -> ->]; [done|by eapply Hl].
  - intros H. split; [by apply (H [] x l)|]. intros l1 y l2 ->. by apply (H (x :: l1)).
Qed.

Lemma checkFQHN_spec s : checkFQHN s = None ↔ hostname s.
Proof.
  unfold checkFQHN, hostname. rewrite !orElse_nil, !failIf_nil, orb_false_iff, Z.eqb_neq, !Z.ltb_ge.
  rewrite forLabels_spec. setoid_rewrite validateFQHNLabel_spec. unfold llen. split.
  - intros ([H0 H255] & H2 & H). split_and!; [done| |lia|].
    + apply Forall_forall. intros x (l1 & l2 & E)%list_elem_of_split. by eapply H.
    + destruct (split dot s) as [|x l _] using rev_ind; [simpl in *; lia|].
      exists x. split; [apply last_snoc|]. by eapply H.
  - intros (H255 & Hall & H2 & tld & Hl & Hn). split_and!; [|done|lia|].
    + destruct s; [simpl in *; lia|unfold slen; simpl; lia].
    + intros l1 x l2 E. rewrite E in Hall, Hl. apply Forall_app in Hall as [_ Hall].
      apply Forall_cons in Hall as [Hx _]. split; [done|]. destruct l2; [|done].
      rewrite last_snoc in Hl. by injection Hl as ->.
Qed.

Lemma last_elem {A} (l : list A) x : last l = Some x → x ∈ l.
Proof. intros H. apply last_Some in H as [l' ->]. set_solver. Qed.

Lemma chars_split sep s x a :
  x ∈ split sep s → a ∈ chars x → a ∈ chars s ∧ a ≠ sep.
Proof.
  intros Hx Ha. split.
  - revert x Hx Ha. induction s as [|b s IH]; simpl; intros x Hx Ha.
    + apply list_elem_of_singleton in Hx as ->. done.
    + destruct (Ascii.eqb b sep).
      * apply elem_of_cons in Hx as [->|Hx]; [by apply not_elem_of_nil in Ha|]. right. by eapply IH.
      * destruct (split sep s) as [|y l] eqn:E; [by apply split_nonempty in E|].
        apply elem_of_cons in Hx as [->|Hx].
        -- simpl in Ha. apply elem_of_cons in Ha as [->|Ha]; [left|right].
           eapply IH; [by left|done].
        -- right. eapply IH; [by right|done].
  - pose proof (split_clean sep s) as H. rewrite Forall_forall in H. apply H in Hx.
    intros ->. unfold string_has in Hx. rewrite <-not_true_iff_false in Hx. apply Hx.
    apply existsb_exists. exists sep. split; [by apply list_elem_of_In|apply Ascii.eqb_refl].
Qed.

(** A target made of numbers and dots is accepted as a host exactly when it
    is an IP address: 256.256.256.256 is never taken for a host name. Any other
    host is an IP address or an RFC 1123 host name of two elements or more. *)
Theorem validateHost_spec s :
  (validateHost s = None ↔ ParseIP s = true ∨ hostname s) ∧
  (Forall (λ a, isDigit a = true ∨ a = dot) (chars s) → validateHost s = None ↔ ParseIP s = true).
Proof.
  unfold validateHost.
  assert (H : (if ParseIP s then None else checkFQHN s) = None ↔ ParseIP s = true ∨ hostname s).
  { rewrite <-checkFQHN_spec. destruct (ParseIP s); naive_solver. }
  split; [done|]. intros Hd. rewrite H. split; [|by left]. intros [?|Hh]; [done|exfalso].
  destruct Hh as (_ & _ & _ & tld & Hl & Hn). apply Hn, Forall_forall. intros a Ha.
  apply last_elem in Hl. destruct (chars_split _ _ _ _ Hl Ha) as [Hin Hne].
  rewrite Forall_forall in Hd. destruct (Hd _ Hin); [done|congruence].
Qed.

(** ** Checks *)

(** The kinds of settings present, in the order of [CheckSettings.Validate]. *)
Definition kinds (s : CheckSettings) : list CheckType :=
  let one {A} (o : option A) ct := match o with Some _ => [ct] | None => [] end in
  one (Ping s) CheckTypePing ++ one (Http s) CheckTypeHttp ++ one (Dns s) CheckTypeDns ++
  one (Tcp s) CheckTypeTcp ++ one (Traceroute s) CheckTypeTraceroute ++
  one (Scripted s) CheckTypeScripted ++ one (Multihttp s) CheckTypeMultiHttp ++
  one (Grpc s) CheckTypeGrpc ++ one (Browser s) CheckTypeBrowser.

Definition returns {A} (m : go A) : Prop := ∃ a, m = Ret a.

Lemma returns_Ret {A} (a : A) : returns (Ret a).
Proof. by eexists. Qed.
Lemma returns_andThen {E} (f g : go (error E)) : returns f → returns g → returns (f ;;? g).
Proof. intros [[e|] ->] [r ->]; eexists; done. Qed.
Lemma returns_validateCollection {A} (v : A → go (error verr)) l :
  Forall (λ x, returns (v x)) l → returns (validateCollection v l).
Proof. induction 1; [by eexists|]. by apply returns_andThen. Qed.
#[export] Hint Resolve returns_Ret returns_andThen returns_validateCollection : agent.

Lemma Ret_inj {A} (a b : A) : Ret a = Ret b ↔ a = b.
Proof. split; congruence. Qed.

(** No element of a multi-HTTP check is a nil pointer. *)
Definition no_nil_entry (e : option MultiHttpEntry) : Prop :=
  ∃ e', e = Some e' ∧ Forall is_Some (e_Variables e') ∧
    ∀ r, e_Request e' = Some r → Forall is_Some (r_Headers r) ∧ Forall is_Some (r_QueryFields r).
Definition no_nil (s : CheckSettings) : Prop :=
  ∀ m, Multihttp s = Some m → Forall no_nil_entry (mh_Entries m).

Lemma hasUniqueValues_loop_spec {U} (fn : U → string) (l : list U) set :
  hasUniqueValues_loop (deref (λ v, Ret (fn v))) set (map Some l) =
  Ret (bool_decide (NoDup (map fn l) ∧ Forall (λ u, fn u ∉ set) l)).
Proof.
  revert set. induction l as [|u l IH]; intros set.
  { cbn [map hasUniqueValues_loop]. rewrite bool_decide_eq_true_2; [done|]. split; constructor. }
  change (hasUniqueValues_loop (deref (λ v, Ret (fn v))) set (map Some (u :: l))) with
    (if bool_decide (fn u ∈ set) then Ret false
     else hasUniqueValues_loop (deref (λ v, Ret (fn v))) ({[fn u]} ∪ set) (map Some l)).
  rewrite IH. cbn [map]. case_bool_decide as Hin.
  - rewrite bool_decide_eq_false_2; [done|]. rewrite Forall_cons. naive_solver.
  - f_equal. apply bool_decide_ext. rewrite NoDup_cons, Forall_cons.
    rewrite list_elem_of_fmap, !Forall_forall. set_solver.
Qed.

Lemma hasUniqueValues_spec {U} (fn : U → string) (l : list U) :
  hasUniqueValues (deref (λ v, Ret (fn v))) (map Some l) = Ret (bool_decide (NoDup (map fn l))).
Proof.
  unfold hasUniqueValues. rewrite hasUniqueValues_loop_spec. f_equal. apply bool_decide_ext.
  rewrite Forall_forall. set_solver.
Qed.

Lemma all_Some {A} (l : list (option A)) : Forall is_Some l → ∃ l', l = map Some l'.
Proof.
  induction 1 as [|x l [a ->] _ [l' ->]]; [by exists []|]. by exists (a :: l').
Qed.

Section checks.
Context (urlParse : string → option url) (regexpCompile ParseMediaType : string → bool)
  (ValidHeaderFieldName ValidHeaderFieldValue : string → bool).
Notation Check_Validate := (Check_Validate urlParse regexpCompile ParseMediaType
  ValidHeaderFieldName ValidHeaderFieldValue).
Notation AdHocCheck_Validate := (AdHocCheck_Validate urlParse regexpCompile ParseMediaType
  ValidHeaderFieldName ValidHeaderFieldValue).
Notation CheckSettings_Validate := (CheckSettings_Validate urlParse regexpCompile ParseMediaType
  ValidHeaderFieldName ValidHeaderFieldValue).
Notation HttpSettings_Validate := (HttpSettings_Validate urlParse regexpCompile
  ValidHeaderFieldName ValidHeaderFieldValue).
Notation MultiHttpSettings_Validate := (MultiHttpSettings_Validate urlParse ParseMediaType
  ValidHeaderFieldName ValidHeaderFieldValue).
Notation MultiHttpEntry_Validate := (MultiHttpEntry_Validate urlParse ParseMediaType
  ValidHeaderFieldName ValidHeaderFieldValue).
Notation validateHttpUrl := (validateHttpUrl urlParse).
Notation targetOfType := (targetOfType urlParse).

(** The validator of the settings of one kind. *)
Definition settingsOfKind (s : CheckSettings) (ct : CheckType) : go (error verr) :=
  let on {A} (o : option A) (f : A → go (error verr)) :=
    match o with Some a => f a | None => Ret None end in
  match ct with
  | CheckTypePing => on (Ping s) (λ x, Ret (PingSettings_Validate x))
  | CheckTypeHttp => on (Http s) (λ x, Ret (HttpSettings_Validate x))
  | CheckTypeDns => on (Dns s) (λ x, Ret (DnsSettings_Validate x))
  | CheckTypeScripted => on (Scripted s) (λ x, Ret (ScriptedSettings_Validate x))
  | CheckTypeBrowser => on (Browser s) (λ x, Ret (BrowserSettings_Validate x))
  | CheckTypeMultiHttp => on (Multihttp s) MultiHttpSettings_Validate
  | _ => Ret None
  end.

Lemma CheckSettings_Validate_kinds s :
  CheckSettings_Validate s =
  match kinds s with [ct] => settingsOfKind s ct | _ => Ret (Some ErrInvalidCheckSettings) end.
Proof. by destruct s as [[?|] [?|] [?|] [?|] [?|] [?|] [?|] [?|] [?|]]. Qed.

Lemma Settings_Type_kinds s :
  (∀ ct, kinds s = [ct] → Settings_Type s = Ret ct) ∧
  (kinds s = [] → Settings_Type s = Panic "unhandled check type") ∧
  (kinds s ≠ [] → returns (Settings_Type s)).
Proof.
  destruct s as [[?|] [?|] [?|] [?|] [?|] [?|] [?|] [?|] [?|]];
    (split_and!; [intros ?; first [by intros [= <-]|done]|done|intros ?; first [done|by eexists]]).
Qed.

Lemma MultiHttpEntry_returns e : no_nil_entry e → returns (deref MultiHttpEntry_Validate e).
Proof.
  intros (e' & -> & Hv & Hr). simpl. unfold MultiHttpEntry_Validate.
  destruct (e_Request e') as [r|]; [|by eexists]. destruct (Hr r eq_refl) as [Hh Hq].
  destruct (all_Some _ Hv) as [vs Ev]. rewrite Ev, hasUniqueValues_spec, <-Ev. simpl.
  assert (Hd : ∀ {A} (f : A → go (error verr)) l, (∀ x, returns (f x)) → Forall is_Some l →
    returns (validateCollection (deref f) l)).
  { intros A f l Hf Hl. apply returns_validateCollection. eapply Forall_impl; [done|].
    intros ? [a ->]. apply Hf. }
  unfold MultiHttpEntryRequest_Validate.
  repeat apply returns_andThen; auto with agent.
  - apply Hd; [|done]. intros ?. by eexists.
  - apply Hd; [|done]. intros ?. by eexists.
  - apply returns_validateCollection, Forall_forall. intros [?|] _; by eexists.
  - apply Hd; [|done]. intros ?. by eexists.
Qed.

Lemma CheckSettings_returns s : no_nil s → returns (CheckSettings_Validate s).
Proof.
  intros Hn. rewrite CheckSettings_Validate_kinds. unfold no_nil in Hn.
  destruct (kinds s) as [|ct [|]]; [by eexists| |by eexists].
  destruct ct; simpl; try (by case_match; eexists); try by eexists.
  destruct (Multihttp s) as [m|]; [|by eexists]. specialize (Hn m eq_refl).
  unfold Validate.MultiHttpSettings_Validate. repeat apply returns_andThen; auto with agent.
  apply returns_validateCollection. eapply Forall_impl; [done|]. apply MultiHttpEntry_returns.
Qed.

(** The part of [Check.Validate] before the type is looked at. *)
Definition plain_fields_ok (c : Check) : Prop :=
  TenantId c ≠ 0 ∧ Probes c ≠ [] ∧
  Target c ≠ EmptyString ∧ Target c ≠ internalMarker ∧
  Job c ≠ EmptyString ∧ Job c ≠ internalMarker.

Lemma nonempty_string s : (slen s =? 0) = false ↔ s ≠ EmptyString.
Proof. rewrite Z.eqb_neq. unfold slen. destruct s; simpl; split; (done || lia). Qed.

Lemma nonempty_list {A} (l : list A) : (llen l =? 0) = false ↔ l ≠ [].
Proof. rewrite Z.eqb_neq. unfold llen. destruct l; simpl; split; (done || lia). Qed.

Lemma Ret_andThen {E} (f g : go (error E)) : f = Ret None → (f ;;? g) = g.
Proof. by intros ->. Qed.

Lemma plain_fields_skip c : plain_fields_ok c →
  Check_Validate c =
  (validateFrequency c ;;? Check_validateTimeout c ;;? Ret (validateLabels (Labels c)) ;;?
   CheckSettings_Validate (Settings c) ;;? Check_validateTarget urlParse c).
Proof.
  intros (Ht & Hp & Ht0 & Hti & Hj0 & Hji). unfold Validate.Check_Validate.
  apply nonempty_list in Hp. apply nonempty_string in Ht0, Hj0.
  unfold BadID. apply Z.eqb_neq in Ht. rewrite Ht, Hp, Ht0, Hj0.
  rewrite !bool_decide_eq_false_2 by done. done.
Qed.

(** What the targets of each type have to be; [targetOfType] only changes the
    error. *)
Definition target_ok (ct : CheckType) (target : string) : Prop :=
  match ct with
  | CheckTypeDns => validateDnsTarget target = None
  | CheckTypeHttp => validateHttpUrl target = None
  | CheckTypePing | CheckTypeTraceroute => ParseIP target = true ∨ hostname target
  | CheckTypeTcp | CheckTypeGrpc => validateHostPort target = None
  | _ => True
  end.

Lemma targetOfType_spec ct t : targetOfType ct t = None ↔ target_ok ct t.
Proof.
  assert (Hm : ∀ (o : error verr) (e : verr),
    match o with Some _ => Some e | None => None end = None ↔ o = None) by (intros [] ?; done).
  assert (Hh : validateHost t = None ↔ ParseIP t = true ∨ hostname t).
  { unfold validateHost. rewrite <-checkFQHN_spec. destruct (ParseIP t); naive_solver. }
  destruct ct; simpl; rewrite ?Hm, ?Hh; done.
Qed.

(** The checks that are accepted. *)
Definition check_spec (c : Check) : Prop :=
  plain_fields_ok c ∧
  Forall valid_label (Labels c) ∧ NoDup (map l_Name (Labels c)) ∧
  slen (Target c) ≤ 2048 ∧
  ∃ ct, kinds (Settings c) = [ct] ∧
    (frequency_bounds ct).1 ≤ Frequency c ≤ (frequency_bounds ct).2 ∧
    (timeout_bounds ct).1 ≤ Timeout c ≤ Z.min (Frequency c) (timeout_bounds ct).2 ∧
    settingsOfKind (Settings c) ct = Ret None ∧
    target_ok ct (Target c).
Lemma Check_Validate_spec c : Check_Validate c = Ret None ↔ check_spec c.
Proof.
  unfold check_spec.
  assert (Hrest : (validateFrequency c ;;? Check_validateTimeout c ;;? Ret (validateLabels (Labels c)) ;;?
   CheckSettings_Validate (Settings c) ;;? Check_validateTarget urlParse c) = Ret None ↔
   Forall valid_label (Labels c) ∧ NoDup (map l_Name (Labels c)) ∧
   slen (Target c) ≤ 2048 ∧ ∃ ct, kinds (Settings c) = [ct] ∧
    (frequency_bounds ct).1 ≤ Frequency c ≤ (frequency_bounds ct).2 ∧
    (timeout_bounds ct).1 ≤ Timeout c ≤ Z.min (Frequency c) (timeout_bounds ct).2 ∧
    settingsOfKind (Settings c) ct = Ret None ∧ target_ok ct (Target c)).
  { rewrite !andThen_nil, Ret_inj, validateLabels_spec, CheckSettings_Validate_kinds.
    unfold Check_validateTarget. rewrite andThen_nil, Ret_inj, failIf_nil, Z.ltb_ge.
    destruct (Settings_Type_kinds (Settings c)) as (H1 & _).
    assert (Hct : ∀ ct, kinds (Settings c) = [ct] →
      (validateFrequency c = Ret None ↔
        (frequency_bounds ct).1 ≤ Frequency c ≤ (frequency_bounds ct).2) ∧
      (Check_validateTimeout c = Ret None ↔
        (timeout_bounds ct).1 ≤ Timeout c ≤ Z.min (Frequency c) (timeout_bounds ct).2) ∧
      ((ct ← Type_ c; Ret (targetOfType ct (Target c))) = Ret None ↔ target_ok ct (Target c))).
    { intros ct Hk. assert (Ht : Type_ c = Ret ct) by by apply H1.
      split_and!.
      - by apply validateFrequency_spec.
      - unfold Check_validateTimeout. rewrite Ht. simpl. by rewrite Ret_inj, validateTimeout_spec.
      - rewrite Ht. simpl. by rewrite Ret_inj, targetOfType_spec. }
    unfold maxValidLabelValueLength. destruct (kinds (Settings c)) as [|ct [|]].
    - split; [|naive_solver]. intros (_ & _ & _ & ? & _). discriminate.
    - destruct (Hct ct eq_refl) as (-> & -> & ->). naive_solver.
    - split; [|naive_solver]. intros (_ & _ & _ & ? & _). discriminate. }
  split.
  - intros H. assert (Hp : plain_fields_ok c).
    { unfold Validate.Check_Validate in H. rewrite !andThen_nil, !Ret_inj, !failIf_nil in H.
      rewrite !orb_false_iff, !bool_decide_eq_false, !nonempty_string, nonempty_list, Z.eqb_neq in H.
      unfold plain_fields_ok. tauto. }
    rewrite plain_fields_skip in H by done. naive_solver.
  - intros [Hp H]. rewrite plain_fields_skip by done. by apply Hrest.
Qed.

(** C11: a check is accepted exactly when it names its tenant, probes, target and
    job, has settings of one kind only, a frequency and a timeout within the
    limits of that kind - the timeout never above the frequency, so that two
    runs cannot overlap -, distinct well-formed labels, valid settings of that
    kind, and a valid target of at most 2048 bytes. *)
Theorem check_valid c :
  Check_Validate c = Ret None ↔
  plain_fields_ok c ∧
  Forall valid_label (Labels c) ∧ NoDup (map l_Name (Labels c)) ∧
  slen (Target c) ≤ 2048 ∧
  ∃ ct, kinds (Settings c) = [ct] ∧
    (frequency_bounds ct).1 ≤ Frequency c ≤ (frequency_bounds ct).2 ∧
    (timeout_bounds ct).1 ≤ Timeout c ≤ Z.min (Frequency c) (timeout_bounds ct).2 ∧
    settingsOfKind (Settings c) ct = Ret None ∧
    target_ok ct (Target c).
Proof. apply Check_Validate_spec. Qed.

Lemma Check_Validate_returns c :
  no_nil (Settings c) → returns (Type_ c) → returns (Check_Validate c).
Proof.
  intros Hn [ct Ht].
  unfold Validate.Check_Validate, validateFrequency, Check_validateTimeout, Check_validateTarget.
  rewrite Ht. simpl. pose proof (CheckSettings_returns _ Hn).
  repeat apply returns_andThen; auto with agent.
Qed.

(** The only way a check whose messages hold no nil element makes
    [Check.Validate] panic is to carry no settings at all: then the frequency is
    validated, which asks for the type, before the settings are counted, and
    ErrInvalidCheckSettings is never reported for it. *)
Theorem check_without_settings_panics c :
  (plain_fields_ok c → kinds (Settings c) = [] →
     Check_Validate c = Panic "unhandled check type") ∧
  CheckSettings_Validate noSettings = Ret (Some ErrInvalidCheckSettings) ∧
  (no_nil (Settings c) → kinds (Settings c) ≠ [] → returns (Check_Validate c)).
Proof.
  destruct (Settings_Type_kinds (Settings c)) as (_ & H0 & H1). split_and!; [|done|].
  - intros Hp Hk. rewrite plain_fields_skip by done. unfold validateFrequency, Type_.
    by rewrite H0.
  - intros Hn Hk. by apply Check_Validate_returns; [|apply H1].
Qed.

(** An HTTP target that is accepted carries no credentials, has an http or
    https scheme and a host that is an IP address or a host name. *)
Theorem validateHttpUrl_safe t :
  validateHttpUrl t = None →
  ∃ u host port, urlParse t = Some u ∧
    (Scheme u = "http"%string ∨ Scheme u = "https"%string) ∧
    (∀ name pw, User u = Some (name, pw) → name = EmptyString ∧ pw = None) ∧
    Host u ≠ EmptyString ∧
    SplitHostPort (url_hostport u) = Some (host, port) ∧
    (ParseIP host = true ∨ hostname host) ∧
    (∃ n, ParseUint16 port = Some n ∧ n ≠ 0).
Proof.
  unfold Validate.validateHttpUrl. rewrite orElse_nil. intros [_ H].
  destruct (urlParse t) as [u|]; [|done]. rewrite !orElse_nil, !failIf_nil in H.
  destruct H as (Hpw & Hu & Hs & Hh & Hhp). rewrite nonempty_string in Hh.
  unfold httpScheme in Hs. rewrite negb_false_iff, orb_true_iff, !bool_decide_eq_true in Hs.
  unfold validateHostPort in Hhp.
  destruct (SplitHostPort (url_hostport u)) as [[host port]|] eqn:E; [|done].
  exists u, host, port. destruct (validateHost host) eqn:Eh; [done|].
  destruct (ParseUint16 port) as [n|] eqn:En; [|done]. apply failIf_nil, Z.eqb_neq in Hhp.
  split_and!; try done.
  - intros name pw EU. rewrite EU in *. destruct pw; [done|].
    apply negb_false_iff, bool_decide_eq_true in Hu. done.
  - unfold validateHost in Eh. destruct (ParseIP host); [by left|]. right. by apply checkFQHN_spec.
  - eauto.
Qed.

(** An accepted check has settings, hence a type. *)
Lemma Check_Validate_type c : Check_Validate c = Ret None → ∃ ct, Type_ c = Ret ct.
Proof.
  unfold Validate.Check_Validate. rewrite !andThen_nil. intros (_ & _ & _ & _ & Hf & _).
  unfold validateFrequency in Hf. destruct (Type_ c) as [ct|]; [eauto|done].
Qed.

(** [AdHocCheck.Validate]: no job, labels or frequency. *)
Theorem adhoc_check_valid c :
  AdHocCheck_Validate c = Ret None ↔
  0 ≤ a_TenantId c ∧ a_Probes c ≠ [] ∧
  a_Target c ≠ EmptyString ∧ a_Target c ≠ internalMarker ∧
  ∃ ct, kinds (a_Settings c) = [ct] ∧
    (timeout_bounds ct).1 ≤ a_Timeout c ≤ (timeout_bounds ct).2 ∧
    settingsOfKind (a_Settings c) ct = Ret None ∧
    target_ok ct (a_Target c).
Proof.
  destruct (Settings_Type_kinds (a_Settings c)) as (H1 & _).
  unfold Validate.AdHocCheck_Validate, AdHoc_validateTimeout, AdHoc_validateTarget, AdHoc_Type.
  rewrite !andThen_nil, !Ret_inj, !failIf_nil, orb_false_iff, bool_decide_eq_false.
  rewrite nonempty_string, nonempty_list, Z.ltb_ge, CheckSettings_Validate_kinds.
  destruct (kinds (a_Settings c)) as [|ct [|]].
  - split; [|naive_solver]. intros (_ & _ & _ & _ & ? & _). discriminate.
  - rewrite (H1 ct eq_refl). simpl. rewrite !Ret_inj, validateTimeout_spec, targetOfType_spec.
    assert (Hm : (timeout_bounds ct).1 ≤ a_Timeout c ≤ Z.min (a_Timeout c) (timeout_bounds ct).2 ↔
      (timeout_bounds ct).1 ≤ a_Timeout c ≤ (timeout_bounds ct).2) by lia.
    rewrite Hm. naive_solver.
  - split; [|naive_solver]. intros (_ & _ & _ & _ & ? & _). discriminate.
Qed.

End checks.

(** ** Sample checks *)

Definition loopbackIPv4 : string := "127.0.0.1".
Definition emptyHttpSettings : HttpSettings :=
  {| http_IpVersion := 0; http_Method := 0; http_Headers := []; http_Body := EmptyString;
     http_NoFollowRedirects := false; http_BearerToken := EmptyString;
     http_ProxyURL := EmptyString; http_ProxyConnectHeaders := []; http_FailIfSSL := false;
     http_FailIfNotSSL := false; http_ValidStatusCodes := []; http_ValidHTTPVersions := [];
     http_FailIfBodyMatchesRegexp := []; http_FailIfBodyNotMatchesRegexp := [];
     http_FailIfHeaderMatchesRegexp := []; http_FailIfHeaderNotMatchesRegexp := [];
     http_Compression := 0; http_CacheBustingQueryParamName := EmptyString;
     http_SecretManagerEnabled := false |}.

Definition instanceSettings (ct : CheckType) : CheckSettings :=
  let set p h d t tr s m g b :=
    {| Ping := p; Http := h; Dns := d; Tcp := t; Traceroute := tr; Scripted := s;
       Multihttp := m; Grpc := g; Browser := b |} in
  match ct with
  | CheckTypeDns =>
      set None None (Some {| dns_IpVersion := 0; dns_SourceIpAddress := EmptyString;
        dns_Server := loopbackIPv4; dns_Port := 0; dns_RecordType := 0; dns_Protocol := 0;
        dns_ValidRCodes := [] |}) None None None None None None
  | CheckTypeHttp => set None (Some emptyHttpSettings) None None None None None None None
  | CheckTypePing =>
      set (Some {| ping_IpVersion := 0; ping_SourceIpAddress := EmptyString;
        ping_PayloadSize := 0; ping_DontFragment := false; ping_PacketCount := 0 |})
        None None None None None None None None
  | CheckTypeTcp =>
      set None None None
        (Some {| tcp_IpVersion := 0; tcp_SourceIpAddress := EmptyString; tcp_Tls := false |})
        None None None None None
  | CheckTypeTraceroute =>
      set None None None None
        (Some {| tr_MaxHops := 0; tr_MaxUnknownHops := 0; tr_PtrLookup := false;
                 tr_HopTimeout := 0 |}) None None None None
  | CheckTypeScripted =>
      set None None None None None (Some {| sc_Script := chars "// test" |}) None None None
  | CheckTypeMultiHttp =>
      set None None None None None None
        (Some {| mh_LogResponses := false;
                 mh_Entries := [Some {| e_Request := Some {|
                     r_Method := 0; r_Url := "http://www.example.org/"; r_Headers := [];
                     r_QueryFields := []; r_Body := None |};
                   e_Assertions := []; e_Variables := [] |}] |}) None None
  | CheckTypeGrpc =>
      set None None None None None None None
        (Some {| grpc_IpVersion := 0; grpc_Service := EmptyString; grpc_Tls := false |}) None
  | CheckTypeBrowser =>
      set None None None None None None None None (Some {| br_Script := chars "// test" |})
  end.

Definition GetCheckInstance (ct : CheckType) : Check :=
  let '(target, frequency, timeout) :=
    match ct with
    | CheckTypeDns => ("www.example.org", 1000, 1000)
    | CheckTypeHttp => ("http://www.example.org", 1000, 1000)
    | CheckTypePing => (loopbackIPv4, 1000, 1000)
    | CheckTypeTcp => ("127.0.0.1:9000", 1000, 1000)
    | CheckTypeTraceroute => (loopbackIPv4, 120000, 30000)
    | CheckTypeGrpc => ("127.0.0.1:9000", 60000, 10000)
    | _ => ("http://www.example.org", 60000, 10000)
    end%string in
  {| Id := 1; TenantId := 1; Frequency := frequency; Offset := 0; Timeout := timeout;
     Enabled := false; Labels := []; Settings := instanceSettings ct; Probes := [1];
     Target := target; Job := "job"; BasicMetricsOnly := false; AlertSensitivity := EmptyString;
     Created := S754_zero false; Modified := S754_zero false |}.

(** For every type, GetCheckInstance gives a check of that type, of no other
    kind, that passes validation, provided [url.Parse] splits the sample URLs the
    way it does. *)
Theorem check_instances_are_valid urlParse regexpCompile ParseMediaType vn vv ct :
  (∀ t, t ∈ ["http://www.example.org"; "http://www.example.org/"]%string →
     urlParse t = Some {| Scheme := "http"; User := None; Host := "www.example.org" |}) →
  let c := GetCheckInstance ct in
  Check_Validate urlParse regexpCompile ParseMediaType vn vv c = Ret None ∧
  Type_ c = Ret ct ∧ kinds (Settings c) = [ct].
Proof.
  intros Hu c. split_and!; [|by destruct ct|by destruct ct].
  assert (H1 := Hu _ ltac:(left)). assert (H2 := Hu _ ltac:(right; left)).
  assert (Hv : ∀ t, t ∈ ["http://www.example.org"; "http://www.example.org/"]%string →
    validateHttpUrl urlParse t = None).
  { intros t Ht. unfold validateHttpUrl. rewrite (Hu t Ht).
    apply elem_of_cons in Ht as [->|Ht]; [by vm_compute|].
    apply list_elem_of_singleton in Ht as ->. by vm_compute. }
  apply Check_Validate_spec. split_and!;
    [unfold plain_fields_ok; by destruct ct|by destruct ct; constructor
    |by destruct ct; constructor|by destruct ct|].
  exists ct. split_and!; try (by destruct ct).
  - destruct ct; try done. simpl. unfold MultiHttpSettings_Validate. simpl.
    rewrite !andThen_nil. split_and!; try done. unfold MultiHttpEntry_Validate. simpl.
    rewrite !andThen_nil. split_and!; try done. unfold MultiHttpEntryRequest_Validate. simpl.
    rewrite !andThen_nil. split_and!; try done. rewrite Hv; [done|right; left].
  - destruct ct; simpl; [by vm_compute|apply Hv; left|by left|by vm_compute|by left|done..].
Qed.

(** ** Enumerations in JSON *)

Definition tables : list (list (Z * string)) :=
  [IpVersion_name; CompressionAlgorithm_name; HttpMethod_name; DnsRecordType_name;
   DnsProtocol_name].

(** The names of a table are plain, not empty, and differ in more than their
    letter case. *)
Definition table_ok (t : list (Z * string)) : Prop :=
  NoDup (map (λ p, ToLower p.2) t) ∧ NoDup (map fst t) ∧
  Forall (λ p, p.2 ≠ EmptyString ∧ forallb plainChar (chars p.2) = true) t.

#[export] Instance table_ok_dec t : Decision (table_ok t).
Proof. unfold table_ok. apply _. Defined.

Lemma tables_ok t : t ∈ tables → table_ok t.
Proof.
  intros Ht. assert (H : Forall table_ok tables) by (apply (bool_decide_unpack _); by vm_compute).
  rewrite Forall_forall in H. by apply H.
Qed.

Lemma head_filter_unique {A B} `{EqDecision B} (f : A → B) (l : list A) x :
  NoDup (map f l) → x ∈ l → head (filter (λ y, f y = f x) l) = Some x.
Proof.
  induction l as [|y l IH]; [by intros _ ?%not_elem_of_nil|].
  cbn [map]. intros [Hy Hnd]%NoDup_cons [->|Hx]%elem_of_cons.
  - by rewrite filter_cons_True.
  - rewrite filter_cons_False; [by apply IH|]. intros E. apply Hy. rewrite E.
    apply list_elem_of_fmap. eauto.
Qed.

Lemma head_filter_Some {A} (P : A → Prop) `{∀ x, Decision (P x)} l x :
  head (filter P l) = Some x → P x ∧ x ∈ l.
Proof.
  intros Hh. assert (Hx : x ∈ filter P l); [|by apply list_elem_of_filter in Hx].
  destruct (filter P l); [done|]. injection Hh as ->. left.
Qed.

Lemma cutLast_snoc c s : cutLast c (s +:+ String c EmptyString) = Some (s, EmptyString).
Proof.
  induction s as [|a s IH]; simpl.
  - by rewrite Ascii.eqb_refl.
  - change (String a s +:+ String c EmptyString) with (String a (s +:+ String c EmptyString)).
    simpl. by rewrite IH.
Qed.

Lemma Unquote_quoted slow s :
  forallb plainChar (chars s) = true → Unquote slow (quoted s) = Some s.
Proof. intros Hp. unfold Unquote, quoted. by rewrite cutLast_snoc, Hp. Qed.

Lemma app_empty_r (s : string) c : s +:+ String c EmptyString ≠ String c EmptyString → s ≠ EmptyString.
Proof. by intros H ->. Qed.

(** A named enumeration value survives MarshalJSON and UnmarshalJSON, and
    UnmarshalJSON reads its name in any letter case; a value without a name is
    never written. *)
Theorem enum_json_roundtrip slow t :
  t ∈ tables →
  (∀ v n, (v, n) ∈ t → MarshalJSON t v = Some (quoted n)) ∧
  (∀ v, v ∉ map fst t → MarshalJSON t v = None) ∧
  (∀ v n n', (v, n) ∈ t → ToLower n' = ToLower n → forallb plainChar (chars n') = true →
     UnmarshalJSON slow t (quoted n') = Some v).
Proof.
  intros (Hnd & Hv & Hp)%tables_ok. split_and!.
  - intros v n Hin. unfold MarshalJSON, lookupValue.
    by rewrite (head_filter_unique fst t (v, n) Hv Hin).
  - intros v Hn. unfold MarshalJSON, lookupValue.
    destruct (head (filter (λ p, p.1 = v) t)) as [[v' n]|] eqn:E; [|done].
    apply head_filter_Some in E as [<- Hin]. destruct Hn. apply list_elem_of_fmap. by exists (v', n).
  - intros v n n' Hin Hl Hn'. unfold UnmarshalJSON, lookupString.
    rewrite Forall_forall in Hp. destruct (Hp _ Hin) as [Hne Hpn]. simpl in Hne, Hpn.
    assert (Hq : n' ≠ EmptyString).
    { intros ->. destruct n as [|a n]; [done|]. unfold ToLower in Hl. simpl in Hl.
      repeat case_match; done. }
    rewrite (bool_decide_eq_false_2 (quoted n' = EmptyString)) by done.
    rewrite (bool_decide_eq_false_2 (quoted n' = quoted EmptyString)).
    2:{ intros E. apply Hq. unfold quoted in E. injection E as E. by destruct n' as [|? []]. }
    rewrite (bool_decide_eq_false_2 (quoted n' = "null"%string)) by done.
    cbn [orb]. rewrite Unquote_quoted by done. cbn [mbind option_bind].
    pose proof (λ m Hm, head_filter_unique (λ p, ToLower p.2) t (v, m) Hnd Hm) as Hu.
    pose proof (λ m Hm, head_filter_unique (λ p, ToLower p.2) t (m, n') Hnd Hm) as Hu'.
    cbn [snd] in Hu, Hu'. rewrite Hl. specialize (Hu _ Hin).
    destruct (head (filter (λ p, p.2 = n') t)) as [[v' n'']|] eqn:E.
    + apply head_filter_Some in E as [E' Hin']. cbn [snd] in E'. subst n''.
      specialize (Hu' _ Hin'). rewrite Hl, Hu in Hu'. congruence.
    + by rewrite Hu.
Qed.

(** ** Multi-HTTP entries *)

Definition valid_assertion (a : MultiHttpEntryAssertion) : Prop :=
  0 ≤ as_Subject a ≤ 3 ∧ 0 ≤ as_Condition a ≤ 6 ∧
  ((as_Type a = 0 ∧ as_Value a ≠ EmptyString ∧
      (as_Subject a = 1 ∨ as_Expression a = EmptyString)) ∨
   (as_Type a = 1 ∧ as_Subject a = 0 ∧ as_Value a ≠ EmptyString ∧ as_Expression a ≠ EmptyString) ∨
   (as_Type a = 2 ∧ as_Subject a = 0 ∧ as_Condition a = 0 ∧ as_Value a = EmptyString ∧
      as_Expression a ≠ EmptyString) ∨
   (as_Type a = 3 ∧ as_Condition a = 0 ∧ as_Value a = EmptyString ∧ as_Expression a ≠ EmptyString)).

Definition valid_variable (v : MultiHttpEntryVariable) : Prop :=
  v_Name v ≠ EmptyString ∧ v_Expression v ≠ EmptyString ∧
  (v_Type v = 2 ∨ ((v_Type v = 0 ∨ v_Type v = 1) ∧ v_Attribute v = EmptyString)).

Lemma empty_string s : (slen s =? 0) = true ↔ s = EmptyString.
Proof. rewrite Z.eqb_eq. unfold slen. destruct s; simpl; split; (done || lia). Qed.

(** The tables of the multi-HTTP enumerations have no gaps. *)
Lemma known_range name n v :
  map fst name = map Z.of_nat (seq 0 n) → known name v = true ↔ 0 ≤ v < Z.of_nat n.
Proof.
  intros E. unfold known. rewrite existsb_exists. split.
  - intros ([w m] & Hin & <-%Z.eqb_eq). apply (in_map fst) in Hin. rewrite E in Hin.
    apply in_map_iff in Hin as (k & Hk & Hin). apply in_seq in Hin. simpl in *. lia.
  - intros Hv. assert (Hin : v ∈ map fst name).
    { rewrite E. apply list_elem_of_fmap. exists (Z.to_nat v). split; [lia|]. apply elem_of_seq. lia. }
    apply list_elem_of_fmap in Hin as ([w m] & -> & Hin). exists (w, m).
    split; [by apply list_elem_of_In|apply Z.eqb_refl].
Qed.

Lemma assertion_spec a :
  MultiHttpEntryAssertion_Validate (Some a) = Ret None ↔ valid_assertion a.
Proof.
  unfold MultiHttpEntryAssertion_Validate, valid_assertion.
  rewrite Ret_inj, !orElse_nil, !failIf_nil, !negb_false_iff.
  rewrite (known_range MultiHttpEntryAssertionType_name 4) by done.
  rewrite (known_range MultiHttpEntryAssertionSubjectVariant_name 4) by done.
  rewrite (known_range MultiHttpEntryAssertionConditionVariant_name 7) by done.
  assert (Hs : 0 ≤ as_Type a < Z.of_nat 4 ↔
    (as_Type a = 0 ∨ as_Type a = 1 ∨ as_Type a = 2 ∨ as_Type a = 3)) by lia.
  rewrite Hs. split.
  - intros (Ht & H1 & H2 & H). split_and!; [lia..|].
    destruct Ht as [Ht|[Ht|[Ht|Ht]]]; rewrite Ht in H;
      rewrite ?orElse_nil, ?failIf_nil, ?andb_false_iff, ?negb_false_iff, ?nonempty_string,
        ?empty_string, ?Z.eqb_eq in H; tauto.
  - intros (H1 & H2 & [H|[H|[H|H]]]); destruct H as [Ht H]; rewrite Ht;
      rewrite ?orElse_nil, ?failIf_nil, ?andb_false_iff, ?negb_false_iff, ?nonempty_string,
        ?empty_string, ?Z.eqb_eq; (split_and!; first [lia|tauto]).
Qed.

Lemma variable_spec v :
  MultiHttpEntryVariable_Validate v = Ret None ↔ valid_variable v.
Proof.
  unfold MultiHttpEntryVariable_Validate, valid_variable.
  rewrite Ret_inj, !orElse_nil, !failIf_nil, !negb_false_iff, !nonempty_string.
  rewrite (known_range MultiHttpEntryVariableType_name 3) by done.
  assert (Hs : 0 ≤ v_Type v < Z.of_nat 3 ↔
    (v_Type v = 0 ∨ v_Type v = 1 ∨ v_Type v = 2)) by lia.
  rewrite Hs. split.
  - intros (Ht & H1 & H2 & H). destruct Ht as [Ht|[Ht|Ht]]; rewrite Ht in *;
      rewrite ?failIf_nil, ?negb_false_iff, ?empty_string in H; tauto.
  - intros (H1 & H2 & H). destruct H as [Ht|[[Ht|Ht] H]]; rewrite Ht;
      rewrite ?failIf_nil, ?negb_false_iff, ?empty_string; tauto.
Qed.

Lemma validateCollection_spec {A} (v : A → go (error verr)) l :
  validateCollection v l = Ret None ↔ Forall (λ x, v x = Ret None) l.
Proof.
  induction l as [|x l IH]; simpl; [split; [constructor|done]|].
  by rewrite andThen_nil, IH, Forall_cons.
Qed.

(** An entry of a multi-HTTP check whose variables are not nil is accepted
    exactly when its request is valid, it has at most five assertions and five
    variables, every assertion sets the fields of its type and no other, every
    variable is well formed, and the variable names are distinct. *)
Theorem multihttp_entry_valid urlParse ParseMediaType vn vv e vars :
  e_Variables e = map Some vars →
  MultiHttpEntry_Validate urlParse ParseMediaType vn vv e = Ret None ↔
  (∃ r, e_Request e = Some r ∧
        MultiHttpEntryRequest_Validate urlParse ParseMediaType vn vv r = Ret None) ∧
  (length (e_Assertions e) ≤ 5)%nat ∧ (length vars ≤ 5)%nat ∧
  (∀ a, Some a ∈ e_Assertions e → valid_assertion a) ∧
  Forall valid_variable vars ∧ NoDup (map v_Name vars).
Proof.
  intros Ev. unfold MultiHttpEntry_Validate. destruct (e_Request e) as [r|]; [|naive_solver].
  rewrite Ev, hasUniqueValues_spec. cbn [mbind go_bind].
  rewrite !andThen_nil, !Ret_inj, !failIf_nil, !Z.ltb_ge, !validateCollection_spec, negb_false_iff.
  rewrite bool_decide_eq_true. unfold llen. rewrite length_map.
  unfold MaxMultiHttpAssertions, MaxMultiHttpVariables.
  assert (Ha : Forall (λ x, MultiHttpEntryAssertion_Validate x = Ret None) (e_Assertions e) ↔
    ∀ a, Some a ∈ e_Assertions e → valid_assertion a).
  { rewrite Forall_forall. split; intros H.
    - intros a Hin%H. by apply assertion_spec.
    - intros [a|] Hin; [|done]. by apply assertion_spec, H. }
  assert (Hv : Forall (λ x, deref MultiHttpEntryVariable_Validate x = Ret None) (map Some vars) ↔
    Forall valid_variable vars).
  { rewrite Forall_map. apply Forall_iff. intros v. apply variable_spec. }
  rewrite Ha, Hv. split.
  - intros (Hr & H1 & H2 & H). split_and!; [by eexists|lia|lia|tauto..].
  - intros ((r' & [= <-] & Hr) & H1 & H2 & Hx & Hy & Hz). split_and!; [done|lia|lia|tauto..].
Qed.

(** A probe with a NaN latitude or longitude passes validation: the comparisons
    with the bounds are false. *)
Lemma probe_nan_coordinates_accepted p :
  p_Latitude p = S754_nan → p_Longitude p = S754_nan →
  0 ≤ p_TenantId p → p_Name p ≠ EmptyString → p_Labels p = [] → Probe_Validate p = None.
Proof.
  intros H1 H2 Ht Hn Hl. unfold Probe_Validate. rewrite H1, H2, Hl.
  rewrite bool_decide_eq_false_2 by done. rewrite (proj2 (Z.ltb_ge _ _)) by done. done.
Qed.

(** ** Witnesses *)

Definition example_urlParse (t : string) : option url :=
  if hasPrefix "http://" t
  then Some {| Scheme := "http"; User := None; Host := "www.example.org" |} else None.
Definition example_accepts (s : string) : bool := true.
Definition example_no_settings : Check :=
  {| Id := 1; TenantId := 1; Frequency := 1000; Offset := 0; Timeout := 1000;
     Enabled := true; Labels := []; Settings := noSettings; Probes := [1];
     Target := "www.example.org"; Job := "job"; BasicMetricsOnly := false;
     AlertSensitivity := EmptyString; Created := S754_zero false; Modified := S754_zero false |}.

Lemma validateHost_spec_witness :
  validateHost "256.256.256.256" ≠ None ∧ validateHost "10.0.0.1" = None.
Proof.
  assert (H : ∀ s, forallb (λ a, isDigit a || Ascii.eqb a dot) (chars s) = true →
    Forall (λ a, isDigit a = true ∨ a = dot) (chars s)).
  { intros s Hs. apply Forall_forall. intros a Ha. rewrite forallb_forall in Hs.
    apply list_elem_of_In, Hs, orb_true_iff in Ha. destruct Ha as [|E]; [by left|right].
    by apply Ascii.eqb_eq. }
  split.
  - intros E. apply (validateHost_spec "256.256.256.256") in E; [|apply H; reflexivity].
    vm_compute in E. discriminate.
  - apply (validateHost_spec "10.0.0.1"); [apply H; reflexivity|reflexivity].
Defined.

Lemma check_without_settings_panics_witness :
  Check_Validate example_urlParse example_accepts example_accepts example_accepts example_accepts
    example_no_settings = Panic "unhandled check type".
Proof.
  apply (check_without_settings_panics example_urlParse example_accepts example_accepts
    example_accepts example_accepts example_no_settings).
  - unfold plain_fields_ok. split_and!; done.
  - reflexivity.
Defined.

Lemma validateHttpUrl_safe_witness :
  ∃ u host port, example_urlParse "http://www.example.org/x" = Some u ∧
    (Scheme u = "http"%string ∨ Scheme u = "https"%string) ∧
    (∀ name pw, User u = Some (name, pw) → name = EmptyString ∧ pw = None) ∧
    Host u ≠ EmptyString ∧
    SplitHostPort (url_hostport u) = Some (host, port) ∧
    (ParseIP host = true ∨ hostname host) ∧
    (∃ n, ParseUint16 port = Some n ∧ n ≠ 0).
Proof. apply (validateHttpUrl_safe example_urlParse). vm_compute. reflexivity. Defined.

Lemma check_instances_are_valid_witness :
  Check_Validate example_urlParse example_accepts example_accepts example_accepts example_accepts
    (GetCheckInstance CheckTypeHttp) = Ret None.
Proof.
  apply (check_instances_are_valid example_urlParse example_accepts example_accepts
    example_accepts example_accepts CheckTypeHttp).
  intros t Ht. apply elem_of_cons in Ht as [->|Ht]; [reflexivity|].
  apply list_elem_of_singleton in Ht as ->. reflexivity.
Defined.

Lemma enum_json_roundtrip_witness :
  MarshalJSON HttpMethod_name 8 = Some (quoted "PATCH") ∧
  UnmarshalJSON (λ _, None) HttpMethod_name (quoted "pAtch") = Some 8.
Proof.
  assert (Ht : HttpMethod_name ∈ tables) by (right; right; left).
  assert (Hp : (8, "PATCH"%string) ∈ HttpMethod_name) by (do 8 right; left).
  destruct (enum_json_roundtrip (λ _, None) HttpMethod_name Ht) as (H1 & _ & H2).
  split; [by apply H1|]. apply (H2 8 "PATCH"%string); [done|reflexivity|reflexivity].
Defined.

Definition example_entry : MultiHttpEntry :=
  {| e_Request := None;
     e_Assertions := [Some {| as_Type := 1; as_Subject := 0; as_Condition := 2;
                              as_Expression := "$.a"; as_Value := "1" |}];
     e_Variables := [Some {| v_Type := 2; v_Name := "x"; v_Expression := "div";
                             v_Attribute := "id" |}] |}.

Lemma multihttp_entry_valid_witness :
  MultiHttpEntry_Validate example_urlParse example_accepts example_accepts example_accepts
    {| e_Request := Some {| r_Method := 5; r_Url := "http://${x}/"; r_Headers := [];
                            r_QueryFields := []; r_Body := None |};
       e_Assertions := e_Assertions example_entry;
       e_Variables := e_Variables example_entry |} = Ret None.
Proof.
  apply (multihttp_entry_valid example_urlParse example_accepts example_accepts example_accepts _
    [{| v_Type := 2; v_Name := "x"; v_Expression := "div"; v_Attribute := "id" |}]);
    [reflexivity|].
  split_and!.
  - eexists. split; reflexivity.
  - simpl. lia.
  - simpl. lia.
  - intros a Ha. apply list_elem_of_singleton in Ha as [= ->]. split_and!; simpl; try lia.
    right; left. split_and!; done.
  - constructor; [|constructor]. split_and!; try done. by left.
  - constructor; [|constructor]. apply not_elem_of_nil.
Defined.
