(* ===== verification/Updater.v ===== *)
(** * The updater: the set of running scrapers

    [internal/checks/checks.go] and [Check.FromSM], [GlobalID] and
    [GlobalTenantID] of [internal/model/model.go].

    The state is the map of scrapers with the updater's metrics, and the two
    effects on scrapers: [go scraper.Run] and [scraper.Stop], which closes a
    channel and so panics the second time.  Scrapers are heap objects, told apart
    by their pointer. *)
From S2P Require Import Prelude Strs Net Ids Checks Validate.
From Stdlib Require Import Floats.SpecFloat.

Open Scope Z_scope.

(** ** The interface to validation *)

(** What the updater relies on: a check that has settings, and no nil element,
    is judged; an accepted check has settings. *)
Definition well_formed (c : Check) : Prop := no_nil (Settings c) ∧ returns (Type_ c).

Class Validator := {
  validate : Check → go (error verr);
  validate_returns c : well_formed c → returns (validate c);
  validated_has_type c : validate c = Ret None → ∃ ct, Type_ c = Ret ct;
}.

#[export] Instance checks_extra_validator urlParse regexpCompile ParseMediaType vn vv : Validator := {
  validate := Check_Validate urlParse regexpCompile ParseMediaType vn vv;
  validate_returns c H :=
    Check_Validate_returns urlParse regexpCompile ParseMediaType vn vv c (proj1 H) (proj2 H);
  validated_has_type := Check_Validate_type urlParse regexpCompile ParseMediaType vn vv;
}.

(** ** [model.Check] *)

Record mCheck := { sm : Check; RegionId : Z }.

Definition set_ids (id tenant : Z) (c : Check) : Check :=
  {| Id := id; TenantId := tenant; Frequency := Frequency c; Offset := Offset c;
     Timeout := Timeout c; Enabled := Enabled c; Labels := Labels c; Settings := Settings c;
     Probes := Probes c; Target := Target c; Job := Job c;
     BasicMetricsOnly := BasicMetricsOnly c; AlertSensitivity := AlertSensitivity c;
     Created := Created c; Modified := Modified c |}.

Definition GlobalID (c : mCheck) : Z := globalOrLocal (Id (sm c)) (RegionId c).
Definition GlobalTenantID (c : mCheck) : Z := globalOrLocal (TenantId (sm c)) (RegionId c).

(** ** State *)

Record scraper := { s_ptr : nat; s_check : mCheck }.

Record Updater := {
  scrapers : gmap Z scraper;
  started : list nat;                     (** [go scraper.Run] *)
  stopped : list nat;                     (** [scraper.Stop] *)
  runningScrapers : gmap string Z;
  changesCounter : gmap string Z;
  changeErrorsCounter : gmap string Z;
  tenantCh : list Z;                      (** tenants sent on the channel *)
}.

Inductive updErr :=
  | ErrInvalidCheck (e : verr)
  | ErrAlreadyExists (id : Z)
  | ErrMetrics (why : string)
  | ErrNewScraper (why : string)
  | ErrCheckNotFound.

Definition addTo (k : string) (d : Z) (m : gmap string Z) : gmap string Z :=
  <[k := default 0 (m !! k) + d]> m.

Definition set_scrapers (m : gmap Z scraper) (u : Updater) : Updater :=
  {| scrapers := m; started := started u; stopped := stopped u;
     runningScrapers := runningScrapers u; changesCounter := changesCounter u;
     changeErrorsCounter := changeErrorsCounter u; tenantCh := tenantCh u |}.
Definition count_running (k : string) (d : Z) (u : Updater) : Updater :=
  {| scrapers := scrapers u; started := started u; stopped := stopped u;
     runningScrapers := addTo k d (runningScrapers u); changesCounter := changesCounter u;
     changeErrorsCounter := changeErrorsCounter u; tenantCh := tenantCh u |}.
Definition count_change (k : string) (u : Updater) : Updater :=
  {| scrapers := scrapers u; started := started u; stopped := stopped u;
     runningScrapers := runningScrapers u; changesCounter := addTo k 1 (changesCounter u);
     changeErrorsCounter := changeErrorsCounter u; tenantCh := tenantCh u |}.
Definition count_error (k : string) (u : Updater) : Updater :=
  {| scrapers := scrapers u; started := started u; stopped := stopped u;
     runningScrapers := runningScrapers u; changesCounter := changesCounter u;
     changeErrorsCounter := addTo k 1 (changeErrorsCounter u); tenantCh := tenantCh u |}.
Definition run_scraper (p : nat) (u : Updater) : Updater :=
  {| scrapers := scrapers u; started := p :: started u; stopped := stopped u;
     runningScrapers := runningScrapers u; changesCounter := changesCounter u;
     changeErrorsCounter := changeErrorsCounter u; tenantCh := tenantCh u |}.
Definition send_tenants (l : list Z) (u : Updater) : Updater :=
  {| scrapers := scrapers u; started := started u; stopped := stopped u;
     runningScrapers := runningScrapers u; changesCounter := changesCounter u;
     changeErrorsCounter := changeErrorsCounter u; tenantCh := tenantCh u ++ l |}.

(** [scraper.Stop]: [close(s.stop)]. *)
Definition Stop (s : scraper) (u : Updater) : go Updater :=
  if bool_decide (s_ptr s ∈ stopped u) then Panic "close of closed channel"
  else Ret {| scrapers := scrapers u; started := started u; stopped := s_ptr s :: stopped u;
              runningScrapers := runningScrapers u; changesCounter := changesCounter u;
              changeErrorsCounter := changeErrorsCounter u; tenantCh := tenantCh u |}.

(** [scraper.CheckType().String()] and [scraper.ConfigVersion()]. *)
Definition scraper_type (s : scraper) : go string :=
  ct ← Type_ (sm (s_check s)); Ret (CheckType_String ct).
Definition scraper_version (s : scraper) : string := ConfigVersion (sm (s_check s)).

(** A pointer no object has yet. *)
Definition fresh_ptr (u : Updater) : nat := S (list_max (started u)).

Section updater.
Context `{Validator}.

(** Marshalling and unmarshalling a check ([checks.pb.go], generated). *)
Variable recode : Check → option Check.
(** [features.IsSet(feature.K6)]. *)
Variable k6 : bool.
(** The prometheus client's and the scraper factory's errors. *)
Variable metricsError : mCheck → option string.
Variable scraperFactory : mCheck → option string.

(** [FromSM]: [None] is its error. *)
Definition FromSM (check : Check) : option mCheck :=
  c ← recode check;
  let '(id, region) := GetLocalAndRegionIDs (Id check) in
  let tenant := if TenantId c =? 0 then TenantId c
                else (GetLocalAndRegionIDs (TenantId check)).1 in
  Some {| sm := set_ids id tenant c; RegionId := region |}.

(** Functions that return an [error] and change the updater. *)
Definition upd := go (Updater * error updErr).

Definition addAndStartScraperWithLock (check : mCheck) (u : Updater) : upd :=
  ct ← Type_ (sm check);
  if (match ct with CheckTypeScripted | CheckTypeMultiHttp => true | _ => false end) && negb k6
  then Ret (u, None)
  else
    match metricsError check, scraperFactory check with
    | Some why, _ => Ret (u, Some (ErrMetrics why))
    | None, Some why => Ret (u, Some (ErrNewScraper why))
    | None, None =>
        let s := {| s_ptr := fresh_ptr u; s_check := check |} in
        let u := set_scrapers (<[GlobalID check := s]> (scrapers u)) u in
        let u := run_scraper (s_ptr s) u in
        Ret (count_running (CheckType_String ct) 1 u, None)
    end.

(** [scraper.Stop(); delete(c.scrapers, cid); runningScrapers.Dec()]: how a scraper
    is removed everywhere. *)
Definition stopScraper (cid : Z) (s : scraper) (u : Updater) : go Updater :=
  u ← Stop s u;
  checkType ← scraper_type s;
  Ret (count_running checkType (-1) (set_scrapers (delete cid (scrapers u)) u)).

Definition handleCheckUpdateWithLock (check : mCheck) (u : Updater) : upd :=
  let cid := GlobalID check in
  match scrapers u !! cid with
  | None => addAndStartScraperWithLock check u
  | Some s => u ← stopScraper cid s u; addAndStartScraperWithLock check u
  end.

Definition handleCheckAdd (check : mCheck) (u : Updater) : upd :=
  let u := count_change "add" u in
  err ← validate (sm check);
  match err with
  | Some e => Ret (u, Some (ErrInvalidCheck e))
  | None =>
      match scrapers u !! GlobalID check with
      | Some _ => Ret (u, Some (ErrAlreadyExists (GlobalID check)))
      | None => addAndStartScraperWithLock check u
      end
  end.

Definition handleCheckUpdate (check : mCheck) (u : Updater) : upd :=
  let u := count_change "update" u in
  err ← validate (sm check);
  match err with
  | Some e => Ret (u, Some (ErrInvalidCheck e))
  | None => handleCheckUpdateWithLock check u
  end.

Definition handleCheckDelete (check : mCheck) (u : Updater) : upd :=
  let u := count_change "delete" u in
  let cid := GlobalID check in
  match scrapers u !! cid with
  | None => Ret (u, Some ErrCheckNotFound)
  | Some s => u ← stopScraper cid s u; Ret (u, None)
  end.

Definition handleInitialChangeAddWithLock (check : mCheck) (u : Updater) : upd :=
  match scrapers u !! GlobalID check with
  | Some running =>
      if bool_decide (scraper_version running = ConfigVersion (sm check)) then Ret (u, None)
      else handleCheckUpdateWithLock check u
  | None =>
      let u := count_change "add" u in
      err ← validate (sm check);
      match err with
      | Some e => Ret (u, Some (ErrInvalidCheck e))
      | None =>
          '(u, err) ← addAndStartScraperWithLock check u;
          match err with
          | Some e => Ret (count_error "add" u, Some e)
          | None => Ret (u, None)
          end
      end
  end.

(** ** Batches of changes *)

(** [sm.CheckOperation]; other numbers are ignored. *)
Definition CHECK_ADD : Z := 0.
Definition CHECK_UPDATE : Z := 1.
Definition CHECK_DELETE : Z := 2.

Record CheckChange := { Operation : Z; change_Check : Check }.
Record Changes := {
  Tenants : list Z;
  ch_Checks : list CheckChange;
  IsDeltaFirstBatch : bool;
}.

(** The loop over the checks of [handleFirstBatch], with [newChecks]. *)
Fixpoint firstBatch_adds (changes : list CheckChange) (newChecks : gset Z) (u : Updater)
    : go (gset Z * Updater) :=
  match changes with
  | [] => Ret (newChecks, u)
  | change :: changes =>
      if Operation change =? CHECK_ADD then
        match FromSM (change_Check change) with
        | None => firstBatch_adds changes newChecks u
        | Some check =>
            '(u, err) ← handleInitialChangeAddWithLock check u;
            match err with
            | Some _ => firstBatch_adds changes newChecks (count_error "add" u)
            | None => firstBatch_adds changes ({[GlobalID check]} ∪ newChecks) u
            end
        end
      else firstBatch_adds changes newChecks u
  end.

(** The loop that stops the scrapers that were not sent. *)
Fixpoint firstBatch_removes (running : list (Z * scraper)) (newChecks : gset Z) (u : Updater)
    : go Updater :=
  match running with
  | [] => Ret u
  | (id, s) :: running =>
      if bool_decide (id ∈ newChecks) then firstBatch_removes running newChecks u
      else u ← stopScraper id s u; firstBatch_removes running newChecks u
  end.

Definition handleFirstBatch (changes : Changes) (u : Updater) : go Updater :=
  '(newChecks, u) ← firstBatch_adds (ch_Checks changes) ∅ u;
  firstBatch_removes (map_to_list (scrapers u)) newChecks u.

(** The loop of [handleChangeBatch]. *)
Fixpoint batch_loop (changes : list CheckChange) (u : Updater) : go Updater :=
  match changes with
  | [] => Ret u
  | change :: changes =>
      match FromSM (change_Check change) with
      | None => batch_loop changes u
      | Some check =>
          let handle (f : mCheck → Updater → upd) (kind : string) :=
            '(u, err) ← f check u;
            batch_loop changes (match err with Some _ => count_error kind u | None => u end) in
          if Operation change =? CHECK_ADD then handle handleCheckAdd "add"%string
          else if Operation change =? CHECK_UPDATE then handle handleCheckUpdate "update"%string
          else if Operation change =? CHECK_DELETE then handle handleCheckDelete "delete"%string
          else batch_loop changes u
      end
  end.

Definition handleChangeBatch (changes : Changes) (firstBatch : bool) (u : Updater) : go Updater :=
  if firstBatch && negb (IsDeltaFirstBatch changes) then handleFirstBatch changes u
  else batch_loop (ch_Checks changes) (send_tenants (Tenants changes) u).

(** [processChanges] on the messages received before the stream ends. *)
Fixpoint processChanges (msgs : list Changes) (firstBatch : bool) (u : Updater) : go Updater :=
  match msgs with
  | [] => Ret u
  | msg :: msgs => u ← handleChangeBatch msg firstBatch u; processChanges msgs false u
  end.

(** One connection after another; the scrapers stay between them. *)
Fixpoint run_connections (conns : list (list Changes)) (u : Updater) : go Updater :=
  match conns with
  | [] => Ret u
  | msgs :: conns => u ← processChanges msgs true u; run_connections conns u
  end.

Definition newUpdater : Updater :=
  {| scrapers := ∅; started := []; stopped := []; runningScrapers := ∅;
     changesCounter := ∅; changeErrorsCounter := ∅; tenantCh := [] |}.

(** ** Invariant *)

Definition type_name (s : scraper) : string :=
  match scraper_type s with Ret n => n | Panic _ => EmptyString end.
(** Scrapers of a type. *)
Definition ofType (k : string) (m : gmap Z scraper) : nat :=
  length (filter (λ p, type_name p.2 = k) (map_to_list m)).

Record inv (u : Updater) : Prop := {
  inv_key : ∀ id s, scrapers u !! id = Some s →
    GlobalID (s_check s) = id ∧ s_ptr s ∈ started u ∧ s_ptr s ∉ stopped u ∧
    returns (Type_ (sm (s_check s)));
  inv_ptr : ∀ id1 s1 id2 s2, scrapers u !! id1 = Some s1 → scrapers u !! id2 = Some s2 →
    s_ptr s1 = s_ptr s2 → id1 = id2;
  inv_started : ∀ p, p ∈ started u →
    p ∈ stopped u ∨ ∃ id s, scrapers u !! id = Some s ∧ s_ptr s = p;
  inv_stopped : NoDup (stopped u) ∧ ∀ p, p ∈ stopped u → p ∈ started u;
  inv_gauge : ∀ k, default 0 (runningScrapers u !! k) = Z.of_nat (ofType k (scrapers u));
}.

Lemma addTo_lookup k k' d m :
  default 0 (addTo k d m !! k') = default 0 (m !! k') + (if decide (k = k') then d else 0).
Proof.
  unfold addTo. destruct (decide (k = k')) as [->|Hne].
  - by rewrite lookup_insert_eq.
  - rewrite lookup_insert_ne by done. lia.
Qed.

Lemma ofType_perm k m l :
  map_to_list m ≡ₚ l → ofType k m = length (filter (λ p, type_name p.2 = k) l).
Proof. intros Hp. unfold ofType. by rewrite Hp. Qed.

Lemma ofType_insert k id s m :
  m !! id = None →
  ofType k (<[id := s]> m) = ((if decide (type_name s = k) then 1 else 0) + ofType k m)%nat.
Proof.
  intros Hm. erewrite ofType_perm by by apply map_to_list_insert.
  rewrite filter_cons. simpl. by destruct (decide (type_name s = k)).
Qed.

Lemma ofType_delete k id s m :
  m !! id = Some s →
  ofType k m = ((if decide (type_name s = k) then 1 else 0) + ofType k (delete id m))%nat.
Proof.
  intros Hm. rewrite <-(ofType_insert k id s) by apply lookup_delete_eq.
  by rewrite insert_delete_id.
Qed.

Lemma fresh_not_started u : fresh_ptr u ∉ started u.
Proof.
  unfold fresh_ptr. intros Hin.
  assert (Hle : ∀ l : list nat, Forall (λ k, k ≤ list_max l)%nat l).
  { intros l. by apply list_max_le. }
  specialize (Hle (started u)). rewrite Forall_forall in Hle. apply Hle in Hin. lia.
Qed.

(** The counters do not matter for the invariant. *)
Lemma inv_counters u u' :
  scrapers u' = scrapers u → started u' = started u → stopped u' = stopped u →
  runningScrapers u' = runningScrapers u → inv u → inv u'.
Proof. intros E1 E2 E3 E4 []. split; by rewrite ?E1, ?E2, ?E3, ?E4. Qed.

Lemma inv_count_change k u : inv u → inv (count_change k u).
Proof. by apply inv_counters. Qed.
Lemma inv_count_error k u : inv u → inv (count_error k u).
Proof. by apply inv_counters. Qed.
Lemma inv_send_tenants l u : inv u → inv (send_tenants l u).
Proof. by apply inv_counters. Qed.
#[local] Hint Resolve inv_count_change inv_count_error inv_send_tenants : agent.

Lemma newUpdater_inv : inv newUpdater.
Proof.
  split; simpl; try (intros; set_solver). split; [constructor|set_solver].
Qed.

Lemma stopScraper_spec id s u :
  inv u → scrapers u !! id = Some s →
  ∃ u', stopScraper id s u = Ret u' ∧ inv u' ∧
    scrapers u' = delete id (scrapers u) ∧ stopped u' = s_ptr s :: stopped u ∧
    started u' = started u ∧ changeErrorsCounter u' = changeErrorsCounter u.
Proof.
  intros Hi Hs. destruct (inv_key _ Hi _ _ Hs) as (Hid & Hst & Hns & [ct Ht]).
  unfold stopScraper, Stop. rewrite bool_decide_eq_false_2 by done. simpl.
  unfold scraper_type. rewrite Ht. simpl. eexists. split; [done|].
  split; [|done]. destruct Hi as [Hk Hp Ha [Hnd Hsub] Hg]. split; simpl.
  - intros id' s' [Hne Hs']%lookup_delete_Some. destruct (Hk _ _ Hs') as (? & ? & ? & ?).
    split_and!; try done. rewrite not_elem_of_cons. split; [|done].
    intros E. apply Hne. symmetry. by eapply Hp.
  - intros id1 s1 id2 s2 [_ H1]%lookup_delete_Some [_ H2]%lookup_delete_Some. by eapply Hp.
  - intros p Hin. destruct (Ha p Hin) as [|(id' & s' & Hs' & <-)]; [by left; right|].
    destruct (decide (id = id')) as [<-|Hne].
    { left. assert (s' = s) as -> by congruence. left. }
    right. exists id', s'. by rewrite lookup_delete_ne.
  - split; [by constructor|]. intros p [->|]%elem_of_cons; auto.
  - intros k. rewrite addTo_lookup, Hg, (ofType_delete k id s) by done.
    unfold type_name, scraper_type. rewrite Ht. simpl. case_decide; lia.
Qed.

(** What [addAndStartScraperWithLock] does on each branch. *)
Definition filteredOut (check : mCheck) : bool :=
  match Type_ (sm check) with
  | Ret CheckTypeScripted | Ret CheckTypeMultiHttp => negb k6
  | _ => false
  end.

Lemma addAndStart_spec check u :
  inv u → scrapers u !! GlobalID check = None → returns (Type_ (sm check)) →
  ∃ u' err, addAndStartScraperWithLock check u = Ret (u', err) ∧ inv u' ∧
    stopped u' = stopped u ∧ changeErrorsCounter u' = changeErrorsCounter u ∧
    ((u' = u ∧ (filteredOut check = true ∨ metricsError check ≠ None ∨ scraperFactory check ≠ None)) ∨
     (err = None ∧ filteredOut check = false ∧ metricsError check = None ∧
      scraperFactory check = None ∧
      scrapers u' = <[GlobalID check := {| s_ptr := fresh_ptr u; s_check := check |}]> (scrapers u) ∧
      started u' = fresh_ptr u :: started u)).
Proof.
  intros Hi Hn [ct Ht]. unfold addAndStartScraperWithLock, filteredOut. rewrite Ht.
  cbn [mbind go_bind].
  assert (Hf : (match ct with CheckTypeScripted | CheckTypeMultiHttp => true | _ => false end)
      && negb k6 = match ct with CheckTypeScripted | CheckTypeMultiHttp => negb k6 | _ => false end)
    by by destruct ct.
  rewrite Hf. set (b := match ct with CheckTypeScripted | CheckTypeMultiHttp => _ | _ => _ end).
  destruct b eqn:Eb. { exists u, None. split_and!; try done. left. by split; [|left]. }
  destruct (metricsError check) as [why|] eqn:Em.
  { exists u, (Some (ErrMetrics why)). split_and!; try done. left. split; [done|]. right. by left. }
  destruct (scraperFactory check) as [why|] eqn:Ef.
  { exists u, (Some (ErrNewScraper why)). split_and!; try done. left. split; [done|]. by do 2 right. }
  eexists _, None. split; [done|]. split; [|split_and!; try done; right; by split_and!].
  pose proof (fresh_not_started u) as Hfresh.
  destruct Hi as [Hk Hp Ha [Hnd Hsub] Hg]. split; simpl.
  - intros id s. rewrite lookup_insert_Some. intros [[<- <-]|[Hne Hs]]; simpl.
    + split_and!; [done|left|set_solver|by eexists].
    + destruct (Hk _ _ Hs) as (? & ? & ? & ?). split_and!; try done. by right.
  - intros id1 s1 id2 s2. rewrite !lookup_insert_Some.
    intros [[<- <-]|[? H1]] [[<- <-]|[? H2]]; simpl; try done.
    + intros E. destruct (Hk _ _ H2) as (_ & ? & _). congruence.
    + intros E. destruct (Hk _ _ H1) as (_ & ? & _). congruence.
    + by eapply Hp.
  - intros p [->|Hin]%elem_of_cons.
    + right. eexists _, _. by rewrite lookup_insert_eq.
    + destruct (Ha p Hin) as [|(id & s & Hs & <-)]; [by left|]. right. exists id, s.
      rewrite lookup_insert_ne by congruence. done.
  - split; [done|]. intros p Hin. right. auto.
  - intros k. rewrite addTo_lookup, Hg, ofType_insert by done.
    unfold type_name, scraper_type. simpl. rewrite Ht. simpl. case_decide; lia.
Qed.

(** ** The handlers *)

Lemma updateWithLock_spec check u :
  inv u → returns (Type_ (sm check)) →
  ∃ u' err, handleCheckUpdateWithLock check u = Ret (u', err) ∧ inv u' ∧
    changeErrorsCounter u' = changeErrorsCounter u ∧
    ((scrapers u' = delete (GlobalID check) (scrapers u) ∧
      (filteredOut check = true ∨ metricsError check ≠ None ∨ scraperFactory check ≠ None)) ∨
     (err = None ∧ filteredOut check = false ∧ metricsError check = None ∧
      scraperFactory check = None ∧ ∃ p, p ∉ started u ∧ scrapers u' =
        <[GlobalID check := {| s_ptr := p; s_check := check |}]> (scrapers u))) ∧
    (∀ s, scrapers u !! GlobalID check = Some s → s_ptr s ∈ stopped u').
Proof.
  intros Hi Ht. unfold handleCheckUpdateWithLock.
  destruct (scrapers u !! GlobalID check) as [s|] eqn:E.
  - destruct (stopScraper_spec _ _ _ Hi E) as (u1 & -> & Hi1 & E1 & S1 & St1 & C1). cbn [mbind go_bind].
    destruct (addAndStart_spec check u1 Hi1) as (u2 & err & -> & Hi2 & S2 & C2 & H2);
      [by rewrite E1, lookup_delete_eq|done|].
    exists u2, err. split_and!; [done|done|congruence| |].
    + destruct H2 as [(-> & Hbad)|(-> & Hf & Hm & Hs & E2 & _)]; [by left|right].
      split_and!; [done..|]. exists (fresh_ptr u1). split.
      * rewrite <-St1. apply fresh_not_started.
      * by rewrite E2, E1, insert_delete_eq.
    + intros s' [= <-]. rewrite S2, S1. left.
  - destruct (addAndStart_spec check u Hi) as (u2 & err & -> & Hi2 & S2 & C2 & H2); [done|done|].
    exists u2, err. split_and!; [done|done|congruence| |done].
    destruct H2 as [(-> & Hbad)|(-> & Hf & Hm & Hs & E2 & _)]; [left|right].
    + split; [|done]. by rewrite delete_id.
    + split_and!; [done..|]. exists (fresh_ptr u). split; [apply fresh_not_started|done].
Qed.

(** The check is valid, and nothing keeps it from running. *)
Definition accepted (check : mCheck) : Prop :=
  validate (sm check) = Ret None ∧ filteredOut check = false ∧
  metricsError check = None ∧ scraperFactory check = None.

Lemma initialAdd_spec check u :
  inv u → well_formed (sm check) →
  ∃ u' err, handleInitialChangeAddWithLock check u = Ret (u', err) ∧ inv u' ∧
    (∀ id, id ≠ GlobalID check → scrapers u' !! id = scrapers u !! id) ∧
    (accepted check → err = None ∧
      (∃ s, scrapers u' !! GlobalID check = Some s ∧ scraper_version s = ConfigVersion (sm check)) ∧
      (∀ s, scrapers u !! GlobalID check = Some s →
         scraper_version s = ConfigVersion (sm check) → scrapers u' = scrapers u)).
Proof.
  intros Hi Hw. unfold handleInitialChangeAddWithLock.
  destruct (scrapers u !! GlobalID check) as [s|] eqn:E.
  - case_bool_decide as Hv.
    { exists u, None. split_and!; try done. intros _. split_and!; [done|by exists s|done]. }
    destruct (updateWithLock_spec check u Hi) as (u' & err & -> & Hi' & _ & Hu & _); [apply Hw|].
    exists u', err. split_and!; try done.
    + intros id Hne. destruct Hu as [(-> & _)|(_ & _ & _ & _ & p & _ & ->)];
        [by rewrite lookup_delete_ne|by rewrite lookup_insert_ne].
    + intros (_ & Hf & Hm & Hs). destruct Hu as [(_ & Hbad)|(-> & _ & _ & _ & p & _ & ->)]; [by destruct Hbad as [?|[?|?]]; congruence|].
      split_and!; [done| |congruence]. eexists. by rewrite lookup_insert_eq.
  - destruct (validate_returns _ Hw) as [[e|] Hval]; rewrite Hval; cbn [mbind go_bind].
    { eexists _, _. split_and!; [done|by apply inv_count_change|done|].
      intros (Hok & _). congruence. }
    destruct (addAndStart_spec check (count_change "add" u)) as (u2 & err & -> & Hi2 & _ & _ & H2);
      [by apply inv_count_change|done|apply Hw|]. cbn [mbind go_bind].
    assert (Hs : ∀ id, id ≠ GlobalID check → scrapers u2 !! id = scrapers u !! id).
    { intros id Hne. destruct H2 as [(-> & _)|(_ & _ & _ & _ & -> & _)]; [done|].
      by rewrite lookup_insert_ne. }
    destruct err as [e|]; eexists _, _; (split_and!; [done|auto with agent|done|]).
    + intros (_ & Hf & Hm & Hsf). destruct H2 as [(_ & Hbad)|(? & _)]; [by destruct Hbad as [?|[?|?]]; congruence|done].
    + intros (_ & Hf & Hm & Hsf). destruct H2 as [(_ & Hbad)|(_ & _ & _ & _ & E2 & _)]; [by destruct Hbad as [?|[?|?]]; congruence|].
      split_and!; [done| |done]. eexists. by rewrite E2, lookup_insert_eq.
Qed.

(** ** The first batch *)

Lemma firstBatch_removes_spec l nc u :
  inv u → NoDup l.*1 → (∀ id s, (id, s) ∈ l → scrapers u !! id = Some s) →
  ∃ u', firstBatch_removes l nc u = Ret u' ∧ inv u' ∧
    (∀ id, scrapers u' !! id =
       if decide (id ∈ l.*1 ∧ id ∉ nc) then None else scrapers u !! id) ∧
    (∀ p, p ∈ stopped u → p ∈ stopped u') ∧
    (∀ id s, (id, s) ∈ l → id ∉ nc → s_ptr s ∈ stopped u').
Proof.
  revert u. induction l as [|[id s] l IH]; intros u Hi Hnd Hl.
  { exists u. split_and!; [done|done| |done|set_solver].
    intros id. rewrite decide_False; [done|]. set_solver. }
  cbn [firstBatch_removes fmap list_fmap fst] in *.
  apply NoDup_cons in Hnd as [Hid Hnd]. case_bool_decide as Hin.
  - destruct (IH u Hi Hnd) as (u' & -> & Hi' & Hu' & Hm & Hst); [intros; apply Hl; by right|].
    exists u'. split_and!; [done|done| |done|].
    + intros id'. rewrite Hu'. destruct (decide (id' = id)) as [->|Hne].
      * rewrite !decide_False by tauto. done.
      * apply decide_ext. rewrite elem_of_cons. tauto.
    + intros id' s' [[= -> ->]|Hin']%elem_of_cons Hn; [done|by eapply Hst].
  - destruct (stopScraper_spec id s u Hi) as (u1 & -> & Hi1 & E1 & S1 & _); [apply Hl; by left|].
    cbn [mbind go_bind]. destruct (IH u1 Hi1 Hnd) as (u' & -> & Hi' & Hu' & Hm & Hst).
    { intros id' s' Hin'. rewrite E1, lookup_delete_ne; [apply Hl; by right|].
      intros ->. apply Hid. apply list_elem_of_fmap. by exists (id', s'). }
    exists u'. split_and!; [done|done| | |].
    + intros id'. rewrite Hu', E1. destruct (decide (id' = id)) as [->|Hne].
      * rewrite (decide_True (P := id ∈ id :: _ ∧ _)) by (split; [left|done]).
        by rewrite lookup_delete_eq, decide_False by tauto.
      * rewrite lookup_delete_ne by done. apply decide_ext. rewrite elem_of_cons. tauto.
    + intros p Hp. apply Hm. rewrite S1. by right.
    + intros id' s' [[= -> ->]|Hin']%elem_of_cons Hn; [|by eapply Hst].
      apply Hm. rewrite S1. left.
Qed.

(** The adds are always handled, whatever their outcome. *)
Lemma firstBatch_adds_returns changes nc u :
  inv u →
  (∀ ch check, ch ∈ changes → Operation ch = CHECK_ADD → FromSM (change_Check ch) = Some check →
     well_formed (sm check)) →
  ∃ nc' u', firstBatch_adds changes nc u = Ret (nc', u') ∧ inv u'.
Proof.
  revert nc u. induction changes as [|ch changes IH]; intros nc u Hi Hw; [by exists nc, u|].
  assert (Hw' : ∀ ch check, ch ∈ changes → Operation ch = CHECK_ADD →
    FromSM (change_Check ch) = Some check → well_formed (sm check)).
  { intros ch' check Hin. apply Hw. by right. }
  cbn [firstBatch_adds]. destruct (Operation ch =? CHECK_ADD) eqn:Eop; [|by apply IH].
  destruct (FromSM (change_Check ch)) as [check|] eqn:Ec; [|by apply IH].
  destruct (initialAdd_spec check u Hi) as (u' & err & -> & Hi' & _).
  { apply (Hw ch); [left|by apply Z.eqb_eq|done]. }
  cbn [mbind go_bind]. destruct err; by apply IH; auto with agent.
Qed.

(** The checks a batch adds. *)
Definition adds (changes : list CheckChange) (checks : list mCheck) : Prop :=
  Forall2 (λ ch check, Operation ch = CHECK_ADD ∧ FromSM (change_Check ch) = Some check)
    changes checks.

(** An id that is listed is listed a last time. *)
Lemma last_listed checks id :
  id ∈ map GlobalID checks →
  ∃ l1 c l2, checks = l1 ++ c :: l2 ∧ GlobalID c = id ∧ GlobalID c ∉ map GlobalID l2.
Proof.
  induction checks as [|c l IH]; [by intros ?%not_elem_of_nil|]. cbn [map]. intros Hid.
  destruct (decide (id ∈ map GlobalID l)) as [Hl|Hl].
  - destruct (IH Hl) as (l1 & c' & l2 & -> & ? & ?). by exists (c :: l1), c', l2.
  - apply elem_of_cons in Hid as [->|Hid]; [|done]. by exists [], c, l.
Qed.

(** What the adds lead to when every check is accepted. *)
Record reconciled (checks : list mCheck) (m m' : gmap Z scraper) : Prop := {
  rec_other : ∀ id, id ∉ map GlobalID checks → m' !! id = m !! id;
  rec_kept : ∀ id s, m !! id = Some s →
    (∀ c, c ∈ checks → GlobalID c = id → ConfigVersion (sm c) = scraper_version s) →
    m' !! id = Some s;
  rec_last : ∀ l1 c l2, checks = l1 ++ c :: l2 → GlobalID c ∉ map GlobalID l2 →
    ∃ s, m' !! GlobalID c = Some s ∧ scraper_version s = ConfigVersion (sm c);
}.

Lemma firstBatch_adds_spec changes checks nc u :
  inv u → adds changes checks → Forall (λ c, well_formed (sm c) ∧ accepted c) checks →
  ∃ nc' u', firstBatch_adds changes nc u = Ret (nc', u') ∧ inv u' ∧
    (∀ id, id ∈ nc' ↔ id ∈ nc ∨ id ∈ map GlobalID checks) ∧
    reconciled checks (scrapers u) (scrapers u').
Proof.
  intros Hi Ha. revert nc u Hi. induction Ha as [|ch check changes checks [Hop Hc] _ IH]; intros nc u Hi Hall.
  { exists nc, u. split_and!; [done|done|set_solver|]. split; [done|done|]. intros [|? ?] c l2 E; done. }
  apply Forall_cons in Hall as [[Hw Hok] Hall]. cbn [firstBatch_adds]. rewrite Hop, Hc.
  change (CHECK_ADD =? CHECK_ADD) with true. cbv iota.
  destruct (initialAdd_spec check u Hi Hw) as (u1 & err & -> & Hi1 & Ho & Hacc).
  destruct (Hacc Hok) as (-> & (s1 & Hs1 & Hv1) & Hsame). cbn [mbind go_bind].
  destruct (IH ({[GlobalID check]} ∪ nc) u1 Hi1 Hall) as (nc' & u' & -> & Hi' & Hnc & [R1 R2 R3]).
  exists nc', u'. split_and!; [done|done| |].
  { intros id. rewrite Hnc. cbn [map]. set_solver. }
  split.
  - intros id Hid. cbn [map] in Hid. rewrite not_elem_of_cons in Hid. destruct Hid as [Hne Hid].
    rewrite R1 by done. by apply Ho.
  - intros id s Hs Hv. apply R2.
    + destruct (decide (id = GlobalID check)) as [->|Hne]; [|by rewrite Ho].
      rewrite (Hsame s Hs); [done|]. symmetry. apply Hv; [left|done].
    + intros c Hin. apply Hv. by right.
  - intros [|c0 l1] c l2 [= -> ->] Hlast; [|by eapply R3].
    destruct (decide (GlobalID c ∈ map GlobalID l2)) as [?|Hn]; [done|].
    exists s1. rewrite R1; done.
Qed.

(** ** Later batches *)

(** An add or update carries settings and no nil element. *)
Definition change_ok (ch : CheckChange) : Prop :=
  Operation ch ≠ CHECK_DELETE →
  ∀ check, FromSM (change_Check ch) = Some check → well_formed (sm check).

Lemma handleCheckAdd_returns check u :
  inv u → well_formed (sm check) →
  ∃ u' err, handleCheckAdd check u = Ret (u', err) ∧ inv u'.
Proof.
  intros Hi Hw. unfold handleCheckAdd.
  destruct (validate_returns _ Hw) as [[e|] ->]; cbn [mbind go_bind].
  { eexists _, _. split; [done|auto with agent]. }
  destruct (scrapers (count_change "add" u) !! GlobalID check) eqn:E.
  { eexists _, _. split; [done|auto with agent]. }
  destruct (addAndStart_spec check (count_change "add" u)) as (u' & err & -> & ? & _);
    [auto with agent|done|apply Hw|]. eauto.
Qed.

Lemma handleCheckUpdate_returns check u :
  inv u → well_formed (sm check) →
  ∃ u' err, handleCheckUpdate check u = Ret (u', err) ∧ inv u'.
Proof.
  intros Hi Hw. unfold handleCheckUpdate.
  destruct (validate_returns _ Hw) as [[e|] ->]; cbn [mbind go_bind].
  { eexists _, _. split; [done|auto with agent]. }
  destruct (updateWithLock_spec check (count_change "update" u)) as (u' & err & -> & ? & _);
    [auto with agent|apply Hw|]. eauto.
Qed.

Lemma handleCheckDelete_returns check u :
  inv u → ∃ u' err, handleCheckDelete check u = Ret (u', err) ∧ inv u'.
Proof.
  intros Hi. unfold handleCheckDelete.
  destruct (scrapers (count_change "delete" u) !! GlobalID check) as [s|] eqn:E.
  - destruct (stopScraper_spec (GlobalID check) s (count_change "delete" u)) as (u' & -> & ? & _);
      [auto with agent|done|]. simpl. eauto.
  - eexists _, _. split; [done|auto with agent].
Qed.

Lemma batch_loop_returns changes u :
  inv u → Forall change_ok changes → ∃ u', batch_loop changes u = Ret u' ∧ inv u'.
Proof.
  intros Hi Hall. revert u Hi. induction Hall as [|ch changes Hch _ IH]; intros u Hi; [by exists u|].
  cbn [batch_loop]. destruct (FromSM (change_Check ch)) as [check|] eqn:Ec; [|by apply IH].
  destruct (Z.eqb_spec (Operation ch) CHECK_ADD) as [E|_].
  { destruct (handleCheckAdd_returns check u Hi) as (u' & err & -> & Hi').
    { apply Hch; [by rewrite E|done]. }
    simpl. destruct err; apply IH; auto with agent. }
  destruct (Z.eqb_spec (Operation ch) CHECK_UPDATE) as [E|_].
  { destruct (handleCheckUpdate_returns check u Hi) as (u' & err & -> & Hi').
    { apply Hch; [by rewrite E|done]. }
    simpl. destruct err; apply IH; auto with agent. }
  destruct (Z.eqb_spec (Operation ch) CHECK_DELETE) as [E|_]; [|by apply IH].
  destruct (handleCheckDelete_returns check u Hi) as (u' & err & -> & Hi').
  simpl. destruct err; apply IH; auto with agent.
Qed.

Lemma handleFirstBatch_returns changes u :
  inv u → Forall change_ok (ch_Checks changes) →
  ∃ u', handleFirstBatch changes u = Ret u' ∧ inv u'.
Proof.
  intros Hi Hall. unfold handleFirstBatch.
  destruct (firstBatch_adds_returns (ch_Checks changes) ∅ u Hi) as (nc & u1 & -> & Hi1).
  { intros ch check Hin Eop Ec. rewrite Forall_forall in Hall. apply (Hall ch Hin); [|done].
    by rewrite Eop. }
  cbn [mbind go_bind].
  destruct (firstBatch_removes_spec (map_to_list (scrapers u1)) nc u1 Hi1) as (u2 & -> & Hi2 & _).
  - apply NoDup_fst_map_to_list.
  - intros id s Hin. by apply elem_of_map_to_list.
  - eauto.
Qed.

Lemma processChanges_returns msgs first u :
  inv u → Forall (λ msg, Forall change_ok (ch_Checks msg)) msgs →
  ∃ u', processChanges msgs first u = Ret u' ∧ inv u'.
Proof.
  intros Hi Hall. revert first u Hi. induction Hall as [|msg msgs Hm _ IH]; intros first u Hi;
    [by exists u|].
  cbn [processChanges]. unfold handleChangeBatch.
  destruct (first && negb (IsDeltaFirstBatch msg)).
  - destruct (handleFirstBatch_returns msg u Hi Hm) as (u' & -> & Hi'). by apply IH.
  - destruct (batch_loop_returns (ch_Checks msg) (send_tenants (Tenants msg) u)) as (u' & -> & Hi');
      [auto with agent|done|]. by apply IH.
Qed.

Lemma run_connections_inv conns u :
  inv u → Forall (Forall (λ msg, Forall change_ok (ch_Checks msg))) conns →
  ∃ u', run_connections conns u = Ret u' ∧ inv u'.
Proof.
  intros Hi Hall. revert u Hi. induction Hall as [|msgs conns Hm _ IH]; intros u Hi; [by exists u|].
  cbn [run_connections]. destruct (processChanges_returns msgs true u Hi Hm) as (u' & -> & Hi').
  by apply IH.
Qed.

(** ** Properties *)

(** C4: over any number of connections and batches whose adds and updates carry
    settings, the updater never panics - in particular no scraper is stopped
    twice - and its books balance: each entry of the map is the check of its key
    with a scraper that was started and not stopped, every other started scraper
    was stopped, and the gauge of each type counts the entries of that type. *)
Theorem scrapers_accounted conns :
  Forall (Forall (λ msg, Forall change_ok (ch_Checks msg))) conns →
  ∃ u, run_connections conns newUpdater = Ret u ∧
    (∀ id s, scrapers u !! id = Some s →
       GlobalID (s_check s) = id ∧ s_ptr s ∈ started u ∧ s_ptr s ∉ stopped u) ∧
    (∀ p, p ∈ started u → p ∉ stopped u →
       ∃ id s, scrapers u !! id = Some s ∧ s_ptr s = p ∧
         ∀ id' s', scrapers u !! id' = Some s' → s_ptr s' = p → id' = id) ∧
    NoDup (stopped u) ∧
    (∀ k, default 0 (runningScrapers u !! k) = Z.of_nat (ofType k (scrapers u))).
Proof.
  intros Hall. destruct (run_connections_inv conns newUpdater newUpdater_inv Hall)
    as (u & Eu & [Hk Hp Ha [Hnd _] Hg]).
  exists u. split_and!; try done.
  - intros id s Hs. destruct (Hk _ _ Hs) as (? & ? & ? & _). done.
  - intros p Hst Hns. destruct (Ha p Hst) as [|(id & s & Hs & Ep)]; [done|].
    exists id, s. split_and!; try done. intros id' s' Hs' E. eapply Hp; eauto. congruence.
Qed.

(** A first batch that is not a delta, of checks that are all accepted,
    leaves a scraper exactly for the ids it lists, each at the version it was
    last listed with; a scraper listed only at the version it runs is left
    running, the same one, and scrapers that are not listed are stopped. *)
Theorem first_batch_reconciles changes checks u :
  inv u → IsDeltaFirstBatch changes = false → adds (ch_Checks changes) checks →
  Forall (λ c, well_formed (sm c) ∧ accepted c) checks →
  ∃ u', handleChangeBatch changes true u = Ret u' ∧ inv u' ∧
    (∀ id, is_Some (scrapers u' !! id) ↔ id ∈ map GlobalID checks) ∧
    (∀ l1 c l2, checks = l1 ++ c :: l2 → GlobalID c ∉ map GlobalID l2 →
       ∃ s, scrapers u' !! GlobalID c = Some s ∧ scraper_version s = ConfigVersion (sm c)) ∧
    (∀ id s, scrapers u !! id = Some s → id ∈ map GlobalID checks →
       (∀ c, c ∈ checks → GlobalID c = id → ConfigVersion (sm c) = scraper_version s) →
       scrapers u' !! id = Some s ∧ s_ptr s ∉ stopped u') ∧
    (∀ id s, scrapers u !! id = Some s → id ∉ map GlobalID checks → s_ptr s ∈ stopped u').
Proof.
  intros Hi Hd Ha Hall. unfold handleChangeBatch, handleFirstBatch. rewrite Hd. cbn [andb negb].
  destruct (firstBatch_adds_spec _ checks ∅ u Hi Ha Hall) as (nc & u1 & E1 & Hi1 & Hnc & [R1 R2 R3]).
  rewrite E1. cbn [mbind go_bind].
  destruct (firstBatch_removes_spec (map_to_list (scrapers u1)) nc u1 Hi1) as (u' & E2 & Hi' & Hu' & _ & Hstop).
  { apply NoDup_fst_map_to_list. }
  { intros id s Hin. by apply elem_of_map_to_list. }
  assert (Hin : ∀ id, id ∈ (map_to_list (scrapers u1)).*1 ↔ is_Some (scrapers u1 !! id)).
  { intros id. rewrite list_elem_of_fmap. split.
    - intros ([? s] & -> & Hs%elem_of_map_to_list). by exists s.
    - intros [s Hs]. exists (id, s). split; [done|]. by apply elem_of_map_to_list. }
  assert (Hlook : ∀ id, scrapers u' !! id = if decide (id ∈ map GlobalID checks)
                                           then scrapers u1 !! id else None).
  { intros id. rewrite Hu'. specialize (Hin id). specialize (Hnc id).
    destruct (decide (id ∈ map GlobalID checks)) as [Hid|Hid].
    - rewrite decide_False; [done|]. tauto.
    - case_decide as Hc; [done|]. destruct (scrapers u1 !! id) eqn:E; [|done].
      destruct Hc. split; [apply Hin; by eexists|]. set_solver. }
  exists u'. split_and!; [done|done| | | |].
  - intros id. rewrite Hlook. destruct (decide (id ∈ map GlobalID checks)) as [Hid|Hid].
    + split; [done|]. intros _. destruct (last_listed checks id Hid) as (l1 & c & l2 & E & <- & Hn).
      destruct (R3 _ _ _ E Hn) as (s & -> & _). eauto.
    + split; [intros [? ?]; done|done].
  - intros l1 c l2 E Hn. destruct (R3 _ _ _ E Hn) as (s & Hs & Hv). exists s. split; [|done].
    rewrite Hlook, decide_True; [done|]. rewrite E, map_app. cbn [map]. set_solver.
  - intros id s Hs Hid Hv. assert (Hs' : scrapers u' !! id = Some s).
    { rewrite Hlook, decide_True by done. by apply R2. }
    split; [done|]. by apply (inv_key _ Hi' _ _ Hs').
  - intros id s Hs Hid. apply (Hstop id); [apply elem_of_map_to_list; by rewrite R1|].
    rewrite Hnc. set_solver.
Qed.

(** A later add of a running check is refused and changes nothing; an add of
    an unknown check and an update start a new scraper for it when it is accepted,
    an update after stopping the old one; an update that cannot start the new
    scraper leaves the check without any; a delete stops the scraper and forgets
    it, or reports an unknown check. Other checks are never touched. *)
Theorem later_operations check u :
  inv u → well_formed (sm check) → validate (sm check) = Ret None →
  let g := GlobalID check in
  (∀ s, scrapers u !! g = Some s →
     ∃ u', handleCheckAdd check u = Ret (u', Some (ErrAlreadyExists g)) ∧ scrapers u' = scrapers u) ∧
  (scrapers u !! g = None → accepted check →
     ∃ u' p, handleCheckAdd check u = Ret (u', None) ∧ p ∉ started u ∧
       scrapers u' = <[g := {| s_ptr := p; s_check := check |}]> (scrapers u)) ∧
  (accepted check →
     ∃ u' p, handleCheckUpdate check u = Ret (u', None) ∧ p ∉ started u ∧
       scrapers u' = <[g := {| s_ptr := p; s_check := check |}]> (scrapers u) ∧
       ∀ s, scrapers u !! g = Some s → s_ptr s ∈ stopped u') ∧
  (¬ accepted check →
     ∃ u' err, handleCheckUpdate check u = Ret (u', err) ∧
       scrapers u' = delete g (scrapers u) ∧
       ∀ s, scrapers u !! g = Some s → s_ptr s ∈ stopped u') ∧
  (∀ s, scrapers u !! g = Some s →
     ∃ u', handleCheckDelete check u = Ret (u', None) ∧
       scrapers u' = delete g (scrapers u) ∧ s_ptr s ∈ stopped u') ∧
  (scrapers u !! g = None →
     ∃ u', handleCheckDelete check u = Ret (u', Some ErrCheckNotFound) ∧ scrapers u' = scrapers u).
Proof.
  intros Hi [_ Ht] Hv g.
  assert (Hbad : ¬ accepted check → filteredOut check = true ∨ metricsError check ≠ None ∨
    scraperFactory check ≠ None).
  { intros Hn. destruct (filteredOut check) eqn:E1; [by left|].
    destruct (metricsError check) eqn:E2; [by right; left|].
    destruct (scraperFactory check) eqn:E3; [by right; right|]. by destruct Hn. }
  destruct (updateWithLock_spec check (count_change "update" u)) as (u' & err & Eu & Hi' & _ & Hcase & Hst);
    [auto with agent|done|].
  split_and!.
  - intros s Hs. unfold handleCheckAdd. rewrite Hv. cbn [mbind go_bind].
    change (scrapers (count_change "add" u)) with (scrapers u). fold g. rewrite Hs. by eexists.
  - intros Hn (_ & Hf & Hm & Hs). unfold handleCheckAdd. rewrite Hv. cbn [mbind go_bind].
    change (scrapers (count_change "add" u)) with (scrapers u). fold g. rewrite Hn.
    destruct (addAndStart_spec check (count_change "add" u)) as (u1 & err1 & -> & _ & _ & _ & H1);
      [auto with agent|done|done|].
    destruct H1 as [(_ & [?|[?|?]])|(-> & _ & _ & _ & E1 & _)]; try congruence.
    eexists _, _. split; [done|]. split; [apply fresh_not_started|done].
  - intros (_ & Hf & Hm & Hs). unfold handleCheckUpdate. rewrite Hv. cbn [mbind go_bind]. rewrite Eu.
    destruct Hcase as [(_ & [?|[?|?]])|(-> & _ & _ & _ & p & Hp & E1)]; try congruence.
    eexists _, p. split; [done|]. split_and!; [done|done|exact Hst].
  - intros Hn%Hbad. unfold handleCheckUpdate. rewrite Hv. cbn [mbind go_bind]. rewrite Eu.
    exists u', err. split; [done|]. split; [|exact Hst].
    destruct Hcase as [(E1 & _)|(_ & ? & ? & ? & _)]; [done|].
    by destruct Hn as [?|[?|?]]; congruence.
  - intros s Hs. unfold handleCheckDelete.
    change (scrapers (count_change "delete" u)) with (scrapers u). fold g. rewrite Hs.
    destruct (stopScraper_spec g s (count_change "delete" u)) as (u1 & -> & _ & E1 & S1 & _);
      [auto with agent|done|].
    eexists. split; [done|]. split; [done|]. rewrite S1. left.
  - intros Hn. unfold handleCheckDelete.
    change (scrapers (count_change "delete" u)) with (scrapers u). fold g. rewrite Hn. by eexists.
Qed.

End updater.

(** ** The connection to the API *)

(** The errors [loop] returns: [TransientError], [FatalError], [context.Canceled],
    another error, and [fmt.Errorf("%s: %w")]. *)
Inductive lerr :=
  | TransientError (msg : string)
  | FatalError (msg : string)
  | Canceled
  | OtherError (msg : string)
  | WrapError (action : string) (inner : lerr).

Definition errCapabilityK6Missing : lerr := FatalError "k6 is required for scripted check support - configure k6 or edit probe capabilities in the SM app".
Definition errIncompatibleApi : lerr := FatalError "API does not support required features".
Definition errNotAuthorized : lerr := FatalError "probe not authorized".
Definition errProbeUnregistered : lerr := TransientError "probe no longer registered".
Definition errTransportClosing : lerr := TransientError "transport closing".

(** [errors.As] and [errors.Is] follow the wrapped errors. *)
Fixpoint cause (e : lerr) : lerr :=
  match e with WrapError _ inner => cause inner | _ => e end.

(** The calls on the [Backoffer]. *)
Record backoff := { durations : nat; resets : nat }.

(** [handleError]: [ctxErr] is the context's error, if it ends during the sleep. *)
Definition handleError (ctxErr : option lerr) (b : backoff) (wasConnected : bool)
    (err : option lerr) : bool * option lerr * backoff :=
  let slept := {| durations := S (durations b); resets := resets b |} in
  match err with
  | None => (true, None, b)
  | Some e =>
      match cause e with
      | TransientError _ =>
          match ctxErr with
          | Some c => (true, Some c, slept)
          | None =>
              (false, None,
               if wasConnected then {| durations := S (durations b); resets := S (resets b) |}
               else slept)
          end
      | FatalError _ => (true, Some e, b)
      | Canceled => (true, None, b)
      | _ =>
          match ctxErr with
          | Some c => (true, Some c, slept)
          | None => (false, None, slept)
          end
      end
  end.

(** gRPC status codes the agent distinguishes. *)
Inductive grpcCode := CodeCanceled | CodeUnavailable | CodePermissionDenied | CodeUnimplemented
  | CodeOther (n : Z).

(** An error of a gRPC call: its status, or an error that has none. *)
Inductive grpcError := GStatus (code : grpcCode) (message : string) | GPlain (e : lerr).

Definition grpcErrorHandler (action : string) (err : grpcError) : lerr :=
  match err with
  | GPlain e => WrapError action e
  | GStatus CodeCanceled _ => Canceled
  | GStatus code message =>
      if String.eqb message "transport is closing" then errTransportClosing
      else match code with
      | CodeUnavailable => TransientError (action +:+ ": " +:+ message)
      | CodePermissionDenied => errNotAuthorized
      | CodeUnimplemented => errIncompatibleApi
      | _ => OtherError message
      end
  end.

(** The closure [errorHandler] of [loop]. *)
Definition errorHandler (err : option grpcError) (action : string) (signalFired : bool)
    : option lerr :=
  match err with
  | None => None
  | Some e => if signalFired then Some errProbeUnregistered else Some (grpcErrorHandler action e)
  end.

Definition validateProbeCapabilities (k6Runner : bool) (capabilities : option Probe_Capabilities)
    : option lerr :=
  let requireK6 := match capabilities with
                   | None => true
                   | Some c => negb (DisableScriptedChecks c) || negb (DisableBrowserChecks c)
                   end in
  if requireK6 && negb k6Runner then Some errCapabilityK6Missing else None.

(** [result.Status.Code] of the registration. *)
Inductive statusCode := StatusCode_OK | StatusCode_NOT_AUTHORIZED | StatusCode_Other.

(** The start of [loop], until the probe is registered. *)
Definition register (k6Runner : bool)
    (reply : grpcError + (statusCode * string * option Probe_Capabilities)) : option lerr :=
  match reply with
  | inl e => Some (grpcErrorHandler "registering probe with synthetic-monitoring-api" e)
  | inr (StatusCode_OK, _, capabilities) => validateProbeCapabilities k6Runner capabilities
  | inr (StatusCode_NOT_AUTHORIZED, _, _) => Some errNotAuthorized
  | inr (StatusCode_Other, message, _) =>
      Some (OtherError ("registering probe with synthetic-monitoring-api, response: " +:+ message))
  end.

(** While its context lives, the agent gives up on a failed registration
    exactly when the API cancels, denies permission, is incompatible or reports
    the probe unauthorized, or when a required k6 runner is missing; every other
    failure is retried after a back-off, which is only reset after a connection
    lost to a transient error. *)
Theorem registration_retry_decision k6Runner reply b wasConnected e :
  register k6Runner reply = Some e →
  (∀ p, reply = inl (GPlain p) → ∃ m, cause p = OtherError m) →
  let '(done, err, b') := handleError None b wasConnected (Some e) in
  (done = true ↔
     (∃ m, reply = inl (GStatus CodeCanceled m)) ∨
     (∃ m, m ≠ "transport is closing"%string ∧
        (reply = inl (GStatus CodePermissionDenied m) ∨ reply = inl (GStatus CodeUnimplemented m))) ∨
     (∃ m c, reply = inr (StatusCode_NOT_AUTHORIZED, m, c)) ∨
     (∃ m c, reply = inr (StatusCode_OK, m, c) ∧ k6Runner = false)) ∧
  (done = true → b' = b) ∧
  (done = false → err = None ∧ durations b' = S (durations b)).
Proof.
  intros Hr Hp. destruct reply as [[code m|p]|[[st m] c]]; simpl in Hr.
  - destruct (String.eqb_spec m "transport is closing") as [->|Hm].
    + destruct code; injection Hr as <-; simpl; try destruct wasConnected; simpl;
        (split; [split; [intros; (done || eauto)|naive_solver]|done]).
    + destruct code; injection Hr as <-; simpl; try destruct wasConnected; simpl;
        (split; [split; [intros; (done || naive_solver)|naive_solver]|done]).
  - injection Hr as <-. destruct (Hp p eq_refl) as [m Em]. simpl. rewrite Em. simpl. split; [split; [done|naive_solver]|done].
  - destruct st; simpl in Hr.
    + unfold validateProbeCapabilities in Hr. destruct k6Runner; [by rewrite andb_false_r in Hr|].
      case_match; [|done]. injection Hr as <-. simpl.
      split; [split; [intros _; do 3 right; eauto|done]|done].
    + injection Hr as <-. simpl. split; [split; [intros _; do 2 right; left; eauto|done]|done].
    + injection Hr as <-. simpl. split; [split; [done|naive_solver]|done].
Qed.

(** ** Examples and witnesses *)

Section examples.

Definition example_validator : Validator :=
  checks_extra_validator example_urlParse example_accepts example_accepts example_accepts
    example_accepts.
#[local] Existing Instance example_validator.

(** The sample ping check of id 1, with a frequency and a modification time. *)
Definition example_check (frequency : Z) (modified : Z) : Check :=
  {| Id := 1; TenantId := 1; Frequency := frequency; Offset := 0; Timeout := 1000;
     Enabled := true; Labels := []; Settings := instanceSettings CheckTypePing; Probes := [1];
     Target := loopbackIPv4; Job := "job"; BasicMetricsOnly := false;
     AlertSensitivity := EmptyString; Created := S754_zero false;
     Modified := binary_normalize 53 1024 modified 0 false |}.
Definition example_batch (c : Check) (op : Z) : Changes :=
  {| Tenants := []; ch_Checks := [{| Operation := op; change_Check := c |}];
     IsDeltaFirstBatch := false |}.
Definition example_start : Updater :=
  match handleChangeBatch Some true (λ _, None) (λ _, None) (example_batch (example_check 1000 1) CHECK_ADD)
          true newUpdater with
  | Ret u => u
  | Panic _ => newUpdater
  end.

(** After a reconnection, a new version of a running check replaces the running
    one without being validated. *)
Lemma first_batch_update_skips_validation :
  validate (example_check 0 2) = Ret (Some ErrInvalidCheckFrequency) ∧
  match handleChangeBatch Some true (λ _, None) (λ _, None)
          (example_batch (example_check 0 2) CHECK_ADD) true example_start with
  | Ret u => (λ s, Frequency (sm (s_check s))) <$> scrapers u !! 1 = Some 0
  | Panic _ => False
  end.
Proof. vm_compute. done. Qed.

(** A scraper that cannot be created in the first batch is counted twice. *)
Lemma first_batch_counts_error_twice :
  match handleChangeBatch Some true (λ _, None) (λ _, Some "no prober"%string)
          (example_batch (example_check 1000 1) CHECK_ADD) true newUpdater with
  | Ret u => changeErrorsCounter u !! "add"%string = Some 2
  | Panic _ => False
  end.
Proof. vm_compute. done. Qed.

Lemma example_check_well_formed f m : well_formed (example_check f m).
Proof. split; [intros ? E; done|by exists CheckTypePing]. Qed.

Lemma scrapers_accounted_witness :
  ∃ u, run_connections Some true (λ _, None) (λ _, None)
    [[example_batch (example_check 1000 1) CHECK_ADD]] newUpdater = Ret u ∧
    (∀ k, default 0 (runningScrapers u !! k) = Z.of_nat (ofType k (scrapers u))).
Proof.
  destruct (scrapers_accounted Some true (λ _, None) (λ _, None)
    [[example_batch (example_check 1000 1) CHECK_ADD]]) as (u & Eu & _ & _ & _ & Hg).
  - do 3 (constructor; [|constructor]). intros _ check [= <-]. apply example_check_well_formed.
  - exists u. split; [exact Eu|exact Hg].
Defined.

Definition example_mcheck : mCheck := {| sm := example_check 1000 1; RegionId := 0 |}.

Lemma example_mcheck_ok :
  well_formed (sm example_mcheck) ∧ accepted true (λ _, None) (λ _, None) example_mcheck.
Proof. split; [apply example_check_well_formed|by vm_compute]. Qed.

Lemma first_batch_reconciles_witness :
  ∃ u', handleChangeBatch Some true (λ _, None) (λ _, None)
    (example_batch (example_check 1000 1) CHECK_ADD) true newUpdater = Ret u' ∧
    (∀ id, is_Some (scrapers u' !! id) ↔ id ∈ map GlobalID [example_mcheck]).
Proof.
  destruct (first_batch_reconciles Some true (λ _, None) (λ _, None)
    (example_batch (example_check 1000 1) CHECK_ADD) [example_mcheck] newUpdater)
    as (u' & Eu & _ & Hdom & _).
  - apply newUpdater_inv.
  - reflexivity.
  - constructor; [split; reflexivity|constructor].
  - constructor; [exact example_mcheck_ok|constructor].
  - exists u'. split; [exact Eu|exact Hdom].
Defined.

Lemma later_operations_witness :
  ∃ u' p, handleCheckAdd true (λ _, None) (λ _, None) example_mcheck newUpdater = Ret (u', None) ∧
    p ∉ started newUpdater ∧
    scrapers u' = <[GlobalID example_mcheck := {| s_ptr := p; s_check := example_mcheck |}]>
                    (scrapers newUpdater).
Proof.
  apply (later_operations true (λ _, None) (λ _, None) example_mcheck newUpdater).
  - apply newUpdater_inv.
  - apply example_mcheck_ok.
  - vm_compute. reflexivity.
  - reflexivity.
  - apply example_mcheck_ok.
Defined.

Lemma registration_retry_decision_witness :
  let '(done, err, b') := handleError None {| durations := 0; resets := 0 |} false
    (Some (TransientError "registering probe with synthetic-monitoring-api: no route")) in
  done = false ∧ err = None ∧ durations b' = 1%nat.
Proof.
  destruct (registration_retry_decision true (inl (GStatus CodeUnavailable "no route"))
    {| durations := 0; resets := 0 |} false
    (TransientError "registering probe with synthetic-monitoring-api: no route"))
    as (_ & _ & H); [reflexivity|done|].
  split; [reflexivity|]. apply H. reflexivity.
Defined.

End examples.
