(* ===== verification/Desired.v ===== *)
(** * The checks the agent should be running: an abstract view of the updater

    The updater of [Updater.v] keeps scrapers, counters and pointers. What it
    promises to the API is simpler: it runs a set of checks, and each message
    changes that set. This file states the promise as functions on a map from
    ids to checks, without scrapers, goroutines, gauges or the bookkeeping of a
    first batch, and proves that the updater implements it: the abstraction
    [desired] of the updater's state simulates every handler, batch and
    connection. *)
From S2P Require Import Prelude Strs Net Ids Checks Validate Updater.
From Stdlib Require Import Floats.SpecFloat.

Open Scope Z_scope.

(** ** The abstract state *)

(** The checks a state runs, forgetting how. *)
Definition desired (u : Updater) : gmap Z mCheck := s_check <$> scrapers u.

Section desired.
Context `{Validator}.
Variable recode : Check → option Check.
Variable k6 : bool.
Variable metricsError : mCheck → option string.
Variable scraperFactory : mCheck → option string.


(** Nothing keeps the check from running on this agent. *)
Definition startable (check : mCheck) : bool :=
  negb (filteredOut k6 check) && bool_decide (metricsError check = None) &&
  bool_decide (scraperFactory check = None).

Definition isValid (check : mCheck) : bool :=
  match validate (sm check) with Ret None => true | _ => false end.

(** ** The abstract operations *)

(** The check replaces what runs under its id. *)
Definition specStart (check : mCheck) (D : gmap Z mCheck) : gmap Z mCheck :=
  if startable check then <[GlobalID check := check]> D else delete (GlobalID check) D.

Definition specUpdate (check : mCheck) (D : gmap Z mCheck) : gmap Z mCheck :=
  if isValid check then specStart check D else D.

Definition specAdd (check : mCheck) (D : gmap Z mCheck) : gmap Z mCheck :=
  match D !! GlobalID check with Some _ => D | None => specUpdate check D end.

Definition specDelete (check : mCheck) (D : gmap Z mCheck) : gmap Z mCheck :=
  delete (GlobalID check) D.

(** A check listed in the first batch: kept at its version, replaced at another. *)
Definition specEnsure (D : gmap Z mCheck) (check : mCheck) : gmap Z mCheck :=
  match D !! GlobalID check with
  | Some running =>
      if bool_decide (ConfigVersion (sm running) = ConfigVersion (sm check)) then D
      else specStart check D
  | None => specUpdate check D
  end.

(** The checks a batch lists. *)
Definition listed (changes : list CheckChange) : list mCheck :=
  omap (λ ch, if Operation ch =? CHECK_ADD then FromSM recode (change_Check ch) else None) changes.

(** The listed checks are ensured, the others are forgotten. *)
Definition specFirstBatch (changes : list CheckChange) (D : gmap Z mCheck) : gmap Z mCheck :=
  filter (λ p, p.1 ∈ map GlobalID (listed changes)) (foldl specEnsure D (listed changes)).

Definition specChange (D : gmap Z mCheck) (ch : CheckChange) : gmap Z mCheck :=
  match FromSM recode (change_Check ch) with
  | None => D
  | Some check =>
      if Operation ch =? CHECK_ADD then specAdd check D
      else if Operation ch =? CHECK_UPDATE then specUpdate check D
      else if Operation ch =? CHECK_DELETE then specDelete check D
      else D
  end.

Definition specBatch (first : bool) (D : gmap Z mCheck) (msg : Changes) : gmap Z mCheck :=
  if first && negb (IsDeltaFirstBatch msg) then specFirstBatch (ch_Checks msg) D
  else foldl specChange D (ch_Checks msg).

Definition specConnection (D : gmap Z mCheck) (msgs : list Changes) : gmap Z mCheck :=
  match msgs with
  | [] => D
  | msg :: msgs => foldl (specBatch false) (specBatch true D msg) msgs
  end.

Definition specConnections (conns : list (list Changes)) : gmap Z mCheck :=
  foldl specConnection ∅ conns.

(** ** Simulation *)

Notation addAndStart := (addAndStartScraperWithLock k6 metricsError scraperFactory).
Notation updateWithLock := (handleCheckUpdateWithLock k6 metricsError scraperFactory).
Notation initialAdd := (handleInitialChangeAddWithLock k6 metricsError scraperFactory).

(** The updater is in a good state that runs the checks of [D]. *)
Definition runs (D : gmap Z mCheck) (u : Updater) : Prop := inv u ∧ desired u = D.

(** A handler returns, and leaves the updater running the checks of [D]. *)
Definition leads (m : upd) (D : gmap Z mCheck) : Prop :=
  ∃ u err, m = Ret (u, err) ∧ runs D u.

Lemma runs_counters D u u' :
  scrapers u' = scrapers u → started u' = started u → stopped u' = stopped u →
  runningScrapers u' = runningScrapers u → runs D u → runs D u'.
Proof.
  intros E1 E2 E3 E4 [Hi <-]. split; [by eapply inv_counters|]. unfold desired. by rewrite E1.
Qed.

Lemma runs_count_change D k u : runs D u → runs D (count_change k u).
Proof. by apply runs_counters. Qed.
Lemma runs_count_error D k u : runs D u → runs D (count_error k u).
Proof. by apply runs_counters. Qed.
Lemma runs_send_tenants D l u : runs D u → runs D (send_tenants l u).
Proof. by apply runs_counters. Qed.
#[local] Hint Resolve runs_count_change runs_count_error runs_send_tenants : agent.

Lemma runs_lookup D u id : runs D u → s_check <$> scrapers u !! id = D !! id.
Proof. intros [_ <-]. unfold desired. by rewrite lookup_fmap. Qed.

Lemma startable_spec check :
  startable check = true ↔
    filteredOut k6 check = false ∧ metricsError check = None ∧ scraperFactory check = None.
Proof.
  unfold startable. rewrite !andb_true_iff, negb_true_iff, !bool_decide_eq_true. tauto.
Qed.

Lemma not_startable check :
  filteredOut k6 check = true ∨ metricsError check ≠ None ∨ scraperFactory check ≠ None →
  startable check = false.
Proof.
  intros Hbad. apply not_true_iff_false. rewrite startable_spec.
  intros (? & ? & ?). destruct Hbad as [?|[?|?]]; congruence.
Qed.

Lemma updateWithLock_sim check D u :
  runs D u → returns (Type_ (sm check)) →
  ∃ u' err, updateWithLock check u = Ret (u', err) ∧ runs (specStart check D) u' ∧
    (startable check = true → err = None).
Proof.
  intros [Hi <-] Ht. destruct (updateWithLock_spec k6 metricsError scraperFactory check u Hi Ht)
    as (u' & err & -> & Hi' & _ & Hu & _).
  exists u', err. unfold specStart, runs, desired.
  destruct Hu as [(Eu & Hbad)|(-> & Hf & Hm & Hs & p & _ & Eu)].
  - rewrite (not_startable _ Hbad), Eu. split_and!; [done|done|by rewrite fmap_delete|done].
  - rewrite (proj2 (startable_spec check)) by done. rewrite Eu.
    split_and!; [done|done|by rewrite fmap_insert|done].
Qed.

(** Starting a check nothing runs for is replacing it. *)
Lemma addAndStart_sim check D u :
  runs D u → D !! GlobalID check = None → returns (Type_ (sm check)) →
  ∃ u' err, addAndStart check u = Ret (u', err) ∧ runs (specStart check D) u' ∧
    (startable check = true → err = None).
Proof.
  intros Hr Hn Ht. pose proof (runs_lookup D u (GlobalID check) Hr) as E.
  rewrite Hn in E. apply fmap_None in E.
  destruct (updateWithLock_sim check D u Hr Ht) as (u' & err & Eu & Hu).
  exists u', err. split; [|done]. rewrite <-Eu. unfold handleCheckUpdateWithLock. by rewrite E.
Qed.

(** Validation judges a well-formed check. *)
Lemma validate_cases check :
  well_formed (sm check) →
  (isValid check = true ∧ validate (sm check) = Ret None) ∨
  (isValid check = false ∧ ∃ e, validate (sm check) = Ret (Some e)).
Proof.
  intros Hw. unfold isValid. destruct (validate_returns _ Hw) as [[e|] ->]; eauto.
Qed.

Lemma handleCheckAdd_sim check D u :
  runs D u → well_formed (sm check) →
  leads (handleCheckAdd k6 metricsError scraperFactory check u) (specAdd check D).
Proof.
  intros Hr Hw. unfold leads, handleCheckAdd, specAdd, specUpdate.
  pose proof (runs_lookup D u (GlobalID check) Hr) as E.
  destruct (validate_cases check Hw) as [[-> ->]|[-> [e ->]]]; cbn [mbind go_bind].
  - change (scrapers (count_change "add" u)) with (scrapers u).
    destruct (scrapers u !! GlobalID check) as [s|] eqn:Es; simpl in E; rewrite <-E.
    { eexists _, _. split; [done|auto with agent]. }
    destruct (addAndStart_sim check D (count_change "add" u)) as (u' & err & -> & Hu & _);
      [auto with agent|done|apply Hw|]. eauto.
  - eexists _, _. split; [done|]. destruct (D !! GlobalID check); auto with agent.
Qed.

Lemma handleCheckUpdate_sim check D u :
  runs D u → well_formed (sm check) →
  leads (handleCheckUpdate k6 metricsError scraperFactory check u) (specUpdate check D).
Proof.
  intros Hr Hw. unfold leads, handleCheckUpdate, specUpdate.
  destruct (validate_cases check Hw) as [[-> ->]|[-> [e ->]]]; cbn [mbind go_bind].
  - destruct (updateWithLock_sim check D (count_change "update" u)) as (u' & err & -> & Hu & _);
      [auto with agent|apply Hw|]. eauto.
  - eexists _, _. split; [done|auto with agent].
Qed.

Lemma stopScraper_sim id s D u :
  runs D u → scrapers u !! id = Some s →
  ∃ u', stopScraper id s u = Ret u' ∧ runs (delete id D) u'.
Proof.
  intros [Hi <-] Hs. destruct (stopScraper_spec id s u Hi Hs) as (u' & -> & Hi' & E & _).
  exists u'. split; [done|]. split; [done|]. unfold desired. by rewrite E, fmap_delete.
Qed.

Lemma handleCheckDelete_sim check D u :
  runs D u → leads (handleCheckDelete check u) (specDelete check D).
Proof.
  intros Hr. unfold leads, handleCheckDelete, specDelete.
  change (scrapers (count_change "delete" u)) with (scrapers u).
  pose proof (runs_lookup D u (GlobalID check) Hr) as E.
  destruct (scrapers u !! GlobalID check) as [s|] eqn:Es; simpl in E.
  - destruct (stopScraper_sim (GlobalID check) s D (count_change "delete" u)) as (u' & -> & Hu);
      [auto with agent|done|]. simpl. eauto.
  - rewrite delete_id by done. eexists _, _. split; [done|auto with agent].
Qed.

(** A listed check is ensured, and counts as sent whenever it ends up running. *)
Lemma initialAdd_sim check D u :
  runs D u → well_formed (sm check) →
  ∃ u' err, initialAdd check u = Ret (u', err) ∧ runs (specEnsure D check) u' ∧
    (is_Some (specEnsure D check !! GlobalID check) → err = None).
Proof.
  intros Hr Hw. unfold handleInitialChangeAddWithLock, specEnsure, specUpdate.
  assert (Hstart : ∀ D' err, (startable check = true → err = None) →
    is_Some (specStart check D' !! GlobalID check) → err = @None updErr).
  { intros D' err He. unfold specStart. destruct (startable check); [by auto|].
    rewrite lookup_delete_eq. by intros [? ?]. }
  pose proof (runs_lookup D u (GlobalID check) Hr) as E.
  destruct (scrapers u !! GlobalID check) as [s|] eqn:Es; simpl in E; rewrite <-E.
  - unfold scraper_version. case_bool_decide; [by exists u, None|].
    destruct (updateWithLock_sim check D u Hr) as (u' & err & -> & Hu & He); [apply Hw|]. eauto 6.
  - destruct (validate_cases check Hw) as [[-> ->]|[-> [e ->]]]; cbn [mbind go_bind].
    + destruct (addAndStart_sim check D (count_change "add" u)) as (u' & err & -> & Hu & He);
        [auto with agent|done|apply Hw|]. cbn [mbind go_bind].
      destruct err as [e|]; eexists _, _; (split_and!; [done|auto with agent|]).
      * intros Hin. by apply (Hstart D (Some e)) in Hin.
      * done.
    + eexists _, _. split_and!; [done|auto with agent|]. rewrite <-E. by intros [? ?].
Qed.

(** ** The first batch *)

(** The ids the loop collects keep every id that runs and was listed, and only
    listed ones: an id that is not collected was not listed, or does not run. *)
Definition collects (ids : list Z) (D : gmap Z mCheck) (newChecks : gset Z) : Prop :=
  (∀ id, id ∈ newChecks → id ∈ ids) ∧ (∀ id, id ∈ ids → is_Some (D !! id) → id ∈ newChecks).

Lemma specEnsure_other D check id :
  id ≠ GlobalID check → specEnsure D check !! id = D !! id.
Proof.
  intros Hne. unfold specEnsure, specUpdate, specStart.
  repeat case_match; rewrite ?lookup_insert_ne, ?lookup_delete_ne; done.
Qed.

Lemma firstBatch_adds_sim changes ids nc D u :
  runs D u → Forall (change_ok recode) changes → collects ids D nc →
  ∃ nc' u', firstBatch_adds recode k6 metricsError scraperFactory changes nc u = Ret (nc', u') ∧
    runs (foldl specEnsure D (listed changes)) u' ∧
    collects (ids ++ map GlobalID (listed changes)) (foldl specEnsure D (listed changes)) nc'.
Proof.
  intros Hr Hall. revert ids nc D u Hr.
  induction Hall as [|ch changes Hch _ IH]; intros ids nc D u Hr Hc.
  { exists nc, u. cbn. by rewrite app_nil_r. }
  cbn [firstBatch_adds listed omap list_omap].
  destruct (Z.eqb_spec (Operation ch) CHECK_ADD) as [Eop|_]; [|by apply IH].
  destruct (FromSM recode (change_Check ch)) as [check|] eqn:Ec; [|by apply IH].
  destruct (initialAdd_sim check D u Hr) as (u1 & err & -> & Hr1 & Herr).
  { apply Hch; [by rewrite Eop|done]. }
  cbn [mbind go_bind foldl map]. rewrite cons_middle, app_assoc.
  destruct Hc as [Hc1 Hc2].
  assert (Hkept : ∀ id, id ∈ ids ++ [GlobalID check] → id ≠ GlobalID check →
    is_Some (specEnsure D check !! id) → id ∈ nc).
  { intros id Hid Hne. rewrite specEnsure_other by done. apply Hc2. set_solver. }
  destruct err as [e|]; (apply IH; [auto with agent|]); split.
  - set_solver.
  - intros id Hid Hin. destruct (decide (id = GlobalID check)) as [->|Hne]; [|by apply Hkept].
    by apply Herr in Hin.
  - set_solver.
  - intros id Hid Hin. destruct (decide (id = GlobalID check)) as [->|Hne]; [set_solver|].
    apply elem_of_union. right. by apply Hkept.
Qed.

Lemma handleFirstBatch_sim changes D u :
  runs D u → Forall (change_ok recode) (ch_Checks changes) →
  ∃ u', handleFirstBatch recode k6 metricsError scraperFactory changes u = Ret u' ∧
    runs (specFirstBatch (ch_Checks changes) D) u'.
Proof.
  intros Hr Hall. unfold handleFirstBatch, specFirstBatch.
  destruct (firstBatch_adds_sim (ch_Checks changes) [] ∅ D u Hr Hall) as (nc & u1 & -> & Hr1 & Hc);
    [by split; set_solver|].
  cbn [mbind go_bind app] in *. set (l := listed (ch_Checks changes)) in *.
  set (D1 := foldl specEnsure D l) in *.
  destruct (firstBatch_removes_spec (map_to_list (scrapers u1)) nc u1 (proj1 Hr1))
    as (u2 & -> & Hi2 & Hu2 & _).
  { apply NoDup_fst_map_to_list. }
  { intros id s Hin. by apply elem_of_map_to_list. }
  exists u2. split; [done|]. split; [done|]. apply map_eq. intros id.
  unfold desired. rewrite lookup_fmap, Hu2, map_lookup_filter.
  pose proof (runs_lookup D1 u1 id Hr1) as E. rewrite <-E. destruct Hc as [Hc1 Hc2].
  specialize (Hc1 id). specialize (Hc2 id). rewrite <-E in Hc2.
  assert (Hin : id ∈ (map_to_list (scrapers u1)).*1 ↔ is_Some (scrapers u1 !! id)).
  { rewrite <-elem_of_dom. rewrite list_elem_of_fmap. split.
    - intros ([? s] & -> & Hs%elem_of_map_to_list). by apply elem_of_dom_2 in Hs.
    - intros [s Hs]%elem_of_dom. exists (id, s). split; [done|]. by apply elem_of_map_to_list. }
  destruct (scrapers u1 !! id) as [s|]; simpl in *.
  - destruct (decide (id ∈ map GlobalID l)) as [Hl|Hl].
    + rewrite decide_False; [by rewrite option_guard_True|]. intros [_ Hn]. apply Hn, Hc2; eauto.
    + rewrite decide_True; [by rewrite option_guard_False|]. split; [apply Hin; eauto|tauto].
  - by case_decide.
Qed.

(** ** Batches and connections *)

Lemma batch_loop_sim changes D u :
  runs D u → Forall (change_ok recode) changes →
  ∃ u', batch_loop recode k6 metricsError scraperFactory changes u = Ret u' ∧
    runs (foldl specChange D changes) u'.
Proof.
  intros Hr Hall. revert D u Hr.
  induction Hall as [|ch changes Hch _ IH]; intros D u Hr; [by exists u|].
  assert (Hnext : ∀ m k D', leads m D' → ∃ u',
    ('(u, err) ← m; batch_loop recode k6 metricsError scraperFactory changes
       (match err with Some _ => count_error k u | None => u end)) = Ret u' ∧
    runs (foldl specChange D' changes) u').
  { intros m k D' (u' & err & -> & Hu). cbn [mbind go_bind].
    destruct err; apply IH; auto with agent. }
  cbn [batch_loop foldl]. unfold specChange at 2.
  destruct (FromSM recode (change_Check ch)) as [check|] eqn:Ec; [|by apply IH].
  destruct (Z.eqb_spec (Operation ch) CHECK_ADD) as [E|_].
  { apply Hnext, handleCheckAdd_sim; [done|]. apply Hch; [by rewrite E|done]. }
  destruct (Z.eqb_spec (Operation ch) CHECK_UPDATE) as [E|_].
  { apply Hnext, handleCheckUpdate_sim; [done|]. apply Hch; [by rewrite E|done]. }
  destruct (Z.eqb_spec (Operation ch) CHECK_DELETE) as [E|_]; [|by apply IH].
  by apply Hnext, handleCheckDelete_sim.
Qed.

Lemma handleChangeBatch_sim msg first D u :
  runs D u → Forall (change_ok recode) (ch_Checks msg) →
  ∃ u', handleChangeBatch recode k6 metricsError scraperFactory msg first u = Ret u' ∧
    runs (specBatch first D msg) u'.
Proof.
  intros Hr Hall. unfold handleChangeBatch, specBatch.
  destruct (first && negb (IsDeltaFirstBatch msg)); [by apply handleFirstBatch_sim|].
  apply batch_loop_sim; [auto with agent|done].
Qed.

Definition conn_ok : list Changes → Prop :=
  Forall (λ msg, Forall (change_ok recode) (ch_Checks msg)).

Lemma processChanges_sim msgs D u :
  runs D u → conn_ok msgs →
  ∃ u', processChanges recode k6 metricsError scraperFactory msgs true u = Ret u' ∧
    runs (specConnection D msgs) u'.
Proof.
  intros Hr Hall. destruct Hall as [|msg msgs Hm Hall]; [by exists u|].
  cbn [processChanges specConnection].
  destruct (handleChangeBatch_sim msg true D u Hr Hm) as (u1 & -> & Hr1). cbn [mbind go_bind].
  revert u1 Hr1. generalize (specBatch true D msg). clear -Hall.
  induction Hall as [|msg msgs Hm _ IH]; intros D u Hr; [by exists u|].
  cbn [processChanges foldl].
  destruct (handleChangeBatch_sim msg false D u Hr Hm) as (u1 & -> & Hr1). by apply IH.
Qed.

Lemma run_connections_sim conns D u :
  runs D u → Forall conn_ok conns →
  ∃ u', run_connections recode k6 metricsError scraperFactory conns u = Ret u' ∧
    runs (foldl specConnection D conns) u'.
Proof.
  intros Hr Hall. revert D u Hr.
  induction Hall as [|msgs conns Hm _ IH]; intros D u Hr; [by exists u|].
  cbn [run_connections foldl].
  destruct (processChanges_sim msgs D u Hr Hm) as (u1 & -> & Hr1). by apply IH.
Qed.

(** C6: the updater implements the map of desired checks. Over any number of
    connections and messages whose adds and updates carry settings, it returns
    with exactly the checks the abstract specification lists, each run by one
    scraper that was started and not stopped, and with no other live scraper:
    an accepted add or update puts the check in the map, an update that cannot
    start and a delete take it out, invalid changes leave it alone, and a first
    batch that is not a delta ensures the checks it lists and forgets the rest. *)
Theorem updater_refines_desired conns :
  Forall conn_ok conns →
  ∃ u, run_connections recode k6 metricsError scraperFactory conns newUpdater = Ret u ∧
    desired u = specConnections conns ∧
    (∀ id check, specConnections conns !! id = Some check →
       ∃ p, p ∈ started u ∧ p ∉ stopped u ∧
         scrapers u !! id = Some {| s_ptr := p; s_check := check |}) ∧
    (∀ p, p ∈ started u → p ∉ stopped u →
       ∃ id check, specConnections conns !! id = Some check ∧
         scrapers u !! id = Some {| s_ptr := p; s_check := check |}).
Proof.
  intros Hall.
  destruct (run_connections_sim conns ∅ newUpdater (conj newUpdater_inv eq_refl) Hall)
    as (u & Eu & Hr).
  change (runs (specConnections conns) u) in Hr.
  exists u. split_and!; [done|apply Hr| |].
  - intros id check. rewrite <-(runs_lookup _ _ id Hr). intros ([p c] & Es & Ec)%fmap_Some.
    simpl in Ec. subst c.
    exists p. by destruct (inv_key _ (proj1 Hr) _ _ Es) as (_ & ? & ? & _).
  - intros p Hst Hns. destruct (inv_started _ (proj1 Hr) p Hst) as [|(id & [q c] & Hs & <-)]; [done|].
    exists id, c. split; [|done]. pose proof (runs_lookup _ _ id Hr) as E. by rewrite Hs in E.
Qed.

End desired.

(** ** Examples *)

Section examples.
#[local] Existing Instance example_validator.

(** The check is listed by a first connection, and at a new version by a second
    one, which then deletes it and adds it again. *)
Definition example_conns : list (list Changes) :=
  [[example_batch (example_check 1000 1) CHECK_ADD];
   [example_batch (example_check 2000 2) CHECK_ADD;
    example_batch (example_check 2000 2) CHECK_DELETE;
    example_batch (example_check 3000 3) CHECK_ADD]].

Lemma updater_refines_desired_witness :
  ∃ u, run_connections Some true (λ _, None) (λ _, None) example_conns newUpdater = Ret u ∧
    (λ check, Frequency (sm check)) <$> desired u !! 1 = Some 3000.
Proof.
  destruct (updater_refines_desired Some true (λ _, None) (λ _, None) example_conns)
    as (u & Eu & Ed & _).
  - assert (Hb : ∀ f m op, Forall (change_ok Some) (ch_Checks (example_batch (example_check f m) op))).
    { intros f m op. constructor; [|constructor]. intros _ check [= <-].
      apply example_check_well_formed. }
    constructor; [|constructor; [|constructor]]; repeat (constructor; [apply Hb|]); constructor.
  - exists u. split; [exact Eu|]. rewrite Ed. vm_compute. reflexivity.
Defined.

End examples.
