(* ===== verification/Connection.v ===== *)
(** * The connection of the agent to the API

    The life of [Updater.Run] (src/internal/checks/checks.go): one connection after
    another, each with a registration, the request for changes, and then three
    goroutines - the ping, [processChanges] and the signal handler - under an
    error group.  A connection is a list of events, each a step of one goroutine
    or of the environment, so that a theorem over all lists covers every
    interleaving; an event that is not enabled changes nothing. *)
From S2P Require Import Prelude Strs Net Ids Checks Validate Updater Desired.
From Stdlib Require Import Floats.SpecFloat.

Open Scope Z_scope.

(** ** One connection: the goroutines of [loop] *)

(** The ping goroutine: not started, before its first ping, at the ticker with the
    sequence number of the next ping, or returned. *)
Inductive pingState := PingOff | PingFirst | PingWait (Sequence : Z) | PingDone.

(** [processChanges]: not started, in its loop with [firstBatch], or returned. *)
Inductive changesState := ChangesOff | Receiving (firstBatch : bool) | ChangesDone.

(** What [cc.Recv] returns. *)
Inductive received := Msg (msg : Changes) | EOF | RecvError (e : grpcError).

Inductive event :=
  | CtxDone (e : lerr)                      (** the context of [Run] ends with this error *)
  | SignalDelivered                         (** SIGUSR1 reaches the handler *)
  | HandlerExit                             (** the handler sees the end of [groupCtx] *)
  | Ping (reply : option grpcError)         (** [client.Ping] returns *)
  | PingCtx                                 (** [ping] sees the end of [sigCtx] *)
  | StreamCtx (e : lerr)                    (** [processChanges] sees the end of the stream's context *)
  | ChangesCtx                              (** [processChanges] sees the end of the context of [Run] *)
  | Recv (r : received).

Record group := {
  g_ping : pingState;
  g_changes : changesState;
  g_err : option grpcError;       (** the first error of the error group *)
  g_ctx : option lerr;            (** the error of [ctx] *)
  g_groupCtx : option lerr;       (** of [groupCtx] *)
  g_sigCtx : option lerr;         (** of [sigCtx] *)
  g_signalFired : bool;
  g_handler : bool;               (** the goroutine of [installSignalHandler] runs *)
  g_updater : Updater;
  g_received : list Changes;      (** the messages handled *)
}.

(** A context keeps its first error. *)
Definition cancel (e : lerr) (ctx : option lerr) : option lerr :=
  match ctx with Some _ => ctx | None => Some e end.

Definition set_ping (p : pingState) (g : group) : group :=
  {| g_ping := p; g_changes := g_changes g; g_err := g_err g; g_ctx := g_ctx g;
     g_groupCtx := g_groupCtx g; g_sigCtx := g_sigCtx g; g_signalFired := g_signalFired g;
     g_handler := g_handler g; g_updater := g_updater g; g_received := g_received g |}.
Definition set_changes (c : changesState) (g : group) : group :=
  {| g_ping := g_ping g; g_changes := c; g_err := g_err g; g_ctx := g_ctx g;
     g_groupCtx := g_groupCtx g; g_sigCtx := g_sigCtx g; g_signalFired := g_signalFired g;
     g_handler := g_handler g; g_updater := g_updater g; g_received := g_received g |}.
Definition set_handler (fired running : bool) (sig : option lerr) (g : group) : group :=
  {| g_ping := g_ping g; g_changes := g_changes g; g_err := g_err g; g_ctx := g_ctx g;
     g_groupCtx := g_groupCtx g; g_sigCtx := sig; g_signalFired := fired;
     g_handler := running; g_updater := g_updater g; g_received := g_received g |}.
Definition set_contexts (ctx groupCtx sig : option lerr) (err : option grpcError) (g : group) : group :=
  {| g_ping := g_ping g; g_changes := g_changes g; g_err := err; g_ctx := ctx;
     g_groupCtx := groupCtx; g_sigCtx := sig; g_signalFired := g_signalFired g;
     g_handler := g_handler g; g_updater := g_updater g; g_received := g_received g |}.
Definition set_received (u : Updater) (msg : Changes) (g : group) : group :=
  {| g_ping := g_ping g; g_changes := Receiving false; g_err := g_err g; g_ctx := g_ctx g;
     g_groupCtx := g_groupCtx g; g_sigCtx := g_sigCtx g; g_signalFired := g_signalFired g;
     g_handler := g_handler g; g_updater := u; g_received := g_received g ++ [msg] |}.

(** [errgroup.Group.Go]: the first error is kept and ends [groupCtx]. *)
Definition goroutineReturns (err : option grpcError) (g : group) : group :=
  match err, g_err g with
  | Some e, None =>
      set_contexts (g_ctx g) (cancel Canceled (g_groupCtx g)) (cancel Canceled (g_sigCtx g)) (Some e) g
  | _, _ => g
  end.

(** The first ping: an API that does not implement it is left in peace. *)
Definition firstPing (reply : option grpcError) : pingState * option grpcError :=
  match reply with
  | None => (PingWait 1, None)
  | Some (GPlain e) => (PingDone, Some (GPlain (WrapError "sending ping" e)))
  | Some (GStatus CodeUnimplemented _) => (PingDone, None)
  | Some e => (PingDone, Some e)
  end.

(** [req.Sequence] is an [int64]. *)
Definition laterPing (sequence : Z) (reply : option grpcError) : pingState * option grpcError :=
  match reply with
  | None => (PingWait (wrap64 (sequence + 1)), None)
  | Some e => (PingDone, Some e)
  end.

Section connection.
Context `{Validator}.
Variable recode : Check → option Check.
Variable k6 : bool.
Variable metricsError : mCheck → option string.
Variable scraperFactory : mCheck → option string.
(** [c.k6Runner != nil] and [c.probeCh != nil]. *)
Variable k6Runner : bool.
Variable hasProbeCh : bool.

Notation handle := (handleChangeBatch recode k6 metricsError scraperFactory).
Notation process := (processChanges recode k6 metricsError scraperFactory).

Definition pingReturned (next : pingState * option grpcError) (g : group) : group :=
  goroutineReturns next.2 (set_ping next.1 g).
Definition changesReturned (err : option grpcError) (g : group) : group :=
  goroutineReturns err (set_changes ChangesDone g).

Definition step (ev : event) (g : group) : go group :=
  match ev with
  | CtxDone e =>
      Ret (set_contexts (cancel e (g_ctx g)) (cancel e (g_groupCtx g)) (cancel e (g_sigCtx g)) (g_err g) g)
  | SignalDelivered =>
      Ret (if g_handler g then set_handler true false (cancel Canceled (g_sigCtx g)) g else g)
  | HandlerExit =>
      Ret (match g_groupCtx g with
           | Some _ => set_handler (g_signalFired g) false (g_sigCtx g) g
           | None => g
           end)
  | Ping reply =>
      Ret (match g_ping g with
           | PingFirst => pingReturned (firstPing reply) g
           | PingWait n => pingReturned (laterPing n reply) g
           | _ => g
           end)
  | PingCtx =>
      Ret (match g_ping g, g_sigCtx g with
           | PingWait _, Some e => pingReturned (PingDone, Some (GPlain e)) g
           | _, _ => g
           end)
  | StreamCtx e =>
      Ret (match g_changes g with
           | Receiving _ => changesReturned (Some (GPlain e)) g
           | _ => g
           end)
  | ChangesCtx =>
      Ret (match g_changes g, g_ctx g with
           | Receiving _, Some e => changesReturned (Some (GPlain e)) g
           | _, _ => g
           end)
  | Recv r =>
      match g_changes g with
      | Receiving firstBatch =>
          match r with
          | Msg msg => u ← handle msg firstBatch (g_updater g); Ret (set_received u msg g)
          | EOF => Ret (changesReturned None g)
          | RecvError e => Ret (changesReturned (Some e) g)
          end
      | _ => Ret g
      end
  end.

Fixpoint steps (evs : list event) (g : group) : go group :=
  match evs with
  | [] => Ret g
  | ev :: evs => g ← step ev g; steps evs g
  end.

(** [errgroup.WithContext] and [installSignalHandler], in a context that may have
    ended already. *)
Definition newGroup (ctx : option lerr) (u : Updater) : group :=
  {| g_ping := PingOff; g_changes := ChangesOff; g_err := None; g_ctx := ctx; g_groupCtx := ctx;
     g_sigCtx := ctx; g_signalFired := false; g_handler := true; g_updater := u; g_received := [] |}.

(** [g.Go] of [ping] and of [processChanges]. *)
Definition startGroup (g : group) : group := set_changes (Receiving true) (set_ping PingFirst g).

(** [g.Wait] returns. *)
Definition finished (g : group) : bool :=
  match g_ping g, g_changes g with PingDone, ChangesDone => true | _, _ => false end.

(** ** The agent across connections *)

Record Agent := {
  a_updater : Updater;
  a_probe : option Probe;
  a_once : bool;                     (** [probeTenantOnce] is done *)
  a_probeCh : list Probe;            (** sent on [probeCh] *)
  a_IsConnected : list bool;         (** the calls of [IsConnected] *)
  a_connectionStatus : Z;            (** the gauge *)
  a_probeInfo : option (string * string);  (** the id and the name of the info gauge *)
  a_requests : list (list (Z * spec_float));  (** the known checks of each [GetChanges] *)
  a_handlers : nat;                  (** signal handlers left running *)
  a_history : list (Probe * list Changes);  (** for each connection, what it handled *)
}.

Definition newAgent : Agent :=
  {| a_updater := newUpdater; a_probe := None; a_once := false; a_probeCh := []; a_IsConnected := [];
     a_connectionStatus := 0; a_probeInfo := None; a_requests := []; a_handlers := 0; a_history := [] |}.

(** [notifyProbeTenant], for the probe [c.probe]. *)
Definition notifyProbeTenant (p : Probe) (once : bool) (ch : list Probe) : list Probe :=
  if negb once && hasProbeCh then ch ++ [p] else ch.

Definition knownChecks (u : Updater) : list (Z * spec_float) :=
  map (λ p, (p.1, Modified (sm (s_check p.2)))) (map_to_list (scrapers u)).

(** [loop] from the registration to the request for changes. *)
Definition connect (p : Probe) (a : Agent) : Agent :=
  {| a_updater := a_updater a; a_probe := Some p; a_once := true;
     a_probeCh := notifyProbeTenant p (a_once a) (a_probeCh a);
     a_IsConnected := a_IsConnected a ++ [true]; a_connectionStatus := 1;
     a_probeInfo := Some (itoa (p_Id p), p_Name p);
     a_requests := a_requests a ++ [knownChecks (a_updater a)];
     a_handlers := a_handlers a; a_history := a_history a |}.

(** What the goroutines of a connection have done so far. *)
Definition absorb (p : Probe) (g : group) (leaked : nat) (a : Agent) : Agent :=
  {| a_updater := g_updater g; a_probe := a_probe a; a_once := a_once a; a_probeCh := a_probeCh a;
     a_IsConnected := a_IsConnected a; a_connectionStatus := a_connectionStatus a;
     a_probeInfo := a_probeInfo a; a_requests := a_requests a; a_handlers := a_handlers a + leaked;
     a_history := a_history a ++ [(p, g_received g)] |}.

(** The deferred calls of [loop]. *)
Definition disconnect (a : Agent) : Agent :=
  {| a_updater := a_updater a; a_probe := a_probe a; a_once := a_once a; a_probeCh := a_probeCh a;
     a_IsConnected := a_IsConnected a ++ [false]; a_connectionStatus := 0;
     a_probeInfo := a_probeInfo a; a_requests := a_requests a; a_handlers := a_handlers a;
     a_history := a_history a |}.

(** What the environment does during one connection: the context it starts in, the
    reply to the registration, the events before and after the reply to the request
    for changes, and the context's error if it ends in the sleep that follows. *)
Record session := {
  s_ctx : option lerr;
  s_register : grpcError + (statusCode * string * Probe);
  s_early : list event;
  s_GetChanges : option grpcError;
  s_events : list event;
  s_sleep : option lerr;
}.

Definition registration (s : session) : option lerr + Probe :=
  match s_register s with
  | inl e => inl (register k6Runner (inl e))
  | inr (code, message, p) =>
      match register k6Runner (inr (code, message, p_Capabilities p)) with
      | Some e => inl (Some e)
      | None => inr p
      end
  end.

(** [loop]: [None] when the connection is still up after the events. *)
Definition loop (s : session) (a : Agent) : go (Agent * option (bool * option lerr)) :=
  match registration s with
  | inl err => Ret (a, Some (false, err))
  | inr p =>
      let a := connect p a in
      g ← steps (s_early s) (newGroup (s_ctx s) (a_updater a));
      match s_GetChanges s with
      | Some e =>
          let leaked := if g_handler g && bool_decide (g_groupCtx g = None) then 1%nat else 0%nat in
          Ret (disconnect (absorb p g leaked a),
               Some (true, errorHandler (Some e) "requesting changes from synthetic-monitoring-api"
                             (g_signalFired g)))
      | None =>
          g ← steps (s_events s) (startGroup g);
          let a := absorb p g 0 a in
          Ret (if finished g
               then (disconnect a,
                     Some (true, errorHandler (g_err g) "getting changes from synthetic-monitoring-api"
                                   (g_signalFired g)))
               else (a, None))
      end
  end.

(** [Run]: [Working] when it has not returned after the sessions. *)
Inductive outcome := Working | Stopped (err : option lerr).

Fixpoint Run_loop (ss : list session) (b : backoff) (a : Agent) : go (Agent * backoff * outcome) :=
  match ss with
  | [] => Ret (a, b, Working)
  | s :: ss =>
      '(a, r) ← loop s a;
      match r with
      | None => Ret (a, b, Working)
      | Some (wasConnected, err) =>
          let '(done, err, b) := handleError (s_sleep s) b wasConnected err in
          if done then Ret (a, b, Stopped err) else Run_loop ss b a
      end
  end.

Definition Run (ss : list session) (b : backoff) (a : Agent) : go (Agent * backoff * outcome) :=
  Run_loop ss {| durations := durations b; resets := S (resets b) |} a.


(** ** Histories *)

Notation run_all := (run_connections recode k6 metricsError scraperFactory).
Notation wanted := (specConnections recode k6 metricsError scraperFactory).

Lemma processChanges_snoc msgs msg first u :
  process (msgs ++ [msg]) first u =
  (u ← process msgs first u; handle msg (match msgs with [] => first | _ => false end) u).
Proof.
  revert first u. induction msgs as [|m msgs IH]; intros first u; cbn [app processChanges].
  - cbn. by destruct (handle msg first u).
  - destruct (handle m first u) as [u1|]; [|done]. cbn [mbind go_bind]. rewrite IH. by destruct msgs.
Qed.

Lemma run_connections_snoc conns msgs u :
  run_all (conns ++ [msgs]) u = (u ← run_all conns u; process msgs true u).
Proof.
  revert u. induction conns as [|c conns IH]; intros u; cbn [app run_connections].
  - cbn. by destruct (process msgs true u).
  - destruct (process c true u) as [u1|]; [|done]. cbn [mbind go_bind]. by rewrite IH.
Qed.

(** The messages carry settings where they must. *)
Definition event_ok (ev : event) : Prop :=
  match ev with Recv (Msg msg) => Forall (change_ok recode) (ch_Checks msg) | _ => True end.

(** The goroutines have handled exactly the messages of [g_received]. *)
Record ginv (u0 : Updater) (g : group) : Prop := {
  ginv_process : process (g_received g) true u0 = Ret (g_updater g);
  ginv_inv : inv (g_updater g);
  ginv_ok : conn_ok recode (g_received g);
  ginv_first : match g_changes g with
               | ChangesOff => g_received g = []
               | Receiving fb => fb = match g_received g with [] => true | _ => false end
               | ChangesDone => True
               end;
}.

Lemma ginv_same u0 g g' :
  g_updater g' = g_updater g → g_received g' = g_received g →
  g_changes g' = g_changes g ∨ g_changes g' = ChangesDone → ginv u0 g → ginv u0 g'.
Proof. intros E1 E2 [E3|E3] []; split; by rewrite ?E1, ?E2, ?E3. Qed.

Lemma goroutineReturns_same err g :
  g_updater (goroutineReturns err g) = g_updater g ∧
  g_received (goroutineReturns err g) = g_received g ∧
  g_changes (goroutineReturns err g) = g_changes g ∧
  g_ping (goroutineReturns err g) = g_ping g ∧
  g_signalFired (goroutineReturns err g) = g_signalFired g.
Proof. unfold goroutineReturns. by destruct err, (g_err g). Qed.

Lemma ginv_ping u0 next g : ginv u0 g → ginv u0 (pingReturned next g).
Proof.
  destruct (goroutineReturns_same next.2 (set_ping next.1 g)) as (E1 & E2 & E3 & _).
  apply ginv_same; [done..|by left].
Qed.

Lemma ginv_changes u0 err g : ginv u0 g → ginv u0 (changesReturned err g).
Proof.
  destruct (goroutineReturns_same err (set_changes ChangesDone g)) as (E1 & E2 & E3 & _).
  apply ginv_same; [done..|by right].
Qed.

Lemma step_ginv u0 ev g : event_ok ev → ginv u0 g → ∃ g', step ev g = Ret g' ∧ ginv u0 g'.
Proof.
  intros Hok Hg. destruct ev as [e| | |reply| |e| |[msg| |e]]; cbn [step].
  - eexists. split; [done|]. eapply ginv_same; [..|done]; auto.
  - destruct (g_handler g); [|by eauto]. eexists. split; [done|]. eapply ginv_same; [..|done]; auto.
  - destruct (g_groupCtx g); [|by eauto]. eexists. split; [done|]. eapply ginv_same; [..|done]; auto.
  - eexists. split; [done|]. destruct (g_ping g); auto using ginv_ping.
  - eexists. split; [done|]. destruct (g_ping g), (g_sigCtx g); auto using ginv_ping.
  - eexists. split; [done|]. destruct (g_changes g); auto using ginv_changes.
  - eexists. split; [done|]. destruct (g_changes g), (g_ctx g); auto using ginv_changes.
  - destruct (g_changes g) as [|fb|] eqn:Ec; [by eauto| |by eauto]. destruct Hg as [Hp Hi Hr Hf].
    rewrite Ec in Hf.
    destruct (handleChangeBatch_sim recode k6 metricsError scraperFactory msg fb _ _ (conj Hi eq_refl) Hok)
      as (u' & Eu & Hr'). rewrite Eu. cbn [mbind go_bind].
    eexists. split; [done|]. split; cbn.
    + rewrite processChanges_snoc, Hp. cbn [mbind go_bind]. subst fb. exact Eu.
    + apply Hr'.
    + apply Forall_app. split; [exact Hr|]. by constructor.
    + by destruct (g_received g).
  - destruct (g_changes g); eauto using ginv_changes.
  - destruct (g_changes g); eauto using ginv_changes.
Qed.

Lemma steps_ginv u0 evs g : Forall event_ok evs → ginv u0 g → ∃ g', steps evs g = Ret g' ∧ ginv u0 g'.
Proof.
  intros Hok. revert g. induction Hok as [|ev evs Hev _ IH]; intros g Hg; [by exists g|].
  cbn [steps]. destruct (step_ginv u0 ev g Hev Hg) as (g1 & -> & Hg1). by apply IH.
Qed.

(** Before the goroutines start, nothing is received. *)
Lemma early_received evs g g' :
  steps evs g = Ret g' → g_ping g = PingOff → g_changes g = ChangesOff →
  g_ping g' = PingOff ∧ g_changes g' = ChangesOff ∧ g_received g' = g_received g ∧
  g_updater g' = g_updater g.
Proof.
  revert g. induction evs as [|ev evs IH]; intros g; [by intros [= <-]|]. cbn [steps].
  intros E Hp Hc. destruct (step ev g) as [g1|] eqn:E1; [|done]. cbn [mbind go_bind] in E.
  assert (H1 : g_ping g1 = PingOff ∧ g_changes g1 = ChangesOff ∧ g_received g1 = g_received g ∧
               g_updater g1 = g_updater g).
  { destruct ev as [e| | |reply| |e| |r]; cbn [step] in E1; rewrite ?Hp, ?Hc in E1;
      repeat case_match; simplify_eq; done. }
  destruct H1 as (Hp1 & Hc1 & <- & <-). by apply IH.
Qed.

(** ** The invariant of the agent *)

(** The calls of [IsConnected] for a number of connections. *)
Definition calls (n : nat) (connected : bool) : list bool :=
  concat (replicate (if connected then n - 1 else n) [true; false]) ++
  (if connected then [true] else []).

(** A request lists the checks that ran when it was made. *)
Definition requested (history : list (Probe * list Changes)) (i : nat) (ks : list (Z * spec_float)) : Prop :=
  ∃ u, run_all (take i (map snd history)) newUpdater = Ret u ∧ ks = knownChecks u.

Record ainv (connected : bool) (a : Agent) : Prop := {
  ainv_run : run_all (map snd (a_history a)) newUpdater = Ret (a_updater a);
  ainv_inv : inv (a_updater a);
  ainv_ok : Forall (conn_ok recode) (map snd (a_history a));
  ainv_once : a_once a = match a_history a with [] => false | _ => true end;
  ainv_probe : a_probeCh a = if hasProbeCh then take 1 (map fst (a_history a)) else [];
  ainv_up : connected = true → a_history a ≠ [];
  ainv_calls : a_IsConnected a = calls (length (a_history a)) connected;
  ainv_status : a_connectionStatus a = if connected then 1 else 0;
  ainv_length : length (a_requests a) = length (a_history a);
  ainv_requests : ∀ i ks, a_requests a !! i = Some ks → requested (a_history a) i ks;
}.

Lemma newAgent_ainv : ainv false newAgent.
Proof.
  split; try done; cbn; [apply newUpdater_inv|by destruct hasProbeCh].
Qed.

Lemma requested_app history h i ks :
  (i ≤ length history)%nat → requested history i ks → requested (history ++ h) i ks.
Proof.
  intros Hi (u & E & ->). exists u. split; [|done]. rewrite map_app, take_app_le; [done|].
  by rewrite length_map.
Qed.

(** A connection is made, its goroutines handle messages, and it is up. *)
Lemma connected_ainv p g leaked a :
  ainv false a → ginv (a_updater a) g → ainv true (absorb p g leaked (connect p a)).
Proof.
  intros [Hr Hi Hok Ho Hp Hu Hc Hs Hl Hq] [Gp Gi Gok _]. split; cbn.
  - rewrite map_app. cbn. rewrite run_connections_snoc, Hr. exact Gp.
  - done.
  - rewrite map_app. apply Forall_app. split; [done|]. by constructor.
  - by destruct (a_history a).
  - unfold notifyProbeTenant. rewrite Ho, Hp, map_app.
    destruct hasProbeCh, (a_history a); cbn; by rewrite ?app_nil_r.
  - by destruct (a_history a).
  - unfold calls in *. rewrite Hc, length_app, app_nil_r. cbn. by rewrite Nat.add_sub.
  - done.
  - rewrite !length_app. cbn. by rewrite Hl.
  - intros i ks. rewrite lookup_app_Some, list_lookup_singleton_Some.
    intros [Hk|(Hge & Hi0 & <-)].
    + apply requested_app; [rewrite <-Hl; apply lookup_lt_Some in Hk; lia|by apply Hq].
    + assert (i = length (a_history a)) as -> by lia. exists (a_updater a). split; [|done].
      rewrite map_app, take_app_le, take_ge by (rewrite length_map; lia). exact Hr.
Qed.

Lemma disconnect_ainv a : ainv true a → ainv false (disconnect a).
Proof.
  intros [Hr Hi Hok Ho Hp Hu Hc Hs Hl Hq]. split; try done; cbn. unfold calls in *.
  rewrite Hc. destruct (length (a_history a)) as [|n] eqn:E.
  { by apply length_zero_iff_nil, (Hu eq_refl) in E. }
  cbn [Nat.sub]. rewrite Nat.sub_0_r, app_nil_r, <-app_assoc.
  by rewrite (replicate_S_end n), concat_app.
Qed.

Definition session_ok (s : session) : Prop := Forall event_ok (s_early s) ∧ Forall event_ok (s_events s).

Definition up (r : option (bool * option lerr)) : bool := match r with None => true | Some _ => false end.

Lemma loop_ainv s a :
  session_ok s → ainv false a → ∃ a' r, loop s a = Ret (a', r) ∧ ainv (up r) a'.
Proof.
  intros [He Hev] Ha. unfold loop. destruct (registration s) as [err|p]; [by eexists _, _|].
  assert (Hg0 : ginv (a_updater a) (newGroup (s_ctx s) (a_updater a))).
  { split; [done|apply Ha|constructor|done]. }
  destruct (steps_ginv _ _ _ He Hg0) as (g & Eg & Hg).
  change (a_updater (connect p a)) with (a_updater a). rewrite Eg. cbn [mbind go_bind].
  destruct (s_GetChanges s) as [e|].
  { eexists _, _. split; [done|]. by apply disconnect_ainv, connected_ainv. }
  destruct (early_received _ _ _ Eg eq_refl eq_refl) as (_ & _ & Er & Eu). cbn in Er, Eu.
  assert (Hg1 : ginv (a_updater a) (startGroup g)).
  { destruct Hg as [G1 G2 G3 _]. split; [done..|]. cbn. by rewrite Er. }
  destruct (steps_ginv _ _ _ Hev Hg1) as (g' & -> & Hg'). cbn [mbind go_bind].
  destruct (finished g'); eexists _, _; (split; [done|]).
  - by apply disconnect_ainv, connected_ainv.
  - by apply connected_ainv.
Qed.

Lemma Run_loop_ainv ss b a :
  Forall session_ok ss → ainv false a →
  ∃ a' b' r connected, Run_loop ss b a = Ret (a', b', r) ∧ ainv connected a' ∧
    (connected = true → r = Working).
Proof.
  intros Hok. revert b a. induction Hok as [|s ss Hs _ IH]; intros b a Ha.
  { exists a, b, Working, false. done. }
  cbn [Run_loop]. destruct (loop_ainv s a Hs Ha) as (a1 & r & -> & Ha1). cbn [mbind go_bind].
  destruct r as [[was err]|]; [|by exists a1, b, Working, true].
  destruct (handleError (s_sleep s) b was err) as [[[] e] b1]; [|by apply IH].
  by exists a1, b1, (Stopped e), false.
Qed.

(** The checks a state runs, as entity references. *)
Lemma knownChecks_spec u :
  NoDup (knownChecks u).*1 ∧
  ∀ id t, (id, t) ∈ knownChecks u ↔ ∃ check, desired u !! id = Some check ∧ t = Modified (sm check).
Proof.
  unfold knownChecks. split.
  - assert (E : (map (λ p, (p.1, Modified (sm (s_check p.2)))) (map_to_list (scrapers u))).*1 =
                (map_to_list (scrapers u)).*1) by (rewrite <-list_fmap_compose; by apply list_fmap_ext).
    rewrite E. apply NoDup_fst_map_to_list.
  - intros id t. unfold desired. rewrite lookup_fmap. split.
    + intros ([id' s] & [= -> ->] & Hs%elem_of_map_to_list)%list_elem_of_fmap.
      exists (s_check s). by rewrite Hs.
    + intros (check & (s & Hs & ->)%fmap_Some & ->). apply list_elem_of_fmap.
      exists (id, s). split; [done|]. by apply elem_of_map_to_list.
Qed.

(** C7: the agent follows the API across connections. Whatever happens in any
    number of connections - failed registrations and requests, pings, signals,
    lost streams, the end of the context, in any interleaving - the agent never
    panics while messages carry settings; it runs exactly the checks the
    specification derives from the messages each connection delivered, in order;
    the probe is announced once, the first time; each connection is reported up
    and then down before the next, and down when [Run] returns; and each request
    for changes names the checks that ran then, with their modification times. *)
Theorem agent_follows_api ss b :
  Forall session_ok ss →
  ∃ a b' r connected, Run ss b newAgent = Ret (a, b', r) ∧
    let delivered := map snd (a_history a) in
    run_all delivered newUpdater = Ret (a_updater a) ∧
    desired (a_updater a) = wanted delivered ∧
    a_probeCh a = (if hasProbeCh then take 1 (map fst (a_history a)) else []) ∧
    a_IsConnected a = calls (length (a_history a)) connected ∧
    a_connectionStatus a = (if connected then 1 else 0) ∧
    (∀ e, r = Stopped e → connected = false) ∧
    length (a_requests a) = length (a_history a) ∧
    (∀ i ks, a_requests a !! i = Some ks →
       NoDup ks.*1 ∧ ∀ id t, (id, t) ∈ ks ↔
         ∃ check, wanted (take i delivered) !! id = Some check ∧ t = Modified (sm check)).
Proof.
  intros Hok. unfold Run.
  destruct (Run_loop_ainv ss {| durations := durations b; resets := S (resets b) |} newAgent Hok newAgent_ainv)
    as (a & b' & r & connected & -> & [Hr Hi Hmsg Ho Hp Hu Hc Hs Hl Hq] & Hw).
  assert (Hrun : ∀ conns u, Forall (conn_ok recode) conns → run_all conns newUpdater = Ret u →
    desired u = wanted conns).
  { intros conns u Hcs E. destruct (run_connections_sim recode k6 metricsError scraperFactory conns ∅
      newUpdater (conj newUpdater_inv eq_refl) Hcs) as (u' & E' & Hu').
    assert (u' = u) as -> by congruence. apply Hu'. }
  exists a, b', r, connected. split; [done|]. cbn zeta.
  split_and!; [done|by apply Hrun|done|done|done| |done|].
  - intros e ->. destruct connected; [by discriminate Hw|done].
  - intros i ks (u & E & ->)%Hq. destruct (knownChecks_spec u) as [Hnd Hin]. split; [done|].
    intros id t. rewrite Hin, (Hrun _ _ (Forall_take _ _ _ Hmsg) E). done.
Qed.

(** ** How a connection ends *)

(** The goroutines were started; an error, a signal or the end of the context ends
    [sigCtx], which nothing else does; and the goroutines that returned without an error are those the events explain. *)
Record gok (evs : list event) (g : group) : Prop := {
  gok_started : g_ping g ≠ PingOff ∧ g_changes g ≠ ChangesOff;
  gok_sig : g_err g ≠ None ∨ g_signalFired g = true ∨ g_ctx g ≠ None ↔ g_sigCtx g ≠ None;
  gok_ping : g_ping g = PingDone → g_err g = None →
    ∃ m, Ping (Some (GStatus CodeUnimplemented m)) ∈ evs;
  gok_changes : g_changes g = ChangesDone → g_err g = None → Recv EOF ∈ evs;
}.

Lemma cancel_Some e ctx : cancel e ctx ≠ None.
Proof. by destruct ctx. Qed.

Lemma gok_returns evs err g :
  (g_ping g ≠ PingOff ∧ g_changes g ≠ ChangesOff) →
  (g_err g ≠ None ∨ g_signalFired g = true ∨ g_ctx g ≠ None ↔ g_sigCtx g ≠ None) →
  (err = None → gok evs g) → gok evs (goroutineReturns err g).
Proof.
  intros Hst Hs Hn. unfold goroutineReturns. destruct err as [e|]; [|by apply Hn].
  destruct (g_err g) eqn:E; split; try done; cbn; rewrite ?E; try done.
  split; [intros _; apply cancel_Some|by left].
Qed.

Lemma gok_more evs ev g : gok evs g → gok (evs ++ [ev]) g.
Proof. intros [H1 H2 H3 H4]. split; [done|done| |]; set_solver. Qed.

Lemma gok_pingReturned evs ev next g :
  gok evs g → next.1 ≠ PingOff →
  (next.2 = None → next.1 = PingDone → ∃ m, ev = Ping (Some (GStatus CodeUnimplemented m))) →
  gok (evs ++ [ev]) (pingReturned next g).
Proof.
  intros [H1 H2 H3 H4] Hoff Hn. apply gok_returns; [by split; [|apply H1]|done|].
  intros E. split; cbn; [by split; [|apply H1]|done| |set_solver].
  intros Hd _. destruct (Hn E Hd) as [m ->]. exists m. set_solver.
Qed.

Lemma gok_changesReturned evs ev err g :
  gok evs g → (err = None → ev = Recv EOF) → gok (evs ++ [ev]) (changesReturned err g).
Proof.
  intros [H1 H2 H3 H4] Hn. apply gok_returns; [by split; [apply H1|]|done|].
  intros ->. split; cbn; [by split; [apply H1|]|done| |].
  - intros Hd He. destruct (H3 Hd He) as [m Hm]. exists m. set_solver.
  - intros _ _. rewrite (Hn eq_refl). set_solver.
Qed.

Lemma step_gok evs ev g g' : gok evs g → step ev g = Ret g' → gok (evs ++ [ev]) g'.
Proof.
  intros Hg E. pose proof (gok_more _ ev _ Hg) as Hm. destruct ev as [e| | |reply| |e| |[msg| |e]]; cbn [step] in E.
  - apply Ret_inj in E as <-. destruct Hm as [H1 H2 H3 H4]. split; cbn; [done| |done|done].
    split; intros _; [apply cancel_Some|right; right; apply cancel_Some].
  - apply Ret_inj in E as <-. destruct (g_handler g); [|done]. destruct Hm as [H1 H2 H3 H4]. split; cbn; [done| |done|done].
    split; intros _; [apply cancel_Some|by right; left].
  - apply Ret_inj in E as <-. destruct (g_groupCtx g); [|done]. by destruct Hm.
  - apply Ret_inj in E as <-. destruct (g_ping g); [done| | |done]; apply gok_pingReturned; try done.
    all: destruct reply as [[[] ?|?]|]; cbn; naive_solver.
  - apply Ret_inj in E as <-. destruct (g_ping g), (g_sigCtx g); try done. by apply gok_pingReturned.
  - apply Ret_inj in E as <-. destruct (g_changes g); try done. by apply gok_changesReturned.
  - apply Ret_inj in E as <-. destruct (g_changes g), (g_ctx g); try done. by apply gok_changesReturned.
  - destruct (g_changes g); simplify_eq; try done.
    destruct (handle msg firstBatch (g_updater g)); [|done]. cbn in E. apply Ret_inj in E as <-.
    destruct Hm as [H1 H2 H3 H4]. split; cbn; [|done|done|done]. split; [apply H1|done].
  - destruct (g_changes g); apply Ret_inj in E as <-; try done. by apply gok_changesReturned.
  - destruct (g_changes g); apply Ret_inj in E as <-; try done. by apply gok_changesReturned.
Qed.

Lemma steps_gok evs0 evs g g' : gok evs0 g → steps evs g = Ret g' → gok (evs0 ++ evs) g'.
Proof.
  revert evs0 g. induction evs as [|ev evs IH]; intros evs0 g Hg.
  { intros [= <-]. by rewrite app_nil_r. }
  cbn [steps]. destruct (step ev g) as [g1|] eqn:E1; [|done]. cbn [mbind go_bind]. intros E.
  rewrite cons_middle, app_assoc. eapply IH; [|exact E]. by eapply step_gok.
Qed.

(** What has happened before the goroutines start only matters through the contexts. *)
Lemma early_gok ctx u early g0 :
  steps early (newGroup ctx u) = Ret g0 → gok [] (startGroup g0).
Proof.
  intros E.
  assert (H0 : g_ping (newGroup ctx u) = PingOff ∧ g_changes (newGroup ctx u) = ChangesOff ∧
               g_err (newGroup ctx u) = None ∧
               (g_signalFired (newGroup ctx u) = true ∨ g_ctx (newGroup ctx u) ≠ None ↔
                g_sigCtx (newGroup ctx u) ≠ None)) by (cbn; naive_solver).
  revert H0 E. generalize (newGroup ctx u). induction early as [|ev early IH]; intros g (H1 & H2 & H3 & H4).
  { intros [= <-]. split; cbn; try done. naive_solver. }
  cbn [steps]. destruct (step ev g) as [g1|] eqn:E1; [|done]. cbn [mbind go_bind]. apply IH.
  destruct ev as [e| | |reply| |e| |r]; cbn [step] in E1; rewrite ?H1, ?H2 in E1; simplify_eq; try done.
  - cbn. rewrite H3. split_and!; try done. split; intros _; [apply cancel_Some|right; apply cancel_Some].
  - destruct (g_handler g); [|done]. cbn. split_and!; try done. split; intros _; [apply cancel_Some|by left].
  - by destruct (g_groupCtx g).
Qed.

(** The steps that the end of a context brings about, without the API: [ping] sees it at
    its ticker, or its call fails with the status of the context; [processChanges] sees the
    end of the stream's context, which is made of [sigCtx], or of that of [Run], or its
    [Recv] fails. *)
Definition contextStatus (e : grpcError) : bool :=
  match e with GStatus CodeCanceled _ | GStatus (CodeOther _) _ => true | _ => false end.
Definition pinging (g : group) : bool := match g_ping g with PingFirst | PingWait _ => true | _ => false end.
Definition receiving (g : group) : bool := match g_changes g with Receiving _ => true | _ => false end.
Definition ended (ctx : option lerr) : bool := match ctx with Some _ => true | None => false end.
Definition byContext (ev : event) (g : group) : bool :=
  match ev with
  | PingCtx => match g_ping g with PingWait _ => ended (g_sigCtx g) | _ => false end
  | Ping (Some e) => pinging g && ended (g_sigCtx g) && contextStatus e
  | StreamCtx _ => receiving g && ended (g_sigCtx g)
  | Recv (RecvError e) => receiving g && ended (g_sigCtx g) && contextStatus e
  | ChangesCtx => receiving g && ended (g_ctx g)
  | _ => false
  end.
Inductive unwinding : group → nat → group → Prop :=
  | unwinding_nil g : unwinding g 0 g
  | unwinding_step g ev g1 n g' :
      byContext ev g = true → step ev g = Ret g1 → unwinding g1 n g' → unwinding g (S n) g'.

(** The goroutines that have not returned. *)
Definition live (g : group) : nat := Nat.b2n (pinging g) + Nat.b2n (receiving g).

Lemma live_finished g : g_ping g ≠ PingOff → g_changes g ≠ ChangesOff → live g = 0%nat ↔ finished g = true.
Proof. unfold live, finished, pinging, receiving. by destruct (g_ping g), (g_changes g). Qed.

(** Each such step is the last of its goroutine, and an error of the group. *)
Record unwound (g g1 : group) (n : nat) : Prop := {
  uw_live : (n + live g1)%nat = live g;
  uw_started : g_ping g1 ≠ PingOff ∧ g_changes g1 ≠ ChangesOff;
  uw_sig : g_sigCtx g1 ≠ None;
  uw_updater : g_updater g1 = g_updater g;
  uw_fired : g_signalFired g1 = g_signalFired g;
  uw_err : n ≠ 0%nat → g_err g1 ≠ None;
}.

Lemma goroutineReturns_fails e g :
  g_err (goroutineReturns (Some e) g) ≠ None ∧
  (g_sigCtx g ≠ None → g_sigCtx (goroutineReturns (Some e) g) ≠ None).
Proof.
  unfold goroutineReturns. destruct (g_err g) as [e'|] eqn:E; cbn; [by rewrite E|]. split; [done|]. by destruct (g_sigCtx g).
Qed.
Lemma unwound_ping e g :
  pinging g = true → g_changes g ≠ ChangesOff → g_sigCtx g ≠ None → unwound g (pingReturned (PingDone, Some e) g) 1.
Proof.
  intros Hp Hc Hs. destruct (goroutineReturns_same (Some e) (set_ping PingDone g)) as (E1 & _ & E2 & E3 & E4).
  destruct (goroutineReturns_fails e (set_ping PingDone g)) as [Hf Hs']. unfold pingReturned. cbn [fst snd].
  split; rewrite ?E1, ?E4; auto.
  - unfold live, pinging, receiving in *. rewrite E2, E3. cbn. by rewrite Hp.
  - rewrite E2, E3. done.
Qed.
Lemma unwound_changes e g :
  receiving g = true → g_ping g ≠ PingOff → g_sigCtx g ≠ None → unwound g (changesReturned (Some e) g) 1.
Proof.
  intros Hp Hc Hs. destruct (goroutineReturns_same (Some e) (set_changes ChangesDone g)) as (E1 & _ & E2 & E3 & E4).
  destruct (goroutineReturns_fails e (set_changes ChangesDone g)) as [Hf Hs']. unfold changesReturned.
  split; rewrite ?E1, ?E4; auto.
  - unfold live, pinging, receiving in *. rewrite E2, E3. cbn. rewrite Hp. cbn. lia.
  - rewrite E2, E3. done.
Qed.

Lemma byContext_step ev g g1 :
  g_ping g ≠ PingOff ∧ g_changes g ≠ ChangesOff → g_sigCtx g ≠ None →
  byContext ev g = true → step ev g = Ret g1 → unwound g g1 1.
Proof.
  intros [Hp Hc] Hs Hev E. destruct ev as [e| | |[e|]| |e| |[msg| |e]]; cbn [byContext] in Hev; try done.
  - apply andb_true_iff in Hev as [[Hpi _]%andb_true_iff He]. cbn [step] in E. apply Ret_inj in E as <-.
    unfold pinging in Hpi. destruct (g_ping g) eqn:Ep; try done; cbn [firstPing laterPing].
    1: destruct e as [[] m|]; try done.
    all: apply unwound_ping; [unfold pinging; by rewrite Ep|done..].
  - cbn [step] in E. apply Ret_inj in E as <-. destruct (g_ping g) eqn:Ep; try done. destruct (g_sigCtx g) eqn:Es; [|done].
    apply unwound_ping; [unfold pinging; by rewrite Ep|done|by rewrite Es].
  - apply andb_true_iff in Hev as [Hr _]. cbn [step] in E. apply Ret_inj in E as <-.
    destruct (g_changes g) eqn:Ec; try (unfold receiving in Hr; by rewrite Ec in Hr). by apply unwound_changes.
  - apply andb_true_iff in Hev as [Hr He]. cbn [step] in E. apply Ret_inj in E as <-.
    destruct (g_changes g) eqn:Ec; try (unfold receiving in Hr; by rewrite Ec in Hr).
    destruct (g_ctx g); [|done]. by apply unwound_changes.
  - apply andb_true_iff in Hev as [[Hr _]%andb_true_iff _]. cbn [step] in E.
    destruct (g_changes g) eqn:Ec; try (unfold receiving in Hr; by rewrite Ec in Hr).
    apply Ret_inj in E as <-. by apply unwound_changes.
Qed.

Lemma unwinding_unwound g n g' :
  g_ping g ≠ PingOff ∧ g_changes g ≠ ChangesOff → g_sigCtx g ≠ None → unwinding g n g' → unwound g g' n.
Proof.
  intros Hst Hs Hx. induction Hx as [g|g ev g1 n g' Hev E Hu IH]; [by split|].
  destruct (byContext_step ev g g1 Hst Hs Hev E) as [L1 S1 C1 U1 F1 R1].
  destruct (IH S1 C1) as [L2 S2 C2 U2 F2 R2]. split; [lia|done|done|congruence|congruence|].
  intros _. destruct n; [|by apply R2]. inversion Hu. subst. by apply R1.
Qed.

(** While a goroutine is left, such a step is possible. *)
Lemma byContext_enabled g :
  g_ping g ≠ PingOff ∧ g_changes g ≠ ChangesOff → g_sigCtx g ≠ None → finished g = false →
  ∃ ev g', byContext ev g = true ∧ step ev g = Ret g'.
Proof.
  intros [Hp Hc] Hs Hf. unfold finished in Hf. destruct (g_sigCtx g) as [e|] eqn:Es; [|done].
  destruct (g_ping g) eqn:Ep; [done| | |].
  - exists (Ping (Some (GStatus CodeCanceled ""))). eexists. unfold byContext, pinging. by rewrite Ep, Es.
  - exists PingCtx. eexists. unfold byContext. by rewrite Ep, Es.
  - exists (StreamCtx Canceled). eexists. unfold byContext, receiving. rewrite Es. by destruct (g_changes g).
Qed.

(** C27: a connection that has to end does, and is tried again. In every interleaving of a
    connection, once a goroutine failed, SIGUSR1 came or the context ended - and not before
    - the contexts that the goroutines wait for have ended, so that they return whatever the
    API does: as long as one has not returned, it can take a step that the end of its
    context alone brings about, every such step is the last of its goroutine, so that there
    are at most two, and the checks are as they were. If it was the signal, the agent then
    sleeps and reconnects, unless the stream and the ping had both ended well before. [loop]
    only ends without an error when the API closed the stream and does not implement the
    ping. *)
Theorem connection_ends ctx u early g0 evs g b :
  steps early (newGroup ctx u) = Ret g0 → steps evs (startGroup g0) = Ret g →
  (if decide (g_err g = None ∧ g_signalFired g = false ∧ g_ctx g = None) then ∀ ev, byContext ev g = false
   else ∀ n g', unwinding g n g' →
     (n ≤ 2)%nat ∧ g_updater g' = g_updater g ∧
     (finished g' = true ∨ ∃ ev g'', byContext ev g' = true ∧ step ev g' = Ret g'') ∧
     (g_signalFired g = true → finished g = false → finished g' = true →
        handleError None b true
          (errorHandler (g_err g') "getting changes from synthetic-monitoring-api" (g_signalFired g')) =
        (false, None, {| durations := S (durations b); resets := S (resets b) |}))) ∧
  (finished g = true → g_err g = None →
     Recv EOF ∈ evs ∧ ∃ m, Ping (Some (GStatus CodeUnimplemented m)) ∈ evs).
Proof.
  intros E0 E. pose proof (steps_gok [] evs _ _ (early_gok _ _ _ _ E0) E) as Hg. split.
  - pose proof (gok_sig _ _ Hg) as Hsig. case_decide as Hd.
    + destruct Hd as (He & Hf & Hctx). assert (Es : g_sigCtx g = None).
      { destruct (g_sigCtx g); [|done]. exfalso. rewrite He, Hf, Hctx in Hsig. naive_solver. }
      intros ev. destruct ev as [e| | |[e|]| |e| |[msg| |e]]; cbn [byContext]; try done; rewrite ?Es, ?Hctx; cbn;
        rewrite ?andb_false_r; try done. by destruct (g_ping g).
    + assert (Hs : g_sigCtx g ≠ None).
      { apply Hsig. destruct (g_err g), (g_signalFired g), (g_ctx g); naive_solver. }
      intros n g' Hu. destruct (unwinding_unwound g n g' (gok_started _ _ Hg) Hs Hu) as [L S C U F R].
      split; [|split; [done|]; split].
      * enough (live g ≤ 2)%nat by lia. unfold live. destruct (pinging g), (receiving g); simpl; lia.
      * destruct (finished g') eqn:Ef; [by left|right]. by apply byContext_enabled.
      * intros Hfired Hnf Hfin. rewrite F, Hfired. destruct (g_err g') eqn:Ee; [done|]. exfalso.
        destruct n; [|by apply (R ltac:(lia))].
        apply (live_finished g') in Hfin; [|apply S..].
        assert (Hl : live g = 0%nat) by lia. apply live_finished in Hl; [congruence|apply (gok_started _ _ Hg)..].
  - unfold finished. intros Hf He.
    destruct (g_ping g) eqn:Ep; try done. destruct (g_changes g) eqn:Ec; try done.
    split; [by eapply gok_changes|by eapply gok_ping].
Qed.

(** A stream that the API closes does not end the connection: the agent stays
    connected, without receiving changes, for as long as the pings succeed. *)
Lemma eof_keeps_connection u n :
  ∃ g, steps (Recv EOF :: replicate n (Ping None)) (startGroup (newGroup None u)) = Ret g ∧
    g_changes g = ChangesDone ∧ finished g = false ∧ g_err g = None ∧ g_sigCtx g = None.
Proof.
  assert (Hn : ∀ n g, g_ping g = PingFirst ∨ (∃ k, g_ping g = PingWait k) → g_changes g = ChangesDone →
    g_err g = None → g_sigCtx g = None → ∃ g', steps (replicate n (Ping None)) g = Ret g' ∧
    g_changes g' = ChangesDone ∧ finished g' = false ∧ g_err g' = None ∧ g_sigCtx g' = None).
  { clear n. intros n. induction n as [|n IH]; intros g Hp Hc He Hs.
    - exists g. split_and!; try done. unfold finished. by destruct Hp as [->|[k ->]].
    - cbn [replicate steps step]. destruct Hp as [->|[k ->]]; apply IH; cbn; eauto. }
  apply Hn; cbn; eauto.
Qed.

(** A request for changes that fails leaves its signal handler running. *)
Lemma failed_request_leaks_handler p s a :
  registration s = inr p → s_ctx s = None → s_early s = [] → s_GetChanges s ≠ None →
  ∃ a' r, loop s a = Ret (a', r) ∧ a_handlers a' = S (a_handlers a).
Proof.
  intros Hp Hc He Hg. unfold loop. rewrite Hp, Hc, He. cbn.
  destruct (s_GetChanges s); [|done]. eexists _, _. split; [done|]. cbn. lia.
Qed.

End connection.

(** ** Examples *)

Section examples.
#[local] Existing Instance example_validator.

Definition example_probe : Probe :=
  {| p_Id := 7; p_TenantId := 1; p_Name := "paris"; p_Latitude := S754_zero false;
     p_Longitude := S754_zero false; p_Labels := []; p_Region := "EMEA"; p_Public := false;
     p_Version := "v1"; p_Created := S754_zero false; p_Modified := S754_zero false; p_Capabilities := None |}.
Definition example_session (evs : list event) : session :=
  {| s_ctx := None; s_register := inr (StatusCode_OK, EmptyString, example_probe); s_early := [];
     s_GetChanges := None; s_events := evs; s_sleep := None |}.

(** A first connection delivers a check and is lost by SIGUSR1; a second one lists
    the check again, and goes on. *)
Definition example_sessions : list session :=
  [example_session [Ping None; Recv (Msg (example_batch (example_check 1000 1) CHECK_ADD));
     SignalDelivered; PingCtx; StreamCtx Canceled];
   example_session [Ping None; Recv (Msg (example_batch (example_check 1000 1) CHECK_ADD))]].

Lemma example_events_ok f m op : event_ok Some (Recv (Msg (example_batch (example_check f m) op))).
Proof.
  cbn. constructor; [|constructor]. intros _ check [= <-]. apply example_check_well_formed.
Qed.

Lemma agent_follows_api_witness :
  ∃ a b r, Run Some true (λ _, None) (λ _, None) true true example_sessions
             {| durations := 0; resets := 0 |} newAgent = Ret (a, b, r) ∧
    a_IsConnected a = [true; false; true] ∧ a_probeCh a = [example_probe] ∧
    is_Some (desired (a_updater a) !! 1).
Proof.
  destruct (agent_follows_api Some true (λ _, None) (λ _, None) true true example_sessions
    {| durations := 0; resets := 0 |}) as (a & b & r & connected & E & Hr).
  - constructor; [|constructor; [|constructor]]; (split; [constructor|]);
      repeat (constructor; [first [exact I|apply example_events_ok]|]); constructor.
  - exists a, b, r. split; [exact E|].
    assert (Ea : a = match Run Some true (λ _, None) (λ _, None) true true example_sessions
                             {| durations := 0; resets := 0 |} newAgent with
                     | Ret (a, _, _) => a | Panic _ => newAgent end) by (rewrite E; reflexivity).
    rewrite Ea. vm_compute. split; [reflexivity|]. split; [reflexivity|]. eexists. reflexivity.
Defined.

(** After SIGUSR1, at the ticker. *)
Definition signalled : group :=
  set_handler true false (Some Canceled) (set_ping (PingWait 1) (startGroup (newGroup None newUpdater))).
Definition signalledEnd : group :=
  match steps Some true (λ _, None) (λ _, None) [PingCtx; StreamCtx Canceled] signalled with
  | Ret g => g
  | Panic _ => signalled
  end.
Lemma connection_ends_witness :
  g_updater signalledEnd = g_updater signalled ∧
  (finished signalledEnd = true ∨
    ∃ ev g'', byContext ev signalledEnd = true ∧ step Some true (λ _, None) (λ _, None) ev signalledEnd = Ret g'') ∧
  handleError None {| durations := 0; resets := 0 |} true
    (errorHandler (g_err signalledEnd) "getting changes from synthetic-monitoring-api" (g_signalFired signalledEnd)) =
  (false, None, {| durations := 1; resets := 1 |}).
Proof.
  destruct (connection_ends Some true (λ _, None) (λ _, None) None newUpdater [] (newGroup None newUpdater)
    [Ping None; SignalDelivered] signalled {| durations := 0; resets := 0 |}) as [H _]; [reflexivity|reflexivity|].
  destruct (H 2%nat signalledEnd) as (_ & H1 & H2 & H3).
  - eapply (unwinding_step _ _ _ _ _ PingCtx); [reflexivity|reflexivity|].
    eapply (unwinding_step _ _ _ _ _ (StreamCtx Canceled)); [reflexivity|reflexivity|]. apply unwinding_nil.
  - split; [exact H1|]. split; [exact H2|]. apply H3; reflexivity.
Defined.

End examples.
