(* ===== verification/Labels.v ===== *)
(** * The labels of metrics and logs

    The label handling of [internal/scraper/scraper.go]: user labels by label
    mode, the labels of sm_check_info, of execution metrics and of log streams,
    and the time series made from the gathered metrics.  [geohash.Encode] and the
    formatting and conversion of floats are library code. *)
From S2P Require Import Prelude Strs Net Ids Checks Validate.
From Stdlib Require Import Floats.SpecFloat.

Open Scope Z_scope.

Record labelPair := { name : string; value : string }.

#[export] Instance labelPair_eq_dec : EqDecision labelPair.
Proof. solve_decision. Defined.

(** [sm.LabelMode]. *)
Definition LABEL_MODE_PREFIXED : Z := 0.
Definition LABEL_MODE_DUAL_WRITE : Z := 1.
Definition LABEL_MODE_UNPREFIXED : Z := 2.

Definition ofLabel (l : Label) : labelPair := {| name := l_Name l; value := l_Value l |}.

Definition maxLabelValueLength : Z := 2048.
Definition mimirMaxLabelsIngest : Z := 40.
Definition unsetRegionValue : string := "unset".
Definition CheckInfoSource : string := "synthetic-monitoring-agent".
Definition ProbeSuccessMetricName : string := "probe_success".
Definition CheckInfoMetricName : string := "sm_check_info".

(** ** Merging *)

Definition setValue (v : string) (p : labelPair) : labelPair := {| name := name p; value := v |}.

(** [idx[l.Name] = len(labels); labels = append(labels, l)]. *)
Definition push (acc : gmap string nat * list labelPair) (l : labelPair)
    : gmap string nat * list labelPair :=
  (<[name l := length acc.2]> acc.1, acc.2 ++ [l]).

(** The body of the second loops: overwrite in place, or append. *)
Definition overwrite (acc : gmap string nat * list labelPair) (l : labelPair)
    : gmap string nat * list labelPair :=
  match acc.1 !! name l with
  | Some where_ => (acc.1, alter (setValue (value l)) where_ acc.2)
  | None => push acc l
  end.

Definition mergeUserLabels (probeLabels checkLabels : list Label) : list labelPair :=
  let acc := foldl push (∅, []) (map ofLabel probeLabels) in
  (foldl overwrite acc (map ofLabel checkLabels)).2.

Definition mergeLogLabels (systemLabels userLabels : list labelPair) : list labelPair :=
  let acc := foldl push (∅, []) systemLabels in
  (foldl overwrite acc userLabels).2.

(** [appendUniqueLabels]: [seen] is the map of the names in the result. *)
Fixpoint addUnique (seen : gset string) (slice : list labelPair) : list labelPair :=
  match slice with
  | [] => []
  | val :: slice =>
      if bool_decide (name val ∈ seen) then addUnique seen slice
      else val :: addUnique ({[name val]} ∪ seen) slice
  end.
Definition appendUniqueLabels (slice1 slice2 : list labelPair) : list labelPair :=
  addUnique ∅ (slice1 ++ slice2).

(** ** User labels by mode *)

Definition prefixed (e : labelPair) : labelPair :=
  {| name := "label_" +:+ name e; value := value e |}.
Definition unreserved (l : list labelPair) : list labelPair :=
  filter (λ e, IsSystemLabel (name e) = false) l.

Definition buildUserLabels (probeLabels checkLabels : list Label) (mode : Z) : list labelPair :=
  let userLabels := mergeUserLabels probeLabels checkLabels in
  if mode =? LABEL_MODE_DUAL_WRITE then map prefixed userLabels ++ unreserved userLabels
  else if mode =? LABEL_MODE_UNPREFIXED then unreserved userLabels
  else map prefixed userLabels.

Definition customMetricLabels (probeLabels checkLabels : list Label) (mode : Z) : list labelPair :=
  if mode =? LABEL_MODE_PREFIXED then []
  else buildUserLabels probeLabels checkLabels LABEL_MODE_UNPREFIXED.

Definition regionLabelForMode (mode : Z) (probeRegion : string) : labelPair :=
  if mode =? LABEL_MODE_PREFIXED then {| name := "region"; value := probeRegion |}
  else {| name := "sm_region";
          value := if bool_decide (probeRegion = EmptyString) then unsetRegionValue
                   else probeRegion |}.

(** ** The labels of a scraper *)

Record scraperConfig := {
  checkName : string;
  check : Check;
  probe : Probe;
}.

Section labels.
Variable geohashEncode : spec_float → spec_float → string.

Definition lbl (n v : string) : labelPair := {| name := n; value := v |}.

(** [sysMetricLabels] of [collectDataWith]. *)
Definition sysMetricLabels (s : scraperConfig) : list labelPair :=
  [lbl "probe" (p_Name (probe s)); lbl "config_version" (ConfigVersion (check s));
   lbl "instance" (Target (check s)); lbl "job" (Job (check s))].

Definition buildCheckInfoLabels (s : scraperConfig) (userLabels commonLabels : list labelPair)
    (mode : Z) : gmap string string :=
  let baseLabels :=
    [lbl "check_name" (checkName s); regionLabelForMode mode (p_Region (probe s));
     lbl "frequency" (itoa (Frequency (check s)));
     lbl "geohash" (geohashEncode (p_Latitude (probe s)) (p_Longitude (probe s)))] ++
    commonLabels ++
    (if bool_decide (AlertSensitivity (check s) ≠ EmptyString) &&
        bool_decide (AlertSensitivity (check s) ≠ "none"%string)
     then [lbl "alert_sensitivity" (AlertSensitivity (check s))] else []) in
  foldl (λ m l, <[name l := value l]> m) ∅ (appendUniqueLabels userLabels baseLabels).

(** [checkInfoLabels] and the test on their number; [None] is errTooManyLabels. *)
Definition checkInfoLabels (s : scraperConfig) (mode maxMetricLabels : Z)
    : option (gmap string string) :=
  let userLabels := buildUserLabels (p_Labels (probe s)) (Labels (check s)) mode in
  let m := buildCheckInfoLabels s userLabels (sysMetricLabels s) mode in
  let checkInfoLimit := if mode =? LABEL_MODE_DUAL_WRITE
                        then Z.min (maxMetricLabels * 2) mimirMaxLabelsIngest
                        else maxMetricLabels in
  if checkInfoLimit <? Z.of_nat (size m) then None else Some m.

(** [executionMetricLabels]. *)
Definition executionMetricLabels (s : scraperConfig) (mode : Z) : list labelPair :=
  appendUniqueLabels (customMetricLabels (p_Labels (probe s)) (Labels (check s)) mode)
    (sysMetricLabels s).

(** [logLabels]. *)
Definition sysLogLabels (s : scraperConfig) (mode : Z) : list labelPair :=
  [lbl "probe" (p_Name (probe s)); regionLabelForMode mode (p_Region (probe s));
   lbl "instance" (Target (check s)); lbl "job" (Job (check s));
   lbl "check_name" (checkName s); lbl "source" CheckInfoSource].
Definition logLabels (s : scraperConfig) (mode : Z) : list labelPair :=
  mergeLogLabels (sysLogLabels s mode)
    (buildUserLabels (p_Labels (probe s)) (Labels (check s)) mode).

(** The split of [logLabels] in stream labels and structured metadata. *)
Definition splitLogLabels (logLabels : list labelPair) (maxLogLabels : Z)
    (successValue executionID : string) : go (list labelPair * list labelPair) :=
  let maxUserLogLabels := maxLogLabels - 1 in
  '(streamLogLabels, overflowMetadata) ←
    (if maxUserLogLabels <? llen logLabels then
       if maxUserLogLabels <? 0 then Panic "slice bounds out of range"
       else Ret (take (Z.to_nat maxUserLogLabels) logLabels,
                 drop (Z.to_nat maxUserLogLabels) logLabels)
     else Ret (logLabels, []));
  Ret (streamLogLabels ++ [lbl ProbeSuccessMetricName successValue],
       overflowMetadata ++ [lbl "execution_id" executionID]).

End labels.

(** ** Cost attribution *)

Definition CalNilStringTerminator : string := "__MISSING__".

(** [getCostAttributionLabels], given the tenant's labels. *)
Definition getCostAttributionLabels (labels : list Label) (cals : list string) : list labelPair :=
  map (λ cal, lbl cal (match head (filter (λ l, l_Name l = cal) labels) with
                       | Some l => l_Value l
                       | None => CalNilStringTerminator
                       end)) cals.

(** ** Stream selectors *)

Definition quoteStr : string := String quoteChar EmptyString.
Definition fmtPair (p : labelPair) : string := name p +:+ "=" +:+ quoteStr +:+ value p +:+ quoteStr.
Definition fmtLabels (labels : list labelPair) : string :=
  match labels with
  | [] => EmptyString
  | _ => "{" +:+ join "," (map fmtPair labels) +:+ "}"
  end.

(** ** Time series *)

Definition truncateLabelValue (str : string) : string :=
  if maxLabelValueLength <? slen str
  then of_chars (take (Z.to_nat (maxLabelValueLength - 3)) (chars str)) +:+ "..."
  else str.

Section timeseries.
Context {float : Type}.
Variable formatG : float → string.
Variable ofUint : Z → float.

Record Sample := { Timestamp : Z; Value : float }.
Record TimeSeries := { ts_Labels : list labelPair; Samples : list Sample }.

Record Quantile := { q_Quantile : float; q_Val : float }.
Record Summary := { su_Sum : float; su_Count : Z; su_Quantiles : list Quantile }.
Record Bucket := { bu_Bound : float; bu_Count : Z }.
(** A nil bucket slice is [None]. *)
Record Histogram := { hi_Sum : float; hi_Count : Z; hi_Buckets : option (list Bucket) }.
Inductive MetricType := COUNTER | GAUGE | UNTYPED | SUMMARY | HISTOGRAM.
Record Metric := {
  m_Label : list labelPair;
  m_Counter : option (option float);
  m_Gauge : option (option float);
  m_Untyped : option (option float);
  m_Summary : option Summary;
  m_Histogram : option Histogram }.
Record MetricFamily := {
  mf_Name : string; mf_Help : string; mf_Type : MetricType; mf_Metric : list Metric }.

(** [t] is the time in nanoseconds. *)
Definition makeTimeseries (t : Z) (v : float) (labels : list labelPair) : TimeSeries :=
  {| ts_Labels := addUnique ∅ labels;
     Samples := [{| Timestamp := t ÷ 1000000; Value := v |}] |}.

Definition nameLabel (n : string) : labelPair := lbl "__name__" n.

Definition appendDtoToTimeseries (ts : list TimeSeries) (t : Z) (mName : string)
    (sharedLabels : list labelPair) (mType : MetricType) (metric : Metric) : list TimeSeries :=
  let rest := sharedLabels ++
    map (λ l, lbl (name l) (truncateLabelValue (value l))) (m_Label metric) in
  let mk n v := makeTimeseries t v (nameLabel n :: rest) in
  let mkWith n v extra := makeTimeseries t v (nameLabel n :: rest ++ [extra]) in
  let scalar (o : option (option float)) :=
    match o with Some (Some v) => ts ++ [mk mName v] | _ => ts end in
  match mType with
  | COUNTER => scalar (m_Counter metric)
  | GAUGE => scalar (m_Gauge metric)
  | UNTYPED => scalar (m_Untyped metric)
  | SUMMARY =>
      match m_Summary metric with
      | Some s =>
          ts ++ [mk (mName +:+ "_sum") (su_Sum s); mk (mName +:+ "_count") (ofUint (su_Count s))] ++
          map (λ q, mkWith mName (q_Val q) (lbl "quantile" (formatG (q_Quantile q)))) (su_Quantiles s)
      | None => ts
      end
  | HISTOGRAM =>
      match m_Histogram metric with
      | Some h =>
          match hi_Buckets h with
          | Some b =>
              ts ++ [mk (mName +:+ "_sum") (hi_Sum h);
                     mk (mName +:+ "_count") (ofUint (hi_Count h))] ++
              map (λ v, mkWith (mName +:+ "_bucket") (ofUint (bu_Count v))
                          (lbl "le" (formatG (bu_Bound v)))) b ++
              [mkWith (mName +:+ "_bucket") (ofUint (hi_Count h)) (lbl "le" "+Inf")]
          | None => ts
          end
      | None => ts
      end
  end.

Definition extractTimeseries (t : Z) (metrics : list MetricFamily)
    (executionLabels : list labelPair) : list TimeSeries :=
  let executionPrompb := map (λ l, lbl (name l) (truncateLabelValue (value l))) executionLabels in
  foldl (λ ts mf,
    let shared := if bool_decide (mf_Name mf = CheckInfoMetricName) then [] else executionPrompb in
    foldl (λ ts m, appendDtoToTimeseries ts t (mf_Name mf) shared (mf_Type mf) m)
      ts (mf_Metric mf)) [] metrics.

End timeseries.

(** ** Lookup by name *)

(** The value of the first pair with a name. *)
Fixpoint first (l : list labelPair) (n : string) : option string :=
  match l with
  | [] => None
  | p :: l => if bool_decide (name p = n) then Some (value p) else first l n
  end.
Notation names l := (map name l).

Lemma first_app l1 l2 n :
  first (l1 ++ l2) n = match first l1 n with Some v => Some v | None => first l2 n end.
Proof. induction l1 as [|p l1 IH]; simpl; [done|]. by case_bool_decide. Qed.

Lemma first_None l n : first l n = None ↔ n ∉ names l.
Proof.
  induction l as [|p l IH]; simpl; [by split; [intros _; apply not_elem_of_nil|]|].
  rewrite not_elem_of_cons. case_bool_decide; naive_solver.
Qed.

Lemma first_Some l n v : NoDup (names l) → first l n = Some v ↔ lbl n v ∈ l.
Proof.
  induction l as [|p l IH]; simpl; [by split; [done|intros ?%not_elem_of_nil]|].
  intros [Hp Hnd]%NoDup_cons. rewrite elem_of_cons, <-IH by done. destruct p as [m w]. unfold lbl. simpl in *.
  case_bool_decide as E.
  - subst m. assert (first l n = None) as -> by by apply first_None. naive_solver.
  - naive_solver.
Qed.

Lemma addUnique_spec seen l :
  NoDup (names (addUnique seen l)) ∧
  (∀ n, first (addUnique seen l) n = if decide (n ∈ seen) then None else first l n) ∧
  (∀ p, p ∈ addUnique seen l → p ∈ l).
Proof.
  revert seen. induction l as [|p l IH]; intros seen; simpl.
  { split_and!; [constructor|by intros; case_decide|done]. }
  case_bool_decide as Hin.
  - destruct (IH seen) as (Hnd & Hf & Hsub). split_and!; [done| |intros q Hq; right; auto].
    intros n. rewrite Hf. case_decide; [done|]. rewrite bool_decide_eq_false_2; [done|congruence].
  - destruct (IH ({[name p]} ∪ seen)) as (Hnd & Hf & Hsub). split_and!.
    + simpl. apply NoDup_cons. split; [|done]. apply first_None. rewrite Hf, decide_True; set_solver.
    + intros n. simpl. case_bool_decide as E; [by rewrite decide_False by congruence|].
      rewrite Hf. apply decide_ext. set_solver.
    + intros q [->|Hq]%elem_of_cons; [left|right; auto].
Qed.

(** The index points at the pair of a name. *)
Definition indexed (acc : gmap string nat * list labelPair) : Prop :=
  NoDup (names acc.2) ∧
  ∀ n i, acc.1 !! n = Some i ↔ ∃ p, acc.2 !! i = Some p ∧ name p = n.

Lemma indexed_nil : indexed (∅, []).
Proof. split; [constructor|]. intros n i. simpl. rewrite lookup_empty. naive_solver. Qed.

Lemma indexed_push acc p :
  indexed acc → name p ∉ names acc.2 → indexed (push acc p).
Proof.
  destruct acc as [idx l]. intros [Hnd Hidx] Hn. unfold push. split; simpl in *.
  - rewrite map_app, NoDup_app. split_and!; [done| |apply NoDup_singleton].
    intros x Hx ->%list_elem_of_singleton. done.
  - intros n i. rewrite lookup_insert_Some, Hidx. split.
    + intros [[<- <-]|[Hne (q & Hq & E)]].
      * exists p. split; [|done]. rewrite lookup_app_r, Nat.sub_diag by done. done.
      * exists q. split; [|done]. by apply lookup_app_l_Some.
    + intros (q & Hq & E). apply lookup_app_Some in Hq as [Hq|[Hi Hq]].
      * right. split; [|eauto]. intros <-. apply Hn.
        apply list_elem_of_fmap. exists q. split; [done|]. by eapply list_elem_of_lookup_2.
      * apply list_lookup_singleton_Some in Hq as [Hi' ->]. left. split; [done|lia].
Qed.

Lemma first_alter v i l n p :
  NoDup (names l) → l !! i = Some p →
  first (alter (setValue v) i l) n = if decide (name p = n) then Some v else first l n.
Proof.
  revert i. induction l as [|q l IH]; intros [|i] Hnd Hl; try done.
  - injection Hl as ->. simpl. case_bool_decide; case_decide; done.
  - change (alter (setValue v) (S i) (q :: l)) with (q :: alter (setValue v) i l).
    cbn [map first] in *. apply NoDup_cons in Hnd as [Hq Hnd]. rewrite (IH i) by done.
    case_bool_decide as E; [|done]. rewrite decide_False; [done|].
    intros E'. apply Hq. rewrite E, <-E'. apply list_elem_of_fmap. exists p.
    split; [done|]. by eapply list_elem_of_lookup_2.
Qed.

Lemma names_alter v i l : names (alter (setValue v) i l) = names l.
Proof.
  revert i. induction l as [|q l IH]; intros [|i]; try done.
  change (alter (setValue v) (S i) (q :: l)) with (q :: alter (setValue v) i l).
  cbn [map]. by rewrite IH.
Qed.

Lemma overwrite_spec acc p :
  indexed acc → indexed (overwrite acc p) ∧
  (∃ extra, names (overwrite acc p).2 = names acc.2 ++ extra) ∧
  (∀ n, first (overwrite acc p).2 n = if decide (name p = n) then Some (value p) else first acc.2 n).
Proof.
  intros Hok. destruct acc as [idx l]. unfold overwrite. simpl.
  destruct (idx !! name p) as [i|] eqn:E.
  - pose proof Hok as [Hnd Hidx]. simpl in *. apply Hidx in E as (q & Hq & Eq).
    split_and!.
    + split; simpl; [by rewrite names_alter|]. intros n j. rewrite Hidx. split.
      * intros (r & Hr & Er). destruct (decide (i = j)) as [<-|Hne].
        -- exists (setValue (value p) r). by rewrite list_lookup_alter_eq, Hr.
        -- exists r. by rewrite list_lookup_alter_ne.
      * intros (r & Hr & Er). destruct (decide (i = j)) as [<-|Hne].
        -- rewrite list_lookup_alter_eq, Hq in Hr. injection Hr as <-. exists q. done.
        -- rewrite list_lookup_alter_ne in Hr by done. by exists r.
    + exists []. by rewrite names_alter, app_nil_r.
    + intros n. rewrite (first_alter _ _ _ _ q) by done. by rewrite Eq.
  - assert (Hn : name p ∉ names l).
    { intros Hin. apply list_elem_of_fmap in Hin as (q & Eq & Hq).
      apply list_elem_of_lookup_1 in Hq as [i Hi].
      assert (idx !! name p = Some i) by (apply Hok; eauto). congruence. }
    split_and!.
    + by apply indexed_push.
    + exists [name p]. simpl. by rewrite map_app.
    + intros n. simpl. rewrite first_app. simpl.
      destruct (decide (name p = n)) as [<-|Hne].
      * assert (first l (name p) = None) as -> by by apply first_None.
        by rewrite bool_decide_eq_true_2.
      * rewrite bool_decide_eq_false_2 by done. by destruct (first l n).
Qed.

(** The last value of a name. *)
Definition lastOf (l : list labelPair) (n : string) : option string := first (reverse l) n.

Lemma overwrite_all acc over :
  indexed acc → indexed (foldl overwrite acc over) ∧
  (∃ extra, names (foldl overwrite acc over).2 = names acc.2 ++ extra) ∧
  (∀ n, first (foldl overwrite acc over).2 n =
     match lastOf over n with Some v => Some v | None => first acc.2 n end).
Proof.
  revert acc. induction over as [|p over IH]; intros acc Hok.
  { split_and!; [done|exists []; by rewrite app_nil_r|done]. }
  simpl. destruct (overwrite_spec acc p Hok) as (Hok1 & (e1 & E1) & F1).
  destruct (IH _ Hok1) as (Hok2 & (e2 & E2) & F2). split_and!; [done| |].
  - exists (e1 ++ e2). by rewrite E2, E1, app_assoc.
  - intros n. rewrite F2. unfold lastOf. rewrite reverse_cons, first_app.
    destruct (first (reverse over) n); [done|]. rewrite F1. simpl.
    by repeat case_decide || case_bool_decide.
Qed.

Lemma push_all l :
  NoDup (names l) → indexed (foldl push (∅, []) l) ∧ (foldl push (∅, []) l).2 = l.
Proof.
  induction l as [|p l IH] using rev_ind; [intros _; split; [apply indexed_nil|done]|].
  rewrite map_app, NoDup_app. intros (Hnd & Hd & _). destruct (IH Hnd) as [Hok E].
  rewrite foldl_app. simpl. split.
  - apply indexed_push; [done|]. rewrite E. intros Hin. apply (Hd _ Hin). by apply list_elem_of_singleton.
  - by rewrite E.
Qed.

(** Merging: in place over the first list, then the new names. *)
Lemma merge_spec base over :
  NoDup (names base) →
  let r := (foldl overwrite (foldl push (∅, []) base) over).2 in
  NoDup (names r) ∧ (∃ extra, names r = names base ++ extra) ∧
  (∀ n, first r n = match lastOf over n with Some v => Some v | None => first base n end).
Proof.
  intros Hnd r. destruct (push_all base Hnd) as [Hok E].
  destruct (overwrite_all _ over Hok) as ([Hnd' _] & Hex & Hf). rewrite E in Hex, Hf. done.
Qed.

(** ** User labels *)

(** The value a user gave to a name: the check's, else the probe's. *)
Definition userValue (s : scraperConfig) (n : string) : option string :=
  match lastOf (map ofLabel (Labels (check s))) n with
  | Some v => Some v
  | None => first (map ofLabel (p_Labels (probe s))) n
  end.

(** The names of the probe's labels are distinct. *)
Definition probe_ok (s : scraperConfig) : Prop := NoDup (map l_Name (p_Labels (probe s))).

Lemma names_ofLabel l : names (map ofLabel l) = map l_Name l.
Proof. by rewrite map_map. Qed.

Lemma user_spec s : probe_ok s →
  NoDup (names (mergeUserLabels (p_Labels (probe s)) (Labels (check s)))) ∧
  ∀ n, first (mergeUserLabels (p_Labels (probe s)) (Labels (check s))) n = userValue s n.
Proof.
  intros Hok. unfold probe_ok in Hok. rewrite <-names_ofLabel in Hok.
  by destruct (merge_spec _ (map ofLabel (Labels (check s))) Hok) as (? & _ & ?).
Qed.

Lemma first_unreserved l n :
  first (unreserved l) n = if IsSystemLabel n then None else first l n.
Proof.
  unfold unreserved. induction l as [|p l IH]; [by destruct (IsSystemLabel n)|].
  rewrite filter_cons. cbn [first].
  destruct (IsSystemLabel (name p)) eqn:E; case_decide; try done; cbn [first]; rewrite ?IH;
    case_bool_decide as En; subst; rewrite ?E; done.
Qed.

Lemma names_unreserved l : NoDup (names l) → NoDup (names (unreserved l)).
Proof.
  unfold unreserved. induction l as [|p l IH]; [done|]. intros [Hp Hnd]%NoDup_cons.
  rewrite filter_cons. case_decide; [|auto]. cbn [map]. apply NoDup_cons. split; [|auto].
  intros Hin. apply Hp. apply list_elem_of_fmap in Hin as (q & -> & Hq).
  apply list_elem_of_filter in Hq as [_ Hq]. apply list_elem_of_fmap. eauto.
Qed.

(** [label_n], and the name a prefixed name stands for. *)
Definition withPrefix (n : string) : string := "label_" +:+ n.
Fixpoint stripPrefix (p s : string) : option string :=
  match p, s with
  | EmptyString, s => Some s
  | String a p, String b s => if Ascii.eqb a b then stripPrefix p s else None
  | String _ _, EmptyString => None
  end.

Lemma stripPrefix_spec p s n : stripPrefix p s = Some n ↔ s = p +:+ n.
Proof.
  revert s. induction p as [|a p IH]; intros s; simpl.
  { split; [by intros [= ->]|by intros ->]. }
  destruct s as [|b s]; [done|].
  change (String a p +:+ n) with (String a (p +:+ n)).
  destruct (Ascii.eqb_spec a b) as [->|Hne]; [rewrite IH|]; split; congruence.
Qed.

Lemma first_prefixed l n :
  first (map prefixed l) n = m ← stripPrefix "label_" n; first l m.
Proof.
  induction l as [|p l IH]; cbn [map first]; [by destruct (stripPrefix "label_" n)|].
  rewrite IH. destruct (stripPrefix "label_" n) as [m|] eqn:E.
  - apply stripPrefix_spec in E as ->. cbn [mbind option_bind name prefixed].
    destruct (decide (name p = m)) as [->|Hne].
    + by rewrite !bool_decide_eq_true_2.
    + rewrite !bool_decide_eq_false_2; [done|done|]. intros Eq. apply Hne.
      unfold prefixed in Eq. cbn [name] in Eq. by simplify_eq.
  - cbn [mbind option_bind]. rewrite bool_decide_eq_false_2; [done|].
    intros <-. apply (eq_None_not_Some (stripPrefix "label_" (name (prefixed p)))) in E. apply E.
    exists (name p). by apply stripPrefix_spec.
Qed.

Lemma names_prefixed l : NoDup (names l) → NoDup (names (map prefixed l)).
Proof.
  intros Hnd. rewrite map_map. change (λ x, name (prefixed x)) with (λ x, withPrefix (name x)).
  rewrite <-(map_map name withPrefix). apply NoDup_fmap_2; [|done].
  intros x y E. unfold withPrefix in E. by simplify_eq.
Qed.

(** The value of a name among the user's labels, by mode. *)
Definition userLabelOf (s : scraperConfig) (mode : Z) (n : string) : option string :=
  let plain := if IsSystemLabel n then None else userValue s n in
  let pre := m ← stripPrefix "label_" n; userValue s m in
  if mode =? LABEL_MODE_DUAL_WRITE then match pre with Some v => Some v | None => plain end
  else if mode =? LABEL_MODE_UNPREFIXED then plain else pre.

Lemma buildUserLabels_spec s mode n : probe_ok s →
  first (buildUserLabels (p_Labels (probe s)) (Labels (check s)) mode) n = userLabelOf s mode n.
Proof.
  intros Hok. destruct (user_spec s Hok) as [Hnd Hu]. unfold buildUserLabels, userLabelOf.
  assert (Hpre : first (map prefixed (mergeUserLabels (p_Labels (probe s)) (Labels (check s)))) n =
    m ← stripPrefix "label_" n; userValue s m).
  { rewrite first_prefixed. destruct (stripPrefix "label_" n); [apply Hu|done]. }
  destruct (mode =? LABEL_MODE_DUAL_WRITE); [|destruct (mode =? LABEL_MODE_UNPREFIXED)].
  - rewrite first_app, Hpre, first_unreserved, Hu. done.
  - by rewrite first_unreserved, Hu.
  - done.
Qed.

(** No reserved name begins with [label_]. *)
Lemma reserved_not_prefixed n : IsSystemLabel n = true → stripPrefix "label_" n = None.
Proof.
  intros Hn. apply bool_decide_eq_true in Hn.
  assert (H : Forall (λ m, stripPrefix "label_" m = None) systemLabels) by (repeat constructor).
  rewrite Forall_forall in H. by apply H.
Qed.

Lemma userLabelOf_reserved s mode n :
  IsSystemLabel n = true → userLabelOf s mode n = None.
Proof.
  intros Hn. unfold userLabelOf. rewrite Hn, (reserved_not_prefixed n Hn). simpl.
  by repeat case_match.
Qed.

(** ** Properties *)

(** The labels of the agent that no user can override. *)
Lemma sysMetricLabels_reserved s p : p ∈ sysMetricLabels s → IsSystemLabel (name p) = true.
Proof. unfold sysMetricLabels. intros Hp. repeat (apply elem_of_cons in Hp as [->|Hp]; [done|]). by apply not_elem_of_nil in Hp. Qed.

(** C33: the labels of execution metrics are distinct; the probe, the
    configuration version, the instance and the job are the agent's whatever the
    user defined; the rest are the user's labels with unreserved names, the check's
    value before the probe's, and none for a tenant in prefixed mode. *)
Theorem execution_labels s mode :
  probe_ok s →
  NoDup (names (executionMetricLabels s mode)) ∧
  ∀ n, first (executionMetricLabels s mode) n =
    match first (sysMetricLabels s) n with
    | Some v => Some v
    | None => if (mode =? LABEL_MODE_PREFIXED) || IsSystemLabel n then None else userValue s n
    end.
Proof.
  intros Hok. unfold executionMetricLabels, appendUniqueLabels.
  destruct (addUnique_spec ∅ (customMetricLabels (p_Labels (probe s)) (Labels (check s)) mode ++
    sysMetricLabels s)) as (Hnd & Hf & _).
  split; [done|]. intros n. rewrite Hf, decide_False by set_solver. rewrite first_app.
  assert (Hc : first (customMetricLabels (p_Labels (probe s)) (Labels (check s)) mode) n =
    if (mode =? LABEL_MODE_PREFIXED) || IsSystemLabel n then None else userValue s n).
  { unfold customMetricLabels. destruct (mode =? LABEL_MODE_PREFIXED); [done|].
    by rewrite buildUserLabels_spec. }
  rewrite Hc. destruct (first (sysMetricLabels s) n) as [v|] eqn:E.
  - assert (IsSystemLabel n = true) as ->; [|by rewrite orb_true_r].
    destruct (decide (n ∈ names (sysMetricLabels s))) as [Hin|Hn]; [|by apply first_None in Hn; congruence].
    apply list_elem_of_fmap in Hin as (p & -> & Hp). by eapply sysMetricLabels_reserved.
  - by repeat case_match.
Qed.

(** No label set by the agent on log streams can be a user's. *)
Lemma sysLogLabels_protected s mode p :
  p ∈ sysLogLabels s mode → userLabelOf s mode (name p) = None.
Proof.
  unfold sysLogLabels, regionLabelForMode. intros Hp.
  destruct (mode =? LABEL_MODE_PREFIXED) eqn:Em.
  - apply Z.eqb_eq in Em as ->.
    repeat (apply elem_of_cons in Hp as [->|Hp]; [first [by apply userLabelOf_reserved|done]|]).
    by apply not_elem_of_nil in Hp.
  - repeat (apply elem_of_cons in Hp as [->|Hp]; [by apply userLabelOf_reserved|]).
    by apply not_elem_of_nil in Hp.
Qed.

(** The last of a list of user labels is the first one when names are distinct. *)
Lemma lastOf_NoDup l n : NoDup (names l) → lastOf l n = first l n.
Proof.
  intros Hnd. unfold lastOf. assert (Hnd' : NoDup (names (reverse l))).
  { assert (Hp : names (reverse l) ≡ₚ names l) by (apply fmap_Permutation, reverse_Permutation).
    by rewrite Hp. }
  apply option_eq. intros v. rewrite !first_Some by done. apply elem_of_reverse.
Qed.

(** The log labels start with the agent's six, with the agent's values,
    followed by the user's; all names are distinct, and outside dual-write mode
    every user label of the mode is there with the user's value. *)
Theorem log_labels s mode :
  probe_ok s →
  NoDup (names (logLabels s mode)) ∧
  (∃ extra, names (logLabels s mode) = names (sysLogLabels s mode) ++ extra) ∧
  (∀ p, p ∈ sysLogLabels s mode → first (logLabels s mode) (name p) = Some (value p)) ∧
  (mode ≠ LABEL_MODE_DUAL_WRITE →
     ∀ n, n ∉ names (sysLogLabels s mode) → first (logLabels s mode) n = userLabelOf s mode n).
Proof.
  intros Hok. assert (Hsys : NoDup (names (sysLogLabels s mode))).
  { unfold sysLogLabels, regionLabelForMode. destruct (mode =? LABEL_MODE_PREFIXED);
      cbn [map name lbl]; apply (bool_decide_unpack _); by vm_compute. }
  destruct (merge_spec (sysLogLabels s mode)
    (buildUserLabels (p_Labels (probe s)) (Labels (check s)) mode) Hsys) as (Hnd & Hex & Hf).
  split_and!; [done|done| |].
  - intros p Hp. unfold logLabels, mergeLogLabels. rewrite Hf.
    assert (lastOf (buildUserLabels (p_Labels (probe s)) (Labels (check s)) mode) (name p) = None) as ->.
    { unfold lastOf. apply first_None. intros Hin.
      assert (first (buildUserLabels (p_Labels (probe s)) (Labels (check s)) mode) (name p) = None) as Hn.
      { rewrite buildUserLabels_spec by done. by apply sysLogLabels_protected. }
      apply first_None in Hn. apply Hn. apply list_elem_of_fmap in Hin as (q & E & Hq).
      apply list_elem_of_fmap. exists q. split; [done|]. by apply elem_of_reverse. }
    apply first_Some; [done|]. by destruct p.
  - intros Hm n Hn. unfold logLabels, mergeLogLabels. rewrite Hf.
    assert (Hu : NoDup (names (buildUserLabels (p_Labels (probe s)) (Labels (check s)) mode))).
    { unfold buildUserLabels. apply Z.eqb_neq in Hm. rewrite Hm.
      destruct (user_spec s Hok) as [Hnd' _].
      case_match; [by apply names_unreserved|by apply names_prefixed]. }
    rewrite lastOf_NoDup, buildUserLabels_spec by done.
    apply first_None in Hn. rewrite Hn. by destruct (userLabelOf s mode n).
Qed.

(** The split of the log labels loses nothing: the stream gets the leading
    labels and probe_success, at most maxLogLabels in all, the structured metadata
    gets the rest and the execution id; it panics exactly when the tenant's limit
    is not positive. *)
Theorem splitLogLabels_spec l maxLogLabels ok id :
  (maxLogLabels ≤ 0 ↔ splitLogLabels l maxLogLabels ok id = Panic "slice bounds out of range") ∧
  (0 < maxLogLabels →
     ∃ st md, splitLogLabels l maxLogLabels ok id =
         Ret (st ++ [lbl "probe_success" ok], md ++ [lbl "execution_id" id]) ∧
       st ++ md = l ∧ llen st + 1 ≤ maxLogLabels ∧
       (md ≠ [] → llen st + 1 = maxLogLabels)).
Proof.
  unfold splitLogLabels, llen. destruct (Z.ltb_spec (maxLogLabels - 1) (Z.of_nat (length l))).
  - destruct (Z.ltb_spec (maxLogLabels - 1) 0); simpl.
    + split; [split; [done|lia]|lia].
    + split; [split; [lia|done]|]. intros _. eexists _, _. split; [done|].
      split; [apply take_drop|]. rewrite length_take. lia.
  - split; [split; [lia|done]|]. intros _. exists l, []. split; [done|].
    rewrite app_nil_r. split; [done|]. split; [lia|done].
Qed.

(** The labels of sm_check_info the agent always sets. *)
Definition baseLabels geohashEncode (s : scraperConfig) (mode : Z) : list labelPair :=
  [lbl "check_name" (checkName s); regionLabelForMode mode (p_Region (probe s));
   lbl "frequency" (itoa (Frequency (check s)));
   lbl "geohash" (geohashEncode (p_Latitude (probe s)) (p_Longitude (probe s)))] ++
  sysMetricLabels s.

Lemma baseLabels_NoDup geohashEncode s mode : NoDup (names (baseLabels geohashEncode s mode)).
Proof.
  unfold baseLabels, regionLabelForMode. destruct (mode =? LABEL_MODE_PREFIXED);
    cbn [map app name lbl sysMetricLabels]; apply (bool_decide_unpack _); by vm_compute.
Qed.

Lemma checkInfo_protected geohashEncode s mode p :
  p ∈ baseLabels geohashEncode s mode → userLabelOf s mode (name p) = None.
Proof.
  unfold baseLabels. rewrite elem_of_app. intros [Hp|Hp].
  - unfold regionLabelForMode in Hp. destruct (mode =? LABEL_MODE_PREFIXED) eqn:Em.
    + apply Z.eqb_eq in Em as ->.
      repeat (apply elem_of_cons in Hp as [->|Hp]; [first [by apply userLabelOf_reserved|done]|]).
      by apply not_elem_of_nil in Hp.
    + repeat (apply elem_of_cons in Hp as [->|Hp]; [by apply userLabelOf_reserved|]).
      by apply not_elem_of_nil in Hp.
  - apply userLabelOf_reserved. by eapply sysMetricLabels_reserved.
Qed.

Lemma foldl_insert l (m : gmap string string) n :
  NoDup (names l) →
  foldl (λ m l, <[name l := value l]> m) m l !! n =
  match first l n with Some v => Some v | None => m !! n end.
Proof.
  revert m. induction l as [|p l IH]; intros m; [done|]. intros [Hp Hnd]%NoDup_cons.
  cbn [foldl first]. rewrite IH by done. destruct (decide (name p = n)) as [<-|Hne].
  - rewrite bool_decide_eq_true_2 by done. apply first_None in Hp. rewrite Hp.
    by rewrite lookup_insert_eq.
  - rewrite bool_decide_eq_false_2, lookup_insert_ne by done. done.
Qed.

(** Sm_check_info carries the agent's labels unchanged, alert_sensitivity
    apart, and the user's; its size is the number of distinct names and within
    the tenant's limit when the scrape goes on. *)
Theorem check_info_labels geohashEncode s mode maxMetricLabels m :
  probe_ok s → checkInfoLabels geohashEncode s mode maxMetricLabels = Some m →
  (∀ n v, userLabelOf s mode n = Some v → m !! n = Some v) ∧
  (∀ p, p ∈ baseLabels geohashEncode s mode → m !! name p = Some (value p)) ∧
  Z.of_nat (size m) ≤ (if mode =? LABEL_MODE_DUAL_WRITE
                       then Z.min (maxMetricLabels * 2) 40 else maxMetricLabels).
Proof.
  intros Hok. unfold checkInfoLabels. case_match eqn:Elim; [done|]. intros [= Em].
  assert (Hm : ∀ n, m !! n = first (buildUserLabels (p_Labels (probe s)) (Labels (check s)) mode ++
    (baseLabels geohashEncode s mode ++
      (if bool_decide (AlertSensitivity (check s) ≠ EmptyString) &&
          bool_decide (AlertSensitivity (check s) ≠ "none"%string)
       then [lbl "alert_sensitivity" (AlertSensitivity (check s))] else []))) n).
  { intros n. subst m. unfold buildCheckInfoLabels, appendUniqueLabels.
    match goal with |- foldl _ _ (addUnique ∅ ?l) !! _ = _ => set (all := l) end.
    destruct (addUnique_spec ∅ all) as (Hnd & Hf & _).
    rewrite foldl_insert by done. rewrite Hf, decide_False by set_solver. subst all.
    unfold baseLabels. rewrite <-!app_assoc, lookup_empty. by destruct (first _ n). }
  split_and!.
  - intros n v Hu. rewrite Hm, first_app, buildUserLabels_spec by done. by rewrite Hu.
  - intros p Hp. rewrite Hm, first_app, buildUserLabels_spec by done.
    rewrite (checkInfo_protected geohashEncode) by done.
    rewrite first_app.
    assert (Hs : first (baseLabels geohashEncode s mode) (name p) = Some (value p)) .
    { apply first_Some; [apply baseLabels_NoDup|]. by destruct p. }
    by rewrite Hs.
  - apply Z.ltb_ge in Elim. rewrite Em in Elim. exact Elim.
Qed.

(** ** Time series *)

Section series.
Context {float : Type} (formatG : float → string) (ofUint : Z → float).
Notation appendDtoToTimeseries := (appendDtoToTimeseries formatG ofUint).
Notation extractTimeseries := (extractTimeseries formatG ofUint).

(** A series of the metric [mName] with the labels [shared]. *)
Definition series_ok (t : Z) (mName : string) (shared : list labelPair)
    (ts : @TimeSeries float) : Prop :=
  NoDup (names (ts_Labels ts)) ∧
  (∃ suffix, suffix ∈ [""; "_sum"; "_count"; "_bucket"]%string ∧
     first (ts_Labels ts) "__name__" = Some (mName +:+ suffix)) ∧
  (∀ n v, n ≠ "__name__"%string → first shared n = Some v → first (ts_Labels ts) n = Some v) ∧
  (∃ v, Samples ts = [{| Timestamp := t ÷ 1000000; Value := v |}]).

Lemma empty_app (s : string) : s +:+ EmptyString = s.
Proof.
  induction s as [|a s IH]; [done|].
  change (String a s +:+ EmptyString) with (String a (s +:+ EmptyString)). by rewrite IH.
Qed.

Lemma makeTimeseries_ok t mName suffix shared rest v :
  suffix ∈ [""; "_sum"; "_count"; "_bucket"]%string →
  series_ok t mName shared (makeTimeseries t v (nameLabel (mName +:+ suffix) :: shared ++ rest)).
Proof.
  intros Hs. unfold series_ok, makeTimeseries. cbn [ts_Labels Samples].
  destruct (addUnique_spec ∅ (nameLabel (mName +:+ suffix) :: shared ++ rest)) as (Hnd & Hf & _).
  split_and!; [done| | |by eexists].
  - exists suffix. split; [done|]. rewrite Hf, decide_False by set_solver. done.
  - intros n w Hn Hw. rewrite Hf, decide_False by set_solver. cbn [first nameLabel lbl name value].
    rewrite bool_decide_eq_false_2 by done. by rewrite first_app, Hw.
Qed.

Lemma appendDto_ok ts t mName shared mType m :
  Forall (series_ok t mName shared) ts →
  ∃ new, appendDtoToTimeseries ts t mName shared mType m = ts ++ new ∧
    Forall (series_ok t mName shared) new.
Proof.
  intros Hts. unfold Labels.appendDtoToTimeseries.
  assert (Hno : ∃ new, ts = ts ++ new ∧ Forall (series_ok t mName shared) new).
  { exists []. by rewrite app_nil_r. }
  assert (H0 : ∀ v rest, series_ok t mName shared (makeTimeseries t v (nameLabel mName :: shared ++ rest))).
  { intros v rest.
    pose proof (makeTimeseries_ok t mName EmptyString shared rest v ltac:(left)) as H.
    by rewrite empty_app in H. }
  assert (Hsc : ∀ o : option (option float), ∃ new,
    match o with
    | Some (Some v) => ts ++ [makeTimeseries t v (nameLabel mName :: shared ++
        map (λ l, lbl (name l) (truncateLabelValue (value l))) (m_Label m))]
    | _ => ts end = ts ++ new ∧ Forall (series_ok t mName shared) new).
  { intros [[v|]|]; [|done..]. eexists. split; [done|]. by apply Forall_singleton. }
  destruct mType; try apply Hsc.
  - destruct (m_Summary m) as [su|]; [|done]. eexists. split; [done|].
    repeat (apply Forall_cons; split; [apply makeTimeseries_ok; set_solver|]).
    apply Forall_map, Forall_forall. intros q _. rewrite <-app_assoc. apply H0.
  - destruct (m_Histogram m) as [h|]; [|done]. destruct (hi_Buckets h) as [b|]; [|done].
    eexists. split; [done|].
    repeat (apply Forall_cons; split; [apply makeTimeseries_ok; set_solver|]).
    apply Forall_app. split.
    + apply Forall_map, Forall_forall. intros q _. rewrite <-app_assoc.
      apply makeTimeseries_ok. set_solver.
    + apply Forall_singleton. rewrite <-app_assoc. apply makeTimeseries_ok. set_solver.
Qed.

Lemma appendDto_app ts t mName shared mType m :
  appendDtoToTimeseries ts t mName shared mType m =
  ts ++ appendDtoToTimeseries [] t mName shared mType m.
Proof.
  unfold Labels.appendDtoToTimeseries.
  destruct mType; repeat case_match; rewrite ?app_nil_r; done.
Qed.

(** The labels shared by the series of a family. *)
Definition sharedOf (executionLabels : list labelPair) (mName : string) : list labelPair :=
  if bool_decide (mName = CheckInfoMetricName) then []
  else map (λ l, lbl (name l) (truncateLabelValue (value l))) executionLabels.

(** Every time series that is pushed has distinct label names, the metric's
    name (or its _sum, _count or _bucket) as __name__, one sample at the time of
    the run, and - sm_check_info apart - every execution label with the agent's
    or the user's value: no label of the metric itself can replace it. *)
Theorem series_labels t metrics executionLabels :
  Forall (λ ts, ∃ mf, mf ∈ metrics ∧
            series_ok t (mf_Name mf) (sharedOf executionLabels (mf_Name mf)) ts)
    (extractTimeseries t metrics executionLabels).
Proof.
  unfold Labels.extractTimeseries.
  assert (Hgen : ∀ done todo ts, metrics = done ++ todo →
    Forall (λ ts, ∃ mf, mf ∈ metrics ∧
      series_ok t (mf_Name mf) (sharedOf executionLabels (mf_Name mf)) ts) ts →
    Forall (λ ts, ∃ mf, mf ∈ metrics ∧
      series_ok t (mf_Name mf) (sharedOf executionLabels (mf_Name mf)) ts)
    (foldl (λ ts mf,
      let shared := if bool_decide (mf_Name mf = CheckInfoMetricName) then []
                    else map (λ l, lbl (name l) (truncateLabelValue (value l))) executionLabels in
      foldl (λ ts m, appendDtoToTimeseries ts t (mf_Name mf) shared (mf_Type mf) m)
        ts (mf_Metric mf)) ts todo)); [|by apply (Hgen [])].
  intros dn todo. revert dn. induction todo as [|mf todo IH]; intros dn ts E Hts; [done|].
  cbn [foldl]. apply (IH (dn ++ [mf])); [by rewrite <-app_assoc|].
  fold (sharedOf executionLabels (mf_Name mf)).
  assert (Hin : mf ∈ metrics) by (rewrite E; set_solver). clear IH E. revert ts Hts.
  induction (mf_Metric mf) as [|m ms IHm]; intros ts Hts; [done|].
  cbn [foldl]. apply IHm.
  destruct (appendDto_ok [] t (mf_Name mf) (sharedOf executionLabels (mf_Name mf)) (mf_Type mf) m)
    as (new & En & Hnew); [constructor|].
  rewrite appendDto_app, En. apply Forall_app. split; [done|].
  eapply Forall_impl; [exact Hnew|]. eauto.
Qed.

End series.

(** ** How many labels there are *)

Lemma length_addUnique seen l : (length (addUnique seen l) ≤ length l)%nat.
Proof.
  revert seen. induction l as [|p l IH]; intros seen; simpl; [lia|].
  case_bool_decide; simpl; [specialize (IH seen)|specialize (IH ({[name p]} ∪ seen))]; lia.
Qed.

Lemma length_foldl_push l acc : length (foldl push acc l).2 = (length acc.2 + length l)%nat.
Proof. revert acc. induction l as [|p l IH]; intros acc; simpl; [lia|]. rewrite IH. simpl. rewrite length_app. simpl. lia. Qed.

Lemma length_foldl_overwrite l acc : (length (foldl overwrite acc l).2 ≤ length acc.2 + length l)%nat.
Proof.
  revert acc. induction l as [|p l IH]; intros acc; simpl; [lia|]. rewrite IH. unfold overwrite.
  destruct (acc.1 !! name p); simpl; [rewrite length_alter; lia|]. rewrite length_app. simpl. lia.
Qed.

Lemma length_mergeUserLabels pl cl : (length (mergeUserLabels pl cl) ≤ length pl + length cl)%nat.
Proof. unfold mergeUserLabels. rewrite length_foldl_overwrite, length_foldl_push, !length_map. simpl. lia. Qed.

Lemma length_mergeLogLabels sys l : (length (mergeLogLabels sys l) ≤ length sys + length l)%nat.
Proof. unfold mergeLogLabels. rewrite length_foldl_overwrite, length_foldl_push. simpl. lia. Qed.

Lemma length_buildUserLabels pl cl mode :
  (length (buildUserLabels pl cl mode) ≤
   (if (mode =? LABEL_MODE_DUAL_WRITE)%Z then 2 else 1) * (length pl + length cl))%nat.
Proof.
  unfold buildUserLabels. pose proof (length_mergeUserLabels pl cl).
  assert (length (unreserved (mergeUserLabels pl cl)) ≤ length (mergeUserLabels pl cl))%nat by apply length_filter.
  destruct (mode =? LABEL_MODE_DUAL_WRITE); [|destruct (mode =? LABEL_MODE_UNPREFIXED)];
    rewrite ?length_app, ?length_map; lia.
Qed.

Lemma size_foldl_insert (l : list labelPair) (m : gmap string string) :
  (size (foldl (λ m l, <[name l := value l]> m) m l) ≤ size m + length l)%nat.
Proof.
  revert m. induction l as [|p l IH]; intros m; simpl; [lia|]. rewrite IH.
  rewrite map_size_insert. destruct (m !! name p); simpl; lia.
Qed.

(** The labels of users: those of the probe and of the check. *)
Definition userLabelCount (s : scraperConfig) : Z := llen (p_Labels (probe s)) + llen (Labels (check s)).

Lemma size_checkInfo geohashEncode s mode :
  Z.of_nat (size (buildCheckInfoLabels geohashEncode s
    (buildUserLabels (p_Labels (probe s)) (Labels (check s)) mode) (sysMetricLabels s) mode)) ≤
  (if mode =? LABEL_MODE_DUAL_WRITE then 2 else 1) * userLabelCount s + MaxAgentCheckInfoLabels.
Proof.
  unfold buildCheckInfoLabels, appendUniqueLabels, userLabelCount, llen, MaxAgentCheckInfoLabels, maxAgentCheckInfoLabels.
  match goal with |- context [foldl _ ∅ (addUnique ∅ ?l)] => set (all := l) end.
  pose proof (size_foldl_insert (addUnique ∅ all) ∅) as H1. rewrite map_size_empty in H1.
  pose proof (length_addUnique ∅ all) as H2.
  pose proof (length_buildUserLabels (p_Labels (probe s)) (Labels (check s)) mode) as H3.
  assert (H4 : (length all ≤ length (buildUserLabels (p_Labels (probe s)) (Labels (check s)) mode) + 9)%nat).
  { unfold all. rewrite !length_app. destruct (_ && _); simpl; lia. }
  destruct (mode =? LABEL_MODE_DUAL_WRITE); lia.
Qed.

Lemma length_logLabels s mode :
  llen (logLabels s mode) ≤ (if mode =? LABEL_MODE_DUAL_WRITE then 2 else 1) * userLabelCount s + 6.
Proof.
  unfold logLabels, llen, userLabelCount.
  pose proof (length_mergeLogLabels (sysLogLabels s mode) (buildUserLabels (p_Labels (probe s)) (Labels (check s)) mode)) as H1.
  pose proof (length_buildUserLabels (p_Labels (probe s)) (Labels (check s)) mode) as H2. simpl in H1. unfold llen.
  destruct (mode =? LABEL_MODE_DUAL_WRITE); lia.
Qed.

(** C34: what the numbers of labels that the agent publishes promise. A tenant whose limit
    leaves room for its users' labels and the agent's never has a run refused for its
    labels, unless it is in dual-write mode with more labels than Mimir takes twice. None
    of its log labels spill into the metadata when its limit of those leaves room for the
    labels of its users - for twice as many in dual-write mode, which has them under two
    names - and the agent's. And in every mode a log stream stays within the limit of the
    tenant, and an execution metric gets four labels of the agent besides those of its
    users. *)
Theorem label_limits geohashEncode s mode maxMetricLabels maxLogLabels successValue executionID :
  (userLabelCount s + MaxAgentCheckInfoLabels ≤ maxMetricLabels →
   mode ≠ LABEL_MODE_DUAL_WRITE ∨ 2 * userLabelCount s + MaxAgentCheckInfoLabels ≤ mimirMaxLabelsIngest →
   is_Some (checkInfoLabels geohashEncode s mode maxMetricLabels)) ∧
  llen (executionMetricLabels s mode) ≤ userLabelCount s + 4 ∧
  ((if decide (mode = LABEL_MODE_DUAL_WRITE) then 2 else 1) * userLabelCount s + MaxAgentLogLabels ≤ maxLogLabels →
   splitLogLabels (logLabels s mode) maxLogLabels successValue executionID =
   Ret (logLabels s mode ++ [lbl "probe_success" successValue], [lbl "execution_id" executionID])) ∧
  (1 ≤ maxLogLabels →
   ∃ stream metadata, splitLogLabels (logLabels s mode) maxLogLabels successValue executionID = Ret (stream, metadata) ∧
     llen stream ≤ maxLogLabels).
Proof.
  assert (H0 : 0 ≤ userLabelCount s) by (unfold userLabelCount, llen; lia). split_and!.
  - intros Hmax Hmode. unfold checkInfoLabels. pose proof (size_checkInfo geohashEncode s mode) as Hs.
    destruct (Z.ltb_spec (if mode =? LABEL_MODE_DUAL_WRITE then Z.min (maxMetricLabels * 2) mimirMaxLabelsIngest
      else maxMetricLabels) (Z.of_nat (size (buildCheckInfoLabels geohashEncode s
        (buildUserLabels (p_Labels (probe s)) (Labels (check s)) mode) (sysMetricLabels s) mode)))) as [Hlt|_]; [|by eexists].
    exfalso. destruct (Z.eqb_spec mode LABEL_MODE_DUAL_WRITE) as [E|E].
    + destruct Hmode as [?|Hmode]; [done|]. unfold MaxAgentCheckInfoLabels, maxAgentCheckInfoLabels in *. lia.
    + lia.
  - unfold executionMetricLabels, appendUniqueLabels, llen, userLabelCount.
    pose proof (length_addUnique ∅ (customMetricLabels (p_Labels (probe s)) (Labels (check s)) mode ++ sysMetricLabels s)) as Hl.
    rewrite length_app in Hl. simpl in Hl. unfold customMetricLabels in *.
    pose proof (length_buildUserLabels (p_Labels (probe s)) (Labels (check s)) LABEL_MODE_UNPREFIXED) as Hu. simpl in Hu.
    unfold llen. destruct (mode =? LABEL_MODE_PREFIXED); simpl in *; lia.
  - intros Hmax. pose proof (length_logLabels s mode) as Hl. unfold splitLogLabels.
    destruct (Z.eqb_spec mode LABEL_MODE_DUAL_WRITE), (decide (mode = LABEL_MODE_DUAL_WRITE)); try done.
    all: destruct (Z.ltb_spec (maxLogLabels - 1) (llen (logLabels s mode))) as [Hlt|_]; [|done];
      unfold MaxAgentLogLabels, maxAgentLogLabels in Hmax; lia.
  - intros Hmax. unfold splitLogLabels. destruct (Z.ltb_spec (maxLogLabels - 1) (llen (logLabels s mode))) as [Hlt|Hge].
    + destruct (Z.ltb_spec (maxLogLabels - 1) 0); [lia|]. eexists _, _. split; [done|].
      unfold llen in *. rewrite length_app, length_take. simpl. lia.
    + eexists _, _. split; [done|]. unfold llen in *. rewrite length_app. simpl. lia.
Qed.

(** ** Examples and witnesses *)

Definition example_probe (labels : list Label) : Probe :=
  {| p_Id := 1; p_TenantId := 1; p_Name := "probe1"; p_Latitude := S754_zero false;
     p_Longitude := S754_zero false; p_Labels := labels; p_Region := "eu"; p_Public := true;
     p_Version := EmptyString; p_Created := S754_zero false; p_Modified := S754_zero false; p_Capabilities := None |}.
Definition example_config (alert : string) (probeLabels checkLabels : list Label) : scraperConfig :=
  {| checkName := "ping";
     check := {| Id := 1; TenantId := 1; Frequency := 1000; Offset := 0; Timeout := 1000;
                 Enabled := true; Labels := checkLabels; Settings := instanceSettings CheckTypePing;
                 Probes := [1]; Target := loopbackIPv4; Job := "job"; BasicMetricsOnly := false;
                 AlertSensitivity := alert; Created := S754_zero false;
                 Modified := S754_zero false |};
     probe := example_probe probeLabels |}.
Definition ulabel (n v : string) : Label := {| l_Name := n; l_Value := v |}.

(** [alert_sensitivity] is not a reserved name: a user label replaces the
    sensitivity of the check in sm_check_info. *)
Lemma alert_sensitivity_not_reserved :
  IsSystemLabel "alert_sensitivity" = false ∧
  (checkInfoLabels (λ _ _, EmptyString)
     (example_config "high" [] [ulabel "alert_sensitivity" "low"]) LABEL_MODE_UNPREFIXED 22
     ≫= λ m, m !! "alert_sensitivity"%string) = Some "low"%string.
Proof. split; by vm_compute. Qed.

(** In dual-write mode the user labels foo and label_foo both claim label_foo:
    sm_check_info gets the value of foo, the log stream that of label_foo. *)
Lemma dual_write_collision :
  let s := example_config "none" [] [ulabel "foo" "1"; ulabel "label_foo" "2"] in
  (checkInfoLabels (λ _ _, EmptyString) s LABEL_MODE_DUAL_WRITE 22
     ≫= λ m, m !! "label_foo"%string) = Some "1"%string ∧
  first (logLabels s LABEL_MODE_DUAL_WRITE) "label_foo" = Some "2"%string.
Proof. split; by vm_compute. Qed.

(** Quotes in values are not escaped: two label sets have the same selector. *)
Lemma fmtLabels_ambiguous :
  let q := quoteStr in
  fmtLabels [lbl "a" ("1" +:+ q +:+ ",b=" +:+ q +:+ "2")] = fmtLabels [lbl "a" "1"; lbl "b" "2"].
Proof. by vm_compute. Qed.

Definition example_labels : list Label := [ulabel "job" "mine"; ulabel "team" "a"].

Lemma execution_labels_witness :
  first (executionMetricLabels (example_config "none" [ulabel "team" "b"] example_labels)
           LABEL_MODE_UNPREFIXED) "team" = Some "a"%string.
Proof.
  destruct (execution_labels (example_config "none" [ulabel "team" "b"] example_labels)
    LABEL_MODE_UNPREFIXED) as [_ H].
  - constructor; [apply not_elem_of_nil|constructor].
  - rewrite H. reflexivity.
Defined.

Lemma log_labels_witness :
  first (logLabels (example_config "none" [] example_labels) LABEL_MODE_UNPREFIXED) "job" =
    Some "job"%string ∧
  first (logLabels (example_config "none" [] example_labels) LABEL_MODE_UNPREFIXED) "team" =
    Some "a"%string.
Proof.
  destruct (log_labels (example_config "none" [] example_labels) LABEL_MODE_UNPREFIXED)
    as (_ & _ & H1 & H2); [constructor|].
  split.
  - apply (H1 (lbl "job" "job")). do 3 right. left.
  - rewrite H2; [reflexivity|discriminate|]. apply first_None. reflexivity.
Defined.

Lemma splitLogLabels_spec_witness :
  ∃ st md, splitLogLabels [lbl "a" "1"; lbl "b" "2"; lbl "c" "3"] 3 "1" "id" =
      Ret (st ++ [lbl "probe_success" "1"], md ++ [lbl "execution_id" "id"]) ∧
    st ++ md = [lbl "a" "1"; lbl "b" "2"; lbl "c" "3"] ∧ llen st + 1 ≤ 3 ∧
    (md ≠ [] → llen st + 1 = 3).
Proof. apply splitLogLabels_spec. reflexivity. Defined.

Lemma check_info_labels_witness :
  ∃ m, checkInfoLabels (λ _ _, EmptyString) (example_config "none" [] example_labels)
         LABEL_MODE_UNPREFIXED 22 = Some m ∧ m !! "job"%string = Some "job"%string.
Proof.
  eexists. split; [reflexivity|].
  destruct (check_info_labels (λ _ _, EmptyString) (example_config "none" [] example_labels)
    LABEL_MODE_UNPREFIXED 22 _ ltac:(constructor) eq_refl) as (_ & H & _).
  apply (H (lbl "job" "job")). do 7 right. left.
Defined.

(** The numbers are reached: nine labels of sm_check_info are the agent's. *)
Definition numbered (n : nat) : list Label := map (λ i, ulabel ("l" +:+ itoa (Z.of_nat i)) "v") (seq 0 n).
Lemma label_limits_witness :
  let s := example_config "high" [ulabel "a" "1"] (numbered 12) in
  userLabelCount s = 13 ∧
  is_Some (checkInfoLabels (λ _ _, EmptyString) s LABEL_MODE_DUAL_WRITE 22) ∧
  size <$> checkInfoLabels (λ _ _, EmptyString) s LABEL_MODE_UNPREFIXED 22 = Some 22%nat ∧
  splitLogLabels (logLabels s LABEL_MODE_PREFIXED) 20 "1" "id" =
    Ret (logLabels s LABEL_MODE_PREFIXED ++ [lbl "probe_success" "1"], [lbl "execution_id" "id"]).
Proof.
  intros s. split; [reflexivity|].
  destruct (label_limits (λ _ _, EmptyString) s LABEL_MODE_DUAL_WRITE 22 15 "1" "id") as (Hd & _).
  destruct (label_limits (λ _ _, EmptyString) s LABEL_MODE_PREFIXED 22 20 "1" "id") as (_ & _ & Hp & _).
  split; [apply Hd; [|right]; vm_compute; discriminate|].
  split; [vm_compute; reflexivity|]. apply Hp. vm_compute. discriminate.
Defined.

(** In dual-write mode a tenant with room for 25 labels cannot use them: with sixteen
    labels of its users no check runs, although in the other modes all do. *)
Lemma dual_write_refuses_allowed_labels :
  let s := example_config "high" [] (numbered 16) in
  userLabelCount s + MaxAgentCheckInfoLabels = 25 ∧
  checkInfoLabels (λ _ _, EmptyString) s LABEL_MODE_DUAL_WRITE 25 = None ∧
  is_Some (checkInfoLabels (λ _ _, EmptyString) s LABEL_MODE_UNPREFIXED 25).
Proof. split; [by vm_compute|]. split; [by vm_compute|]. vm_compute. by eexists. Qed.
