(* ===== verification/Scrape.v ===== *)
(** * The life of a scraper

    [Scraper.Run], [tickWithOffset], [scrapeHandler] and [checkStateMachine] of
    [internal/scraper/scraper.go].

    The loop of [tickWithOffset] is driven by events: the end of the context, the
    stop channel and the three timers.  It calls [work], [idle] and [cleanup] of
    the handler, which publishes payloads.  Times are in nanoseconds.  The
    publisher encodes a payload before [Publish] returns, so what is published is
    the payload's value at that moment. *)
From S2P Require Import Prelude Strs Checks Labels.

Open Scope Z_scope.

(** ** The state machine of a check *)

Record checkStateMachine := { passes : Z; failures : Z; threshold : Z }.

Definition isPassing (sm : checkStateMachine) : bool := threshold sm <? passes sm.
Definition isFailing (sm : checkStateMachine) : bool := threshold sm <? failures sm.

(** [fail] and [pass]: the new state, and whether the callback is called. *)
Definition fail (sm : checkStateMachine) : checkStateMachine * bool :=
  let sm' := {| passes := 0; failures := wrap64 (failures sm + 1); threshold := threshold sm |} in
  (sm', negb (eqb (isFailing sm') (isFailing sm))).
Definition pass (sm : checkStateMachine) : checkStateMachine * bool :=
  let sm' := {| passes := wrap64 (passes sm + 1); failures := 0; threshold := threshold sm |} in
  (sm', negb (eqb (isPassing sm') (isPassing sm))).

(** ** [tickWithOffset] *)

Definition maxPublishInterval : Z := 2 * 60 * 1000000000.
Definition minPublishGap : Z := 10 * 1000000000.

(** [time.Time.Sub] saturates. *)
Definition sub (t u : Z) : Z := Z.max minInt64 (Z.min maxInt64 (t - u)).

(** [ms(n)]: the multiplication wraps around. *)
Definition ms (n : Z) : Z := wrap64 (n * 1000000).

(** The offset of [Run]: [rnd] is what [rand.Int63n(d)] draws, for [0 < d]. *)
Definition initialOffset (frequency offset : Z) (rnd : Z → Z) : go Z :=
  if offset =? 0 then
    let d := Z.min frequency maxPublishInterval in
    if d <=? 0 then Panic "invalid argument to Int63n" else Ret (rnd d)
  else Ret offset.

Inductive event := CtxDone | StopClosed | OffsetTimer (t : Z) | InactivityTicker (t : Z)
  | WorkTicker (t : Z).
Inductive action := Work (t : Z) | Idle (t : Z) | Cleanup (t : Z).

(** Waiting for the offset, in the loop with [lastTick], or returned. *)
Inductive phase := Waiting | Ticking (lastTick : Z) | Returned.

#[export] Instance phase_eq_dec : EqDecision phase.
Proof. solve_decision. Defined.

(** One [select]: events that are not offered in a phase do nothing.  The time of a
    timer is never the zero time. *)
Definition tick (period maxIdle minGap : Z) (ph : phase) (ev : event) : phase * list action :=
  match ph, ev with
  | Waiting, (CtxDone | StopClosed) => (Returned, [])
  | Waiting, OffsetTimer t => (Ticking t, [Work t])
  | Waiting, _ => (Waiting, [])
  | Ticking lastTick, CtxDone => (Returned, [])
  | Ticking lastTick, StopClosed => (Returned, [Cleanup lastTick])
  | Ticking lastTick, InactivityTicker t =>
      (Ticking lastTick,
       if (maxIdle <? period) && (minGap <=? sub t lastTick) &&
          (minGap <=? sub (lastTick + period) t)
       then [Idle t] else [])
  | Ticking lastTick, WorkTicker t => (Ticking t, [Work t])
  | Ticking lastTick, OffsetTimer _ => (Ticking lastTick, [])
  | Returned, _ => (Returned, [])
  end.

(** The whole call; [time.NewTicker(period)] panics for a period that is not
    positive, after the first [work]. *)
Fixpoint ticks (period maxIdle minGap : Z) (ph : phase) (evs : list event) : phase * list action :=
  match evs with
  | [] => (ph, [])
  | ev :: evs =>
      let '(ph, now) := tick period maxIdle minGap ph ev in
      let '(ph, later) := ticks period maxIdle minGap ph evs in
      (ph, now ++ later)
  end.
Definition tickWithOffset (period maxIdle minGap : Z) (evs : list event)
    : go (phase * list action) :=
  let r := ticks period maxIdle minGap Waiting evs in
  match r.2 with
  | [] => Ret r
  | _ => if period <=? 0 then Panic "non-positive interval for NewTicker" else Ret r
  end.

(** ** [scrapeHandler] *)

Section handler.
Context {float Stream : Type}.
Variable staleMarker : float.

Record probeData := {
  tenantId : Z;
  ts : list (@TimeSeries float);
  streams : list Stream;
}.

(** What [collectData] returns: no data and an error, or data with nil or
    errCheckFailed, and the duration. *)
Inductive collected :=
  | CollectError
  | Collected (d : probeData) (checkFailed : bool) (duration : Z).

Record scrapeHandler := {
  payload : option probeData;
  state : checkStateMachine;
  scrapes : Z; checkErrors : Z; collectorErrors : Z;   (** the metrics *)
  executions : list Z;                                 (** AddExecution *)
  published : list probeData;                          (** Publish, latest first *)
}.

Definition scrape (c : collected) (h : scrapeHandler) : scrapeHandler :=
  match c with
  | CollectError =>
      {| payload := None; state := state h; scrapes := scrapes h + 1;
         checkErrors := checkErrors h; collectorErrors := collectorErrors h + 1;
         executions := executions h; published := published h |}
  | Collected d failed duration =>
      {| payload := Some d;
         state := if failed then (fail (state h)).1 else (pass (state h)).1;
         scrapes := scrapes h + 1;
         checkErrors := if failed then checkErrors h + 1 else checkErrors h;
         collectorErrors := collectorErrors h;
         executions := duration :: executions h; published := d :: published h |}
  end.

Definition withPayload (p : option probeData) (out : probeData) (h : scrapeHandler)
    : scrapeHandler :=
  {| payload := p; state := state h; scrapes := scrapes h; checkErrors := checkErrors h;
     collectorErrors := collectorErrors h; executions := executions h;
     published := out :: published h |}.

(** Every sample of the payload rewritten, and no logs. *)
Definition resample (f : @Sample float → @Sample float) (d : probeData) : probeData :=
  {| tenantId := tenantId d;
     ts := map (λ s, {| ts_Labels := ts_Labels s; Samples := map f (Samples s) |}) (ts d);
     streams := [] |}.

Definition republish (t : Z) (h : scrapeHandler) : scrapeHandler :=
  match payload h with
  | None => h
  | Some d =>
      let d' := resample (λ s, {| Timestamp := t / 1000000; Value := Value s |}) d in
      withPayload (Some d') d' h
  end.

Definition cleanup (t : Z) (h : scrapeHandler) : scrapeHandler :=
  match payload h with
  | None => h
  | Some d =>
      let staleSample := {| Timestamp := wrap64 (t ÷ 1000000 + 1); Value := staleMarker |} in
      withPayload None (resample (λ _, staleSample) d) h
  end.

(** An action; a [work] at [t] collects [collect t]. *)
Definition act (collect : Z → collected) (h : scrapeHandler) (a : action) : scrapeHandler :=
  match a with
  | Work t => scrape (collect t) h
  | Idle t => republish t h
  | Cleanup t => cleanup t h
  end.

Definition newHandler : scrapeHandler :=
  {| payload := None; state := {| passes := 0; failures := 0; threshold := 0 |};
     scrapes := 0; checkErrors := 0; collectorErrors := 0; executions := []; published := [] |}.

(** [Run]: the handler after the events, whatever the offset. *)
Definition Run (frequency : Z) (collect : Z → collected) (evs : list event)
    : go (phase * scrapeHandler) :=
  '(ph, actions) ← tickWithOffset (ms frequency) maxPublishInterval minPublishGap evs;
  Ret (ph, foldl (act collect) newHandler actions).

(** ** Properties *)

(** The time of the last [work]. *)
Definition lastWork (l : list action) : option Z :=
  foldl (λ acc a, match a with Work t => Some t | _ => acc end) None l.

(** The order of the calls: nothing, or a [work] followed by [work]s and [idle]s,
    each [idle] at least [minGap] after the last [work] and before the next one is
    due, and at most one [cleanup], at the end, for the last [work]. *)
Inductive protocol (period minGap : Z) : list action → Prop :=
  | protocol_nil : protocol period minGap []
  | protocol_work l t : protocol period minGap l → protocol period minGap (l ++ [Work t])
  | protocol_idle l t w :
      protocol period minGap l → lastWork l = Some w →
      minGap ≤ sub t w → minGap ≤ sub (w + period) t →
      protocol period minGap (l ++ [Idle t]).

Lemma lastWork_snoc l a :
  lastWork (l ++ [a]) = match a with Work t => Some t | _ => lastWork l end.
Proof. unfold lastWork. by rewrite foldl_app. Qed.

Definition phaseOf (l : list action) : phase :=
  match lastWork l with Some w => Ticking w | None => Waiting end.

Lemma ticks_app period maxIdle minGap ph evs1 evs2 :
  ticks period maxIdle minGap ph (evs1 ++ evs2) =
  let '(ph1, a1) := ticks period maxIdle minGap ph evs1 in
  let '(ph2, a2) := ticks period maxIdle minGap ph1 evs2 in (ph2, a1 ++ a2).
Proof.
  revert ph. induction evs1 as [|ev evs1 IH]; intros ph; simpl.
  { by destruct (ticks period maxIdle minGap ph evs2). }
  destruct (tick period maxIdle minGap ph ev) as [ph0 a0]. rewrite IH.
  destruct (ticks period maxIdle minGap ph0 evs1) as [ph1 a1].
  destruct (ticks period maxIdle minGap ph1 evs2) as [ph2 a2]. by rewrite app_assoc.
Qed.

(** Before it returns, the loop follows the protocol; then it stops acting. *)
Lemma ticks_protocol period maxIdle minGap evs ph l :
  ticks period maxIdle minGap Waiting evs = (ph, l) →
  (ph ≠ Returned → protocol period minGap l ∧ ph = phaseOf l) ∧
  (ph = Returned →
     protocol period minGap l ∨
     ∃ l' w, l = l' ++ [Cleanup w] ∧ protocol period minGap l' ∧ lastWork l' = Some w ∧
             StopClosed ∈ evs).
Proof.
  revert ph l. induction evs as [|ev evs IH] using rev_ind; intros ph l.
  { intros [= <- <-]. split; [|done]. intros _. split; [constructor|done]. }
  rewrite ticks_app. destruct (ticks period maxIdle minGap Waiting evs) as [ph1 l1] eqn:E1.
  destruct (IH _ _ eq_refl) as [H1 H2].
  cbn [ticks]. destruct (tick period maxIdle minGap ph1 ev) as [ph2 a2] eqn:E2.
  rewrite app_nil_r. intros [= <- <-].
  destruct (decide (ph1 = Returned)) as [->|Hne].
  { simpl in E2. injection E2 as <- <-. rewrite app_nil_r. split; [done|]. intros _.
    destruct (H2 eq_refl) as [?|(l' & w & -> & ? & ? & ?)]; [by left|right].
    exists l', w. split_and!; try done. set_solver. }
  destruct (H1 Hne) as [Hp ->]. unfold phaseOf in E2.
  destruct (lastWork l1) as [w|] eqn:Ew; destruct ev as [| |t|t|t]; simpl in E2;
    injection E2 as <- <-; rewrite ?app_nil_r.
  - split; [done|]. by left.
  - split; [done|]. right. exists l1, w. split_and!; try done. set_solver.
  - split; [|done]. intros _. split; [done|]. unfold phaseOf. by rewrite Ew.
  - split; [|by case_match]. intros _.
    destruct ((maxIdle <? period) && (minGap <=? sub t w) && (minGap <=? sub (w + period) t)) eqn:Eb.
    + apply andb_true_iff in Eb as [Eb Hb2]. apply andb_true_iff in Eb as [_ Hb1].
      apply Z.leb_le in Hb1, Hb2. split; [by eapply protocol_idle|].
      unfold phaseOf. by rewrite lastWork_snoc, Ew.
    + rewrite app_nil_r. split; [done|]. unfold phaseOf. by rewrite Ew.
  - split; [|done]. intros _. split; [by apply protocol_work|]. unfold phaseOf. by rewrite lastWork_snoc.
  - split; [done|]. by left.
  - split; [done|]. by left.
  - split; [|done]. intros _. split; [by apply protocol_work|]. unfold phaseOf. by rewrite lastWork_snoc.
  - split; [|done]. intros _. split; [done|]. unfold phaseOf. by rewrite Ew.
  - split; [|done]. intros _. split; [done|]. unfold phaseOf. by rewrite Ew.
Qed.

(** C30: tickWithOffset calls work first, and then work at each tick, idle only
    between two runs and at least minGap away from both, and cleanup at most
    once, last, after the stop channel was closed and for the last run; a
    cancelled context ends it without cleanup. *)
Theorem tick_protocol period maxIdle minGap evs ph l :
  tickWithOffset period maxIdle minGap evs = Ret (ph, l) →
  protocol period minGap l ∨
  ∃ l' w, l = l' ++ [Cleanup w] ∧ protocol period minGap l' ∧ lastWork l' = Some w ∧
          ph = Returned ∧ StopClosed ∈ evs.
Proof.
  unfold tickWithOffset. destruct (ticks period maxIdle minGap Waiting evs) as [ph' l''] eqn:E.
  destruct (ticks_protocol _ _ _ _ _ _ E) as [H1 H2]. intros Hr.
  assert ((ph', l'') = (ph, l)) as [= -> ->].
  { simpl in Hr. destruct l''; [congruence|]. destruct (period <=? 0); congruence. }
  destruct (decide (ph = Returned)) as [Hp|Hp].
  - destruct (H2 Hp) as [?|(l' & w & ? & ? & ? & ?)]; [by left|right]. exists l', w. by split_and!.
  - left. by apply H1.
Qed.

Lemma resample_resample f g d : resample f (resample g d) = resample (λ s, f (g s)) d.
Proof.
  unfold resample. cbn [ts tenantId]. f_equal. rewrite map_map. apply map_ext. intros s.
  cbn [ts_Labels Samples]. f_equal. by rewrite map_map.
Qed.

(** What the handler keeps between two calls: the data of the last run, up to the
    time stamps. *)
Lemma handler_payload period minGap collect l w :
  protocol period minGap l → lastWork l = Some w →
  let h := foldl (act collect) newHandler l in
  match collect w with
  | CollectError => payload h = None
  | Collected d _ _ =>
      payload h = Some d ∨ ∃ t, payload h =
        Some (resample (λ s, {| Timestamp := t / 1000000; Value := Value s |}) d)
  end.
Proof.
  intros Hp. revert w. induction Hp as [|l t Hp IH|l t w0 Hp IH Hw0 _ _]; intros w; [done| |];
    rewrite lastWork_snoc, foldl_app.
  - intros [= ->]. cbn [foldl act]. unfold scrape. destruct (collect w); simpl; [done|by left].
  - intros Hw. specialize (IH w Hw). cbn [foldl act]. unfold republish.
    destruct (collect w) as [|d failed dur].
    + simpl in IH |- *. by rewrite IH.
    + destruct IH as [-> | [t' ->]]; cbn [withPayload payload]; right; exists t; [done|].
      by rewrite resample_resample.
Qed.

(** When a scraper is stopped after a run that produced data, the last thing
    it publishes is that data without logs and with the stale marker as the value
    of every sample, one millisecond after the run; after a run that failed to
    collect, nothing is published, and the series of earlier runs are not marked. *)
Theorem stop_publishes_stale_markers period minGap collect l w :
  protocol period minGap l → lastWork l = Some w →
  let h := foldl (act collect) newHandler l in
  let h' := act collect h (Cleanup w) in
  payload h' = None ∧
  match collect w with
  | CollectError => published h' = published h
  | Collected d _ _ =>
      published h' =
        resample (λ _, {| Timestamp := wrap64 (w ÷ 1000000 + 1); Value := staleMarker |}) d ::
        published h
  end.
Proof.
  intros Hp Hw h h'. pose proof (handler_payload _ _ collect _ _ Hp Hw) as Hh. fold h in Hh.
  unfold h'. cbn [act]. unfold cleanup. destruct (collect w) as [|d failed dur].
  - cbv zeta in Hh. by rewrite Hh.
  - destruct Hh as [-> | [t ->]]; cbn [withPayload payload published]; [done|].
    by rewrite resample_resample.
Qed.

(** A scraper that is stopped after it republished (period above two
    minutes) publishes stale markers that are older than the samples it published
    last, by the time since the last run: the series are not ended. *)
Theorem stale_markers_after_republish period collect l t w d failed dur :
  protocol period minPublishGap (l ++ [Idle t]) → lastWork l = Some w →
  0 ≤ w → t ≤ maxInt64 → collect w = Collected d failed dur →
  let h := foldl (act collect) newHandler (l ++ [Idle t]) in
  let h' := act collect h (Cleanup w) in
  ∃ fresh stale rest, published h' = stale :: fresh :: rest ∧
    Forall (λ s, Forall (λ x, Timestamp x = t / 1000000) (Samples s)) (ts fresh) ∧
    Forall (λ s, Forall (λ x, Value x = staleMarker ∧
                              Timestamp x < t / 1000000) (Samples s)) (ts stale).
Proof.
  intros Hp Hw Hw0 Ht Hc h h'.
  assert (Hgap : w + minPublishGap ≤ t).
  { inversion Hp as [E|l0 t0 Hp0 E|l0 t0 w0 Hp0 Hw' Hg1 Hg2 E].
    - by destruct l.
    - apply app_inj_tail in E as [_ E]. done.
    - apply app_inj_tail in E as [-> [= ->]]. rewrite Hw in Hw'. injection Hw' as ->.
      unfold sub, minPublishGap, minInt64, maxInt64 in *. lia. }
  assert (Hp' : protocol period minPublishGap l).
  { inversion Hp as [E|l0 t0 Hp0 E|l0 t0 w0 Hp0 Hw' Hg1 Hg2 E]; [by destruct l| |];
      by apply app_inj_tail in E as [-> _]. }
  assert (Hh : published h' =
    resample (λ _, {| Timestamp := wrap64 (w ÷ 1000000 + 1); Value := staleMarker |}) d ::
    resample (λ s, {| Timestamp := t / 1000000; Value := Value s |}) d ::
    published (foldl (act collect) newHandler l)).
  { unfold h', h. rewrite foldl_app. cbn [foldl act].
    pose proof (handler_payload _ _ collect _ _ Hp' Hw) as Hh. rewrite Hc in Hh.
    unfold republish. destruct Hh as [-> | [t' ->]]; unfold cleanup;
      cbn [withPayload payload published]; rewrite ?resample_resample; done. }
  eexists _, _, _. split; [exact Hh|].
  assert (Hts : wrap64 (w ÷ 1000000 + 1) < t / 1000000).
  { unfold minPublishGap, maxInt64 in *. rewrite wrap64_id.
    - rewrite Z.quot_div_nonneg by lia.
      apply Z.lt_le_trans with (w / 1000000 + 10000); [lia|].
      rewrite <-Z.div_add by lia. apply Z.div_le_mono; lia.
    - unfold int64, minInt64, maxInt64. rewrite Z.quot_div_nonneg by lia.
      pose proof (Z.div_pos w 1000000). pose proof (Z.div_le_upper_bound w 1000000 w). lia. }
  unfold resample. cbn [ts]. split; apply Forall_map, Forall_forall; intros s _;
    cbn [Samples]; apply Forall_map, Forall_forall; intros x _; done.
Qed.

End handler.

(** ** The state machine *)

(** The successes and failures since the last change. *)
Definition results (sm : checkStateMachine) (l : list bool) : checkStateMachine :=
  foldl (λ sm ok, if (ok : bool) then (pass sm).1 else (fail sm).1) sm l.
Fixpoint streak (b : bool) (rev : list bool) : Z :=
  match rev with
  | [] => 0
  | x :: rev => if eqb x b then 1 + streak b rev else 0
  end.

Lemma streak_bound b l : 0 ≤ streak b l ≤ llen l.
Proof.
  unfold llen. induction l as [|x l IH]; simpl; [lia|]. destruct (eqb x b); lia.
Qed.

Lemma results_spec th l :
  llen l < maxInt64 →
  results {| passes := 0; failures := 0; threshold := th |} l =
  {| passes := streak true (reverse l); failures := streak false (reverse l); threshold := th |}.
Proof.
  induction l as [|b l IH] using rev_ind; intros Hl; [done|].
  assert (Hl' : llen l < maxInt64) by (unfold llen in *; rewrite length_app in Hl; simpl in Hl; lia).
  unfold results in *. rewrite foldl_app, IH, reverse_snoc by done. cbn [foldl].
  assert (Hb : ∀ b, 0 ≤ streak b (reverse l) ≤ llen l).
  { intros b'. pose proof (streak_bound b' (reverse l)) as H. unfold llen in *.
    by rewrite length_reverse in H. }
  destruct b; simpl; unfold pass, fail; cbn [fst passes failures threshold];
    rewrite wrap64_id by (pose proof (Hb true); pose proof (Hb false);
      unfold int64, minInt64, maxInt64 in *; lia); f_equal; lia.
Qed.

(** A check is in the FAIL (PASS) state exactly when its last threshold+1
    results are failures (successes), so never in both, and the transition is
    reported once, by the result that completes the streak. *)
Theorem check_state_machine th l :
  0 ≤ th → llen l + 1 < maxInt64 →
  let sm := results {| passes := 0; failures := 0; threshold := th |} l in
  (isFailing sm = true ↔ th < streak false (reverse l)) ∧
  (isPassing sm = true ↔ th < streak true (reverse l)) ∧
  ¬ (isFailing sm = true ∧ isPassing sm = true) ∧
  ((fail sm).2 = true ↔ streak false (reverse l) = th) ∧
  ((pass sm).2 = true ↔ streak true (reverse l) = th).
Proof.
  intros Hth Hl sm. unfold sm. rewrite results_spec by lia.
  pose proof (streak_bound false (reverse l)) as Hf. pose proof (streak_bound true (reverse l)) as Ht.
  unfold llen in Hf, Ht, Hl. rewrite length_reverse in Hf, Ht.
  unfold fail, pass. cbn [fst snd]. unfold isFailing, isPassing. cbn [passes failures threshold].
  rewrite !wrap64_id by (unfold int64, minInt64, maxInt64 in *; lia).
  rewrite !Z.ltb_lt, !negb_true_iff. split_and!; [done|done| | |].
  - intros [H1 H2]. destruct (reverse l) as [|[] r]; simpl in *; lia.
  - rewrite eqb_false_iff. destruct (Z.ltb_spec th (streak false (reverse l) + 1)),
      (Z.ltb_spec th (streak false (reverse l))); split; intros; first [lia|congruence].
  - rewrite eqb_false_iff. destruct (Z.ltb_spec th (streak true (reverse l) + 1)),
      (Z.ltb_spec th (streak true (reverse l))); split; intros; first [lia|congruence].
Qed.

(** A check with a valid frequency runs without panicking; one with frequency 0
    panics after its first run, or before it when its offset is 0. *)
Lemma Run_returns {float Stream} (staleMarker : float) frequency (collect : Z → @collected float Stream)
    evs offset rnd :
  0 < frequency ≤ 3600000 →
  (∃ r, Run staleMarker frequency collect evs = Ret r) ∧
  (∃ d, initialOffset (ms frequency) offset rnd = Ret d) ∧
  (∀ t, Run staleMarker 0 collect [OffsetTimer t] = Panic "non-positive interval for NewTicker") ∧
  initialOffset (ms 0) 0 rnd = Panic "invalid argument to Int63n".
Proof.
  intros Hf. assert (Hms : ms frequency = frequency * 1000000).
  { unfold ms. apply wrap64_id. unfold int64, minInt64, maxInt64. lia. }
  split_and!; [| |done|done].
  - unfold Run, tickWithOffset. rewrite Hms.
    destruct (ticks _ _ _ _ _) as [ph l]. cbn [snd]. destruct l; [by eexists|].
    rewrite (proj2 (Z.leb_gt _ _)) by lia. by eexists.
  - unfold initialOffset. destruct (offset =? 0); [|by eexists].
    rewrite Hms, (proj2 (Z.leb_gt _ _)); [by eexists|]. unfold maxPublishInterval. lia.
Qed.

(** ** Witnesses: a check every five minutes, stopped after a republication *)

Definition sec (n : Z) : Z := n * 1000000000.
Definition example_events : list event :=
  [OffsetTimer (sec 1); WorkTicker (sec 301); InactivityTicker (sec 421); StopClosed].
Definition example_data : @probeData nat nat :=
  {| tenantId := 1;
     ts := [{| ts_Labels := []; Samples := [{| Timestamp := 1000; Value := 7%nat |}] |}];
     streams := [1%nat] |}.

Lemma tick_protocol_witness :
  tickWithOffset (sec 300) maxPublishInterval minPublishGap example_events =
    Ret (Returned, [Work (sec 1); Work (sec 301); Idle (sec 421); Cleanup (sec 301)]) ∧
  (protocol (sec 300) minPublishGap
     [Work (sec 1); Work (sec 301); Idle (sec 421); Cleanup (sec 301)] ∨
   ∃ l' w, [Work (sec 1); Work (sec 301); Idle (sec 421); Cleanup (sec 301)] = l' ++ [Cleanup w] ∧
     protocol (sec 300) minPublishGap l' ∧ lastWork l' = Some w ∧
     Returned = Returned ∧ StopClosed ∈ example_events).
Proof.
  split; [reflexivity|].
  apply (tick_protocol (sec 300) maxPublishInterval minPublishGap example_events). reflexivity.
Defined.

Lemma example_protocol : protocol (sec 300) minPublishGap ([Work (sec 301)] ++ [Idle (sec 421)]).
Proof.
  eapply protocol_idle; [apply (protocol_work _ _ []), protocol_nil|reflexivity|done|done].
Qed.

Lemma stop_publishes_stale_markers_witness :
  let collect := λ _, Collected example_data false 5 in
  let h := foldl (act 0%nat collect) newHandler ([Work (sec 301)] ++ [Idle (sec 421)]) in
  published (act 0%nat collect h (Cleanup (sec 301))) =
    resample (λ _, {| Timestamp := wrap64 (sec 301 ÷ 1000000 + 1); Value := 0%nat |}) example_data ::
    published h.
Proof.
  apply (stop_publishes_stale_markers 0%nat (sec 300) minPublishGap
    (λ _, Collected example_data false 5) ([Work (sec 301)] ++ [Idle (sec 421)]) (sec 301)).
  - exact example_protocol.
  - reflexivity.
Defined.

Lemma stale_markers_after_republish_witness :
  let collect := λ _, Collected example_data false 5 in
  let h := foldl (act 0%nat collect) newHandler ([Work (sec 301)] ++ [Idle (sec 421)]) in
  ∃ fresh stale rest, published (act 0%nat collect h (Cleanup (sec 301))) = stale :: fresh :: rest ∧
    Forall (λ s, Forall (λ x, Timestamp x = sec 421 / 1000000) (Samples s)) (ts fresh) ∧
    Forall (λ s, Forall (λ x, Value x = 0%nat ∧
                              Timestamp x < sec 421 / 1000000) (Samples s)) (ts stale).
Proof.
  apply (stale_markers_after_republish 0%nat (sec 300) (λ _, Collected example_data false 5)
    [Work (sec 301)] (sec 421) (sec 301) example_data false 5).
  - exact example_protocol.
  - reflexivity.
  - done.
  - done.
  - reflexivity.
Defined.

Lemma check_state_machine_witness :
  let sm := results {| passes := 0; failures := 0; threshold := 1 |} [true; false; false] in
  isFailing sm = true ∧ ¬ (isFailing sm = true ∧ isPassing sm = true).
Proof.
  destruct (check_state_machine 1 [true; false; false]) as (H1 & _ & H2 & _); [done|done|].
  split; [|exact H2]. apply H1. reflexivity.
Defined.
