(* ===== verification/Fleet.v ===== *)
(** * The scrapers of an updater, running

    The composition of [Updater] and [Scrape]: the updater starts a goroutine for each
    scraper it makes ([go scraper.Run(ctx)] of [addAndStartScraperWithLock]) and closes the
    stop channel of those it removes; each goroutine goes through [tickWithOffset] with the
    frequency of its check, at its own pace.  Nothing waits for a goroutine to end, so a
    scraper that was stopped may go on beside the one that replaces it.

    A step is one start or stop of the updater, a change of its counters, an event of one
    goroutine, or the end of the context; every batch of changes is a sequence of such
    steps ([batch_steps]), so goroutines also run between the steps of one batch. *)
From stdpp Require Import gmap relations.
From S2P Require Import Prelude Strs Checks Validate Updater Scrape.

Open Scope Z_scope.

(** ** The goroutine of a scraper *)

(** Its check, the events it met, and what came of them. *)
Record goroutine := { gr_check : mCheck; gr_events : list event; gr_phase : phase; gr_actions : list action }.

Definition spawned (check : mCheck) : goroutine :=
  {| gr_check := check; gr_events := []; gr_phase := Waiting; gr_actions := [] |}.

(** One [select] of [tickWithOffset], as [Run] calls it. *)
Definition periodOf (check : mCheck) : Z := ms (Frequency (sm check)).
Definition select_ (ev : event) (g : goroutine) : goroutine :=
  let '(ph, acts) := tick (periodOf (gr_check g)) maxPublishInterval minPublishGap (gr_phase g) ev in
  {| gr_check := gr_check g; gr_events := gr_events g ++ [ev]; gr_phase := ph; gr_actions := gr_actions g ++ acts |}.

Record fleet := { fl_updater : Updater; fl_ctx : bool; fl_goroutines : gmap nat goroutine }.
Definition newFleet : fleet := {| fl_updater := newUpdater; fl_ctx := false; fl_goroutines := ∅ |}.

Section fleet.
Context `{W : Validator}.
Variable recode : Check → option Check.
Variable k6 : bool.
Variable metricsError scraperFactory : mCheck → option string.
Notation addAndStart := (addAndStartScraperWithLock k6 metricsError scraperFactory).

(** ** Steps *)

(** The updater's own steps, with the scraper it starts: [addAndStartScraperWithLock] starts
    one, or refuses the check. *)
Inductive updaterChange (u : Updater) : option (nat * mCheck) → Updater → Prop :=
  | change_stop id s u' : scrapers u !! id = Some s → stopScraper id s u = Ret u' → updaterChange u None u'
  | change_start check u' err p :
      scrapers u !! GlobalID check = None → addAndStart check u = Ret (u', err) →
      started u' = p :: started u → updaterChange u (Some (p, check)) u'
  | change_refused check u' err :
      scrapers u !! GlobalID check = None → addAndStart check u = Ret (u', err) →
      started u' = started u → updaterChange u None u'
  | change_counters u' :
      scrapers u' = scrapers u → started u' = started u → stopped u' = stopped u →
      runningScrapers u' = runningScrapers u → updaterChange u None u'.

(** [go scraper.Run(ctx)]. *)
Definition startGoroutine (new : option (nat * mCheck)) (gs : gmap nat goroutine) : gmap nat goroutine :=
  match new with Some (p, check) => <[p := spawned check]> gs | None => gs end.

Inductive fleet_step : fleet → fleet → Prop :=
  | step_change u new u' ctx gs :
      updaterChange u new u' →
      fleet_step {| fl_updater := u; fl_ctx := ctx; fl_goroutines := gs |}
                 {| fl_updater := u'; fl_ctx := ctx; fl_goroutines := startGoroutine new gs |}
  | step_event u ctx gs p g ev :
      gs !! p = Some g → gr_phase g ≠ Returned →
      (ev = StopClosed → p ∈ stopped u) → (ev = CtxDone → ctx = true) →
      fleet_step {| fl_updater := u; fl_ctx := ctx; fl_goroutines := gs |}
                 {| fl_updater := u; fl_ctx := ctx; fl_goroutines := <[p := select_ ev g]> gs |}
  | step_cancel u ctx gs :
      fleet_step {| fl_updater := u; fl_ctx := ctx; fl_goroutines := gs |}
                 {| fl_updater := u; fl_ctx := true; fl_goroutines := gs |}.

Definition reachable (f : fleet) : Prop := rtc fleet_step newFleet f.

(** ** The invariant *)

(** A goroutine is where its events led it. *)
Record gr_ok (u : Updater) (ctx : bool) (p : nat) (g : goroutine) : Prop := {
  gr_ran : ticks (periodOf (gr_check g)) maxPublishInterval minPublishGap Waiting (gr_events g) = (gr_phase g, gr_actions g);
  gr_stop : StopClosed ∈ gr_events g → p ∈ stopped u;
  gr_done : CtxDone ∈ gr_events g → ctx = true;
  gr_returned : gr_phase g = Returned → StopClosed ∈ gr_events g ∨ CtxDone ∈ gr_events g;
}.

Record fleet_ok (f : fleet) : Prop := {
  fo_updater : inv (fl_updater f);
  fo_started p : is_Some (fl_goroutines f !! p) ↔ p ∈ started (fl_updater f);
  fo_check id s : scrapers (fl_updater f) !! id = Some s →
    ∃ g, fl_goroutines f !! s_ptr s = Some g ∧ gr_check g = s_check s;
  fo_goroutine p g : fl_goroutines f !! p = Some g → gr_ok (fl_updater f) (fl_ctx f) p g;
}.

Lemma start_spec check u u' err :
  inv u → scrapers u !! GlobalID check = None → addAndStart check u = Ret (u', err) →
  inv u' ∧ stopped u' = stopped u ∧
  (u' = u ∨ scrapers u' = <[GlobalID check := {| s_ptr := fresh_ptr u; s_check := check |}]> (scrapers u) ∧
            started u' = fresh_ptr u :: started u).
Proof.
  intros Hi Hn E. assert (Ht : returns (Type_ (sm check))).
  { unfold addAndStartScraperWithLock in E. destruct (Type_ (sm check)) as [ct|]; [by exists ct|done]. }
  destruct (addAndStart_spec k6 metricsError scraperFactory check u Hi Hn Ht) as (u1 & e & E' & Hi' & Est & _ & H).
  rewrite E in E'. injection E' as <- <-. split_and!; [done|done|]. destruct H as [[-> _]|H]; [by left|right]. tauto.
Qed.

(** What a change of the updater does to its books. *)
Lemma change_spec u new u' :
  updaterChange u new u' → inv u → inv u' ∧ (∀ p, p ∈ stopped u → p ∈ stopped u') ∧
    match new with
    | None => started u' = started u ∧ ∀ id s, scrapers u' !! id = Some s → scrapers u !! id = Some s
    | Some (p, check) => p ∉ started u ∧ started u' = p :: started u ∧
        scrapers u' = <[GlobalID check := {| s_ptr := p; s_check := check |}]> (scrapers u)
    end.
Proof.
  intros Hc Hi. destruct Hc as [id s u' Hs E|check u' err p Hn E Ep|check u' err Hn E Ep|u' E1 E2 E3 E4].
  - destruct (stopScraper_spec id s u Hi Hs) as (u1 & E' & Hi' & Es & Est & Esa & _).
    rewrite E in E'. injection E' as <-. split_and!; [done|rewrite Est; by right|done|].
    intros id' s'. rewrite Es. by intros [_ ?]%lookup_delete_Some.
  - destruct (start_spec check u u' err Hi Hn E) as (Hi' & Est & H). 
    destruct H as [->|(Es & Esa)]; [apply (f_equal length) in Ep; simpl in Ep; lia|].
    rewrite Esa in Ep. injection Ep as <-. split_and!; [done|by rewrite Est|apply fresh_not_started|done|done].
  - destruct (start_spec check u u' err Hi Hn E) as (Hi' & Est & H). split_and!; [done|by rewrite Est|done|].
    destruct H as [->|(Es & Esa)]; [done|]. rewrite Esa in Ep. apply (f_equal length) in Ep. simpl in Ep. lia.
  - split_and!; [by eapply inv_counters|by rewrite E3|done|]. by rewrite E1.
Qed.

(** ** Every step keeps the invariant *)

Lemma spawned_ok u ctx p check : gr_ok u ctx p (spawned check).
Proof. split; simpl; [done|set_solver|set_solver|done]. Qed.

Lemma gr_ok_grows u u' ctx ctx' p g :
  (p ∈ stopped u → p ∈ stopped u') → (ctx = true → ctx' = true) → gr_ok u ctx p g → gr_ok u' ctx' p g.
Proof. intros Hs Hc [H1 H2 H3 H4]. split; auto. Qed.

Lemma select_ok u ctx p g ev :
  gr_phase g ≠ Returned → (ev = StopClosed → p ∈ stopped u) → (ev = CtxDone → ctx = true) →
  gr_ok u ctx p g → gr_ok u ctx p (select_ ev g) ∧ gr_check (select_ ev g) = gr_check g.
Proof.
  intros Hph Hs Hc [H1 H2 H3 H4]. unfold select_.
  destruct (tick (periodOf (gr_check g)) maxPublishInterval minPublishGap (gr_phase g) ev) as [ph acts] eqn:Et.
  split; [|done]. split; simpl.
  - rewrite ticks_app, H1. simpl. by rewrite Et, app_nil_r.
  - intros [?|E%list_elem_of_singleton]%elem_of_app; [auto|apply Hs; congruence].
  - intros [?|E%list_elem_of_singleton]%elem_of_app; [auto|apply Hc; congruence].
  - intros ->. rewrite !elem_of_app, !list_elem_of_singleton.
    destruct (gr_phase g), ev; simpl in Et; try done; by auto.
Qed.

Lemma fleet_step_ok f f' : fleet_step f f' → fleet_ok f → fleet_ok f'.
Proof.
  intros Hst [Hi Hs Hc Hg]. destruct Hst as [u new u' ctx gs Hch|u ctx gs p g ev Hp Hph Hstop Hdone|u ctx gs]; simpl in *.
  - destruct (change_spec _ _ _ Hch Hi) as (Hi' & Hgrow & Hnew).
    destruct new as [[p check]|]; simpl; (split; simpl; [done|..]).
    + destruct Hnew as (Hf & -> & _). intros q. rewrite elem_of_cons, <- Hs.
      rewrite lookup_insert_is_Some. destruct (decide (p = q)); naive_solver.
    + destruct Hnew as (Hf & _ & ->). intros id s. rewrite lookup_insert_Some. intros [[<- <-]|[_ H]].
      * eexists. simpl. by rewrite lookup_insert_eq.
      * destruct (Hc id s H) as (g & Hsg & Ec). exists g. rewrite lookup_insert_ne; [done|]. intros ->.
        apply Hf, Hs. eauto.
    + intros q g. rewrite lookup_insert_Some. intros [[<- <-]|[_ H]]; [apply spawned_ok|].
      eapply gr_ok_grows, Hg; eauto.
    + destruct Hnew as [-> _]. done.
    + destruct Hnew as [_ Hsub]. intros id s H. by eapply Hc, Hsub.
    + intros q g H. eapply gr_ok_grows, Hg; eauto.
  - destruct (select_ok u ctx p g ev Hph Hstop Hdone (Hg _ _ Hp)) as [Hok Hck]. split; simpl; [done|..].
    + intros q. rewrite <- Hs, lookup_insert_is_Some. destruct (decide (p = q)); naive_solver.
    + intros id s H. destruct (Hc id s H) as (g' & Hg' & Ec). destruct (decide (p = s_ptr s)) as [->|Hne].
      * exists (select_ ev g). rewrite lookup_insert_eq. split; [done|]. congruence.
      * exists g'. by rewrite lookup_insert_ne.
    + intros q g'. rewrite lookup_insert_Some. intros [[<- <-]|[_ H]]; [done|by apply Hg].
  - split; simpl; try done. intros p g H. eapply gr_ok_grows, Hg; eauto.
Qed.

Lemma reachable_ok f : reachable f → fleet_ok f.
Proof.
  intros Hr. assert (H0 : fleet_ok newFleet).
  { split; simpl; [apply newUpdater_inv| |by intros ? ? ?%lookup_empty_Some|by intros ? ? ?%lookup_empty_Some].
    intros p. rewrite lookup_empty. split; [by intros []|by intros ?%elem_of_nil]. }
  revert H0. induction Hr as [|f1 f2 f3 Hst _ IH]; [done|]. intros H0. apply IH. by eapply fleet_step_ok.
Qed.

(** ** Batches are sequences of steps *)

Definition leads (u u' : Updater) : Prop :=
  ∀ ctx gs, ∃ gs', rtc fleet_step {| fl_updater := u; fl_ctx := ctx; fl_goroutines := gs |}
                                  {| fl_updater := u'; fl_ctx := ctx; fl_goroutines := gs' |}.

Lemma leads_refl u : leads u u.
Proof. intros ctx gs. by exists gs. Qed.
Lemma leads_trans u1 u2 u3 : leads u1 u2 → leads u2 u3 → leads u1 u3.
Proof. intros H1 H2 ctx gs. destruct (H1 ctx gs) as [gs1 ?]. destruct (H2 ctx gs1) as [gs2 ?]. exists gs2. by etrans. Qed.
Lemma leads_change u new u' : updaterChange u new u' → leads u u'.
Proof. intros H ctx gs. exists (startGoroutine new gs). by apply rtc_once, step_change. Qed.
Lemma leads_counters u u' :
  scrapers u' = scrapers u → started u' = started u → stopped u' = stopped u →
  runningScrapers u' = runningScrapers u → leads u u'.
Proof. intros. eapply leads_change. by apply change_counters. Qed.

Lemma leads_start check u u' err :
  scrapers u !! GlobalID check = None → addAndStart check u = Ret (u', err) → leads u u'.
Proof.
  intros Hn E. assert (H : started u' = started u ∨ ∃ p, started u' = p :: started u).
  { unfold addAndStartScraperWithLock in E. destruct (Type_ (sm check)); [|done]. simpl in E.
    repeat case_match; simplify_eq/=; eauto. }
  destruct H as [H|[p H]]; eapply leads_change; [by eapply change_refused|by eapply change_start].
Qed.

Lemma leads_stop id s u u' :
  scrapers u !! id = Some s → stopScraper id s u = Ret u' → leads u u' ∧ scrapers u' = delete id (scrapers u).
Proof.
  intros Hs E. split; [by eapply leads_change, change_stop|].
  unfold stopScraper, Stop in E. case_bool_decide; [done|]. simpl in E. destruct (scraper_type s); [|done]. by injection E as <-.
Qed.

Lemma leads_update check u u' err :
  handleCheckUpdateWithLock k6 metricsError scraperFactory check u = Ret (u', err) → leads u u'.
Proof.
  unfold handleCheckUpdateWithLock. destruct (scrapers u !! GlobalID check) as [s|] eqn:Es; [|by apply leads_start].
  destruct (stopScraper (GlobalID check) s u) as [u1|] eqn:E1; [|done]. simpl. intros E2.
  destruct (leads_stop _ _ _ _ Es E1) as [H1 Hd]. eapply leads_trans, leads_start, E2; [done|]. by rewrite Hd, lookup_delete_eq.
Qed.

Lemma leads_handlers check u :
  (∀ u' err, handleCheckAdd k6 metricsError scraperFactory check u = Ret (u', err) → leads u u') ∧
  (∀ u' err, handleCheckUpdate k6 metricsError scraperFactory check u = Ret (u', err) → leads u u') ∧
  (∀ u' err, handleCheckDelete check u = Ret (u', err) → leads u u') ∧
  (∀ u' err, handleInitialChangeAddWithLock k6 metricsError scraperFactory check u = Ret (u', err) → leads u u').
Proof.
  assert (Hc : ∀ k, leads u (count_change k u)) by (intros; by apply leads_counters).
  split_and!; intros u' err.
  - unfold handleCheckAdd. destruct (validate (sm check)) as [[e|]|]; simpl; try done; [by intros [= <- <-]|].
    destruct (scrapers u !! GlobalID check) as [s|] eqn:Es; [by intros [= <- <-]|].
    intros E. eapply leads_trans, leads_start, E; done.
  - unfold handleCheckUpdate. destruct (validate (sm check)) as [[e|]|]; simpl; try done; [by intros [= <- <-]|].
    intros E. eapply leads_trans, leads_update, E. done.
  - unfold handleCheckDelete. simpl. destruct (scrapers u !! GlobalID check) as [s|] eqn:Es; [|by intros [= <- <-]].
    destruct (stopScraper (GlobalID check) s _) as [u1|] eqn:E1; [|done]. intros [= <- <-].
    eapply leads_trans; [apply (Hc "delete"%string)|]. eapply leads_stop, E1. done.
  - unfold handleInitialChangeAddWithLock. destruct (scrapers u !! GlobalID check) as [s|] eqn:Es.
    + case_bool_decide; [intros [= <- <-]; apply leads_refl|apply leads_update].
    + destruct (validate (sm check)) as [[e|]|]; simpl; try done; [by intros [= <- <-]|].
      destruct (addAndStart check (count_change "add" u)) as [[u1 e1]|] eqn:E1; [|done]. simpl.
      assert (H1 : leads u u1) by (eapply leads_trans, leads_start, E1; done).
      destruct e1; intros [= <- <-]; [|done]. eapply leads_trans; [done|]. by apply leads_counters.
Qed.

Lemma leads_batch_loop l u u' :
  batch_loop recode k6 metricsError scraperFactory l u = Ret u' → leads u u'.
Proof.
  revert u. induction l as [|c l IH]; intros u; cbn [batch_loop]; [intros [= <-]; apply leads_refl|].
  destruct (FromSM recode (change_Check c)) as [check|]; [|by apply IH].
  destruct (leads_handlers check u) as (Ha & Hu & Hd & _).
  assert (Hgo : ∀ (r : go (Updater * error updErr)) kind, (∀ u1 e, r = Ret (u1, e) → leads u u1) →
    ('(u1, err) ← r; batch_loop recode k6 metricsError scraperFactory l
       (match err with Some _ => count_error kind u1 | None => u1 end)) = Ret u' → leads u u').
  { intros [[u1 e]|] kind H E; [|done]. eapply leads_trans; [by eapply H|]. apply IH in E. destruct e; [|done].
    eapply leads_trans, E. by apply leads_counters. }
  repeat case_match; try (by apply Hgo); by apply IH.
Qed.

Lemma leads_firstBatch_adds l ids u ids' u' :
  firstBatch_adds recode k6 metricsError scraperFactory l ids u = Ret (ids', u') → leads u u'.
Proof.
  revert ids u. induction l as [|c l IH]; intros ids u; cbn [firstBatch_adds]; [intros [= <- <-]; apply leads_refl|].
  case_match; [|by apply IH]. destruct (FromSM recode (change_Check c)) as [check|]; [|by apply IH].
  destruct (leads_handlers check u) as (_ & _ & _ & Hi).
  destruct (handleInitialChangeAddWithLock _ _ _ check u) as [[u1 e]|]; [|done]. simpl. intros E.
  eapply leads_trans; [by eapply Hi|]. destruct e; apply IH in E; [|done].
  eapply leads_trans, E. by apply leads_counters.
Qed.

Lemma leads_firstBatch_removes l ids u u' :
  NoDup l.*1 → (∀ id s, (id, s) ∈ l → scrapers u !! id = Some s) → firstBatch_removes l ids u = Ret u' → leads u u'.
Proof.
  revert u. induction l as [|[id s] l IH]; intros u; cbn [firstBatch_removes]; [intros _ _ [= <-]; apply leads_refl|].
  rewrite fmap_cons, NoDup_cons. intros [Hid Hnd] Hl. case_bool_decide; [apply IH; [done|]; intros; apply Hl; by right|].
  destruct (stopScraper id s u) as [u1|] eqn:E1; [|done]. simpl. intros E.
  destruct (leads_stop id s u u1) as [H1 Hd]; [apply Hl; left|done|]. eapply leads_trans; [done|]. apply IH; [done| |done].
  intros id' s' Hin. rewrite Hd, lookup_delete_ne; [apply Hl; by right|]. intros ->. apply Hid.
  apply list_elem_of_fmap. by exists (id', s').
Qed.

(** Every batch of changes is a sequence of steps. *)
Lemma batch_steps changes firstBatch u u' :
  handleChangeBatch recode k6 metricsError scraperFactory changes firstBatch u = Ret u' → leads u u'.
Proof.
  unfold handleChangeBatch. destruct (_ && _).
  - unfold handleFirstBatch. destruct (firstBatch_adds _ _ _ _ _ _ _) as [[ids u1]|] eqn:E1; [|done]. simpl. intros E2.
    eapply leads_trans; [by eapply leads_firstBatch_adds|]. eapply leads_firstBatch_removes, E2.
    + apply NoDup_fst_map_to_list.
    + intros id s. apply elem_of_map_to_list.
  - intros E. eapply leads_trans; [|by eapply leads_batch_loop]. by apply leads_counters.
Qed.

(** ** What runs *)

Lemma select_stop g :
  gr_phase g = phaseOf (gr_actions g) → gr_phase (select_ StopClosed g) = Returned ∧
    gr_actions (select_ StopClosed g) =
      gr_actions g ++ match lastWork (gr_actions g) with Some w => [Cleanup w] | None => [] end.
Proof.
  intros Hp. unfold select_. rewrite Hp. unfold phaseOf.
  destruct (lastWork (gr_actions g)); simpl; [done|by rewrite app_nil_r].
Qed.

(** C5: the checks of the updater are what runs.  In every interleaving of the updater's
    changes with the goroutines of its scrapers, each check of the map has a goroutine that
    runs this very check, and goes on as long as the agent does; two goroutines of the same
    check that were not stopped are one; each goroutine calls its handler by the protocol
    of [tickWithOffset], with at most one cleanup, only after it was stopped and before it
    returns; and one that was stopped can return at its next [select], publishing the stale
    markers of its last run if there was one. *)
Theorem fleet_runs_checks f :
  reachable f →
  let u := fl_updater f in
  (∀ id s, scrapers u !! id = Some s →
     ∃ g, fl_goroutines f !! s_ptr s = Some g ∧ gr_check g = s_check s ∧ GlobalID (gr_check g) = id ∧
       (fl_ctx f = false → gr_phase g ≠ Returned)) ∧
  (∀ p q g h, fl_goroutines f !! p = Some g → fl_goroutines f !! q = Some h → p ∉ stopped u → q ∉ stopped u →
     GlobalID (gr_check g) = GlobalID (gr_check h) → p = q) ∧
  (∀ p g, fl_goroutines f !! p = Some g →
     (protocol (periodOf (gr_check g)) minPublishGap (gr_actions g) ∨
      ∃ l w, gr_actions g = l ++ [Cleanup w] ∧ protocol (periodOf (gr_check g)) minPublishGap l ∧
        lastWork l = Some w ∧ gr_phase g = Returned ∧ p ∈ stopped u) ∧
     (p ∈ stopped u → gr_phase g ≠ Returned →
      let g' := select_ StopClosed g in
      fleet_step f {| fl_updater := u; fl_ctx := fl_ctx f; fl_goroutines := <[p := g']> (fl_goroutines f) |} ∧
      gr_phase g' = Returned ∧
      gr_actions g' = gr_actions g ++ match lastWork (gr_actions g) with Some w => [Cleanup w] | None => [] end)).
Proof.
  intros Hr. destruct (reachable_ok f Hr) as [Hi Hs Hc Hg]. cbn zeta. split_and!.
  - intros id s Hid. destruct (Hc id s Hid) as (g & Hp & Eg). destruct (inv_key _ Hi _ _ Hid) as (Hk & _ & Hns & _).
    exists g. split_and!; [done|done|congruence|]. intros Hctx Hret. destruct (Hg _ _ Hp) as [_ Hst Hd Hre].
    destruct (Hre Hret) as [H|H]; [by apply Hst in H|apply Hd in H; congruence].
  - assert (Hlive : ∀ p g, fl_goroutines f !! p = Some g → p ∉ stopped (fl_updater f) →
      ∃ s, scrapers (fl_updater f) !! GlobalID (gr_check g) = Some s ∧ s_ptr s = p).
    { intros p g Hp Hns. destruct (inv_started _ Hi p) as [|(id & s & Hid & <-)]; [by apply Hs; eauto|done|].
      destruct (Hc id s Hid) as (g' & Hg' & Eg). assert (g' = g) as -> by congruence.
      destruct (inv_key _ Hi _ _ Hid) as (Hk & _). exists s. split; [congruence|done]. }
    intros p q g h Hp Hq Hnp Hnq E. destruct (Hlive p g Hp Hnp) as (s & H1 & <-). destruct (Hlive q h Hq Hnq) as (s' & H2 & <-).
    congruence.
  - intros p g Hp. destruct (Hg _ _ Hp) as [Hran Hst _ _]. destruct (ticks_protocol _ _ _ _ _ _ Hran) as [H1 H2]. split.
    + destruct (decide (gr_phase g = Returned)) as [Hret|Hret]; [|by left; apply H1].
      destruct (H2 Hret) as [?|(l & w & ? & ? & ? & ?)]; [by left|right]. exists l, w. split_and!; auto.
    + intros Hstop Hret. destruct (H1 Hret) as [_ Hph]. split; [|by apply select_stop].
      destruct f as [u ctx gs]. by apply step_event.
Qed.
End fleet.

(** ** Instances *)

Section examples.
#[local] Existing Instance example_validator.
Notation step_ := (fleet_step true (λ _, None) (λ _, None)).

Definition old_check : mCheck := {| sm := example_check 1000 1; RegionId := 0 |}.
Definition new_check : mCheck := {| sm := example_check 2000 2; RegionId := 0 |}.
Definition sec (n : Z) : Z := n * 1000000000.

(** The updater after the check was added, and after its first scraper was stopped. *)
Definition after {A} (r : go (Updater * A)) : Updater := match r with Ret (u, _) => u | Panic _ => newUpdater end.
Definition added : Updater := after (addAndStartScraperWithLock true (λ _, None) (λ _, None) old_check newUpdater).
Definition removed : Updater :=
  match scrapers added !! GlobalID old_check with
  | Some s => match stopScraper (GlobalID old_check) s added with Ret u => u | Panic _ => newUpdater end
  | None => newUpdater
  end.
Definition replaced : Updater := after (addAndStartScraperWithLock true (λ _, None) (λ _, None) new_check removed).

(** After an update, the old scraper may run once more, after the new one: its samples and
    its stale markers then follow those of the new one, in the same series. *)
Lemma stopped_scraper_runs_on :
  ∃ f g h p q, rtc step_ newFleet f ∧ fl_goroutines f !! p = Some g ∧ fl_goroutines f !! q = Some h ∧
    GlobalID (gr_check g) = GlobalID (gr_check h) ∧ p ∈ stopped (fl_updater f) ∧ q ∉ stopped (fl_updater f) ∧
    gr_actions h = [Work (sec 1)] ∧ gr_actions g = [Work (sec 0); Work (sec 2); Cleanup (sec 2)].
Proof.
  set (g1 := spawned old_check). set (g2 := select_ (OffsetTimer (sec 0)) g1).
  set (h1 := spawned new_check). set (h2 := select_ (OffsetTimer (sec 1)) h1).
  set (g3 := select_ (WorkTicker (sec 2)) g2). set (g4 := select_ StopClosed g3).
  exists {| fl_updater := replaced; fl_ctx := false; fl_goroutines := <[1%nat := g4]> (<[1%nat := g3]> (<[2%nat := h2]> (<[2%nat := h1]> (<[1%nat := g2]> (<[1%nat := g1]> ∅))))) |}.
  exists g4, h2, 1%nat, 2%nat. split_and!; try (vm_compute; done); try (apply (bool_decide_unpack _); vm_compute; exact I).
  eapply rtc_l; [apply (step_change _ _ _ newUpdater (Some (1%nat, old_check)) added)|].
  { eapply (change_start _ _ _ _ old_check added None 1%nat); vm_compute; reflexivity. }
  eapply rtc_l; [apply (step_event _ _ _ added false _ 1%nat g1 (OffsetTimer (sec 0))); done|].
  eapply rtc_l; [apply (step_change _ _ _ added None removed)|].
  { eapply (change_stop _ _ _ _ (GlobalID old_check)); vm_compute; reflexivity. }
  eapply rtc_l; [apply (step_change _ _ _ removed (Some (2%nat, new_check)) replaced)|].
  { eapply (change_start _ _ _ _ new_check replaced None 2%nat); vm_compute; reflexivity. }
  eapply rtc_l; [apply (step_event _ _ _ replaced false _ 2%nat h1 (OffsetTimer (sec 1))); done|].
  eapply rtc_l; [apply (step_event _ _ _ replaced false _ 1%nat g2 (WorkTicker (sec 2))); done|].
  eapply rtc_l; [apply (step_event _ _ _ replaced false _ 1%nat g3 StopClosed)|done]; try done.
  intros _. apply (bool_decide_unpack _). vm_compute. exact I.
Qed.

Lemma fleet_runs_checks_witness :
  ∃ f, reachable true (λ _, None) (λ _, None) f ∧
    ∃ g, fl_goroutines f !! 1%nat = Some g ∧ gr_check g = old_check ∧ gr_phase g ≠ Returned.
Proof.
  assert (Hr : reachable true (λ _, None) (λ _, None)
    {| fl_updater := added; fl_ctx := false; fl_goroutines := <[1%nat := spawned old_check]> ∅ |}).
  { eapply rtc_l; [apply (step_change _ _ _ newUpdater (Some (1%nat, old_check)) added)|apply rtc_refl].
    eapply (change_start _ _ _ _ old_check added None 1%nat); vm_compute; reflexivity. }
  eexists. split; [exact Hr|].
  destruct (fleet_runs_checks true (λ _, None) (λ _, None) _ Hr) as (H & _).
  destruct (H (GlobalID old_check) {| s_ptr := 1; s_check := old_check |} ltac:(vm_compute; reflexivity))
    as (g & Hg & Ec & _ & Hph).
  exists g. split_and!; [exact Hg|exact Ec|exact (Hph eq_refl)].
Defined.
End examples.
