(* ===== verification/Collect.v ===== *)
(** * One execution of a check

    The rest of [internal/scraper/scraper.go]: [collectDataWith] and what it calls,
    [runProber], [getProbeMetrics], [getDerivedMetrics], [patchDuration] and
    [extractLogs]; the clocks of [scrape_clock.go]; and [CollectData] with the public
    collector of [pkg/collector/collector.go].  The labels are those of [Labels], and
    the result is what [Scrape] publishes.

    The Prometheus registry and the logfmt codec are third-party code: parameters.
    Times are in nanoseconds. *)
From Stdlib Require Import SpecFloat DecimalString DecimalZ.
From S2P Require Import Prelude Strs Checks Validate Labels Scrape.

Open Scope Z_scope.

Notation float := spec_float.
Notation Metric := (@Labels.Metric spec_float).
Notation MetricFamily := (@Labels.MetricFamily spec_float).

(** Key and value pairs of a log line. *)
Definition fields : Type := list (string * string).

Definition fzero : float := S754_zero false.
Definition f64_one : float := f64_of 1.

(** A fold that stops at the first error; the state up to then is kept. *)
Fixpoint foldErr {S A E} (f : A → S → S * option E) (l : list A) (s : S) : S * option E :=
  match l with
  | [] => (s, None)
  | a :: l => match f a s with (s, None) => foldErr f l s | r => r end
  end.

(** ** Derived metrics *)

Inductive deriveErr := errUnsupportedMetric | ErrRegister.

(** A summary or a histogram of the scraper: what identifies it and its observations. *)
Record derived := {
  d_Summary : bool; d_Name : string; d_Help : string; d_Labels : gmap string string; d_Obs : list float }.
Definition observe (v : float) (d : derived) : derived :=
  {| d_Summary := d_Summary d; d_Name := d_Name d; d_Help := d_Help d; d_Labels := d_Labels d;
     d_Obs := d_Obs d ++ [v] |}.

(** The maps of the scraper, by hash, and the collectors registered in this execution. *)
Record derivedState := { summaries : gmap Z derived; histograms : gmap Z derived; registered : list (Z * derived) }.

Section derive.
(** [LabelSet.Fingerprint], and whether a registry accepts a collector after others. *)
Variable Fingerprint : gmap string string → Z.
Variable registrable : list derived → derived → bool.

Definition getLabels (labels : list labelPair) : gmap string string :=
  foldl (λ m l, <[name l := value l]> m) ∅ labels.
Definition labelSet (mName : string) (labels : list labelPair) : gmap string string :=
  foldl (λ m l, <[name l := value l]> m) {["__name__"%string := mName]} labels.
Definition hashMetricNameAndLabels (mName : string) (labels : list labelPair) : Z := Fingerprint (labelSet mName labels).

(** [GetValue] of a nil value is zero. *)
Definition metricValue (m : Metric) : option float :=
  match m_Counter m, m_Gauge m with
  | Some v, _ => Some (default fzero v)
  | None, Some v => Some (default fzero v)
  | None, None => None
  end.

Definition newDerived (summary : bool) (mName help : string) (labels : list labelPair) : derived :=
  {| d_Summary := summary; d_Name := mName;
     d_Help := help +:+ (if summary then " (summary)" else " (histogram)");
     d_Labels := getLabels labels; d_Obs := [] |}.

(** The common body of [updateSummaryFromMetric] and [updateHistogramFromMetric] on the
    map of one kind: the object is in the map before it is registered. *)
Definition updateFromMetric (summary : bool) (mName help : string) (m : Metric)
    (objects : gmap Z derived) (reg : list (Z * derived))
    : gmap Z derived * list (Z * derived) * option deriveErr :=
  match metricValue m with
  | None => (objects, reg, Some errUnsupportedMetric)
  | Some v =>
      let h := hashMetricNameAndLabels mName (m_Label m) in
      let d := default (newDerived summary mName help (m_Label m)) (objects !! h) in
      if registrable (map snd reg) d then (<[h := observe v d]> objects, reg ++ [(h, d)], None)
      else (<[h := d]> objects, reg, Some ErrRegister)
  end.
Definition updateSummaryFromMetric (mName help : string) (m : Metric) (st : derivedState)
    : derivedState * option deriveErr :=
  let '(o, reg, e) := updateFromMetric true mName help m (summaries st) (registered st) in
  ({| summaries := o; histograms := histograms st; registered := reg |}, e).
Definition updateHistogramFromMetric (mName help : string) (m : Metric) (st : derivedState)
    : derivedState * option deriveErr :=
  let '(o, reg, e) := updateFromMetric false mName help m (histograms st) (registered st) in
  ({| summaries := summaries st; histograms := o; registered := reg |}, e).

(** The derived metric of a family, if any: its kind and its name. *)
Definition durationName (metricName : string) : option string :=
  if hasSuffix "_duration_seconds" metricName
  then Some (trimSuffix "_duration_seconds" metricName +:+ "_all" +:+ "_duration_seconds")
  else if hasSuffix "_time_seconds" metricName
  then Some (trimSuffix "_time_seconds" metricName +:+ "_all" +:+ "_time_seconds")
  else None.
Definition derivedName (basicMetricsOnly : bool) (mf : MetricFamily) : option (bool * string) :=
  match mf_Type mf with
  | GAUGE =>
      if String.eqb (mf_Name mf) ProbeSuccessMetricName then Some (true, "probe_all_success"%string)
      else if negb (String.eqb (mf_Name mf) "probe_duration_seconds") && basicMetricsOnly then None
      else n ← durationName (mf_Name mf); Some (false, n)
  | _ => None
  end.

Definition deriveFamily (basicMetricsOnly : bool) (mf : MetricFamily) (st : derivedState)
    : derivedState * option deriveErr :=
  match derivedName basicMetricsOnly mf with
  | None => (st, None)
  | Some (summary, n) =>
      foldErr (λ m st, if summary then updateSummaryFromMetric n (mf_Help mf) m st
                       else updateHistogramFromMetric n (mf_Help mf) m st) (mf_Metric mf) st
  end.
Definition getDerivedMetrics (basicMetricsOnly : bool) (mfs : list MetricFamily) (st : derivedState)
    : derivedState * option deriveErr :=
  foldErr (deriveFamily basicMetricsOnly) mfs st.

(** ** What is observed *)

(** The objects of a kind, and the observations of the one under a hash.  Label sets with the
    same hash share an object. *)
Definition objectsOf (summary : bool) (st : derivedState) : gmap Z derived :=
  if summary then summaries st else histograms st.
Definition observations (summary : bool) (h : Z) (st : derivedState) : list float :=
  match objectsOf summary st !! h with Some d => d_Obs d | None => [] end.

(** The values a family contributes to it. *)
Definition valuesOf (n : string) (h : Z) (ms : list Metric) : list float :=
  omap metricValue (filter (λ m, hashMetricNameAndLabels n (m_Label m) = h) ms).
Definition contribution (basic summary : bool) (h : Z) (mf : MetricFamily) : list float :=
  match derivedName basic mf with
  | Some (k, n) =>
      if bool_decide (k = summary) then valuesOf n h (mf_Metric mf) else []
  | None => []
  end.

(** The derived metrics do not have the names of the durations. *)
Definition durationNames : list string := ["probe_duration_seconds"; "probe_script_duration_seconds"]%string.
Definition named (st : derivedState) : Prop :=
  (∀ k h d, objectsOf k st !! h = Some d → d_Name d ∉ durationNames) ∧
  (∀ hd, hd ∈ registered st → d_Name hd.2 ∉ durationNames).

Lemma all_name_ne a b c : a +:+ "_all" +:+ b = c → c ∈ durationNames → b ∉ ["_duration_seconds"; "_time_seconds"]%string.
Proof.
  intros H Hc Hb. revert H. apply elem_of_cons in Hc as [->|[->|[]%elem_of_nil]%elem_of_cons];
    apply elem_of_cons in Hb as [->|[->|[]%elem_of_nil]%elem_of_cons].
  all: do 40 (destruct a as [|? a]; [discriminate|]; intros [= _ H]; revert H || (intros H; simplify_eq/=); try discriminate).
Qed.

Lemma derivedName_ok basic mf k n : derivedName basic mf = Some (k, n) → n ∉ durationNames.
Proof.
  unfold derivedName, durationName. intros H Hn. destruct (mf_Type mf); try done.
  destruct (String.eqb (mf_Name mf) ProbeSuccessMetricName).
  { injection H as _ <-. by apply (bool_decide_unpack _) in Hn || (revert Hn; apply (bool_decide_unpack _); vm_compute). }
  destruct (_ && _); [done|].
  destruct (hasSuffix "_duration_seconds" _); [|destruct (hasSuffix "_time_seconds" _); [|done]]; cbn in H; injection H as _ <-;
    by eapply all_name_ne; [reflexivity|exact Hn|set_solver].
Qed.

Lemma update_observes (summary : bool) n help m st st' :
  (if summary then updateSummaryFromMetric n help m st else updateHistogramFromMetric n help m st) = (st', None) →
  ∀ k h, observations k h st' =
    observations k h st ++
    (if bool_decide (summary = k) then valuesOf n h [m] else []).
Proof.
  intros Hu k h. unfold updateSummaryFromMetric, updateHistogramFromMetric, updateFromMetric in Hu.
  destruct (metricValue m) as [v|] eqn:Ev; [|by destruct summary].
  assert (Hval : valuesOf n h [m] =
    if decide (hashMetricNameAndLabels n (m_Label m) = h) then [v] else []).
  { unfold valuesOf. rewrite filter_cons, filter_nil. case_decide; [|done]. simpl. by rewrite Ev. }
  rewrite Hval. unfold observations, objectsOf.
  destruct summary, k; case_bool_decide; try done.
  all: destruct (registrable _ _); [|done]; injection Hu as <-; simpl; rewrite ?app_nil_r; try done.
  all: case_decide as HL; [subst h; rewrite lookup_insert_eq; simpl; by destruct (_ !! _)|].
  all: rewrite lookup_insert_ne by done; by rewrite app_nil_r.
Qed.

Lemma update_named (summary : bool) n help m st st' e :
  (if summary then updateSummaryFromMetric n help m st else updateHistogramFromMetric n help m st) = (st', e) →
  n ∉ durationNames → named st → named st'.
Proof.
  intros Hu Hn [Hst Hr]. unfold updateSummaryFromMetric, updateHistogramFromMetric, updateFromMetric in Hu.
  assert (Hs := Hst true). assert (Hh := Hst false). unfold named, objectsOf in *.
  destruct (metricValue m) as [v|]; [|destruct summary; injection Hu as <- _; (split; [intros []; by eauto|by eauto])].
  set (d0 := default (newDerived summary n help (m_Label m))
    ((if summary then summaries st else histograms st) !! hashMetricNameAndLabels n (m_Label m))).
  assert (Hd0 : d_Name d0 ∉ durationNames).
  { subst d0. destruct summary; match goal with |- context [?m !! ?h] => destruct (m !! h) eqn:E end;
      [exact (Hs _ _ E)|exact Hn|exact (Hh _ _ E)|exact Hn]. }
  destruct summary; fold d0 in Hu; destruct (registrable _ _); injection Hu as <- _; (split; [intros [] h d|intros hd]);
    simpl; eauto.
  all: rewrite ?lookup_insert_Some; try (intros [[<- <-]|[_ Hd]]; by eauto).
  all: rewrite elem_of_app, list_elem_of_singleton; intros [?| ->]; by eauto.
Qed.

Lemma foldErr_app {S A E B} (f : A → S → S * option E) (obs : S → list B) (c : A → list B) l s s' :
  (∀ a s s', f a s = (s', None) → obs s' = obs s ++ c a) →
  foldErr f l s = (s', None) → obs s' = obs s ++ flat_map c l.
Proof.
  intros Hf. revert s. induction l as [|a l IH]; intros s; simpl.
  - intros [= ->]. by rewrite app_nil_r.
  - destruct (f a s) as [s1 [e|]] eqn:E1; [done|]. intros H%IH. rewrite H, (Hf _ _ _ E1). by rewrite <-(assoc_L (++)).
Qed.
Lemma foldErr_keeps {S A E} (f : A → S → S * option E) (P : S → Prop) l s s' e :
  (∀ a s s' e, f a s = (s', e) → P s → P s') → foldErr f l s = (s', e) → P s → P s'.
Proof.
  intros Hf. revert s. induction l as [|a l IH]; intros s; simpl; [by intros [= <- _]|].
  destruct (f a s) as [s1 [e1|]] eqn:E1; [intros [= <- _]; by eauto|]. intros H Hs. eauto.
Qed.

Lemma family_observes basic mf st st' k h :
  deriveFamily basic mf st = (st', None) →
  observations k h st' = observations k h st ++ contribution basic k h mf.
Proof.
  unfold deriveFamily, contribution. destruct (derivedName basic mf) as [[s n]|].
  2: { intros [= ->]. by rewrite app_nil_r. }
  intros H. rewrite (foldErr_app _ (observations k h) (λ m, if bool_decide (s = k) then
    valuesOf n h [m] else []) _ _ _
    (λ a s1 s2 Ha, update_observes s n (mf_Help mf) a s1 s2 Ha k h) H). f_equal.
  clear H. induction (mf_Metric mf) as [|m ms IH]; [by case_bool_decide|]. simpl flat_map. rewrite IH.
  case_bool_decide; [|done]. unfold valuesOf. rewrite <-omap_app, <-filter_app. done.
Qed.

Lemma derived_observes basic mfs st st' k h :
  getDerivedMetrics basic mfs st = (st', None) →
  observations k h st' = observations k h st ++ flat_map (contribution basic k h) mfs.
Proof. intros H. eapply (foldErr_app _ _ _ _ _ _ (λ a s s' Ha, family_observes _ _ _ _ k h Ha) H). Qed.

Lemma derived_named basic mfs st st' e : getDerivedMetrics basic mfs st = (st', e) → named st → named st'.
Proof.
  apply foldErr_keeps. intros mf s s' e'. unfold deriveFamily.
  destruct (derivedName basic mf) as [[k n]|] eqn:Ed; [|by intros [= <- _]].
  apply foldErr_keeps. intros m s1 s2 e2 Hu. eapply update_named; [exact Hu|by eapply derivedName_ok].
Qed.

(** With basic metrics only, the success and the duration of the check are observed. *)
Lemma basic_contribution k h mf :
  contribution true k h mf ≠ [] →
  mf_Name mf ∈ [ProbeSuccessMetricName; "probe_duration_seconds"%string].
Proof.
  unfold contribution, derivedName. destruct (mf_Type mf); try done.
  destruct (String.eqb_spec (mf_Name mf) ProbeSuccessMetricName) as [->|]; [left|].
  destruct (String.eqb_spec (mf_Name mf) "probe_duration_seconds") as [->|]; [right; left|done].
Qed.
End derive.

(** ** The clocks of a scrape *)

(** Scheduled at a time, or placed at an event's. *)
Inductive scrapeClock := wallClock (scheduledAt : Z) | logicalClock (eventTime : Z).

(** [fallbackDuration] at time [now]. *)
Definition fallbackDuration (c : scrapeClock) (wallStart now : Z) : Z :=
  sub now (match c with wallClock scheduledAt => scheduledAt | logicalClock _ => wallStart end).

(** [time.Duration(f * float64(time.Second))]. *)
Definition durationOf (f : float) : Z := float_to_int64 (SFmul 53 1024 f f64_1e9).

(** ** [patchDuration]: the families with the duration of the script, and the duration *)

Definition setGauge (v : float) (m : Metric) : Metric :=
  {| m_Label := m_Label m; m_Counter := m_Counter m; m_Gauge := Some (Some v); m_Untyped := m_Untyped m;
     m_Summary := m_Summary m; m_Histogram := m_Histogram m |}.
Definition setMetrics (ms : list Metric) (mf : MetricFamily) : MetricFamily :=
  {| mf_Name := mf_Name mf; mf_Help := mf_Help mf; mf_Type := mf_Type mf; mf_Metric := ms |}.

(** The position and value of the first gauge of a family. *)
Fixpoint getGauge (ms : list Metric) : option (nat * option float) :=
  match ms with
  | [] => None
  | m :: ms =>
      match m_Gauge m with
      | Some v => Some (0%nat, v)
      | None => '(i, v) ← getGauge ms; Some (S i, v)
      end
  end.

(** The scan for the two gauges: where the first one is, and their values.  It ends when
    both are found. *)
Definition gaugeAt : Type := option (nat * nat * option float).
Fixpoint findDurations (mfs : list MetricFamily) (i : nat) (duration script : gaugeAt) : gaugeAt * gaugeAt :=
  match mfs with
  | [] => (duration, script)
  | mf :: mfs =>
      let here := '(j, v) ← getGauge (mf_Metric mf); Some (i, j, v) in
      let duration := if String.eqb (mf_Name mf) "probe_duration_seconds" then here else duration in
      let script := if String.eqb (mf_Name mf) "probe_script_duration_seconds" then here else script in
      match duration, script with
      | Some _, Some _ => (duration, script)
      | _, _ => findDurations mfs (S i) duration script
      end
  end.

Definition deref {A} (p : option A) : go A :=
  match p with Some a => Ret a | None => Panic "nil pointer dereference" end.
Definition patchDuration (mfs : list MetricFamily) : go (list MetricFamily * option Z) :=
  match findDurations mfs 0 None None with
  | (Some (i, j, d), Some (_, _, s)) =>
      v ← deref s; _ ← deref d;
      Ret (alter (λ mf, setMetrics (alter (setGauge v) j (mf_Metric mf)) mf) i mfs, Some (durationOf v))
  | (Some (_, _, d), None) => v ← deref d; Ret (mfs, Some (durationOf v))
  | (None, _) => Ret (mfs, None)
  end.

(** The first gauge of the first family with a name. *)
Fixpoint locate (n : string) (mfs : list MetricFamily) (i : nat) : gaugeAt :=
  match mfs with
  | [] => None
  | mf :: mfs =>
      if String.eqb (mf_Name mf) n then '(j, v) ← getGauge (mf_Metric mf); Some (i, j, v)
      else locate n mfs (S i)
  end.
Definition gaugeOf (n : string) (mfs : list MetricFamily) : option (option float) :=
  '(_, _, v) ← locate n mfs 0; Some v.

Lemma locate_absent n mfs i : n ∉ map mf_Name mfs → locate n mfs i = None.
Proof.
  revert i. induction mfs as [|mf mfs IH]; intros i Hn; [done|]. simpl in *.
  apply not_elem_of_cons in Hn as [Hn Hr]. destruct (String.eqb_spec (mf_Name mf) n); [done|]. by apply IH.
Qed.

Definition orElseAt (a b : gaugeAt) : gaugeAt := match a with Some x => Some x | None => b end.

(** The families of the durations are at most one of each. *)
Definition durationsOnce (mfs : list MetricFamily) : Prop :=
  NoDup (filter (λ n, n ∈ durationNames) (map mf_Name mfs)).

Lemma durationsOnce_cons mf mfs : durationsOnce (mf :: mfs) →
  (mf_Name mf ∈ durationNames → mf_Name mf ∉ map mf_Name mfs) ∧ durationsOnce mfs.
Proof.
  unfold durationsOnce. cbn [map]. rewrite filter_cons. case_decide as Hn; [|by split].
  intros [Hm Hnd]%NoDup_cons. split; [|done]. intros _ Hin. apply Hm. by apply list_elem_of_filter.
Qed.

Lemma durationsOnce_app mfs dmfs :
  NoDup (map mf_Name mfs) → (∀ n, n ∈ map mf_Name dmfs → n ∉ durationNames) → durationsOnce (mfs ++ dmfs).
Proof.
  intros Hnd Hd. unfold durationsOnce. rewrite map_app, filter_app, (filter_none _ (map mf_Name dmfs)), app_nil_r.
  - by apply NoDup_filter.
  - apply Forall_forall. exact Hd.
Qed.

Lemma findDurations_spec mfs i du sc :
  durationsOnce mfs →
  (du ≠ None → "probe_duration_seconds"%string ∉ map mf_Name mfs) →
  (sc ≠ None → "probe_script_duration_seconds"%string ∉ map mf_Name mfs) →
  findDurations mfs i du sc =
    (orElseAt du (locate "probe_duration_seconds" mfs i), orElseAt sc (locate "probe_script_duration_seconds" mfs i)).
Proof.
  revert i du sc. induction mfs as [|mf mfs IH]; intros i du sc Hnd Hdu Hsc; [by destruct du, sc|].
  simpl in Hdu, Hsc. apply durationsOnce_cons in Hnd as [Hmf Hnd]. cbn [findDurations locate].
  assert (Hdu' : du ≠ None → "probe_duration_seconds"%string ∉ map mf_Name mfs)
    by (intros Hx%Hdu; by apply not_elem_of_cons in Hx as [_ ?]).
  assert (Hsc' : sc ≠ None → "probe_script_duration_seconds"%string ∉ map mf_Name mfs)
    by (intros Hx%Hsc; by apply not_elem_of_cons in Hx as [_ ?]).
  set (here := '(j, v) ← getGauge (mf_Metric mf); Some (i, j, v)).
  destruct (String.eqb_spec (mf_Name mf) "probe_duration_seconds") as [E1|E1],
    (String.eqb_spec (mf_Name mf) "probe_script_duration_seconds") as [E2|E2]; [congruence|..].
  - destruct du; [exfalso; apply Hdu; [done|rewrite E1; left]|]. cbn [orElseAt]. rewrite E1 in Hmf. specialize (Hmf ltac:(left)).
    destruct here as [x|], sc as [y|]; cbn [orElseAt]; try done.
    all: rewrite IH; auto; cbn [orElseAt]; by rewrite ?(locate_absent "probe_duration_seconds").
  - destruct sc; [exfalso; apply Hsc; [done|rewrite E2; left]|]. cbn [orElseAt]. rewrite E2 in Hmf. specialize (Hmf ltac:(right; left)).
    destruct du as [x|], here as [y|]; cbn [orElseAt]; try done.
    all: rewrite IH; auto; cbn [orElseAt]; by rewrite ?(locate_absent "probe_script_duration_seconds").
  - destruct du as [x|], sc as [y|]; cbn [orElseAt]; try done.
    all: rewrite IH; auto.
Qed.

Lemma getGauge_set w ms j v : getGauge ms = Some (j, v) → getGauge (alter (setGauge w) j ms) = Some (j, Some w).
Proof.
  revert j. induction ms as [|m ms IH]; intros j; [done|]. cbn [getGauge].
  destruct (m_Gauge m) eqn:Em; [by intros [= <- <-]|].
  destruct (getGauge ms) as [[j' v']|]; [|done]. intros [= <- <-].
  change (alter (setGauge w) (S j') (m :: ms)) with (m :: alter (setGauge w) j' ms). cbn [getGauge].
  by rewrite Em, (IH j').
Qed.
Lemma locate_set n w mfs i a j v :
  locate n mfs i = Some (a, j, v) →
  ∃ k, a = (i + k)%nat ∧ ∀ n', locate n' (alter (λ mf, setMetrics (alter (setGauge w) j (mf_Metric mf)) mf) k mfs) i =
    if decide (n' = n) then Some (a, j, Some w) else locate n' mfs i.
Proof.
  revert i. induction mfs as [|mf mfs IH]; intros i; [done|]. cbn [locate].
  destruct (String.eqb_spec (mf_Name mf) n) as [E|E].
  - destruct (getGauge (mf_Metric mf)) as [[j' v']|] eqn:Eg; [|done]. intros [= <- <- <-]. exists 0%nat.
    split; [lia|]. intros n'. cbn. rewrite (getGauge_set w _ _ _ Eg), E.
    destruct (String.eqb_spec n n'), (decide (n' = n)); try congruence; done.
  - intros (k & -> & Hk)%IH. exists (S k). split; [lia|]. intros n'.
    cbn [alter list_alter locate]. rewrite Hk. destruct (String.eqb_spec (mf_Name mf) n'), (decide (n' = n)); congruence.
Qed.

(** The duration is that of the script if the
    script has one, else that of the probe; and the published duration of the probe is the
    one that is returned, while the other gauges are the same. *)
Lemma patchDuration_spec mfs mfs' found :
  durationsOnce mfs → patchDuration mfs = Ret (mfs', found) →
  match gaugeOf "probe_duration_seconds" mfs with
  | None => found = None ∧ mfs' = mfs
  | Some d =>
      ∃ v, Some v = default d (gaugeOf "probe_script_duration_seconds" mfs) ∧ found = Some (durationOf v) ∧
      ∀ n, gaugeOf n mfs' = if decide (n = "probe_duration_seconds"%string) then Some (Some v) else gaugeOf n mfs
  end.
Proof.
  intros Hnd. unfold patchDuration. rewrite findDurations_spec by done. cbn [orElseAt]. unfold gaugeOf.
  destruct (locate "probe_duration_seconds" mfs 0) as [[[i j] d]|] eqn:Ed; cbn; [|by intros [= <- <-]].
  destruct (locate "probe_script_duration_seconds" mfs 0) as [[[i' j'] s]|] eqn:Es; cbn.
  - destruct s as [v|]; [|done]. destruct d; [|done]. cbn. intros [= <- <-]. exists v. split; [done|]. split; [done|].
    intros n. destruct (locate_set _ v _ _ _ _ _ Ed) as (k & -> & Hk). simpl. rewrite Hk. by case_decide.
  - destruct d as [v|]; [|done]. cbn. intros [= <- <-]. exists v. split; [done|]. split; [done|].
    intros n. case_decide as En; [|done]. by rewrite En, Ed.
Qed.

(** ** Logs *)

(** A stream with its selector; an entry has the time, the line and the metadata. *)
Record logEntry := { en_Timestamp : Z; en_Line : string; en_StructuredMetadata : list labelPair }.
Record logStream := { str_Labels : string; str_Entries : list logEntry }.

Section logs.
(** The logfmt decoder (the complete records, and what was read of one that is not), and
    the encoder: whether it takes a pair, and the line of pairs. *)
Variable logfmt : list ascii → list fields * option fields.
Variables (encodable : string → string → bool) (encodeLine : fields → string).
(** [time.Parse] and [Format] with RFC3339Nano; the zero time is the year 1. *)
Variables (parseTime : string → option Z) (formatTime : Z → string) (zeroTime : Z).

(** One record: its time and the pairs of its line; [None] when it is dropped. *)
Fixpoint scanRecord (kvs : fields) (t : Z) (line : fields) : option (Z * fields) :=
  match kvs with
  | [] => Some (t, line)
  | (k, v) :: kvs =>
      if String.eqb k "ts" then
        if negb (t =? zeroTime) then scanRecord kvs t line
        else t ← parseTime v; scanRecord kvs t line
      else if String.eqb k "time" then t ← parseTime v; scanRecord kvs t line
      else if encodable k v then scanRecord kvs t (line ++ [(k, v)])
      else None
  end.

Definition extractEntry (metadata : list labelPair) (kvs : fields) : option logEntry :=
  '(t, line) ← scanRecord kvs zeroTime [];
  Some {| en_Timestamp := t; en_Line := encodeLine line; en_StructuredMetadata := metadata |}.
Definition allRecords (logs : list ascii) : list fields :=
  let '(rs, partial) := logfmt logs in rs ++ match partial with Some r => [r] | None => [] end.
Definition extractLogs (logs : list ascii) (sharedLabels metadata : list labelPair) : list logStream :=
  let rs := allRecords logs in
  [{| str_Labels := fmtLabels (match rs with [] => [] | _ => sharedLabels end);
      str_Entries := omap (extractEntry metadata) rs |}].

(** ** [runProber] *)

Definition wrapperLogTimestamp (c : scrapeClock) (now : Z) : string :=
  formatTime (match c with wallClock _ => now | logicalClock t => t end).
Definition endLogFields (c : scrapeClock) (duration : float) : fields :=
  match c with
  | wallClock _ => []
  | logicalClock t => [("time"%string, formatTime (t + durationOf duration))]
  end.

(** A line of the wrapped logger: the level comes first, then the time and the labels. *)
Definition wrapLine (c : scrapeClock) (target : string) (labels : list labelPair) (now : Z)
    (level : fields) (line : fields) : fields :=
  level ++ [("ts"%string, wrapperLogTimestamp c now); ("target"%string, target)] ++
  map (λ l, (name l, value l)) labels ++ line.

Definition gauge (n help : string) (labels : list labelPair) (v : float) : MetricFamily :=
  {| mf_Name := n; mf_Help := help; mf_Type := GAUGE;
     mf_Metric := [{| m_Label := labels; m_Counter := None; m_Gauge := Some (Some v); m_Untyped := None;
                      m_Summary := None; m_Histogram := None |}] |}.

(** A registry; [r_gather] fails when what collectors give is inconsistent. *)
Class Registry (R : Type) := {
  r_new : R;
  r_register : MetricFamily → R → option R;
  r_gather : R → option (list MetricFamily) }.

(** What gathering promises: families with distinct names, and among them each gauge without
    labels that was registered, with its value, whatever was registered after it. *)
Definition registersAfter `{Registry R} : R → R → Prop := rtc (λ r r', ∃ mf, r_register mf r = Some r').
Class RegistryLaws (R : Type) `{Registry R} := {
  r_gather_names r mfs : r_gather r = Some mfs → NoDup (map mf_Name mfs);
  r_gather_gauge n help v r r1 r2 mfs : r_register (gauge n help [] v) r = Some r1 → registersAfter r1 r2 →
    r_gather r2 = Some mfs → gaugeOf n mfs = Some (Some v) }.

(** A prober's execution: what it registers, its result and the lines it logs, with the
    times at which it does. *)
Record probing (R : Type) := {
  pr_register : R → R; pr_success : bool; pr_duration : float; pr_lines : list (Z * fields) }.
#[global] Arguments pr_register {R} _.
#[global] Arguments pr_success {R} _.
#[global] Arguments pr_duration {R} _.
#[global] Arguments pr_lines {R} _.

Section prober.
Context {R : Type} `{Registry R}.
Variable showFloat : float → string.
(** [bytes] of a line in the log buffer. *)
Variable bufferLine : fields → list ascii.

Definition mustRegister (mf : MetricFamily) (r : R) : go R :=
  match r_register mf r with Some r => Ret r | None => Panic "duplicate metrics collector registration attempted" end.

(** The readings of the clock: at the start and at the end, with the seconds between. *)
Record readings := { rd_start : Z; rd_end : Z; rd_wall : float }.

Definition reportedDuration (p : probing R) (rd : readings) : float :=
  if SFeqb (pr_duration p) fzero then rd_wall rd else pr_duration p.

Definition beginFields (proberName : string) (timeout : float) : fields :=
  [("msg", "Beginning check"); ("type", proberName); ("timeout_seconds", showFloat timeout)]%string.
Definition endFields (success : bool) (duration wall : float) : fields :=
  [("msg", if success then "Check succeeded" else "Check failed");
   ("duration_seconds", showFloat duration); ("walltime_seconds", showFloat wall)]%string.
Definition runProber (proberName : string) (timeout : float) (p : probing R) (rd : readings)
    (checkInfoLabels : gmap string string) (wrap : Z → fields → fields → fields) (c : scrapeClock) (r : R)
    : go (R * list fields) :=
  let duration := reportedDuration p rd in
  let begin := wrap (rd_start rd) [("level", "info")]%string (beginFields proberName timeout) in
  r ← mustRegister (gauge ProbeSuccessMetricName "Displays whether or not the probe was a success" []
                      (if pr_success p then f64_one else fzero)) (pr_register p r);
  r ← mustRegister (gauge CheckInfoMetricName "Provides information about a single check configuration"
                      (map (λ kv, lbl kv.1 kv.2) (map_to_list checkInfoLabels)) f64_one) r;
  r ← mustRegister (gauge "probe_duration_seconds" "Returns how long the probe took to complete in seconds" []
                      duration) r;
  let end_ := wrap (rd_end rd) [("level", if pr_success p then "info" else "error")]%string
    (endFields (pr_success p) duration (rd_wall rd) ++ endLogFields c duration) in
  Ret (r, begin :: map (λ l, wrap l.1 [] l.2) (pr_lines p) ++ [end_]).

(** ** [getProbeMetrics] *)

Variables (Fingerprint : gmap string string → Z) (registrable : list derived → derived → bool).
(** What gathering the derived metrics gives. *)
Variable gatherDerived : list derived → option (list MetricFamily).

(** The objects registered, as they are after the observations. *)
Definition current (st : derivedState) : list derived :=
  map (λ hd, default hd.2 (objectsOf (d_Summary hd.2) st !! hd.1)) (registered st).

Inductive collectErr := ErrMetricLabels | ErrLogLabels | errTooManyLabels | ErrGather | ErrDerive (e : deriveErr)
  | ErrGatherDerived.

Definition freshRegistry (st : derivedState) : derivedState :=
  {| summaries := summaries st; histograms := histograms st; registered := [] |}.

Lemma freshRegistry_named st : named st → named (freshRegistry st).
Proof. intros [Hst _]. split; [intros k h d; destruct k; apply (Hst true) || apply (Hst false)|intros hd Hh; by apply elem_of_nil in Hh]. Qed.
Lemma current_named st n : named st → n ∈ map d_Name (current st) → n ∉ durationNames.
Proof.
  intros [Hst Hr] (d & -> & (hd & -> & Hh)%list_elem_of_fmap)%list_elem_of_fmap.
  destruct (objectsOf _ st !! _) as [d|] eqn:E; simpl; eauto.
Qed.

Definition getProbeMetrics (basicMetricsOnly : bool) (r : R) (st : derivedState)
    : derivedState * result collectErr (list MetricFamily) :=
  match r_gather r with
  | None => (st, Err ErrGather)
  | Some mfs =>
      match getDerivedMetrics Fingerprint registrable basicMetricsOnly mfs (freshRegistry st) with
      | (st, Some e) => (st, Err (ErrDerive e))
      | (st, None) =>
          match gatherDerived (current st) with
          | None => (st, Err ErrGatherDerived)
          | Some dmfs => (st, Ok (mfs ++ dmfs))
          end
      end
  end.

(** ** [collectDataWith] *)

Variable geohashEncode : float → float → string.
Variables (formatG : float → string) (ofUint : Z → float).

(** What an execution reads: the tenant's label mode and limits ([None] is an error), the
    execution id, the prober and the clocks. *)
Record execution := {
  x_mode : Z; x_maxMetricLabels : option Z; x_maxLogLabels : option Z; x_executionID : string;
  x_proberName : string; x_probing : Z → probing R; x_readings : readings; x_wallStart : Z; x_now : Z }.

(** The hard limit of k6 checks is the next execution. *)
Definition probeTimeout (ct : CheckType) (c : Check) : Z :=
  match ct with
  | CheckTypeMultiHttp | CheckTypeScripted | CheckTypeBrowser => ms (Frequency c)
  | _ => ms (Timeout c)
  end.

Definition collectDataWith (s : scraperConfig) (target : string) (tenantID : Z) (c : scrapeClock) (t : Z)
    (x : execution) (st : derivedState)
    : go (derivedState * result collectErr (@probeData float logStream * bool * Z)) :=
  match x_maxMetricLabels x, x_maxLogLabels x with
  | None, _ => Ret (st, Err ErrMetricLabels)
  | Some _, None => Ret (st, Err ErrLogLabels)
  | Some maxMetricLabels, Some maxLogLabels =>
      match checkInfoLabels geohashEncode s (x_mode x) maxMetricLabels with
      | None => Ret (st, Err errTooManyLabels)
      | Some infoLabels =>
          ct ← Type_ (check s);
          let labels := logLabels s (x_mode x) in
          let timeout := probeTimeout ct (check s) in
          let p := x_probing x timeout in
          '(r, lines) ← runProber (x_proberName x) (seconds timeout) p (x_readings x) infoLabels
                          (wrapLine c target labels) c r_new;
          let '(st, mfs) := getProbeMetrics (BasicMetricsOnly (check s)) r st in
          match mfs with
          | Err e => Ret (st, Err e)
          | Ok mfs =>
              '(mfs, found) ← patchDuration mfs;
              let duration := default (fallbackDuration c (x_wallStart x) (x_now x)) found in
              let ts := extractTimeseries formatG ofUint t mfs (executionMetricLabels s (x_mode x)) in
              '(streamLabels, metadata) ←
                splitLogLabels labels maxLogLabels (if pr_success p then "1" else "0") (x_executionID x);
              Ret (st, Ok ({| tenantId := tenantID; ts := ts;
                              streams := extractLogs (concat (map bufferLine lines)) streamLabels metadata |},
                           negb (pr_success p), duration))
          end
      end
  end.

(** [collectData] for the scheduled scraper; [CollectData] for the collector, which keeps
    the data of a failed check and gives none for any other error. *)
Definition collectData s target tenantID t := collectDataWith s target tenantID (wallClock t) t.
Definition CollectData s target tenantID t := collectDataWith s target tenantID (logicalClock t) t.

(** ** What an execution gives *)

Lemma mustRegister_Ret mf r r' : mustRegister mf r = Ret r' → r_register mf r = Some r'.
Proof. unfold mustRegister. by destruct (r_register mf r) as [?|]; [intros [= ->]|]. Qed.

(** The gauges of the result are in what is gathered. *)
Lemma runProber_gathered `{!RegistryLaws R} proberName timeout p rd info wrap c r r' lines mfs :
  runProber proberName timeout p rd info wrap c r = Ret (r', lines) → r_gather r' = Some mfs →
  gaugeOf ProbeSuccessMetricName mfs = Some (Some (if pr_success p then f64_one else fzero)) ∧
  gaugeOf "probe_duration_seconds" mfs = Some (Some (reportedDuration p rd)).
Proof.
  unfold runProber. intros Hrun Hg.
  destruct (mustRegister _ (pr_register p r)) as [r1|] eqn:E1; [|done]. cbn [mbind go_bind] in Hrun.
  destruct (mustRegister _ r1) as [r2|] eqn:E2; [|done]. cbn [mbind go_bind] in Hrun.
  destruct (mustRegister _ r2) as [r3|] eqn:E3; [|done]. cbn [mbind go_bind] in Hrun. injection Hrun as -> _.
  apply mustRegister_Ret in E1, E2, E3. split.
  - eapply r_gather_gauge; [exact E1| |exact Hg]. eapply rtc_l; [by eexists|]. eapply rtc_l; [by eexists|]. apply rtc_refl.
  - eapply r_gather_gauge; [exact E3|apply rtc_refl|exact Hg].
Qed.

Lemma locate_app n l1 l2 i : n ∉ map mf_Name l2 → locate n (l1 ++ l2) i = locate n l1 i.
Proof.
  intros Hn. revert i. induction l1 as [|mf l1 IH]; intros i; simpl; [by apply locate_absent|].
  destruct (String.eqb _ _); [done|apply IH].
Qed.

(** C16: what an execution gives, and what it adds to the history of the check.  When data
    is returned, the check failed exactly when its prober said so.  The registry that is
    gathered is the new one in which the prober registered its metrics, followed by the
    success, the information and the duration of the check: its families show that
    success and that duration.  The summaries and histograms of the scraper have had exactly
    the values of those families observed, once each, and nothing else, each under the
    hash of its name and labels.  The duration is that of the script if it reports one, else
    that of the probe, and the published duration of the probe is the one that is
    returned, while the other gauges are those gathered; and the series are those of the
    families with those derived from them. *)
Theorem execution_observed `{!RegistryLaws R} s target tenantID c t x st st' d failed duration ct :
  (∀ ds dmfs, gatherDerived ds = Some dmfs → map mf_Name dmfs ⊆ map d_Name ds) →
  named st → Type_ (check s) = Ret ct →
  collectDataWith s target tenantID c t x st = Ret (st', Ok (d, failed, duration)) →
  let p := x_probing x (probeTimeout ct (check s)) in
  let probeDuration := reportedDuration p (x_readings x) in
  named st' ∧
  ∃ maxMetricLabels info r lines mfs dmfs mfs' v,
    x_maxMetricLabels x = Some maxMetricLabels ∧
    checkInfoLabels geohashEncode s (x_mode x) maxMetricLabels = Some info ∧
    runProber (x_proberName x) (seconds (probeTimeout ct (check s))) p (x_readings x) info
      (wrapLine c target (logLabels s (x_mode x))) c r_new = Ret (r, lines) ∧
    r_gather r = Some mfs ∧ gatherDerived (current st') = Some dmfs ∧
    failed = negb (pr_success p) ∧
    gaugeOf ProbeSuccessMetricName mfs = Some (Some (if pr_success p then f64_one else fzero)) ∧
    gaugeOf "probe_duration_seconds" mfs = Some (Some probeDuration) ∧
    (∀ k h, observations k h st' =
       observations k h st ++ flat_map (contribution Fingerprint (BasicMetricsOnly (check s)) k h) mfs) ∧
    Some v = default (Some probeDuration) (gaugeOf "probe_script_duration_seconds" mfs) ∧
    duration = durationOf v ∧ gaugeOf "probe_duration_seconds" mfs' = Some (Some v) ∧
    (∀ n, n ≠ "probe_duration_seconds"%string → gaugeOf n mfs' = gaugeOf n (mfs ++ dmfs)) ∧
    tenantId d = tenantID ∧ ts d = extractTimeseries formatG ofUint t mfs' (executionMetricLabels s (x_mode x)).
Proof.
  intros Hnames Hst Hct. unfold collectDataWith.
  destruct (x_maxMetricLabels x) as [mm|]; [|done]. destruct (x_maxLogLabels x) as [ml|]; [|done].
  destruct (checkInfoLabels _ _ _ _) as [info|] eqn:Einfo; [|done]. rewrite Hct. cbn [mbind go_bind].
  destruct (runProber _ _ _ _ _ _ _ _) as [[r lines]|] eqn:Erun; [|done]. cbn [mbind go_bind].
  unfold getProbeMetrics. destruct (r_gather r) as [mfs|] eqn:Er; [|done].
  destruct (getDerivedMetrics _ _ _ _ _) as [st1 [e|]] eqn:Eder; [done|].
  destruct (gatherDerived (current st1)) as [dmfs|] eqn:Ed; [|done].
  destruct (patchDuration (mfs ++ dmfs)) as [[mfs' found]|] eqn:Ep; [|done]. cbn [mbind go_bind].
  destruct (splitLogLabels _ _ _ _) as [[sl md]|]; [|done]. cbn [mbind go_bind].
  intros [= <- <- <- <-]. cbn [tenantId ts].
  assert (Hst1 : named st1) by (eapply derived_named; [exact Eder|by apply freshRegistry_named]).
  destruct (runProber_gathered _ _ _ _ _ _ _ _ _ _ _ Erun Er) as [Hsucc Hdur].
  assert (Hd : ∀ n, n ∈ map mf_Name dmfs → n ∉ durationNames).
  { intros n Hn. apply (Hnames _ _ Ed) in Hn. by apply (current_named st1). }
  assert (Hg : ∀ n, n ∈ durationNames → gaugeOf n (mfs ++ dmfs) = gaugeOf n mfs).
  { intros n Hn. unfold gaugeOf. rewrite locate_app; [done|]. intros Hin. by apply (Hd n). }
  apply patchDuration_spec in Ep; [|apply durationsOnce_app; [by eapply r_gather_names|exact Hd]].
  rewrite (Hg "probe_duration_seconds"%string ltac:(left)), Hdur in Ep.
  destruct Ep as (v & Hv & -> & Hg'). rewrite (Hg "probe_script_duration_seconds"%string ltac:(right; left)) in Hv.
  split; [done|]. exists mm, info, r, lines, mfs, dmfs, mfs', v. split_and!; try done.
  - intros k h. by rewrite (derived_observes Fingerprint registrable _ _ _ _ k h Eder).
  - intros n Hn. rewrite Hg'. by rewrite decide_False.
Qed.

(** ** The logs of an execution *)

(** [utf8.ValidString]. *)
Definition within (lo hi : N) (a : ascii) : bool := (lo <=? code a)%N && (code a <=? hi)%N.
Fixpoint validUTF8 (l : list ascii) : bool :=
  match l with
  | [] => true
  | a :: l1 =>
      if within 0 127 a then validUTF8 l1
      else match l1 with
           | [] => false
           | b :: l2 =>
               if within 194 223 a then within 128 191 b && validUTF8 l2
               else match l2 with
                    | [] => false
                    | c :: l3 =>
                        if within 224 239 a then
                          within (if (code a =? 224)%N then 160 else 128) (if (code a =? 237)%N then 159 else 191) b &&
                          within 128 191 c && validUTF8 l3
                        else match l3 with
                             | [] => false
                             | d :: l4 =>
                                 within 240 244 a &&
                                 within (if (code a =? 240)%N then 144 else 128) (if (code a =? 244)%N then 143 else 191) b &&
                                 within 128 191 c && within 128 191 d && validUTF8 l4
                             end
                    end
           end
  end.

(** What logfmt documents: a key is a text without spaces, control characters, equals
    signs, quotes and replacement characters, and not empty; a value is any text. *)
Definition replacement : string := of_chars (map Ascii.ascii_of_N [239; 191; 189]%N).
Definition validKey (k : string) : bool :=
  negb (String.eqb k EmptyString) && validUTF8 (chars k) && negb (contains replacement k) &&
  forallb (λ a, (32 <? code a)%N && negb (Ascii.eqb a "=") && negb (code a =? 34)%N) (chars k).
Definition validPair (kv : string * string) : Prop := validKey kv.1 = true ∧ validUTF8 (chars kv.2) = true.
(** The decoder reads lines with a scanner, which takes lines below 64 KiB. *)
Definition maxLine : Z := 65536.
Definition decodable (line : fields) : Prop :=
  line ≠ [] ∧ Forall validPair line ∧ llen (bufferLine line) ≤ maxLine.

(** The years that RFC3339 can write: 0 to 9999. *)
Definition rfcTime (t : Z) : Prop := -62167219200 * 1000000000 ≤ t < 253402300800 * 1000000000.

Section codec.
Hypothesis codec : ∀ ls, Forall decodable ls → logfmt (concat (map bufferLine ls)) = (ls, None).
Hypothesis encodes : ∀ kv, validPair kv → encodable kv.1 kv.2 = true.
Hypothesis parse_format : ∀ t, rfcTime t → parseTime (formatTime t) = Some t.
Hypothesis format_text : ∀ t, rfcTime t → validUTF8 (chars (formatTime t)) = true.
Hypothesis show_text : ∀ f, validUTF8 (chars (showFloat f)) = true.

(** The last [time] of a line, or a default. *)
Definition stamp (t : Z) (kvs : fields) : Z :=
  foldl (λ t kv, if String.eqb kv.1 "time" then default t (parseTime kv.2) else t) t kvs.
Definition shown (kvs : fields) : fields :=
  filter (λ kv, kv.1 ≠ "ts"%string ∧ kv.1 ≠ "time"%string) kvs.
Lemma shown_cons kv kvs :
  shown (kv :: kvs) = if decide (kv.1 ≠ "ts"%string ∧ kv.1 ≠ "time"%string) then kv :: shown kvs else shown kvs.
Proof. done. Qed.
(** Every [time] of a line is one, and not the zero time. *)
Definition timed (kvs : fields) : Prop :=
  Forall (λ kv, kv.1 = "time"%string → ∃ t, parseTime kv.2 = Some t ∧ t ≠ zeroTime) kvs.

Lemma scan_timed kvs t line :
  t ≠ zeroTime → timed kvs → Forall validPair kvs → scanRecord kvs t line = Some (stamp t kvs, line ++ shown kvs).
Proof.
  intros Ht Hk Hv. revert t line Ht Hv. induction Hk as [|[k v] kvs Hk _ IH]; intros t line Ht Hv.
  { cbn. by rewrite app_nil_r. }
  apply Forall_cons in Hv as [Hkv Hv].
  cbn [scanRecord]. rewrite shown_cons. unfold stamp. cbn [foldl fst snd] in *.
  destruct (String.eqb_spec k "ts") as [->|E1].
  { replace (t =? zeroTime) with false by lia. cbn [negb]. rewrite IH by done. by rewrite decide_False by tauto. }
  destruct (String.eqb_spec k "time") as [->|E2].
  { destruct (Hk eq_refl) as (t' & -> & Ht'). cbn. rewrite IH by done. by rewrite decide_False by tauto. }
  pose proof (encodes _ Hkv) as He. cbn in He. rewrite He, IH by done. rewrite decide_True by done. by rewrite <-(assoc_L (++)).
Qed.

Definition plainKey (kv : string * string) : Prop := kv.1 ≠ "ts"%string ∧ kv.1 ≠ "time"%string.
Lemma scan_plain pre kvs t line :
  Forall plainKey pre → Forall validPair pre → scanRecord (pre ++ kvs) t line = scanRecord kvs t (line ++ pre).
Proof.
  intros Hp Hv. revert line. induction Hp as [|[k v] pre [H1 H2] _ IH]; intros line; simpl; [by rewrite app_nil_r|].
  apply Forall_cons in Hv as [Hkv Hv].
  simpl in *. destruct (String.eqb_spec k "ts"), (String.eqb_spec k "time"); try done.
  pose proof (encodes _ Hkv) as He. cbn in He. rewrite He, IH by done. by rewrite <-(assoc_L (++)).
Qed.

Lemma scan_ts v kvs line : scanRecord (("ts"%string, v) :: kvs) zeroTime line = t ← parseTime v; scanRecord kvs t line.
Proof. cbn. by rewrite Z.eqb_refl. Qed.

(** The time of a line, and its entry. *)
Definition base (c : scrapeClock) (now : Z) : Z := match c with wallClock _ => now | logicalClock t => t end.
Definition pairs (labels : list labelPair) : fields := map (λ l, (name l, value l)) labels.
Definition entryOf (c : scrapeClock) (target : string) (labels metadata : list labelPair) (now : Z)
    (level line : fields) : logEntry :=
  {| en_Timestamp := stamp (base c now) line;
     en_Line := encodeLine (level ++ ("target"%string, target) :: pairs labels ++ shown line);
     en_StructuredMetadata := metadata |}.

(** The pairs of a wrapped line, but for its time, are valid. *)
Definition writable (target : string) (labels : list labelPair) (line : fields) : Prop :=
  validPair ("target"%string, target) ∧ Forall validPair (pairs labels) ∧ Forall validPair line.

Lemma extract_wrapped c target labels metadata now level line :
  base c now ≠ zeroTime → rfcTime (base c now) → Forall plainKey level → Forall validPair level →
  Forall plainKey (pairs labels) → writable target labels line → timed line →
  extractEntry metadata (wrapLine c target labels now level line) =
  Some (entryOf c target labels metadata now level line).
Proof.
  intros Hb Hr Hl Hlv Hp (Htv & Hpv & Hv) Ht. unfold extractEntry.
  change (wrapLine c target labels now level line) with
    (level ++ ("ts"%string, formatTime (base c now)) :: (("target"%string, target) :: pairs labels) ++ line).
  rewrite scan_plain, scan_ts, parse_format by done. cbn [mbind option_bind].
  rewrite scan_plain, scan_timed; [|done|done|done|by constructor|by constructor].
  cbn [mbind option_bind fst snd app].
  unfold entryOf. by rewrite <-(assoc_L (++)).
Qed.

Lemma extract_lines c target labels metadata (ls : list (Z * fields)) :
  Forall plainKey (pairs labels) →
  Forall (λ l, writable target labels l.2 ∧ timed l.2 ∧ base c l.1 ≠ zeroTime ∧ rfcTime (base c l.1)) ls →
  omap (extractEntry metadata) (map (λ l, wrapLine c target labels l.1 [] l.2) ls) =
  map (λ l, entryOf c target labels metadata l.1 [] l.2) ls.
Proof.
  intros Hlab. induction 1 as [|l ls (Hw & Hl & Hb & Hr) _ IH]; [done|]. cbn [map].
  change (omap ?f (?a :: ?l)) with (match f a with Some b => b :: omap f l | None => omap f l end).
  rewrite extract_wrapped; [f_equal; exact IH|done|done|constructor|constructor|done|done|done].
Qed.

Lemma wrapLine_decodable c target labels now level line :
  rfcTime (base c now) → Forall validPair level → writable target labels line →
  llen (bufferLine (wrapLine c target labels now level line)) ≤ maxLine →
  decodable (wrapLine c target labels now level line).
Proof.
  intros Hr Hl (Ht & Hp & Hv) Hlen. split; [by destruct level|]. split; [|done]. unfold wrapLine.
  apply Forall_app. split; [done|]. apply Forall_app. split; [|by apply Forall_app].
  apply Forall_cons. split; [split; [done|by apply format_text]|]. by apply Forall_singleton.
Qed.

(** The lines that an execution logs. *)
Definition loggedLines (c : scrapeClock) (target : string) (labels : list labelPair) (proberName : string) (timeout : float)
    (p : probing R) (rd : readings) : list fields :=
  wrapLine c target labels (rd_start rd) [("level", "info")]%string (beginFields proberName timeout) ::
  map (λ l, wrapLine c target labels l.1 [] l.2) (pr_lines p) ++
  [wrapLine c target labels (rd_end rd) [("level", if pr_success p then "info" else "error")]%string
     (endFields (pr_success p) (reportedDuration p rd) (rd_wall rd) ++ endLogFields c (reportedDuration p rd))].

Lemma runProber_logs proberName timeout p rd info c target labels r r' lines :
  runProber proberName timeout p rd info (wrapLine c target labels) c r = Ret (r', lines) →
  lines = loggedLines c target labels proberName timeout p rd.
Proof.
  unfold runProber. intros Erun. repeat (destruct (mustRegister _ _); [|done]; cbn [mbind go_bind] in Erun).
  by injection Erun as _ <-.
Qed.

(** C23: the logs of an execution.  When no label of the check is called ts or time, and the
    names, texts, times and lengths of what is logged are within what logfmt and RFC3339 can
    write and read back, there is one stream, whose selector is that of the labels that
    fit, and one entry for each line, in order: the first line, those of the prober, and
    the result; each with the other labels as metadata and the labels of the check in
    the line, and stamped with the prober's own time for it when it gives one, else with
    the time of the scrape's clock.  For the collector that is the time of the event, and
    the result is stamped with that time and the duration of the probe. *)
Theorem logs_of_execution s target tenantID c t x st st' d failed duration ct :
  Type_ (check s) = Ret ct →
  let p := x_probing x (probeTimeout ct (check s)) in
  let rd := x_readings x in
  let labels := logLabels s (x_mode x) in
  let timeout := seconds (probeTimeout ct (check s)) in
  let level := [("level", if pr_success p then "info" else "error")]%string in
  let end_ := endFields (pr_success p) (reportedDuration p rd) (rd_wall rd) ++
              endLogFields c (reportedDuration p rd) in
  let endTime := match c with wallClock _ => rd_end rd | logicalClock e => e + durationOf (reportedDuration p rd) end in
  Forall plainKey (pairs labels) → Forall validPair (pairs labels) →
  validUTF8 (chars target) = true → validUTF8 (chars (x_proberName x)) = true →
  Forall (λ l, Forall validPair l.2 ∧ timed l.2) (pr_lines p) →
  Forall (λ now, base c now ≠ zeroTime ∧ rfcTime (base c now)) (rd_start rd :: rd_end rd :: map fst (pr_lines p)) →
  endTime ≠ zeroTime → rfcTime endTime →
  Forall (λ l, llen (bufferLine l) ≤ maxLine) (loggedLines c target labels (x_proberName x) timeout p rd) →
  collectDataWith s target tenantID c t x st = Ret (st', Ok (d, failed, duration)) →
  ∃ maxLogLabels streamLabels metadata,
    x_maxLogLabels x = Some maxLogLabels ∧
    splitLogLabels labels maxLogLabels (if pr_success p then "1" else "0") (x_executionID x) =
      Ret (streamLabels, metadata) ∧
    streams d = [{| str_Labels := fmtLabels streamLabels;
      str_Entries :=
        entryOf c target labels metadata (rd_start rd) [("level", "info")]%string
          (beginFields (x_proberName x) timeout) ::
        map (λ l, entryOf c target labels metadata l.1 [] l.2) (pr_lines p) ++
        [entryOf c target labels metadata (rd_end rd) level end_] |}] ∧
    stamp (base c (rd_end rd)) end_ = endTime.
Proof.
  intros Hct p rd labels timeout level end_ endTime Hlab Hlabv Htar Hname Hlines Htimes Het Her Hfit.
  apply Forall_cons in Htimes as [[Hs0 Hs1] Htimes]. apply Forall_cons in Htimes as [[He0 He1] Htimes].
  rewrite Forall_map in Htimes.
  assert (Hw : ∀ line, Forall validPair line → writable target labels line) by (intros line Hv; by split_and!).
  assert (Hbegin : Forall validPair (beginFields (x_proberName x) timeout)).
  { repeat constructor; [done|apply show_text]. }
  assert (Hend : Forall validPair end_).
  { apply Forall_app. split; [|destruct c; repeat constructor; by apply format_text].
    repeat constructor; [by destruct (pr_success p)|apply show_text..]. }
  assert (Hlevel : Forall validPair level ∧ Forall plainKey level).
  { split; repeat constructor; by destruct (pr_success p). }
  assert (Htend : timed end_).
  { apply Forall_app. split; [by repeat constructor|]. destruct c as [|e]; [constructor|]. apply Forall_singleton.
    intros _. exists endTime. split; [by apply parse_format|done]. }
  assert (Hl : Forall (λ l, writable target labels l.2 ∧ timed l.2 ∧ base c l.1 ≠ zeroTime ∧ rfcTime (base c l.1))
    (pr_lines p)).
  { rewrite !Forall_forall in *. intros l Hin. destruct (Hlines l Hin), (Htimes l Hin). by split_and!; [apply Hw|..]. }
  unfold collectDataWith.
  destruct (x_maxMetricLabels x) as [mm|]; [|done]. destruct (x_maxLogLabels x) as [ml|]; [|done].
  destruct (checkInfoLabels _ _ _ _) as [info|]; [|done]. rewrite Hct. cbn [mbind go_bind].
  fold p labels rd timeout. destruct (runProber _ _ _ _ _ _ _ _) as [[r lines]|] eqn:Erun; [|done]. cbn [mbind go_bind].
  apply runProber_logs in Erun as ->. remember (loggedLines _ _ _ _ _ _ _) as lines eqn:El in *.
  destruct (getProbeMetrics _ _ _) as [st1 [mfs|]]; [|done].
  destruct (patchDuration mfs) as [[mfs' found]|]; [|done]. cbn [mbind go_bind].
  destruct (splitLogLabels _ _ _ _) as [[sl md]|] eqn:Esp; [|done]. cbn [mbind go_bind].
  intros [= _ <- _ _]. exists ml, sl, md. split; [done|]. split; [done|]. cbn [streams]. split.
  - unfold extractLogs, allRecords. rewrite codec, app_nil_r.
    2: { rewrite El in *. unfold loggedLines in *. apply Forall_cons in Hfit as [Hf1 Hfit]. apply Forall_app in Hfit as [Hf2 Hf3].
         apply (proj1 (Forall_singleton _ _)) in Hf3. constructor; [apply wrapLine_decodable; auto; by repeat constructor|].
         apply Forall_app. split; [|apply Forall_singleton, wrapLine_decodable; [done|apply Hlevel|by apply Hw|exact Hf3]].
         rewrite Forall_map in *. rewrite !Forall_forall in *. intros l Hin. destruct (Hl l Hin) as (? & _ & _ & ?).
         apply wrapLine_decodable; auto. }
    rewrite El. unfold loggedLines. do 2 f_equal.
    change (omap ?f (?a :: ?l)) with (match f a with Some b => b :: omap f l | None => omap f l end).
    rewrite extract_wrapped; [|done|done|by repeat constructor|by repeat constructor|done|by apply Hw|by repeat constructor].
    f_equal. rewrite omap_app. f_equal; [by apply extract_lines|].
    change (omap ?f [?a]) with (match f a with Some b => [b] | None => [] end).
    rewrite extract_wrapped; [done|done|done|apply Hlevel|apply Hlevel|done|by apply Hw|done].
  - unfold end_, endTime. destruct c; simpl; [done|]. unfold stamp. simpl. by rewrite parse_format.
Qed.

(** A label called time takes all the logs of the check away: its value is taken for the
    time of each line, and a line whose time does not parse is dropped. *)
Lemma scan_bad kvs t line v :
  ("time"%string, v) ∈ kvs → parseTime v = None → scanRecord kvs t line = None.
Proof.
  intros Hin Hv. revert t line. induction kvs as [|[k w] kvs IH]; intros t line; [by apply elem_of_nil in Hin|].
  cbn [scanRecord]. apply elem_of_cons in Hin as [[= <- <-]|Hin]; [cbn; by rewrite Hv|]. specialize (IH Hin).
  destruct (String.eqb k "ts"), (String.eqb k "time"), (encodable k w), (parseTime w); cbn;
    try destruct (negb _); done.
Qed.
Lemma time_label_drops_logs c target labels metadata now level line v :
  ("time"%string, v) ∈ pairs labels → parseTime v = None →
  extractEntry metadata (wrapLine c target labels now level line) = None.
Proof.
  intros Hin Hv. unfold extractEntry. rewrite (scan_bad _ _ _ v); [done| |done].
  unfold wrapLine. apply elem_of_app. right. apply elem_of_app. right. apply elem_of_app. by left.
Qed.
End codec.

(** The public collector: the limits it sets, and one execution at an event time. *)
Definition noopLimit : Z := 128.
Definition Collect (s : scraperConfig) (target : string) (tenantID mode t : Z) (x : execution) (st : derivedState) :=
  CollectData s target tenantID t
    {| x_mode := mode; x_maxMetricLabels := Some noopLimit; x_maxLogLabels := Some noopLimit;
       x_executionID := x_executionID x; x_proberName := x_proberName x; x_probing := x_probing x;
       x_readings := x_readings x; x_wallStart := x_wallStart x; x_now := x_now x |} st.
End prober.
End logs.

(** [NewWithOpts]: the factory gives the target, or fails; both maps are empty. *)
Definition NewWithOpts (c : Check) (p : Probe) (factory : option string)
    : go (option (scraperConfig * string * derivedState)) :=
  ct ← Type_ c;
  Ret (target ← factory;
       Some ({| checkName := CheckType_String ct; check := c; probe := p |}, target,
             {| summaries := ∅; histograms := ∅; registered := [] |})).

(** Validation takes such a label, and it is not reserved. *)
Lemma time_label_is_valid :
  Label_Validate {| l_Name := "time"; l_Value := "noon" |} = None ∧ IsSystemLabel "time" = false.
Proof. split; reflexivity. Qed.

(** ** Instances *)

(** A logfmt that escapes every byte. *)
Fixpoint decodeLines (l cur : list ascii) (key : option string) (line : fields) : list fields * option fields :=
  match l with
  | [] => ([], match line with [] => None | _ => Some line end)
  | a :: l =>
      if Ascii.eqb a "c" then
        match l with
        | [] => ([], Some line)
        | b :: l => decodeLines l (cur ++ [b]) key line
        end
      else if Ascii.eqb a "." then
        match key with
        | None => decodeLines l [] (Some (of_chars cur)) line
        | Some k => decodeLines l [] None (line ++ [(k, of_chars cur)])
        end
      else let '(rs, p) := decodeLines l [] None [] in (line :: rs, p)
  end.
Definition escape (s : string) : list ascii := flat_map (λ a, ["c"%char; a]) (chars s).
Definition encodeField (kv : string * string) : list ascii := escape kv.1 ++ "."%char :: escape kv.2 ++ ["."%char].
Definition encodeBuffer (line : fields) : list ascii := flat_map encodeField line ++ ["n"%char].

Lemma decode_escape s rest cur key line :
  decodeLines (escape s ++ rest) cur key line = decodeLines rest (cur ++ chars s) key line.
Proof.
  unfold escape. revert cur. induction (chars s) as [|a l IH]; intros cur; [by rewrite app_nil_r|].
  cbn. rewrite IH. by rewrite <-(assoc_L (++)).
Qed.
Lemma decode_fields kvs rest line :
  decodeLines (flat_map encodeField kvs ++ rest) [] None line = decodeLines rest [] None (line ++ kvs).
Proof.
  revert line. induction kvs as [|[k v] kvs IH]; intros line; [by rewrite app_nil_r|].
  cbn [flat_map]. unfold encodeField at 1. cbn [fst snd]. rewrite <-!(assoc_L (++)), decode_escape. cbn.
  rewrite <-!(assoc_L (++)), decode_escape. cbn. rewrite IH, !of_chars_chars. by rewrite <-(assoc_L (++)).
Qed.
Lemma decode_buffer ls : decodeLines (concat (map encodeBuffer ls)) [] None [] = (ls, None).
Proof.
  induction ls as [|line ls IH]; [done|]. cbn [map concat]. unfold encodeBuffer at 1.
  rewrite <-(assoc_L (++)), decode_fields. cbn. by rewrite IH.
Qed.

(** Times in decimal nanoseconds, which are text. *)
Definition decimalTime (t : Z) : string := NilEmpty.string_of_int (Z.to_int t).
Definition parseDecimal (s : string) : option Z := option_map Z.of_int (NilEmpty.int_of_string s).
Lemma parse_decimal t : parseDecimal (decimalTime t) = Some t.
Proof. unfold parseDecimal, decimalTime. rewrite NilEmpty.isi. simpl. by rewrite DecimalZ.of_to. Qed.

Lemma decimal_text t : validUTF8 (chars (decimalTime t)) = true.
Proof.
  assert (Hu : ∀ d, validUTF8 (chars (NilEmpty.string_of_uint d)) = true) by (induction d; done).
  unfold decimalTime. destruct (Z.to_int t); apply Hu.
Qed.

(** A registry that keeps one family for each name. *)
Definition registerFamily (mf : MetricFamily) (r : list MetricFamily) : option (list MetricFamily) :=
  if decide (mf_Name mf ∈ map mf_Name r) then None else Some (r ++ [mf]).
Definition gatherFamilies (r : list MetricFamily) : option (list MetricFamily) :=
  if decide (NoDup (map mf_Name r)) then Some r else None.
#[local] Instance listRegistry : Registry (list MetricFamily) := {|
  r_new := []; r_register := registerFamily; r_gather := gatherFamilies |}.

Definition exampleFingerprint (m : gmap string string) : Z := Z.pos (encode m).
#[local] Instance exampleFingerprint_inj : Inj (=) (=) exampleFingerprint.
Proof. intros x y [= H]. by apply (inj encode) in H. Qed.

Definition exampleProbing : probing (list MetricFamily) :=
  {| pr_register := λ r, r ++ [gauge "probe_script_duration_seconds" "" [] f64_one]; pr_success := false;
     pr_duration := fzero; pr_lines := [(5, [("msg", "hello"); ("time", decimalTime 7)]); (6, [("msg", "bye")])]%string |}.
Definition exampleExecution : execution :=
  {| x_mode := LABEL_MODE_PREFIXED; x_maxMetricLabels := Some 20; x_maxLogLabels := Some 15;
     x_executionID := "id"; x_proberName := "ping"; x_probing := λ _, exampleProbing;
     x_readings := {| rd_start := 4; rd_end := 9; rd_wall := f64_one |}; x_wallStart := 4; x_now := 10 |}.
Definition noDerived : derivedState := {| summaries := ∅; histograms := ∅; registered := [] |}.
Definition exampleRun : go (derivedState * result collectErr (@probeData float logStream * bool * Z)) :=
  collectDataWith (λ l, decodeLines l [] None []) (λ _ _, true) (λ l, of_chars (encodeBuffer l)) parseDecimal decimalTime (-1)
    (λ _, "1"%string) encodeBuffer exampleFingerprint (λ _ _, true) (λ _, Some []) (λ _ _, "geo"%string)
    (λ _, "1"%string) f64_of (example_config "none" [] [ulabel "team" "a"]) "target" 7 (logicalClock 100) 100
    exampleExecution noDerived.

#[local] Instance listRegistry_laws : RegistryLaws (list MetricFamily).
Proof.
  assert (Hgather : ∀ r mfs, gatherFamilies r = Some mfs → mfs = r ∧ NoDup (map mf_Name r)).
  { intros r mfs. unfold gatherFamilies. destruct (decide _); [by intros [= <-]|done]. }
  split; [by intros r mfs [-> ?]%Hgather|].
  intros n help v r r1 r2 mfs H1 Hr [-> _]%Hgather. change (registerFamily (gauge n help [] v) r = Some r1) in H1.
  unfold registerFamily in H1. destruct (decide _) as [|Hn]; [done|]. injection H1 as <-.
  assert (Hin : gaugeOf n r2 = Some (Some v)).
  { remember (r ++ [gauge n help [] v]) as r1 eqn:E1.
    assert (H1 : gaugeOf n r1 = Some (Some v) ∧ n ∈ map mf_Name r1).
    { subst r1. rewrite map_app. split; [|set_solver]. clear Hr r2. unfold gaugeOf. cbn [mf_Name gauge] in Hn.
      generalize 0%nat. induction r as [|mf r IH]; intros k; [simpl; by rewrite String.eqb_refl|].
      simpl in *. apply not_elem_of_cons in Hn as [Hn1 Hn2]. rewrite (proj2 (String.eqb_neq _ _)) by done. by apply IH. }
    clear E1 Hn r. induction Hr as [r|r r' r2 (mf & Hmf) _ IH]; [apply H1|]. apply IH. destruct H1 as [H1 H2].
    change (registerFamily mf r = Some r') in Hmf.
    unfold registerFamily in Hmf. destruct (decide _) as [|Hn]; [done|]. injection Hmf as <-. rewrite map_app.
    split; [|set_solver]. revert H1. unfold gaugeOf. rewrite locate_app; [done|].
    simpl. rewrite list_elem_of_singleton. congruence. }
  exact Hin.
Qed.

(** A failed check of a scraper without history: the summary of its success has a zero. *)
Definition returnsData {S A E} (r : go (S * result E A)) : bool := match r with Ret (_, Ok _) => true | _ => false end.
Lemma execution_observed_witness :
  ∃ st' d failed duration, exampleRun = Ret (st', Ok (d, failed, duration)) ∧ failed = true ∧
    ∃ mfs, gaugeOf ProbeSuccessMetricName mfs = Some (Some fzero) ∧
      ∀ h, observations true h st' = flat_map (contribution exampleFingerprint false true h) mfs.
Proof.
  assert (Hok : returnsData exampleRun = true) by (vm_compute; reflexivity).
  destruct exampleRun as [[st' [[[d failed] duration]|e]]|e] eqn:E; [|discriminate Hok..].
  assert (E' := E). unfold exampleRun in E'.
  eapply execution_observed in E'
    as (_ & mm & info & r & lines & mfs & dmfs & mfs' & v & _ & _ & _ & _ & _ & Hf & Hsucc & _ & Ho & _).
  - exists st', d, failed, duration. split; [reflexivity|]. split; [exact Hf|]. exists mfs. split; [exact Hsucc|].
    intros h. rewrite (Ho true h). reflexivity.
  - exact listRegistry_laws.
  - clear. intros ds dmfs [= <-] n Hn. destruct (not_elem_of_nil _ Hn).
  - clear. split; [intros k h dd; destruct k; simpl; by rewrite lookup_empty|]. simpl. intros hd Hh.
    destruct (not_elem_of_nil _ Hh).
  - reflexivity.
Defined.
(** The script's second is the duration. *)
Lemma exampleRun_duration :
  match exampleRun with Ret (_, Ok (_, failed, duration)) => (failed, duration) | _ => (false, 0) end =
  (true, 1000000000).
Proof. by vm_compute. Qed.

(** The collector: the event at 100, a line at its own time, and the result a second later. *)
Lemma logs_of_execution_witness :
  ∃ st' d failed duration sl md a b c e,
    exampleRun = Ret (st', Ok (d, failed, duration)) ∧
    streams d = [{| str_Labels := fmtLabels sl; str_Entries := [a; b; c; e] |}] ∧
    map en_Timestamp [a; b; c] = [100; 7; 100] ∧ en_StructuredMetadata a = md.
Proof.
  assert (Hok : returnsData exampleRun = true) by (vm_compute; reflexivity).
  destruct exampleRun as [[st' [[[d failed] duration]|e]]|e] eqn:E; [|discriminate Hok..].
  assert (E' := E). unfold exampleRun in E'.
  eapply logs_of_execution in E' as (ml & sl & md & _ & _ & Hs & _).
  - do 10 eexists. split; [reflexivity|]. split; [exact Hs|]. split; reflexivity.
  - intros ls _. apply decode_buffer.
  - reflexivity.
  - intros t' _. apply parse_decimal.
  - intros t' _. apply decimal_text.
  - reflexivity.
  - reflexivity.
  - vm_compute. repeat constructor; discriminate.
  - by apply (bool_decide_unpack _); vm_compute.
  - reflexivity.
  - reflexivity.
  - unfold timed. apply Forall_cons; split; [|apply Forall_singleton]; (split; [by repeat constructor|]).
    + apply Forall_cons; split; [discriminate|]. apply Forall_singleton. intros _. exists 7.
      split; [reflexivity|discriminate].
    + apply Forall_singleton. discriminate.
  - repeat constructor; discriminate.
  - discriminate.
  - split; vm_compute; congruence.
  - vm_compute. repeat constructor; discriminate.
Defined.
