(* ===== verification/Collector.v ===== *)
(** * The public collector

    [pkg/collector/collector.go]: a scraper around a prober of the caller, without
    publishing, whose executions are stamped with the time of an event.  Its scraper
    is the one of [Collect], with the parameters of that file. *)
From S2P Require Import Prelude Strs Ids Checks Updater Labels Scrape Collect.

Open Scope Z_scope.

(** [Option]: a change of the options. *)
Record options := { op_labelMode : Z }.
Definition Option_ : Type := options → options.
Definition WithLabelMode (mode : Z) : Option_ := λ _, {| op_labelMode := mode |}.
Definition applyOptions (l : list Option_) : options :=
  fold_left (λ o f, f o) l {| op_labelMode := LABEL_MODE_PREFIXED |}.

Record Collector := {
  co_config : scraperConfig; co_target : string; co_tenant : Z; co_labelMode : Z; co_state : derivedState;
  co_closed : bool }.

(** [probeFactory.New]: the supplied prober, for the target of the check. *)
Definition probeFactory_New (check : mCheck) : option string := Some (Target (sm check)).

(** [New]; the codec of [FromSM] is library code.  A scraper that cannot be made cancels
    the context. *)
Definition New (recode : Check → option Check) (check : Check) (probe : Checks.Probe) (collectorOptions : list Option_)
    : go (option Collector) :=
  match FromSM recode check with
  | None => Ret None
  | Some modelCheck =>
      let opts := applyOptions collectorOptions in
      s ← NewWithOpts (sm modelCheck) probe (probeFactory_New modelCheck);
      Ret ('(config, target, state) ← s;
           Some {| co_config := config; co_target := target; co_tenant := GlobalTenantID modelCheck;
                   co_labelMode := op_labelMode opts; co_state := state; co_closed := false |})
  end.

(** [Close], which can be called again. *)
Definition Close (c : Collector) : Collector :=
  {| co_config := co_config c; co_target := co_target c; co_tenant := co_tenant c; co_labelMode := co_labelMode c;
     co_state := co_state c; co_closed := true |}.

Inductive collectorErr := errCheckFailed | ErrFatal (e : collectErr).

(** The result of [Collect] for what [CollectData] returns: the data of a failed check
    comes with an error, nothing comes with another error. *)
Definition collectorResult (r : result collectErr (@probeData float logStream * bool * Z))
    : option (@probeData float logStream) * error collectorErr :=
  match r with
  | Err e => (None, Some (ErrFatal e))
  | Ok (d, failed, _) => (Some d, if failed then Some errCheckFailed else None)
  end.

Section collect.
Variable logfmt : list ascii → list fields * option fields.
Variables (encodable : string → string → bool) (encodeLine : fields → string).
Variables (parseTime : string → option Z) (formatTime : Z → string) (zeroTime : Z).
Context {R : Type} `{Collect.Registry R}.
Variables (showFloat : float → string) (bufferLine : fields → list ascii).
Variables (Fingerprint : gmap string string → Z) (registrable : list derived → derived → bool).
Variable gatherDerived : list derived → option (list MetricFamily).
Variables (geohashEncode : float → float → string) (formatG : float → string) (ofUint : Z → float).

Definition Collector_Collect (t : Z) (x : execution (R := R)) (c : Collector)
    : go (Collector * (option (@probeData float logStream) * error collectorErr)) :=
  '(st, r) ← Collect logfmt encodable encodeLine parseTime formatTime zeroTime showFloat bufferLine Fingerprint
      registrable gatherDerived geohashEncode formatG ofUint
      (co_config c) (co_target c) (co_tenant c) (co_labelMode c) t x (co_state c);
  Ret ({| co_config := co_config c; co_target := co_target c; co_tenant := co_tenant c; co_labelMode := co_labelMode c;
          co_state := st; co_closed := co_closed c |}, collectorResult r).

(** Neither limits nor the tenant's label mode stop a collection, and data that comes
    is that of the tenant; it comes with an error exactly for a check that failed. *)
Lemma Collect_result t x c c' d e :
  Collector_Collect t x c = Ret (c', (d, e)) →
  e ≠ Some (ErrFatal ErrMetricLabels) ∧ e ≠ Some (ErrFatal ErrLogLabels) ∧
  (d = None ↔ ∃ f, e = Some (ErrFatal f)) ∧ (∀ pd, d = Some pd → tenantId pd = co_tenant c).
Proof.
  unfold Collector_Collect. destruct (Collect _ _ _ _ _ _ _ _ _ _ _ _ _ _ _ _ _ _ _ _ _) as [[st r]|] eqn:E; [|done].
  cbn [mbind go_bind]. intros [= <- Er]. unfold Collect, CollectData, collectDataWith in E. cbn [x_maxMetricLabels x_maxLogLabels] in E.
  assert (Hr : r ≠ Err ErrMetricLabels ∧ r ≠ Err ErrLogLabels ∧ (∀ pd f u, r = Ok (pd, f, u) → tenantId pd = co_tenant c)).
  { destruct (checkInfoLabels _ _ _ _); [|by injection E as <- <-].
    destruct (Type_ _); [|done]. cbn [mbind go_bind] in E. destruct (runProber _ _ _ _ _ _ _ _) as [[? ?]|]; [|done].
    cbn [mbind go_bind] in E. destruct (getProbeMetrics _ _ _ _ _ _) as [st1 mfs] eqn:Eg.
    assert (He : ∀ e, mfs = Err e → e ≠ ErrMetricLabels ∧ e ≠ ErrLogLabels).
    { intros e0 ->. unfold getProbeMetrics in Eg. destruct (r_gather _); [|by simplify_eq].
      destruct (getDerivedMetrics _ _ _ _ _) as [? []]; [by simplify_eq|]. destruct (gatherDerived _); by simplify_eq. }
    destruct mfs as [mfs|e0]; [|injection E as <- <-; destruct (He e0 eq_refl); split_and!; congruence].
    destruct (patchDuration _) as [[? ?]|]; [|done]. cbn [mbind go_bind] in E.
    destruct (splitLogLabels _ _ _ _) as [[? ?]|]; [|done]. injection E as <- <-. split_and!; [done..|].
    by intros pd f u [= <- <- <-]. }
  destruct Hr as (H1 & H2 & H3). unfold collectorResult in Er. destruct r as [[[pd f] u]|e0]; simplify_eq; split_and!.
  - by destruct f.
  - by destruct f.
  - split; [done|]. intros [g Hg]. by destruct f.
  - intros pd' [= <-]. by eapply H3.
  - congruence.
  - congruence.
  - split; [by eexists|done].
  - done.
Qed.
End collect.

(** The last label mode counts, and a collector of a check that has a type is made for
    its target and its tenant. *)
Lemma WithLabelMode_last l m : op_labelMode (applyOptions (l ++ [WithLabelMode m])) = m.
Proof. unfold applyOptions. by rewrite fold_left_app. Qed.

Lemma New_ok recode check probe opts m ct :
  FromSM recode check = Some m → Type_ (sm m) = Ret ct →
  ∃ c, New recode check probe opts = Ret (Some c) ∧ co_target c = Target (sm m) ∧ co_tenant c = GlobalTenantID m ∧
    co_labelMode c = op_labelMode (applyOptions opts) ∧ Labels.check (co_config c) = sm m.
Proof.
  intros Hm Hct. unfold New, NewWithOpts. rewrite Hm, Hct. cbn. eexists. split; [done|]. done.
Qed.
