(* ===== verification/Telemetry.v ===== *)
(** * Telemetry of check executions

    [internal/telemetry/region_pusher.go]: the executions accumulated per
    tenant, check class and cost attribution labels, and the string the labels are
    kept under; [telemeter.go]: the pusher of each region.  The periodic push and
    the metrics of the pusher are not modelled. *)
From S2P Require Import Prelude Strs Labels.
From Stdlib Require Import Floats.SpecFloat Sorting.Sorted.

Open Scope Z_scope.

(** ** Cost attribution labels as keys *)

(** [strings.Compare] orders by bytes. *)
Definition nameLe (a b : labelPair) : Prop := String.leb (name a) (name b) = true.
#[export] Instance nameLe_dec a b : Decision (nameLe a b).
Proof. unfold nameLe. apply _. Defined.

(** [slices.SortFunc] by name.  It does not say in which order it leaves labels with equal
    names, so any function that sorts will do. *)
Class LabelSort := {
  SortFunc : list labelPair → list labelPair;
  SortFunc_perm l : SortFunc l ≡ₚ l;
  SortFunc_sorted l : StronglySorted nameLe (SortFunc l) }.

Section telemetry.
Context {sorting : LabelSort}.

(** The copy that [serializeCALs] sorts. *)
Definition sortLabels (cals : list labelPair) : list labelPair := SortFunc cals.

Definition part (l : labelPair) : string := name l +:+ "=" +:+ value l.

Definition serializeCALs (cals : list labelPair) : string :=
  match cals with
  | [] => CalNilStringTerminator
  | _ => join "," (map part (sortLabels cals))
  end.

(** One element: [c[1]] panics when there is no [=]. *)
Definition deserializePart (cal : string) : go labelPair :=
  match split "="%char cal with
  | n :: v :: _ => Ret (lbl n v)
  | _ => Panic "index out of range"
  end.
Fixpoint deserializeParts (l : list string) : go (list labelPair) :=
  match l with
  | [] => Ret []
  | cal :: l => c ← deserializePart cal; cs ← deserializeParts l; Ret (c :: cs)
  end.
Definition deserializeCals (calKey : string) : go (list labelPair) :=
  if bool_decide (calKey = CalNilStringTerminator) then Ret []
  else deserializeParts (split ","%char calKey).

(** ** Accumulation *)

Definition wrap32 (z : Z) : Z := (z + 2147483648) `mod` 4294967296 - 2147483648.

Record CheckClassTelemetry := {
  CheckClass : Z;
  Executions : Z;
  Duration : spec_float;              (** [float32] *)
  SampledExecutions : Z;
  CostAttributionLabels : list labelPair;
}.

Record Execution := {
  LocalTenantID : Z;
  RegionID : Z;
  x_CheckClass : Z;
  x_Duration : Z;                     (** nanoseconds *)
  x_Labels : list labelPair;
}.

(** [float32(d.Seconds())]. *)
Definition f64 (z : Z) : spec_float := binary_normalize 53 1024 z 0 false.
Definition toFloat32 (f : spec_float) : spec_float :=
  match f with
  | S754_finite s m e => binary_round 24 128 s m e
  | _ => f
  end.
Definition Seconds (d : Z) : spec_float :=
  SFadd 53 1024 (f64 (d ÷ 1000000000)) (SFdiv 53 1024 (f64 (Z.rem d 1000000000)) (f64 1000000000)).

Definition Minute : Z := 60000000000.

(** Indexed by tenant, class and serialized labels. *)
Notation telemetry := (gmap Z (gmap Z (gmap string CheckClassTelemetry))).

Definition AddExecution (e : Execution) (p : telemetry) : go telemetry :=
  let tenantTele := default ∅ (p !! LocalTenantID e) in
  let clTele := default ∅ (tenantTele !! x_CheckClass e) in
  let calsKey := serializeCALs (x_Labels e) in
  calTele ←
    match clTele !! calsKey with
    | Some t => Ret t
    | None =>
        labels ← deserializeCals calsKey;
        Ret {| CheckClass := x_CheckClass e; Executions := 0; Duration := S754_zero false;
               SampledExecutions := 0; CostAttributionLabels := labels |}
    end;
  let calTele' :=
    {| CheckClass := CheckClass calTele;
       Executions := wrap32 (Executions calTele + 1);
       Duration := SFadd 24 128 (Duration calTele) (toFloat32 (Seconds (x_Duration e)));
       SampledExecutions :=
         wrap32 (SampledExecutions calTele + wrap32 (wrap64 (x_Duration e + Minute - 1) ÷ Minute));
       CostAttributionLabels := CostAttributionLabels calTele |} in
  Ret (<[LocalTenantID e := <[x_CheckClass e := <[calsKey := calTele']> clTele]> tenantTele]> p).

(** [next]: the accumulated telemetry by tenant; it is not reset. *)
Definition next (p : telemetry) : list (Z * list CheckClassTelemetry) :=
  map (λ t, (t.1, concat (map (λ c, map snd (map_to_list c.2)) (map_to_list t.2)))) (map_to_list p).

(** [Telemeter.AddExecution]: the pusher of the region, made when it is missing. *)
Definition Telemeter_AddExecution (e : Execution) (pushers : gmap Z telemetry) : go (gmap Z telemetry) :=
  p ← AddExecution e (default ∅ (pushers !! RegionID e));
  Ret (<[RegionID e := p]> pushers).

Fixpoint addAll (es : list Execution) (pushers : gmap Z telemetry) : go (gmap Z telemetry) :=
  match es with
  | [] => Ret pushers
  | e :: es => pushers ← Telemeter_AddExecution e pushers; addAll es pushers
  end.

(** The entry of a tenant, class and labels. *)
Definition entry (p : telemetry) (tenant class : Z) (key : string) : option CheckClassTelemetry :=
  t ← p !! tenant; c ← t !! class; c !! key.

(** ** Sorting *)

Lemma sortLabels_perm l : sortLabels l ≡ₚ l.
Proof. apply SortFunc_perm. Qed.
Lemma sortLabels_sorted l : StronglySorted nameLe (sortLabels l).
Proof. apply SortFunc_sorted. Qed.

Lemma sortLabels_nil : sortLabels [] = [].
Proof. by apply Permutation_nil_r, sortLabels_perm. Qed.

Lemma sortLabels_ne l : l ≠ [] → sortLabels l ≠ [].
Proof. intros Hne E. assert (Hp := sortLabels_perm l). rewrite E in Hp. by apply Permutation_nil_l in Hp. Qed.

Lemma nameLe_total a b : nameLe a b ∨ nameLe b a.
Proof. apply String.leb_total. Qed.
Lemma nameLe_antisym a b : nameLe a b → nameLe b a → name a = name b.
Proof. apply String.leb_antisym. Qed.

Lemma compare_trans s1 s2 s3 :
  String.leb s1 s2 = true → String.leb s2 s3 = true → String.leb s1 s3 = true.
Proof.
  unfold String.leb. revert s2 s3. induction s1 as [|a s1 IH]; intros [|b s2] [|c s3]; simpl; try done.
  unfold Ascii.compare.
  destruct (N.compare_spec (N_of_ascii a) (N_of_ascii b)) as [E1|L1|G1]; try done;
    destruct (N.compare_spec (N_of_ascii b) (N_of_ascii c)) as [E2|L2|G2]; try done; intros H1 H2.
  - rewrite (proj2 (N.compare_eq_iff _ _)) by congruence. by apply (IH s2).
  - rewrite (proj2 (N.compare_lt_iff _ _)) by (rewrite E1; done). done.
  - rewrite (proj2 (N.compare_lt_iff _ _)) by (rewrite <-E2; done). done.
  - rewrite (proj2 (N.compare_lt_iff _ _)) by (by etrans). done.
Qed.

(** With distinct names, the order of the labels does not matter. *)
Lemma sorted_unique l1 l2 :
  StronglySorted nameLe l1 → StronglySorted nameLe l2 → NoDup (map name l1) → l1 ≡ₚ l2 → l1 = l2.
Proof.
  revert l2. induction l1 as [|x l1 IH]; intros l2 H1 H2 Hnd Hp.
  { by apply Permutation_nil_l in Hp. }
  destruct l2 as [|y l2]; [by apply Permutation_nil_r in Hp|].
  inversion H1 as [|? ? H1' Hx]. inversion H2 as [|? ? H2' Hy]. subst.
  assert (x = y) as <-.
  { assert (Hin : x ∈ y :: l2) by (rewrite <-Hp; left).
    assert (Hin' : y ∈ x :: l1) by (rewrite Hp; left).
    apply elem_of_cons in Hin as [|Hin]; [done|]. apply elem_of_cons in Hin' as [|Hin']; [done|].
    rewrite Forall_forall in Hx, Hy.
    assert (Hn : name x = name y) by (apply nameLe_antisym; auto).
    apply NoDup_cons in Hnd as [Hn1 _]. destruct Hn1. apply list_elem_of_fmap. eauto. }
  f_equal. apply IH; [done..| |by apply Permutation_cons_inv in Hp].
  by apply NoDup_cons in Hnd as [_ ?].
Qed.

Lemma sortLabels_ext l1 l2 :
  NoDup (map name l1) → l1 ≡ₚ l2 → sortLabels l1 = sortLabels l2.
Proof.
  intros Hnd Hp. apply sorted_unique; try apply sortLabels_sorted.
  - assert (Hm : map name (sortLabels l1) ≡ₚ map name l1) by (apply fmap_Permutation, sortLabels_perm).
    by rewrite Hm.
  - by rewrite !sortLabels_perm.
Qed.

(** ** Keys *)

(** [Split] distributes over a separator. *)
Lemma split_sep sep x s : split sep (x +:+ String sep s) = split sep x ++ split sep s.
Proof.
  induction x as [|a x IH].
  - simpl. by rewrite Ascii.eqb_refl.
  - change (String a x +:+ String sep s) with (String a (x +:+ String sep s)). simpl.
    rewrite IH. destruct (Ascii.eqb a sep); [done|].
    destruct (split sep x) as [|y k] eqn:E; [by apply split_nonempty in E|]. done.
Qed.

(** Splitting a joined list splits its elements. *)
Lemma split_join_concat sep l :
  l ≠ [] → split sep (join (String sep EmptyString) l) = concat (map (split sep) l).
Proof.
  induction l as [|x [|y l] IH]; intros Hne; [done| |].
  - simpl. by rewrite app_nil_r.
  - change (join (String sep EmptyString) (x :: y :: l))
      with (x +:+ String sep (join (String sep EmptyString) (y :: l))).
    rewrite split_sep, IH by done. done.
Qed.

Definition cleanName (l : labelPair) : Prop :=
  string_has ","%char (name l) = false ∧ string_has "="%char (name l) = false.
Definition cleanValue (l : labelPair) : Prop :=
  string_has ","%char (value l) = false ∧ string_has "="%char (value l) = false.

Lemma split_equals_part l :
  cleanName l → string_has "="%char (value l) = false →
  split "="%char (part l) = [name l; value l].
Proof.
  intros [_ Hn] Hv. unfold part. change ("=" +:+ value l) with (String "="%char (value l)).
  rewrite split_app by done. by rewrite split_none.
Qed.

Lemma serializeCALs_ne l : l ≠ [] → serializeCALs l = join "," (map part (sortLabels l)).
Proof. by destruct l. Qed.

(** A serialized list holds a [=], the terminator does not. *)
Lemma join_has sep a x l : string_has a x = true → string_has a (join sep (x :: l)) = true.
Proof.
  intros Hx. destruct l as [|y l]; [done|].
  change (join sep (x :: y :: l)) with (x +:+ sep +:+ join sep (y :: l)).
  by rewrite string_has_app, Hx.
Qed.

Lemma part_has l : string_has "="%char (part l) = true.
Proof. unfold part. rewrite !string_has_app. by rewrite orb_true_r. Qed.

Lemma serializeCALs_not_terminator l : l ≠ [] → serializeCALs l ≠ CalNilStringTerminator.
Proof.
  intros Hne E. rewrite serializeCALs_ne in E by done.
  destruct (sortLabels l) as [|x k] eqn:Es.
  { assert (Hp := sortLabels_perm l). rewrite Es in Hp. by apply Permutation_nil_l in Hp. }
  assert (Ht : string_has "="%char CalNilStringTerminator = true).
  { rewrite <-E. apply join_has, part_has. }
  by vm_compute in Ht.
Qed.

Lemma deserializeParts_ok l :
  Forall (λ x, cleanName x ∧ string_has "="%char (value x) = false) l →
  deserializeParts (map part l) = Ret l.
Proof.
  induction 1 as [|x l [Hn Hv] _ IH]; [done|]. cbn [map deserializeParts].
  unfold deserializePart. rewrite split_equals_part by done. cbn [mbind go_bind].
  rewrite IH. cbn [mbind go_bind]. by destruct x.
Qed.

Lemma deserializeParts_panics l x :
  x ∈ l → string_has "="%char x = false → ∃ w, deserializeParts l = Panic w.
Proof.
  intros Hin Hx. induction l as [|y l IH]; [by apply not_elem_of_nil in Hin|].
  cbn [deserializeParts]. destruct (deserializePart y) as [c|w] eqn:E; [|by eexists].
  cbn [mbind go_bind]. apply elem_of_cons in Hin as [<-|Hin].
  - unfold deserializePart in E. by rewrite split_none in E.
  - destruct (IH Hin) as [w ->]. by eexists.
Qed.

Lemma string_has_split a s : string_has a s = true → ∃ s1 s2, s = s1 +:+ String a s2.
Proof.
  unfold string_has. induction s as [|b s IH]; [done|]. simpl.
  destruct (Ascii.eqb_spec a b) as [<-|_]; simpl.
  - intros _. by exists EmptyString, s.
  - intros H. destruct (IH H) as (s1 & s2 & ->). by exists (String b s1), s2.
Qed.

(** Pieces hold only characters of the string. *)
Lemma split_lacks sep a s :
  string_has a s = false → Forall (λ y, string_has a y = false) (split sep s).
Proof.
  unfold string_has. induction s as [|b s IH]; simpl; [by repeat constructor|].
  intros [Ha Hs]%orb_false_iff. specialize (IH Hs).
  destruct (Ascii.eqb b sep); [by constructor|].
  destruct (split sep s) as [|y k] eqn:E; [by apply split_nonempty in E|].
  apply Forall_cons in IH as [Hy Hk]. constructor; [|done]. simpl. by rewrite Ha, Hy.
Qed.

(** A value with a comma leaves a piece without an equals sign. *)
Lemma split_comma_tail n v :
  string_has "="%char v = false → string_has ","%char v = true →
  ∃ y, y ∈ split ","%char (n +:+ "=" +:+ v) ∧ string_has "="%char y = false.
Proof.
  intros Hv (v1 & v2 & ->)%string_has_split.
  assert (H2 : string_has "="%char v2 = false).
  { rewrite string_has_app in Hv. apply orb_false_iff in Hv as [_ Hv].
    unfold string_has in *. simpl in Hv. done. }
  destruct (split ","%char v2) as [|y k] eqn:E; [by apply split_nonempty in E|].
  exists y. split.
  - assert (Hassoc : n +:+ "=" +:+ v1 +:+ String ","%char v2 = (n +:+ "=" +:+ v1) +:+ String ","%char v2).
    { apply chars_inj. autorewrite with agent. by rewrite <-!(assoc_L (++)). }
    rewrite Hassoc, split_sep, E. apply elem_of_app. right. left.
  - assert (Hl := split_lacks ","%char _ _ H2). rewrite E in Hl. by inversion Hl.
Qed.

(** Labels the key represents faithfully. *)
Definition cleanLabels (l : list labelPair) : Prop :=
  Forall cleanName l ∧ Forall cleanValue l.

Lemma deserialize_serialize l :
  cleanLabels l → deserializeCals (serializeCALs l) = Ret (sortLabels l).
Proof.
  intros [Hn Hv]. destruct l as [|x l]; [by rewrite sortLabels_nil|]. unfold deserializeCals.
  rewrite bool_decide_eq_false_2 by by apply serializeCALs_not_terminator.
  rewrite serializeCALs_ne by done. change "," with (String ","%char EmptyString).
  rewrite split_join.
  - apply deserializeParts_ok. rewrite sortLabels_perm. rewrite Forall_forall in *.
    intros y Hy. split; [by apply Hn|by apply Hv].
  - intros E%fmap_nil_inv. by apply (sortLabels_ne (x :: l)).
  - apply Forall_map. rewrite sortLabels_perm. rewrite Forall_forall in *. intros y Hy.
    unfold part. rewrite !string_has_app. destruct (Hn y Hy) as [-> _].
    by destruct (Hv y Hy) as [-> _].
Qed.

(** Cost attribution labels whose names and values hold neither a comma nor
    an equals sign survive their key, sorted by name, and the key does not depend
    on their order; but a value with a comma (and no equals sign in the values)
    makes the lookup of a new key panic. *)
Theorem cals_key cals :
  NoDup (map name cals) → Forall cleanName cals →
  (Forall cleanValue cals →
     deserializeCals (serializeCALs cals) = Ret (sortLabels cals) ∧
     ∀ cals', cals' ≡ₚ cals → serializeCALs cals' = serializeCALs cals) ∧
  (Forall (λ l, string_has "="%char (value l) = false) cals →
   (∃ l, l ∈ cals ∧ string_has ","%char (value l) = true) →
     ∃ w, deserializeCals (serializeCALs cals) = Panic w).
Proof.
  intros Hnd Hnames. split.
  - intros Hvals. split.
    + by apply deserialize_serialize.
    + intros cals' Hp. destruct cals as [|x cals]; [by apply Permutation_nil_r in Hp as ->|].
      assert (cals' ≠ []) by (intros ->; by apply Permutation_nil_l in Hp).
      rewrite !serializeCALs_ne by done. f_equal. f_equal. symmetry. by apply sortLabels_ext.
  - intros Heq (l & Hl & Hc).
    assert (Hne : cals ≠ []) by (intros ->; by apply not_elem_of_nil in Hl).
    unfold deserializeCals. rewrite bool_decide_eq_false_2 by by apply serializeCALs_not_terminator.
    rewrite serializeCALs_ne by done. change "," with (String ","%char EmptyString).
    rewrite split_join_concat.
    2:{ intros E%fmap_nil_inv. by apply (sortLabels_ne cals). }
    rewrite Forall_forall in Heq.
    destruct (split_comma_tail (name l) (value l)) as (y & Hy & Hy2); [by apply Heq|done|].
    apply (deserializeParts_panics _ y); [|done].
    apply list_elem_of_In, in_concat. exists (split ","%char (part l)). split.
    + apply in_map, in_map, list_elem_of_In. by rewrite sortLabels_perm.
    + by apply list_elem_of_In.
Qed.

(** ** Totals *)

(** The executions an entry accounts for. *)
Definition matching (t c : Z) (k : string) (es : list Execution) : list Execution :=
  filter (λ e, LocalTenantID e = t ∧ x_CheckClass e = c ∧ serializeCALs (x_Labels e) = k) es.

(** [int32((e.Duration + time.Minute - 1) / time.Minute)]. *)
Definition minutes (e : Execution) : Z := wrap32 (wrap64 (x_Duration e + Minute - 1) ÷ Minute).

Definition sumOf (f : Execution → Z) (es : list Execution) : Z := foldr (λ e n, f e + n) 0 es.

Record counts (c : Z) (m : list Execution) (x : CheckClassTelemetry) : Prop := {
  counts_some : m ≠ [];
  counts_class : CheckClass x = c;
  counts_executions : Executions x = wrap32 (llen m);
  counts_sampled : SampledExecutions x = wrap32 (sumOf minutes m);
  counts_duration :
    Duration x = fold_left (λ d e, SFadd 24 128 d (toFloat32 (Seconds (x_Duration e)))) m
                   (S754_zero false);
  counts_labels : ∀ e, e ∈ m → CostAttributionLabels x = sortLabels (x_Labels e);
}.

Definition counted (es : list Execution) (p : telemetry) : Prop :=
  ∀ t c k,
    match entry p t c k with
    | None => matching t c k es = []
    | Some x => counts c (matching t c k es) x
    end.

Lemma wrap32_add a b : wrap32 (wrap32 a + b) = wrap32 (a + b).
Proof.
  unfold wrap32.
  replace ((a + 2147483648) `mod` 4294967296 - 2147483648 + b + 2147483648)
    with ((a + 2147483648) `mod` 4294967296 + b) by lia.
  rewrite Zplus_mod_idemp_l. f_equal. f_equal. lia.
Qed.

Lemma sumOf_app f l1 l2 : sumOf f (l1 ++ l2) = sumOf f l1 + sumOf f l2.
Proof. induction l1 as [|e l1 IH]; simpl; [done|]. rewrite IH. lia. Qed.

Lemma same_key l1 l2 :
  cleanLabels l1 → cleanLabels l2 → serializeCALs l1 = serializeCALs l2 →
  sortLabels l1 = sortLabels l2.
Proof.
  intros H1 H2 E. apply deserialize_serialize in H1, H2. congruence.
Qed.

(** The entry after an insertion along a path. *)
Lemma entry_insert p t c k x t' c' k' :
  entry (<[t := <[c := <[k := x]> (default ∅ (default ∅ (p !! t) !! c))]> (default ∅ (p !! t))]> p)
    t' c' k' =
  if decide (t = t' ∧ c = c' ∧ k = k') then Some x else entry p t' c' k'.
Proof.
  unfold entry. destruct (decide (t = t')) as [<-|Ht].
  2:{ rewrite lookup_insert_ne by done. case_decide; naive_solver. }
  rewrite lookup_insert_eq. simpl. destruct (decide (c = c')) as [<-|Hc].
  2:{ rewrite lookup_insert_ne by done. case_decide; [naive_solver|]. by destruct (p !! t). }
  rewrite lookup_insert_eq. simpl. destruct (decide (k = k')) as [<-|Hk].
  - rewrite lookup_insert_eq. by rewrite decide_True.
  - rewrite lookup_insert_ne by done. rewrite decide_False by naive_solver.
    destruct (p !! t) as [m|]; [|done]. simpl. by destruct (m !! c).
Qed.

Lemma entry_default p t c k :
  default ∅ (default ∅ (p !! t) !! c) !! k = entry p t c k.
Proof. unfold entry. destruct (p !! t) as [m|]; [|done]. simpl. by destruct (m !! c). Qed.

Lemma matching_app t c k l1 l2 : matching t c k (l1 ++ l2) = matching t c k l1 ++ matching t c k l2.
Proof. apply filter_app. Qed.

Lemma AddExecution_counted es p e :
  Forall (λ e, cleanLabels (x_Labels e)) (es ++ [e]) → counted es p →
  ∃ p', AddExecution e p = Ret p' ∧ counted (es ++ [e]) p'.
Proof.
  intros [Hes He]%Forall_app Hp. apply Forall_cons in He as [He _].
  pose proof (Hp (LocalTenantID e) (x_CheckClass e) (serializeCALs (x_Labels e))) as Hk.
  unfold AddExecution. rewrite entry_default.
  set (k := serializeCALs (x_Labels e)) in *.
  assert (Hnew : ∃ t,
    match entry p (LocalTenantID e) (x_CheckClass e) k with
    | Some t => Ret t
    | None => labels ← deserializeCals k;
        Ret {| CheckClass := x_CheckClass e; Executions := 0; Duration := S754_zero false;
               SampledExecutions := 0; CostAttributionLabels := labels |}
    end = Ret t ∧
    CheckClass t = x_CheckClass e ∧
    Executions t = wrap32 (llen (matching (LocalTenantID e) (x_CheckClass e) k es)) ∧
    SampledExecutions t = wrap32 (sumOf minutes (matching (LocalTenantID e) (x_CheckClass e) k es)) ∧
    Duration t = fold_left (λ d e, SFadd 24 128 d (toFloat32 (Seconds (x_Duration e))))
                   (matching (LocalTenantID e) (x_CheckClass e) k es) (S754_zero false) ∧
    CostAttributionLabels t = sortLabels (x_Labels e)).
  { destruct (entry p (LocalTenantID e) (x_CheckClass e) k) as [x|].
    - exists x. destruct Hk as [Hne ? ? ? ? Hl]. split_and!; try done.
      destruct (matching _ _ k es) as [|e' l] eqn:E; [done|].
      rewrite (Hl e') by left.
      assert (Hin : e' ∈ matching (LocalTenantID e) (x_CheckClass e) k es) by (rewrite E; left).
      apply list_elem_of_filter in Hin as [(_ & _ & Hk') Hin]. rewrite Forall_forall in Hes.
      apply same_key; [by apply Hes|done|done].
    - unfold k. rewrite deserialize_serialize by done. fold k. eexists. split; [done|].
      rewrite Hk. done. }
  destruct Hnew as (t & -> & Hc & Hx & Hs & Hd & Hl). cbn [mbind go_bind].
  eexists. split; [done|]. intros t' c' k'. rewrite entry_insert, matching_app.
  unfold matching at 2 4. case_decide as Hd'.
  - destruct Hd' as (<- & <- & <-). rewrite filter_cons_True by done. rewrite filter_nil.
    split; simpl.
    + by intros [_ ?]%app_nil.
    + done.
    + rewrite Hx, wrap32_add. f_equal. unfold llen. rewrite length_app. simpl. lia.
    + rewrite Hs, wrap32_add, sumOf_app. f_equal. simpl. unfold minutes. lia.
    + by rewrite fold_left_app, Hd.
    + intros e' [Hin|Hin%list_elem_of_singleton]%elem_of_app; [|by subst].
      rewrite Hl. apply list_elem_of_filter in Hin as [(_ & _ & Hk') Hin].
      rewrite Forall_forall in Hes. apply same_key; [done|by apply Hes|done].
  - rewrite filter_cons_False by naive_solver. rewrite filter_nil, app_nil_r. apply Hp.
Qed.

Definition inRegion (r : Z) (es : list Execution) : list Execution :=
  filter (λ e, RegionID e = r) es.

Lemma addAll_counted es es0 pushers :
  Forall (λ e, cleanLabels (x_Labels e)) (es0 ++ es) →
  (∀ r, counted (inRegion r es0) (default ∅ (pushers !! r))) →
  ∃ pushers', addAll es pushers = Ret pushers' ∧
    ∀ r, counted (inRegion r (es0 ++ es)) (default ∅ (pushers' !! r)).
Proof.
  revert es0 pushers. induction es as [|e es IH]; intros es0 ps Hcl Hp.
  { exists ps. by rewrite app_nil_r. }
  change (e :: es) with ([e] ++ es) in Hcl |- *. rewrite (assoc_L (++)) in Hcl |- *.
  destruct (AddExecution_counted (inRegion (RegionID e) es0) (default ∅ (ps !! RegionID e)) e)
    as (p1 & E1 & Hp1); [|done|].
  { apply Forall_app in Hcl as [Hcl _]. apply Forall_app in Hcl as [H0 He].
    apply Forall_app. split; [|done]. rewrite Forall_forall in *. intros x Hx.
    apply list_elem_of_filter in Hx as [_ Hx]. by apply H0. }
  simpl. unfold Telemeter_AddExecution. rewrite E1. cbn [mbind go_bind]. apply IH; [done|].
  intros r. unfold inRegion in *. rewrite filter_app. destruct (decide (RegionID e = r)) as [<-|Hr].
  - rewrite lookup_insert_eq, filter_cons_True, filter_nil by done. done.
  - rewrite lookup_insert_ne, filter_cons_False, filter_nil, app_nil_r by done. done.
Qed.

(** What [next] reports of a tenant are its entries. *)
Lemma next_entries p t x :
  (∃ l, (t, l) ∈ next p ∧ x ∈ l) ↔ ∃ c k, entry p t c k = Some x.
Proof.
  unfold next, entry. split.
  - intros (l & Hin & Hx). apply list_elem_of_fmap in Hin as ([t' m] & [= -> ->] & Hm).
    apply elem_of_map_to_list in Hm. apply list_elem_of_In, in_concat in Hx as (l & Hl & Hx).
    apply list_elem_of_In, list_elem_of_fmap in Hl as ([c n] & -> & Hc).
    apply elem_of_map_to_list in Hc. apply list_elem_of_In, list_elem_of_fmap in Hx as ([k y] & -> & Hk).
    apply elem_of_map_to_list in Hk. exists c, k. simpl in *. by rewrite Hm; simpl; rewrite Hc.
  - intros (c & k & E). destruct (p !! t) as [m|] eqn:Hm; [|done]. simpl in E.
    destruct (m !! c) as [n|] eqn:Hc; [|done]. simpl in E.
    eexists. split.
    + apply list_elem_of_fmap. exists (t, m). split; [done|]. by apply elem_of_map_to_list.
    + simpl. apply list_elem_of_In, in_concat. exists (map snd (map_to_list n)). split.
      * apply in_map_iff. exists (c, n). split; [done|]. apply list_elem_of_In. by apply elem_of_map_to_list.
      * apply in_map_iff. exists (k, x). split; [done|]. apply list_elem_of_In. by apply elem_of_map_to_list.
Qed.

(** Minutes are rounded up. *)
Lemma minutes_up e :
  0 ≤ x_Duration e ≤ maxInt64 - Minute →
  (minutes e - 1) * Minute < x_Duration e ≤ minutes e * Minute.
Proof.
  unfold minutes, Minute, maxInt64. intros Hd.
  rewrite wrap64_id by (unfold int64, minInt64, maxInt64; lia).
  rewrite Z.quot_div_nonneg by lia.
  set (q := (x_Duration e + 60000000000 - 1) / 60000000000).
  assert (Hq : q * 60000000000 ≤ x_Duration e + 60000000000 - 1 < (q + 1) * 60000000000).
  { unfold q. pose proof (Z.div_mod (x_Duration e + 60000000000 - 1) 60000000000 ltac:(lia)).
    pose proof (Z.mod_pos_bound (x_Duration e + 60000000000 - 1) 60000000000 ltac:(lia)). lia. }
  unfold wrap32. rewrite Z.mod_small by lia. lia.
Qed.

(** C40: adding any executions whose cost attribution labels have no comma and no equals
    sign in their names and values never panics (with a comma it may, see
    [add_execution_panics]), and what the pusher of a region then pushes for a tenant is,
    per check class and labels, the number of their executions in the region, the sum of
    their minutes, both modulo 2^32, and the sum of their durations in [float32].  The
    minutes of an execution are its duration rounded up. *)
Theorem telemetry_totals es :
  Forall (λ e, cleanLabels (x_Labels e)) es →
  (∃ pushers, addAll es ∅ = Ret pushers ∧
    ∀ r, let p := default ∅ (pushers !! r) in
      counted (inRegion r es) p ∧
      ∀ t x, (∃ l, (t, l) ∈ next p ∧ x ∈ l) ↔ ∃ c k, entry p t c k = Some x) ∧
  ∀ e, 0 ≤ x_Duration e ≤ maxInt64 - Minute →
    (minutes e - 1) * Minute < x_Duration e ≤ minutes e * Minute.
Proof.
  intros Hcl. split; [|apply minutes_up].
  destruct (addAll_counted es [] ∅) as (ps & E & Hp); [done| |].
  { intros r t c k. unfold entry. rewrite lookup_empty. simpl. by rewrite lookup_empty. }
  exists ps. split; [done|]. intros r p. split; [apply Hp|]. intros t x. apply next_entries.
Qed.

(** ** The push loop of a region *)

(** How a push request ends: an error, or a status. *)
Inductive pushResult := PushError | PushStatus (ok : bool).
Definition pushFailed (r : pushResult) : bool := match r with PushStatus true => false | _ => true end.

(** What happens to a pusher: an execution is added, its ticker fires, a push returns, the
    context ends. *)
Inductive pusherEvent := Added (e : Execution) | Ticked | Pushed (r : pushResult) | Cancelled.

(** The pusher: its telemetry, whether [run] goes on, the messages sent, and the metrics of
    its requests. *)
Record pusher := {
  pu_telemetry : telemetry; pu_running : bool; pu_sent : list (list (Z * list CheckClassTelemetry));
  pu_active : Z; pu_total : Z; pu_errors : Z }.
Definition newPusher : pusher :=
  {| pu_telemetry := ∅; pu_running := true; pu_sent := []; pu_active := 0; pu_total := 0; pu_errors := 0 |}.

(** [push] starts: [metrics.start]. *)
Definition push_begin (running : bool) (s : pusher) : pusher :=
  {| pu_telemetry := pu_telemetry s; pu_running := running; pu_sent := pu_sent s ++ [next (pu_telemetry s)];
     pu_active := pu_active s + 1; pu_total := pu_total s + 1; pu_errors := pu_errors s |}.
(** [push] ends: [metrics.end]. *)
Definition push_end (r : pushResult) (s : pusher) : pusher :=
  {| pu_telemetry := pu_telemetry s; pu_running := pu_running s; pu_sent := pu_sent s;
     pu_active := pu_active s - 1; pu_total := pu_total s;
     pu_errors := if pushFailed r then pu_errors s + 1 else pu_errors s |}.

(** A push only returns when one is active. *)
Definition pusher_step (s : pusher) (ev : pusherEvent) : go pusher :=
  match ev with
  | Added e =>
      p ← AddExecution e (pu_telemetry s);
      Ret {| pu_telemetry := p; pu_running := pu_running s; pu_sent := pu_sent s;
             pu_active := pu_active s; pu_total := pu_total s; pu_errors := pu_errors s |}
  | Ticked => Ret (if pu_running s then push_begin true s else s)
  | Pushed r => Ret (if 0 <? pu_active s then push_end r s else s)
  | Cancelled => Ret (if pu_running s then push_begin false s else s)
  end.
Fixpoint pusher_run (evs : list pusherEvent) (s : pusher) : go pusher :=
  match evs with
  | [] => Ret s
  | ev :: evs => s ← pusher_step s ev; pusher_run evs s
  end.

Definition executions (evs : list pusherEvent) : list Execution :=
  omap (λ ev, match ev with Added e => Some e | _ => None end) evs.
Definition addedClean (evs : list pusherEvent) : Prop :=
  Forall (λ e, cleanLabels (x_Labels e)) (executions evs).

Lemma pusher_run_app l1 l2 s : pusher_run (l1 ++ l2) s = (s ← pusher_run l1 s; pusher_run l2 s).
Proof.
  revert s. induction l1 as [|ev l1 IH]; intros s; [done|]. simpl.
  destruct (pusher_step s ev) as [s1|]; [|done]. apply IH.
Qed.

Lemma pusher_step_not_running s ev s' : pusher_step s ev = Ret s' → pu_running s = false →
  pu_running s' = false ∧ pu_sent s' = pu_sent s.
Proof.
  intros E Hr. destruct ev as [e| |r|]; simpl in E; rewrite ?Hr in E.
  - destruct (AddExecution e (pu_telemetry s)); [|done]. injection E as <-. done.
  - by injection E as <-.
  - injection E as <-. by destruct (0 <? pu_active s).
  - by injection E as <-.
Qed.

(** Requests are counted when they start and when they end; nothing is lost of what was
    added; and while it runs, a pusher has sent one message a tick. *)
Record pusherOk (es : list Execution) (s : pusher) : Prop := {
  po_counted : counted es (pu_telemetry s);
  po_total : pu_total s = llen (pu_sent s);
  po_active : 0 ≤ pu_active s ≤ pu_total s;
  po_errors : 0 ≤ pu_errors s ≤ pu_total s - pu_active s;
}.

Lemma pusher_step_ok es s ev :
  addedClean [ev] → Forall (λ e, cleanLabels (x_Labels e)) es → pusherOk es s →
  ∃ s', pusher_step s ev = Ret s' ∧ pusherOk (es ++ executions [ev]) s'.
Proof.
  intros Hev Hes [H1 H2 H3 H4].
  assert (Hlen : ∀ m, llen (pu_sent s ++ [m]) = llen (pu_sent s) + 1).
  { intros m. unfold llen. rewrite length_app. simpl. lia. }
  destruct ev as [e| |r|]; simpl; rewrite ?app_nil_r.
  - destruct (AddExecution_counted es (pu_telemetry s) e) as (p' & -> & Hp'); [|done|].
    { apply Forall_app. split; [done|]. by constructor; [inversion Hev|constructor]. }
    simpl. eexists. split; [done|]. by split.
  - eexists. split; [done|]. destruct (pu_running s); split; simpl; rewrite ?Hlen; try done; lia.
  - eexists. split; [done|]. destruct (Z.ltb_spec 0 (pu_active s)); [|done].
    split; simpl; [done|done|lia|]. destruct (pushFailed r); lia.
  - eexists. split; [done|]. destruct (pu_running s); split; simpl; rewrite ?Hlen; try done; lia.
Qed.

Lemma pusher_run_ok evs es s :
  addedClean evs → Forall (λ e, cleanLabels (x_Labels e)) es → pusherOk es s →
  ∃ s', pusher_run evs s = Ret s' ∧ pusherOk (es ++ executions evs) s'.
Proof.
  revert es s. induction evs as [|ev evs IH]; intros es s Hev Hes Hs.
  { exists s. by rewrite app_nil_r. }
  assert (E : executions (ev :: evs) = executions [ev] ++ executions evs) by (by destruct ev).
  unfold addedClean in Hev. rewrite E in Hev. apply Forall_app in Hev as [H1 H2].
  destruct (pusher_step_ok es s ev H1 Hes Hs) as (s1 & E1 & Hs1). rewrite E, app_assoc.
  cbn [pusher_run]. rewrite E1. cbn [mbind go_bind]. apply IH; [done| |done]. apply Forall_app. by split.
Qed.

(** When the agent stops, the last message of a region accounts for every execution added
    before, and nothing is sent after it. *)
Lemma last_push_is_complete before after :
  addedClean (before ++ after) → Cancelled ∉ before →
  ∃ s p, pusher_run (before ++ Cancelled :: after) newPusher = Ret s ∧
    last (pu_sent s) = Some (next p) ∧ counted (executions before) p ∧
    pu_total s = llen (pu_sent s) ∧ pu_running s = false.
Proof.
  intros Hcl Hn. unfold addedClean in Hcl.
  assert (E : executions (before ++ after) = executions before ++ executions after) by apply omap_app.
  rewrite E in Hcl. apply Forall_app in Hcl as [Hb Ha].
  assert (H0 : pusherOk [] newPusher).
  { by split. }
  destruct (pusher_run_ok before [] newPusher Hb) as (s1 & E1 & Hs1); [constructor|done|].
  simpl in Hs1.
  assert (Hrun : pu_running s1 = true).
  { clear -E1 Hn. revert E1. assert (Hr : pu_running newPusher = true) by done. revert Hr.
    generalize newPusher. induction before as [|ev l IH]; intros s Hr; [by intros [= <-]|]. simpl.
    destruct (pusher_step s ev) as [s2|] eqn:E; [|done]. simpl. apply IH; [set_solver|].
    destruct ev as [e| |r|]; simpl in E; [| | |set_solver].
    - destruct (AddExecution e (pu_telemetry s)); [|done]. by injection E as <-.
    - rewrite Hr in E. by injection E as <-.
    - injection E as <-. by destruct (0 <? pu_active s). }
  rewrite pusher_run_app, E1. simpl. rewrite Hrun. simpl.
  assert (H2 : pusherOk (executions before) (push_begin false s1)).
  { destruct (pusher_step_ok _ s1 Cancelled (Forall_nil_2 _) Hb Hs1) as (s2 & E2 & Hs2). simpl in E2, Hs2.
    rewrite Hrun in E2. injection E2 as <-. by rewrite app_nil_r in Hs2. }
  destruct (pusher_run_ok after _ _ Ha Hb H2) as (s & Es & Hs). exists s, (pu_telemetry s1).
  split; [done|].
  assert (Hk : pu_running s = false ∧ pu_sent s = pu_sent (push_begin false s1)).
  { clear -Es. assert (Hr : pu_running (push_begin false s1) = false) by done. revert Hr Es.
    generalize (push_begin false s1). induction after as [|ev l IH]; intros s0 Hr; [by intros [= <-]|]. simpl.
    destruct (pusher_step s0 ev) as [s2|] eqn:E; [|done]. simpl. intros Es.
    destruct (pusher_step_not_running _ _ _ E Hr) as [Hr2 <-]. by apply IH. }
  destruct Hk as [Hk1 Hk2]. split_and!; [|apply Hs1|apply Hs|done].
  rewrite Hk2. simpl. by rewrite last_snoc.
Qed.

(** [withJitter]: up to 59 seconds are added, the bound included. *)
Definition withJitter (d jitter : Z) : Z := wrap64 (d + jitter * 1000000000).
End telemetry.

(** ** Instances *)

(** Insertion sort, which keeps the order of labels with equal names. *)
Fixpoint insertLabel (x : labelPair) (l : list labelPair) : list labelPair :=
  match l with
  | [] => [x]
  | y :: l' => if decide (nameLe x y) then x :: l else y :: insertLabel x l'
  end.
Definition insertLabels (l : list labelPair) : list labelPair := foldr insertLabel [] l.

Lemma insertLabel_perm x l : insertLabel x l ≡ₚ x :: l.
Proof.
  induction l as [|y l IH]; [done|]. simpl. case_decide; [done|].
  rewrite IH. apply Permutation_swap.
Qed.
Lemma insertLabels_perm l : insertLabels l ≡ₚ l.
Proof. induction l as [|x l IH]; [done|]. simpl. by rewrite insertLabel_perm, IH. Qed.
Lemma insertLabels_sorted l : StronglySorted nameLe (insertLabels l).
Proof.
  induction l as [|x l IH]; [constructor|]. simpl. induction IH as [|y k Hk IHk Hall]; simpl.
  { repeat constructor. }
  case_decide as Hx.
  - constructor; [by constructor|]. constructor; [done|].
    eapply Forall_impl; [exact Hall|]. intros z Hz. by eapply compare_trans.
  - constructor; [done|].
    rewrite insertLabel_perm. constructor; [|done]. by destruct (nameLe_total x y).
Qed.
Definition insertionSort : LabelSort :=
  {| SortFunc := insertLabels; SortFunc_perm := insertLabels_perm; SortFunc_sorted := insertLabels_sorted |}.
#[local] Existing Instance insertionSort.

Lemma cals_key_witness :
  (deserializeCals (serializeCALs [lbl "team" "b"; lbl "env" "prod"]) =
     Ret [lbl "env" "prod"; lbl "team" "b"] ∧
   ∀ cals', cals' ≡ₚ [lbl "team" "b"; lbl "env" "prod"] →
     serializeCALs cals' = serializeCALs [lbl "team" "b"; lbl "env" "prod"]) ∧
  ∃ w, deserializeCals (serializeCALs [lbl "team" "a,b"]) = Panic w.
Proof.
  split.
  - destruct (cals_key [lbl "team" "b"; lbl "env" "prod"]) as [[H1 H2] _].
    + by apply (bool_decide_unpack _).
    + repeat constructor.
    + repeat constructor.
    + split; [exact H1|exact H2].
  - apply (cals_key [lbl "team" "a,b"]).
    + by apply (bool_decide_unpack _).
    + repeat constructor.
    + repeat constructor.
    + exists (lbl "team" "a,b"). split; [left|done].
Defined.

(** Two executions of a region under the same two labels, in another order, and one in
    another region. *)
Definition sampleExecution (r n : Z) (l : list labelPair) : Execution :=
  {| LocalTenantID := 1; RegionID := r; x_CheckClass := 0; x_Duration := n; x_Labels := l |}.
Definition sampleExecutions : list Execution :=
  [sampleExecution 1 61000000000 [lbl "team" "b"; lbl "env" "prod"]; sampleExecution 2 7 [];
   sampleExecution 1 5 [lbl "env" "prod"; lbl "team" "b"]].
Lemma telemetry_totals_witness :
  (∃ pushers, addAll sampleExecutions ∅ = Ret pushers ∧
    ∀ r, let p := default ∅ (pushers !! r) in
      counted (inRegion r sampleExecutions) p ∧
      ∀ t x, (∃ l, (t, l) ∈ next p ∧ x ∈ l) ↔ ∃ c k, entry p t c k = Some x) ∧
  ∀ e, 0 ≤ x_Duration e ≤ maxInt64 - Minute →
    (minutes e - 1) * Minute < x_Duration e ≤ minutes e * Minute.
Proof. apply (telemetry_totals sampleExecutions). repeat constructor. Defined.

(** The two are in one entry: two executions, three minutes. *)
Example sample_totals :
  match addAll sampleExecutions ∅ with
  | Ret ps =>
      match entry (default ∅ (ps !! 1)) 1 0 "env=prod,team=b" with
      | Some x => Some (Executions x, SampledExecutions x, CostAttributionLabels x)
      | None => None
      end
  | Panic _ => None
  end = Some (2, 3, [lbl "env" "prod"; lbl "team" "b"]).
Proof. by vm_compute. Qed.

(** The panic reaches [AddExecution]: a comma in a label value. *)
Example add_execution_panics :
  AddExecution {| LocalTenantID := 1; RegionID := 2; x_CheckClass := 0; x_Duration := 0;
                  x_Labels := [lbl "team" "a,b"] |} ∅ = Panic "index out of range".
Proof. reflexivity. Qed.

(** And a value with an equals sign loses what follows it. *)
Example cals_key_truncates :
  deserializeCals (serializeCALs [lbl "team" "a=b"]) = Ret [lbl "team" "a"].
Proof. reflexivity. Qed.
