(* ===== verification/Tenants.v ===== *)
(** * Tenants: the manager's cache and its clients

    [internal/tenants/manager.go]: [GetTenant], [updateTenant] and
    [calculateValidUntil], run by any number of goroutines over a shared cache and
    one mutex per tenant; the [Cache] interface of [internal/cache/cache.go], with
    [Noop]; the gob decoding of [internal/cache/serialization.go] into the value the
    caller holds; and the clients that read a tenant's settings:
    [internal/limits], [internal/labelmode] and [internal/cals].

    Instants and durations are nanoseconds; wall clock readings, random numbers and
    the answers of the API are inputs of the steps that use them. *)
From S2P Require Import Prelude Strs Checks Validate.
From Stdlib Require Import Floats.SpecFloat.

Open Scope Z_scope.

(** ** Data *)

Record RemoteInfo := { r_Name : string; r_Url : string; r_Username : string; r_Password : string }.
Record Limits := {
  MaxChecks : Z; MaxScriptedChecks : Z; MaxMetricLabels_ : Z; MaxLogLabels_ : Z; MaxBrowserChecks : Z }.
Record SecretStore := { s_Url : string; s_Token : string; s_Expiry : spec_float }.

Record Tenant := {
  t_Id : Z; t_OrgId : Z;
  t_MetricsRemote : option RemoteInfo; t_EventsRemote : option RemoteInfo;
  t_StackId : Z; t_Status : Z; t_Reason : string;
  t_Limits : option Limits;
  t_CostAttributionLabels : list string;
  t_LabelMode : Z;
  t_Created : spec_float; t_Modified : spec_float;
  t_SecretStore : option SecretStore;
}.

Record cachedTenant := {
  c_Tenant : option Tenant;           (** a pointer *)
  c_ValidUntil : Z;
  c_Modified : spec_float;
}.

Definition zeroF : spec_float := S754_zero false.
Definition zeroRemote : RemoteInfo := {| r_Name := ""; r_Url := ""; r_Username := ""; r_Password := "" |}.
Definition zeroLimits : Limits := {| MaxChecks := 0; MaxScriptedChecks := 0; MaxMetricLabels_ := 0;
  MaxLogLabels_ := 0; MaxBrowserChecks := 0 |}.
Definition zeroSecretStore : SecretStore := {| s_Url := ""; s_Token := ""; s_Expiry := zeroF |}.
Definition zeroTenant : Tenant := {| t_Id := 0; t_OrgId := 0; t_MetricsRemote := None;
  t_EventsRemote := None; t_StackId := 0; t_Status := 0; t_Reason := ""; t_Limits := None;
  t_CostAttributionLabels := []; t_LabelMode := 0; t_Created := zeroF; t_Modified := zeroF;
  t_SecretStore := None |}.
(** [var cached cachedTenant]; the zero [time.Time] is the year 1. *)
Definition zeroCached : cachedTenant :=
  {| c_Tenant := None; c_ValidUntil := - 62135596800 * 1000000000; c_Modified := zeroF |}.

(** ** Decoding

    [gob.Decode] leaves the fields of its destination that the encoded value does
    not carry, and [gob.Encode] carries neither zero values, nor empty slices, nor
    nil pointers; a pointer the destination already holds is decoded into.  So
    decoding [new] into [old] merges them, field by field. *)
Definition decodeInt (old new : Z) : Z := if new =? 0 then old else new.
Definition decodeString (old new : string) : string := if bool_decide (new = EmptyString) then old else new.
Definition decodeFloat (old new : spec_float) : spec_float := if SFeqb new zeroF then old else new.
Definition decodeSlice {A} (old new : list A) : list A := match new with [] => old | _ => new end.
Definition decodePtr {A} (zero : A) (dec : A → A → A) (old new : option A) : option A :=
  match new with
  | None => old
  | Some n => Some (dec (default zero old) n)
  end.

Definition decodeRemote (old new : RemoteInfo) : RemoteInfo := {|
  r_Name := decodeString (r_Name old) (r_Name new);
  r_Url := decodeString (r_Url old) (r_Url new);
  r_Username := decodeString (r_Username old) (r_Username new);
  r_Password := decodeString (r_Password old) (r_Password new) |}.
Definition decodeLimits (old new : Limits) : Limits := {|
  MaxChecks := decodeInt (MaxChecks old) (MaxChecks new);
  MaxScriptedChecks := decodeInt (MaxScriptedChecks old) (MaxScriptedChecks new);
  MaxMetricLabels_ := decodeInt (MaxMetricLabels_ old) (MaxMetricLabels_ new);
  MaxLogLabels_ := decodeInt (MaxLogLabels_ old) (MaxLogLabels_ new);
  MaxBrowserChecks := decodeInt (MaxBrowserChecks old) (MaxBrowserChecks new) |}.
Definition decodeSecretStore (old new : SecretStore) : SecretStore := {|
  s_Url := decodeString (s_Url old) (s_Url new);
  s_Token := decodeString (s_Token old) (s_Token new);
  s_Expiry := decodeFloat (s_Expiry old) (s_Expiry new) |}.
Definition decodeTenant (old new : Tenant) : Tenant := {|
  t_Id := decodeInt (t_Id old) (t_Id new);
  t_OrgId := decodeInt (t_OrgId old) (t_OrgId new);
  t_MetricsRemote := decodePtr zeroRemote decodeRemote (t_MetricsRemote old) (t_MetricsRemote new);
  t_EventsRemote := decodePtr zeroRemote decodeRemote (t_EventsRemote old) (t_EventsRemote new);
  t_StackId := decodeInt (t_StackId old) (t_StackId new);
  t_Status := decodeInt (t_Status old) (t_Status new);
  t_Reason := decodeString (t_Reason old) (t_Reason new);
  t_Limits := decodePtr zeroLimits decodeLimits (t_Limits old) (t_Limits new);
  t_CostAttributionLabels := decodeSlice (t_CostAttributionLabels old) (t_CostAttributionLabels new);
  t_LabelMode := decodeInt (t_LabelMode old) (t_LabelMode new);
  t_Created := decodeFloat (t_Created old) (t_Created new);
  t_Modified := decodeFloat (t_Modified old) (t_Modified new);
  t_SecretStore := decodePtr zeroSecretStore decodeSecretStore (t_SecretStore old) (t_SecretStore new) |}.
(** [time.Time] encodes itself, and [ValidUntil] is never its zero value. *)
Definition decodeCached (old new : cachedTenant) : cachedTenant := {|
  c_Tenant := decodePtr zeroTenant decodeTenant (c_Tenant old) (c_Tenant new);
  c_ValidUntil := c_ValidUntil new;
  c_Modified := decodeFloat (c_Modified old) (c_Modified new) |}.

(** ** The cache

    What a cache promises the manager.  The content may change between calls
    (expiry, eviction, a change of servers), but it only ever gives back what was stored
    under the key.  [cache_held] is what a key may give, now or later: when a client of memcached
    changes its servers, an entry that was replaced elsewhere comes back ([evolves]);
    otherwise entries only get lost ([loses]).  [cache_get] is [None] for a miss and for any
    other error, which leave the destination as it was. *)
Class Cache (C : Type) := {
  cache_get : string → C → option cachedTenant;
  cache_set : string → cachedTenant → Z → C → C;
  cache_held : string → cachedTenant → C → Prop;
  evolves : C → C → Prop;
  loses : C → C → Prop;
  cache_get_held k c x : cache_get k c = Some x → cache_held k x c;
  cache_get_set k k' v ttl c x :
    cache_get k (cache_set k' v ttl c) = Some x → (k = k' ∧ x = v) ∨ cache_get k c = Some x;
  cache_held_set k k' v ttl c x :
    cache_held k x (cache_set k' v ttl c) → (k = k' ∧ x = v) ∨ cache_held k x c;
  cache_held_evolves c c' k x : evolves c c' → cache_held k x c' → cache_held k x c;
  cache_get_loses c c' k x : loses c c' → cache_get k c' = Some x → cache_get k c = Some x;
  loses_evolves c c' : loses c c' → evolves c c';
}.

(** [cache.Noop]. *)
Inductive Noop := NoopCache.
#[export, refine] Instance Noop_Cache : Cache Noop := {|
  cache_get _ _ := None;
  cache_set _ _ _ c := c;
  cache_held _ _ _ := False;
  evolves _ _ := True;
  loses _ _ := True;
|}.
Proof. all: done. Defined.

(** A cache that may lose entries but never fails to store one. *)
#[export, refine] Instance map_Cache : Cache (gmap string cachedTenant) := {|
  cache_get k c := c !! k;
  cache_set k v _ c := <[k := v]> c;
  cache_held k x c := c !! k = Some x;
  evolves c c' := c' ⊆ c;
  loses c c' := c' ⊆ c;
|}.
Proof.
  - done.
  - intros k k' v _ c x. rewrite lookup_insert_Some. naive_solver.
  - intros k k' v _ c x. rewrite lookup_insert_Some. naive_solver.
  - intros c c' k x Hc Hx. by eapply lookup_weaken.
  - intros c c' k x Hc Hx. by eapply lookup_weaken.
  - done.
Defined.

Definition cacheKey (tenantID : Z) : string := "tenant:" +:+ pretty tenantID.

(** [tm.cache.Get(ctx, key, &dest)]: whether [err == nil], and [dest] after. *)
Definition Get `{Cache C} (c : C) (key : string) (dest : cachedTenant) : bool * cachedTenant :=
  match cache_get key c with
  | Some x => (true, decodeCached dest x)
  | None => (false, dest)
  end.

(** ** How long a tenant stays valid *)

Definition configuredStore (s : SecretStore) : bool :=
  bool_decide (s_Url s ≠ EmptyString) && bool_decide (s_Token s ≠ EmptyString).
Definition isSecretStoreConfigured (secretStore : option SecretStore) : bool :=
  match secretStore with
  | Some s => configuredStore s
  | None => false
  end.

(** [math.Modf]. *)
Definition Modf (f : spec_float) : spec_float * spec_float :=
  let int := match f with
             | S754_finite s m e =>
                 let z := Z.shiftl (Zpos m) e in
                 binary_normalize 53 1024 (if s then - z else z) 0 s
             | _ => f
             end in
  (int, SFsub 53 1024 f int).

(** [time.Unix]: seconds are kept from the year 1 in an [int64]. *)
Definition unixToInternal : Z := 62135596800.
Definition timeUnix (sec nsec : Z) : Z :=
  let '(sec, nsec) :=
    if (nsec <? 0) || (1000000000 <=? nsec) then
      let n := nsec ÷ 1000000000 in
      let sec := wrap64 (sec + n) in
      let nsec := nsec - n * 1000000000 in
      if nsec <? 0 then (wrap64 (sec - 1), nsec + 1000000000) else (sec, nsec)
    else (sec, nsec) in
  (wrap64 (sec + unixToInternal) - unixToInternal) * 1000000000 + nsec.

(** [Time.Sub] saturates. *)
Definition timeSub (t u : Z) : Z := Z.max minInt64 (Z.min maxInt64 (t - u)).

Definition expirationTime (expiry : spec_float) : Z :=
  let '(seconds, nanoseconds) := Modf expiry in
  timeUnix (float_to_int64 seconds) (float_to_int64 (SFmul 53 1024 nanoseconds f64_1e9)).

(** [sm.MaxScriptedTimeout]. *)
Definition MaxScripted : Z := 180 * 1000000000.

(** [float64(0.25)], [defaultCacheJitter]. *)
Definition defaultCacheJitter : spec_float := S754_finite false 4503599627370496 (-54).
(** [r] is the result of [rand.Float64()]. *)
Definition jitterDuration (timeout : Z) (r : spec_float) : Z :=
  float_to_int64 (SFmul 53 1024 (SFmul 53 1024 r defaultCacheJitter)
                    (binary_normalize 53 1024 timeout 0 false)).

Definition calculateValidUntil (timeout now : Z) (r : spec_float) (tenant : Tenant) : Z :=
  match t_SecretStore tenant with
  | Some s =>
      if negb (isSecretStoreConfigured (Some s)) then now
      else if SFltb zeroF (s_Expiry s) then
        let expirationTime := expirationTime (s_Expiry s) in
        let delta := timeSub expirationTime now in
        if delta <? 0 then now
        else if delta <? MaxScripted then expirationTime
        else now + Z.min (delta - MaxScripted) timeout
      else now + timeout + jitterDuration timeout r
  | None => now + timeout + jitterDuration timeout r
  end.

(** ** Clients of a tenant provider

    [internal/limits/tenant.go], [internal/labelmode/labelmode.go] and
    [internal/cals/cals.go] over a [TenantProvider]: [GetTenant] by tenant id. *)
Section clients.
Context {E : Type} (GetTenant : Z → result E Tenant).

Inductive limitErr := ErrProvider (e : E) | ErrTooManyMetricLabels | ErrTooManyLogLabels.

Definition MetricLabels (tenantID : Z) : result limitErr Z :=
  match GetTenant tenantID with
  | Err e => Err (ErrProvider e)
  | Ok tenant =>
      Ok (match t_Limits tenant with Some l => MaxMetricLabels_ l | None => MaxMetricLabels end)
  end.
Definition LogLabels (tenantID : Z) : result limitErr Z :=
  match GetTenant tenantID with
  | Err e => Err (ErrProvider e)
  | Ok tenant => Ok (match t_Limits tenant with Some l => MaxLogLabels_ l | None => MaxLogLabels end)
  end.
Definition ValidateMetricLabels (tenantID n : Z) : error limitErr :=
  match MetricLabels tenantID with
  | Err e => Some e
  | Ok max => if max <? n then Some ErrTooManyMetricLabels else None
  end.
Definition ValidateLogLabels (tenantID n : Z) : error limitErr :=
  match LogLabels tenantID with
  | Err e => Some e
  | Ok max => if max <? n then Some ErrTooManyLogLabels else None
  end.

(** [LabelMode.ForTenant]: the mode is returned with the error too. *)
Definition ForTenant (tenantID : Z) : Z * error E :=
  match GetTenant tenantID with
  | Err e => (2, Some e)  (** [LABEL_MODE_UNPREFIXED] *)
  | Ok tenant => (t_LabelMode tenant, None)
  end.

Definition CostAttributionLabels_ (tenantID : Z) : result E (list string) :=
  match GetTenant tenantID with
  | Err e => Err e
  | Ok tenant => Ok (t_CostAttributionLabels tenant)
  end.
End clients.

(** ** The manager *)

Section manager.
Context `{Cache C} {E : Type} (timeout : Z).

(** What the outside gives a goroutine's next step: the clock, a random number, and
    the answer of the API. *)
Record event := { e_now : Z; e_rand : spec_float; e_resp : result E Tenant }.

(** Where a goroutine is, with its local variables. *)
Inductive pc :=
  | GStart                                        (** [GetTenant] called *)
  | GRead (now : Z)                               (** has read the clock *)
  | GLock (now : Z) (cached : cachedTenant)       (** about to lock the mutex *)
  | GLocked (now : Z) (cached : cachedTenant)     (** holds it, before the second [Get] *)
  | GFetch (ok : bool) (cached : cachedTenant)    (** waits for the API *)
  | GStore (tenant : Tenant)                      (** before [cache.Set] *)
  | GDone (r : result E Tenant)
  | ULock (tenant : Tenant)                       (** [updateTenant] called *)
  | ULocked (tenant : Tenant)
  | UStore (tenant : Tenant)
  | UDone.

(** The mutex of the tenant is held. *)
Definition holds (p : pc) : bool :=
  match p with
  | GLocked _ _ | GFetch _ _ | GStore _ | ULocked _ | UStore _ => true
  | _ => false
  end.
Definition finished (p : pc) : bool :=
  match p with GDone _ | UDone => true | _ => false end.

(** [err == nil && cached.Tenant != nil && cached.ValidUntil.After(now)]. *)
Definition validEntry (ok : bool) (cached : cachedTenant) (now : Z) : option Tenant :=
  if ok && (now <? c_ValidUntil cached) then c_Tenant cached else None.

Definition newCached (ev : event) (tenant : Tenant) : cachedTenant :=
  {| c_Tenant := Some tenant;
     c_ValidUntil := calculateValidUntil timeout (e_now ev) (e_rand ev) tenant;
     c_Modified := t_Modified tenant |}.

(** The next step of a goroutine working on tenant [id], up to its next use of the
    cache, the mutex or the API: in [GetTenant], *)
Definition GetTenant_advance (id : Z) (p : pc) (ev : event) (c : C) : pc * C :=
  let key := cacheKey id in
  match p with
  | GStart => (GRead (e_now ev), c)
  | GRead now =>
      let '(ok, cached) := Get c key zeroCached in
      match validEntry ok cached now with
      | Some t => (GDone (Ok t), c)
      | None => (GLock now cached, c)
      end
  | GLock now cached => (GLocked now cached, c)
  | GLocked now cached =>
      let '(ok, cached) := Get c key cached in
      match validEntry ok cached now with
      | Some t => (GDone (Ok t), c)
      | None => (GFetch ok cached, c)
      end
  | GFetch ok cached =>
      match e_resp ev with
      | Err e =>
          match (if ok then c_Tenant cached else None) with
          | Some t => (GDone (Ok t), c)
          | None => (GDone (Err e), c)
          end
      | Ok tenant => (GStore tenant, c)
      end
  | GStore tenant => (GDone (Ok tenant), cache_set key (newCached ev tenant) 0 c)
  | _ => (p, c)
  end.

(** and in [updateTenant]. *)
Definition updateTenant_advance (id : Z) (p : pc) (ev : event) (c : C) : pc * C :=
  let key := cacheKey id in
  match p with
  | ULock tenant => (ULocked tenant, c)
  | ULocked tenant =>
      let '(ok, existing) := Get c key zeroCached in
      match (if ok then c_Tenant existing else None) with
      | Some old => if SFleb (t_Modified tenant) (t_Modified old) then (UDone, c)
                    else (UStore tenant, c)
      | None => (UStore tenant, c)
      end
  | UStore tenant => (UDone, cache_set key (newCached ev tenant) 0 c)
  | _ => (p, c)
  end.

Definition advance (id : Z) (p : pc) (ev : event) (c : C) : pc * C :=
  match p with
  | GStart | GRead _ | GLock _ _ | GLocked _ _ | GFetch _ _ | GStore _ | GDone _ => GetTenant_advance id p ev c
  | ULock _ | ULocked _ | UStore _ | UDone => updateTenant_advance id p ev c
  end.

(** A store of a tenant, here or, with another timeout, in another agent: for which id, when,
    and what; and the entry it makes. *)
Record storeRec := {
  st_id : Z; st_timeout : Z; st_now : Z; st_rand : spec_float; st_Tenant : Tenant }.
Definition entryOf (x : storeRec) : cachedTenant :=
  {| c_Tenant := Some (st_Tenant x);
     c_ValidUntil := calculateValidUntil (st_timeout x) (st_now x) (st_rand x) (st_Tenant x);
     c_Modified := t_Modified (st_Tenant x) |}.

(** The manager: the cache, who holds the mutex of each tenant, and the goroutines
    with the tenant each works on; and, for the record, the stores so far. *)
Record Manager := {
  cache : C;
  fetchMutexes : gmap Z nat;
  routines : gmap nat (Z * pc);
  stores : list storeRec;
}.

(** The tenants the API sends for an id, in answers and in updates. *)
Variable issued : Z → Tenant → Prop.

Definition run (g : nat) (id : Z) (p : pc) (ev : event) (m : Manager) : Manager :=
  let '(p', c') := advance id p ev (cache m) in
  {| cache := c';
     fetchMutexes := if holds p' then <[id := g]> (fetchMutexes m)
                     else if holds p then delete id (fetchMutexes m) else fetchMutexes m;
     routines := <[g := (id, p')]> (routines m);
     stores := match p with
               | GStore t | UStore t =>
                   {| st_id := id; st_timeout := timeout; st_now := e_now ev; st_rand := e_rand ev; st_Tenant := t |}
                     :: stores m
               | _ => stores m
               end |}.

(** A goroutine that is about to lock the mutex of its tenant waits for it. *)
Definition blocked (id : Z) (p : pc) (m : Manager) : Prop :=
  match p with
  | GLock _ _ | ULock _ => fetchMutexes m !! id ≠ None
  | _ => False
  end.

Definition spawn (g : nat) (id : Z) (p : pc) (m : Manager) : Manager :=
  {| cache := cache m; fetchMutexes := fetchMutexes m; routines := <[g := (id, p)]> (routines m);
     stores := stores m |}.
Definition with_cache (c : C) (xs : list storeRec) (m : Manager) : Manager :=
  {| cache := c; fetchMutexes := fetchMutexes m; routines := routines m; stores := xs |}.

Definition answers (id : Z) (ev : event) : Prop :=
  match e_resp ev with Ok t => issued id t | Err _ => True end.

(** The stores are of tenants that the API issued for their ids. *)
Definition issuedRec (x : storeRec) : Prop := issued (st_id x) (st_Tenant x).
(** An entry for an id comes from one of the stores. *)
Definition stored (xs : list storeRec) (id : Z) (c : cachedTenant) : Prop :=
  ∃ x, x ∈ xs ∧ st_id x = id ∧ c = entryOf x.

(** Whether other agents use the same cache, as they may a memcached server, or the
    servers of the cache change. *)
Variable shared : bool.

Inductive step : Manager → Manager → Prop :=
  | step_GetTenant g id m :
      routines m !! g = None → step m (spawn g id GStart m)
  | step_updateTenant g tenant m :
      routines m !! g = None → issued (t_Id tenant) tenant →
      step m (spawn g (t_Id tenant) (ULock tenant) m)
  | step_run g id p ev m :
      routines m !! g = Some (id, p) → finished p = false → ¬ blocked id p m → answers id ev →
      step m (run g id p ev m)
  | step_cache c' m :
      (if shared then evolves (cache m) c' else loses (cache m) c') → step m (with_cache c' (stores m) m)
  | step_other_agent x m :
      shared = true → issuedRec x →
      step m (with_cache (cache_set (cacheKey (st_id x)) (entryOf x) 0 (cache m)) (x :: stores m) m).

(** From a manager without goroutines, over a cache that may hold tenants already. *)
Inductive reachable : Manager → Prop :=
  | reachable_init c xs :
      Forall issuedRec xs → (∀ id x, cache_held (cacheKey id) x c → stored xs id x) →
      reachable {| cache := c; fetchMutexes := ∅; routines := ∅; stores := xs |}
  | reachable_step m m' : reachable m → step m m' → reachable m'.

(** ** Lemmas *)

(** The steps a goroutine still has to take, at most. *)
Definition remaining (p : pc) : nat :=
  match p with
  | GStart => 6 | GRead _ => 5 | GLock _ _ => 4 | GLocked _ _ => 3 | GFetch _ _ => 2 | GStore _ => 1
  | ULock _ => 3 | ULocked _ => 2 | UStore _ => 1
  | GDone _ | UDone => 0
  end.

Lemma advance_remaining id p ev c :
  finished p = false → (remaining (advance id p ev c).1 < remaining p)%nat.
Proof.
  destruct p as [| | | |ok cached| | | |t| |]; intros Hf; try done; simpl; try lia.
  - destruct (Get c _ _) as [ok cached]. destruct (validEntry _ _ _); simpl; lia.
  - destruct (Get c _ _) as [ok cached']. destruct (validEntry _ _ _); simpl; lia.
  - destruct (e_resp ev); [simpl; lia|]. destruct (if ok then _ else _); simpl; lia.
  - destruct (Get c _ _) as [ok existing]. destruct (if ok then _ else _); [|simpl; lia].
    destruct (SFleb _ _); simpl; lia.
Qed.

(** Only a store changes the cache. *)
Lemma advance_cache id p ev c :
  (advance id p ev c).2 = c ∨
  ∃ t, (p = GStore t ∨ p = UStore t) ∧
    (advance id p ev c).2 = cache_set (cacheKey id) (newCached ev t) 0 c.
Proof.
  destruct p as [| | | |ok cached|t| | |t|t|]; simpl; eauto.
  - left. destruct (Get c _ _) as [ok cached]. by destruct (validEntry _ _ _).
  - left. destruct (Get c _ _) as [ok cached']. by destruct (validEntry _ _ _).
  - left. destruct (e_resp ev); [done|]. by destruct (if ok then _ else _).
  - left. destruct (Get c _ _) as [ok existing]. destruct (if ok then _ else _); [|done].
    by destruct (SFleb _ _).
Qed.

(** The tenants a goroutine holds were issued for its id. *)
Definition carries (id : Z) (p : pc) : Prop :=
  match p with
  | GStore t | ULock t | ULocked t | UStore t => issued id t
  | _ => True
  end.

Lemma advance_carries id p ev c :
  carries id p → answers id ev → carries id (advance id p ev c).1.
Proof.
  unfold answers. destruct p as [| | | |ok cached|t| | |t|t|]; simpl; try done; intros Hc Ha.
  - destruct (Get c _ _) as [ok cached]. by destruct (validEntry _ _ _).
  - destruct (Get c _ _) as [ok cached']. by destruct (validEntry _ _ _).
  - destruct (e_resp ev); [done|]. by destruct (if ok then _ else _).
  - destruct (Get c _ _) as [ok existing]. destruct (if ok then _ else _); [|done].
    by destruct (SFleb _ _).
Qed.

(** A tenant about to be stored by [updateTenant] is newer than the cached one. *)
Definition newest (t : Tenant) (id : Z) (c : C) : Prop :=
  ∀ x old, cache_get (cacheKey id) c = Some x →
    c_Tenant (decodeCached zeroCached x) = Some old →
    SFleb (t_Modified t) (t_Modified old) = false.

Lemma advance_newest id p ev c t :
  (advance id p ev c).1 = UStore t → newest t id c ∧ (advance id p ev c).2 = c.
Proof.
  destruct p as [| | | |ok cached|t'| | |t'|t'|]; simpl; try done.
  - destruct (Get c _ _) as [ok cached]. by destruct (validEntry _ _ _).
  - destruct (Get c _ _) as [ok cached']. by destruct (validEntry _ _ _).
  - destruct (e_resp ev); [done|]. by destruct (if ok then _ else _).
  - unfold Get, newest. destruct (cache_get (cacheKey id) c) as [x|].
    + destruct (c_Tenant (decodeCached zeroCached x)) as [old|] eqn:Ho.
      * destruct (SFleb _ _) eqn:El; [done|]. intros [= ->]. split; [|done].
        intros x' old' [= <-] Ho'. congruence.
      * intros [= ->]. split; [|done]. intros x' old' [= <-] Ho'. congruence.
    + intros [= ->]. split; [|done]. by intros ? ? [=].
Qed.

Lemma cacheKey_inj id id' : cacheKey id = cacheKey id' → id = id'.
Proof. unfold cacheKey. simpl. intros [= Hp]. by apply (inj pretty). Qed.

Lemma newest_set t id k v ttl c :
  newest t id c → k ≠ cacheKey id → newest t id (cache_set k v ttl c).
Proof.
  intros Hn Hk x old Hx. apply cache_get_set in Hx as [[? _]|Hx]; [by subst|]. by apply Hn.
Qed.

Record inv (m : Manager) : Prop := {
  inv_mutex g id p :
    routines m !! g = Some (id, p) → holds p = true → fetchMutexes m !! id = Some g;
  inv_holder id g :
    fetchMutexes m !! id = Some g → ∃ p, routines m !! g = Some (id, p) ∧ holds p = true;
  inv_stored id x : cache_held (cacheKey id) x (cache m) → stored (stores m) id x;
  inv_issued : Forall issuedRec (stores m);
  inv_carries g id p : routines m !! g = Some (id, p) → carries id p;
  inv_newest g id t :
    shared = false → routines m !! g = Some (id, UStore t) → newest t id (cache m);
}.
Lemma inv_spawn g id p m :
  inv m → routines m !! g = None → holds p = false → carries id p →
  inv (spawn g id p m).
Proof.
  intros [Hm Hh Hs Hi Hc Hn] Hg Hp Hcp. split; simpl.
  - intros g' id' p'. rewrite lookup_insert_Some. intros [[<- [= <- <-]]|[_ ?]]; [congruence|eauto].
  - intros id' g' Hg'. destruct (Hh _ _ Hg') as (p' & ? & ?). exists p'.
    rewrite lookup_insert_ne by congruence. done.
  - done.
  - done.
  - intros g' id' p'. rewrite lookup_insert_Some. intros [[<- [= <- <-]]|[_ ?]]; [done|eauto].
  - intros g' id' t Hsh. rewrite lookup_insert_Some. intros [[<- [= <- ->]]|[_ ?]]; [done|eauto].
Qed.

Lemma inv_cache c' xs m :
  inv m → Forall issuedRec xs → (∀ id x, cache_held (cacheKey id) x c' → stored xs id x) →
  (shared = false → ∀ k x, cache_get k c' = Some x → cache_get k (cache m) = Some x) →
  inv (with_cache c' xs m).
Proof.
  intros [Hm Hh Hs Hi Hc Hn] Hi' Hs' Hk. split; simpl; try done.
  intros g id t Hsh Hg x old Hx. by apply (Hn g id t Hsh Hg), Hk.
Qed.

Lemma stored_more x xs id c : stored xs id c → stored (x :: xs) id c.
Proof. intros (y & ? & ? & ?). exists y. split; [by right|done]. Qed.

Lemma inv_run g id p ev m :
  inv m → routines m !! g = Some (id, p) → ¬ blocked id p m → answers id ev →
  inv (run g id p ev m).
Proof.
  intros [Hm Hh Hs Hi Hc Hn] Hg Hb Ha. unfold run.
  assert (Hcar := advance_carries id p ev (cache m) (Hc _ _ _ Hg) Ha).
  assert (Hcache := advance_cache id p ev (cache m)).
  assert (Hnew := advance_newest id p ev (cache m)).
  assert (Hfree : holds (advance id p ev (cache m)).1 = true → holds p = false →
                  fetchMutexes m !! id = None).
  { destruct p; simpl in *; try done; intros.
    - destruct (Get (cache m) _ _) as [ok cached]. by destruct (validEntry _ _ _).
    - destruct (fetchMutexes m !! id); [by destruct Hb|done].
    - destruct (fetchMutexes m !! id); [by destruct Hb|done]. }
  destruct (advance id p ev (cache m)) as [p' c']. simpl in *.
  assert (Hown : ∀ g' p0, routines m !! g' = Some (id, p0) → holds p0 = true → holds p' = true → g' = g).
  { intros g' p0 Hg' Hp0 Hp'. specialize (Hm _ _ _ Hg' Hp0) as Hm'.
    destruct (holds p) eqn:Ehp; [|rewrite Hfree in Hm' by done; done].
    rewrite (Hm _ _ _ Hg Ehp) in Hm'. congruence. }
  split; simpl.
  - intros g' id' p0. rewrite lookup_insert_Some. intros [[<- [= <- <-]]|[Hne Hg']] Hp0.
    { by rewrite Hp0, lookup_insert_eq. }
    specialize (Hm _ _ _ Hg' Hp0) as Hm'. destruct (holds p') eqn:Ep'.
    + rewrite lookup_insert_ne; [done|]. intros <-. by rewrite (Hown _ _ Hg' Hp0) in Hne.
    + destruct (holds p) eqn:Ehp; [|done]. rewrite lookup_delete_ne; [done|]. intros <-.
      rewrite (Hm _ _ _ Hg Ehp) in Hm'. congruence.
  - intros id' g' Hm'. destruct (holds p') eqn:Ep'.
    + apply lookup_insert_Some in Hm' as [[<- <-]|[Hne Hm']].
      { exists p'. by rewrite lookup_insert_eq. }
      destruct (Hh _ _ Hm') as (p0 & Hg' & Hp0). exists p0.
      rewrite lookup_insert_ne; [done|]. intros <-. congruence.
    + assert (Hm2 : fetchMutexes m !! id' = Some g' ∧ (holds p = true → id' ≠ id)).
      { destruct (holds p); [|done]. by apply lookup_delete_Some in Hm' as [? ?]. }
      destruct Hm2 as [Hm2 Hne]. destruct (Hh _ _ Hm2) as (p0 & Hg' & Hp0). exists p0.
      rewrite lookup_insert_ne; [done|]. intros <-. rewrite Hg in Hg'. injection Hg' as <- <-.
      by apply Hne.
  - intros id' x Hx. destruct Hcache as [->|(t & Hpt & ->)].
    { destruct p; try apply stored_more; by apply Hs. }
    apply cache_held_set in Hx as [[Hk ->]|Hx]; [|destruct Hpt as [-> | ->]; by apply stored_more, Hs].
    apply cacheKey_inj in Hk as ->. destruct Hpt as [-> | ->]; by eexists; (split; [left|]).
  - specialize (Hc _ _ _ Hg). destruct p; try done; by constructor.
  - intros g' id' p0. rewrite lookup_insert_Some. intros [[<- [= <- <-]]|[_ ?]]; [done|eauto].
  - intros g' id' t Hsh. rewrite lookup_insert_Some. intros [[<- [= <- ->]]|[Hne Hg']].
    { destruct (Hnew t eq_refl) as [Hnt ->]. done. }
    destruct Hcache as [->|(t0 & Hpt & ->)]; [by apply (Hn g')|].
    apply newest_set; [by apply (Hn g')|]. intros Hk%cacheKey_inj. subst id'.
    assert (Ehp : holds p = true) by by destruct Hpt as [-> | ->].
    specialize (Hm _ _ _ Hg Ehp) as H1. by rewrite (Hm _ _ _ Hg' eq_refl) in H1; congruence.
Qed.

Lemma manager_reachable_inv m : reachable m → inv m.
Proof.
  induction 1 as [c Hc|m m' _ IH Hstep].
  { split; simpl; intros; try (by rewrite lookup_empty in *); eauto. }
  destruct Hstep as [g id m Hg|g t m Hg Hi|g id p ev m Hg Hf Hb Ha|c' m Hev|x m Hsh Hx].
  - by apply inv_spawn.
  - by apply inv_spawn.
  - by apply inv_run.
  - apply inv_cache; [done|by apply inv_issued| |].
    + intros id x Hx. eapply inv_stored; [done|]. eapply cache_held_evolves; [|done].
      destruct shared; [done|by apply loses_evolves].
    + intros Hsh k x. rewrite Hsh in Hev. by apply cache_get_loses.
  - apply inv_cache; [done|constructor; [done|by apply inv_issued]| |by rewrite Hsh].
    intros id' x' Hx'. apply cache_held_set in Hx' as [[Hk ->]|Hx']; [|by eapply stored_more, inv_stored].
    apply cacheKey_inj in Hk as ->. exists x. split; [left|done].
Qed.

(** ** Properties *)

(** C14: at most one goroutine per tenant is between locking and unlocking its
    mutex, so at most one fetch per tenant is under way; and no goroutine waits in
    vain: while one works on a tenant, some goroutine of that tenant can take a
    step, and every step brings it nearer to its end. *)
Theorem one_fetch_per_tenant m :
  reachable m →
  (∀ g1 g2 id p1 p2,
     routines m !! g1 = Some (id, p1) → routines m !! g2 = Some (id, p2) →
     holds p1 = true → holds p2 = true → g1 = g2) ∧
  (∀ g id p, routines m !! g = Some (id, p) → finished p = false →
     ∃ g' p', routines m !! g' = Some (id, p') ∧ finished p' = false ∧ ¬ blocked id p' m ∧
       ∀ ev, answers id ev →
         step m (run g' id p' ev m) ∧
         (remaining (advance id p' ev (cache m)).1 < remaining p')%nat).
Proof.
  intros Hr%manager_reachable_inv. split.
  - intros g1 g2 id p1 p2 H1 H2 Hp1 Hp2.
    apply (inv_mutex _ Hr) in H1; [|done]. apply (inv_mutex _ Hr) in H2; [|done]. congruence.
  - assert (Hgo : ∀ g id p, routines m !! g = Some (id, p) → finished p = false → ¬ blocked id p m →
      ∃ g' p', routines m !! g' = Some (id, p') ∧ finished p' = false ∧ ¬ blocked id p' m ∧
        ∀ ev, answers id ev → step m (run g' id p' ev m) ∧
          (remaining (advance id p' ev (cache m)).1 < remaining p')%nat).
    { intros g id p Hg Hf Hb. exists g, p. split_and!; [done..|]. intros ev Ha.
      split; [by eapply step_run|by apply advance_remaining]. }
    intros g id p Hg Hf. destruct (fetchMutexes m !! id) as [h|] eqn:Em.
    + destruct (inv_holder _ Hr _ _ Em) as (p0 & Hh & Hp0).
      apply (Hgo h id p0); [done|by destruct p0|]. by destruct p0; simpl; auto.
    + apply (Hgo g id p); [done|done|]. destruct p; simpl; rewrite ?Em; auto.
Qed.


(** Decoding the same value again changes nothing. *)
Lemma decodeInt_idem o n : decodeInt (decodeInt o n) n = decodeInt o n.
Proof. unfold decodeInt. by destruct (n =? 0). Qed.
Lemma decodeString_idem o n : decodeString (decodeString o n) n = decodeString o n.
Proof. unfold decodeString. by case_bool_decide. Qed.
Lemma decodeFloat_idem o n : decodeFloat (decodeFloat o n) n = decodeFloat o n.
Proof. unfold decodeFloat. by destruct (SFeqb n zeroF). Qed.
Lemma decodeSlice_idem {A} (o n : list A) : decodeSlice (decodeSlice o n) n = decodeSlice o n.
Proof. by destruct n. Qed.
Lemma decodePtr_idem {A} (z : A) dec o n :
  (∀ x y, dec (dec x y) y = dec x y) → decodePtr z dec (decodePtr z dec o n) n = decodePtr z dec o n.
Proof. intros Hd. destruct n; [|done]. simpl. by rewrite Hd. Qed.

Lemma decodeRemote_idem o n : decodeRemote (decodeRemote o n) n = decodeRemote o n.
Proof. unfold decodeRemote. simpl. by rewrite !decodeString_idem. Qed.
Lemma decodeLimits_idem o n : decodeLimits (decodeLimits o n) n = decodeLimits o n.
Proof. unfold decodeLimits. simpl. by rewrite !decodeInt_idem. Qed.
Lemma decodeSecretStore_idem o n : decodeSecretStore (decodeSecretStore o n) n = decodeSecretStore o n.
Proof. unfold decodeSecretStore. simpl. by rewrite !decodeString_idem, decodeFloat_idem. Qed.
Lemma decodeTenant_idem o n : decodeTenant (decodeTenant o n) n = decodeTenant o n.
Proof.
  unfold decodeTenant. simpl.
  by rewrite !decodeInt_idem, !decodeString_idem, !decodeFloat_idem, decodeSlice_idem,
    !(decodePtr_idem _ _ _ _ decodeRemote_idem), !(decodePtr_idem _ _ _ _ decodeLimits_idem),
    !(decodePtr_idem _ _ _ _ decodeSecretStore_idem).
Qed.
Lemma decodeCached_idem o n : decodeCached (decodeCached o n) n = decodeCached o n.
Proof.
  unfold decodeCached. simpl.
  by rewrite decodeFloat_idem, (decodePtr_idem _ _ _ _ decodeTenant_idem).
Qed.

(** A call on its own: the goroutine's steps one after the other. *)
Fixpoint alone (n : nat) (id : Z) (p : pc) (ev : event) (c : C) : pc * C :=
  match n with
  | O => (p, c)
  | S n => let '(p', c') := advance id p ev c in alone n id p' ev c'
  end.

(** The tenant a [Get] into a zero [cachedTenant] gives, with its validity. *)
Definition cachedFor (id : Z) (c : C) : option (Tenant * Z) :=
  x ← cache_get (cacheKey id) c;
  t ← c_Tenant (decodeCached zeroCached x);
  Some (t, c_ValidUntil x).

(** On its own, [GetTenant] returns the cached tenant without asking the API
    while it is valid; otherwise it returns and stores what the API answers, and
    falls back on an expired tenant when the API fails, so it only fails when
    nothing is cached.  [updateTenant] stores the tenant, unless the cached one is
    as recent or more. *)
Theorem manager_calls_alone id tenant ev c :
  alone 6 id GStart ev c =
    match cachedFor id c, e_resp ev with
    | Some (t, until), Ok t' =>
        if e_now ev <? until then (GDone (Ok t), c)
        else (GDone (Ok t'), cache_set (cacheKey id) (newCached ev t') 0 c)
    | Some (t, _), Err _ => (GDone (Ok t), c)
    | None, Ok t' => (GDone (Ok t'), cache_set (cacheKey id) (newCached ev t') 0 c)
    | None, Err e => (GDone (Err e), c)
    end ∧
  alone 3 id (ULock tenant) ev c =
    match cachedFor id c with
    | Some (t, _) =>
        if SFleb (t_Modified tenant) (t_Modified t) then (UDone, c)
        else (UDone, cache_set (cacheKey id) (newCached ev tenant) 0 c)
    | None => (UDone, cache_set (cacheKey id) (newCached ev tenant) 0 c)
    end.
Proof.
  unfold cachedFor. destruct (cache_get (cacheKey id) c) as [x|] eqn:Ex.
  2:{ split; cbn -[decodeCached]; unfold Get; rewrite Ex; cbn -[decodeCached]; [|done].
      unfold Get. rewrite Ex. cbn. by destruct (e_resp ev). }
  assert (HG : ∀ d, Get c (cacheKey id) d = (true, decodeCached d x)) by (intros d; unfold Get; by rewrite Ex).
  split; cbn -[decodeCached Get validEntry]; rewrite HG.
  - unfold validEntry. simpl andb. change (c_ValidUntil (decodeCached zeroCached x)) with (c_ValidUntil x).
    destruct (e_now ev <? c_ValidUntil x) eqn:Ev;
      destruct (c_Tenant (decodeCached zeroCached x)) as [t|] eqn:Et; cbn -[decodeCached Get];
      rewrite ?HG, ?decodeCached_idem; unfold validEntry; simpl andb;
      change (c_ValidUntil (decodeCached zeroCached x)) with (c_ValidUntil x);
      rewrite ?Ev, ?Et; destruct (e_resp ev) eqn:Er; cbn -[decodeCached]; by rewrite ?Er, ?Et.
  - destruct (c_Tenant (decodeCached zeroCached x)) as [t|]; cbn -[decodeCached]; [|done].
    by destruct (SFleb _ _).
Qed.


(** An update never replaces a tenant that is as recent or more, whatever
    runs between its look at the cache and its store, provided no other agent
    writes to the cache. *)
Theorem updates_never_regress m g id tenant t until :
  reachable m → shared = false → routines m !! g = Some (id, UStore tenant) →
  cachedFor id (cache m) = Some (t, until) →
  SFleb (t_Modified tenant) (t_Modified t) = false.
Proof.
  intros Hr%manager_reachable_inv Hsh Hg. unfold cachedFor.
  destruct (cache_get (cacheKey id) (cache m)) as [x|] eqn:Ex; [|done]. cbn -[decodeCached].
  destruct (c_Tenant (decodeCached zeroCached x)) as [t'|] eqn:Et; [|done]. intros [= <- _].
  by apply (inv_newest _ Hr g id tenant Hsh Hg x).
Qed.

(** A call that waited for the mutex decodes the tenant another goroutine stored
    into the expired one it had read. *)
Lemma waiting_call_merges id now old ev c x new :
  cache_get (cacheKey id) c = Some x → c_Tenant x = Some new → now < c_ValidUntil x →
  advance id (GLocked now (decodeCached zeroCached
     {| c_Tenant := Some old; c_ValidUntil := now; c_Modified := t_Modified old |})) ev c =
  (GDone (Ok (decodeTenant (decodeTenant zeroTenant old) new)), c).
Proof.
  intros Hx Hn Hv. cbn -[decodeCached]. unfold Get. rewrite Hx. unfold validEntry.
  cbn -[decodeTenant]. rewrite (proj2 (Z.ltb_lt _ _)) by done. by rewrite Hn.
Qed.
End manager.

(** ** Examples *)

Definition example_tenant (mode : Z) (modified : spec_float) : Tenant := {|
  t_Id := 7; t_OrgId := 1; t_MetricsRemote := None; t_EventsRemote := None; t_StackId := 0;
  t_Status := 0; t_Reason := ""; t_Limits := None; t_CostAttributionLabels := [];
  t_LabelMode := mode; t_Created := zeroF; t_Modified := modified;
  t_SecretStore := Some {| s_Url := "https://store"; s_Token := "token"; s_Expiry := f64_1e9 |} |}.
Definition one : spec_float := binary_normalize 53 1024 1 0 false.
Definition two : spec_float := binary_normalize 53 1024 2 0 false.

Definition example_event (now : Z) (resp : result unit Tenant) : event :=
  {| e_now := now; e_rand := zeroF; e_resp := resp |}.

Definition example_issued (id : Z) (t : Tenant) : Prop :=
  id = 7 ∧ (t = example_tenant 2 one ∨ t = example_tenant 0 two).

(** The token expires at 10^9 s; the tenant is cached 600 s before, for 420 s. *)
Definition T0 : Z := (1000000000 - 600) * 1000000000.
Definition timeout15 : Z := 900 * 1000000000.

Definition example_start : Manager (C := gmap string cachedTenant) (E := unit) :=
  {| cache := ∅; fetchMutexes := ∅; routines := ∅; stores := [] |}.
(** Steps of goroutine [g], which works on tenant 7. *)
Definition go_on (g : nat) (ev : event) (m : Manager (C := gmap string cachedTenant) (E := unit)) :=
  match routines m !! g with
  | Some (id, p) => run timeout15 g id p ev m
  | None => m
  end.
Definition later (n : Z) : event := example_event (T0 + n * 1000000000) (Ok (example_tenant 2 one)).

(** Goroutine 0 calls [GetTenant] and stores what the API answers. *)
Definition example_stored :=
  Nat.iter 6 (go_on 0 (later 0)) (spawn 0 7 GStart example_start).
Definition example_update :=
  Nat.iter 2 (go_on 1 (later 500)) (spawn 1 7 (ULock (example_tenant 0 two)) example_stored).

Lemma go_on_reachable g id p ev m :
  reachable (E:=unit) timeout15 example_issued false m → routines m !! g = Some (id, p) →
  finished p = false → ¬ blocked id p m → answers example_issued id ev →
  reachable (E:=unit) timeout15 example_issued false (go_on g ev m).
Proof.
  intros Hr Hg Hf Hb Ha. eapply reachable_step; [done|]. unfold go_on. rewrite Hg.
  by eapply step_run.
Qed.

Lemma example_stored_reachable : reachable timeout15 example_issued false example_stored.
Proof.
  unfold example_stored.
  assert (Ha : answers example_issued 7 (later 0)) by (split; [done|by left]).
  assert (H0 : reachable timeout15 example_issued false (spawn 0 7 (GStart (E:=unit)) example_start)).
  { eapply reachable_step; [|by apply step_GetTenant]. apply reachable_init; [done|].
    intros id x. cbn. by rewrite lookup_empty. }
  do 6 (eapply go_on_reachable; [|vm_compute; reflexivity|reflexivity|by vm_compute|exact Ha]).
  exact H0.
Qed.

Lemma example_update_reachable : reachable timeout15 example_issued false example_update.
Proof.
  unfold example_update.
  assert (Ha : answers example_issued 7 (later 500)) by (split; [done|by left]).
  do 2 (eapply go_on_reachable; [|vm_compute; reflexivity|reflexivity|by vm_compute|exact Ha]).
  eapply reachable_step; [apply example_stored_reachable|].
  apply (step_updateTenant _ _ _ 1%nat (example_tenant 0 two)); [by vm_compute|]. split; [done|by right].
Qed.

Lemma one_fetch_per_tenant_witness :
  (∀ g1 g2 id p1 p2,
     routines example_update !! g1 = Some (id, p1) → routines example_update !! g2 = Some (id, p2) →
     holds p1 = true → holds p2 = true → g1 = g2) ∧
  (∀ g id p, routines example_update !! g = Some (id, p) → finished p = false →
    ∃ g' p', routines example_update !! g' = Some (id, p') ∧ finished p' = false ∧
      ¬ blocked id p' example_update ∧
      ∀ ev, answers example_issued id ev →
        step timeout15 example_issued false example_update (run timeout15 g' id p' ev example_update) ∧
        (remaining (advance timeout15 id p' ev (cache example_update)).1 < remaining p')%nat).
Proof. apply (one_fetch_per_tenant timeout15 example_issued false example_update example_update_reachable). Defined.


Lemma updates_never_regress_witness :
  SFleb (t_Modified (example_tenant 0 two)) (t_Modified (example_tenant 2 one)) = false.
Proof.
  apply (updates_never_regress timeout15 example_issued false example_update 1%nat 7 (example_tenant 0 two)
    (example_tenant 2 one) (T0 + 420 * 1000000000)).
  - apply example_update_reachable.
  - reflexivity.
  - vm_compute. reflexivity.
  - vm_compute. reflexivity.
Defined.

(** Two goroutines find the tenant expired; the first stores the new version, in
    prefixed mode; the second, having waited, returns that version with the label
    mode of the old one. *)
Definition example_race :=
  let expired := later 500 in
  let m := spawn 2 7 GStart (spawn 1 7 GStart example_stored) in
  let m := Nat.iter 2 (go_on 2 expired) (Nat.iter 2 (go_on 1 expired) m) in
  let m := Nat.iter 4 (go_on 1 (example_event (T0 + 550 * 1000000000) (Ok (example_tenant 0 two)))) m in
  Nat.iter 2 (go_on 2 expired) m.
Example waiting_call_mixes_versions :
  routines example_race !! 1%nat = Some (7, GDone (Ok (example_tenant 0 two))) ∧
  routines example_race !! 2%nat = Some (7, GDone (Ok (example_tenant 2 two))).
Proof. split; vm_compute; reflexivity. Qed.

(** A call reads the clock; another stores the tenant, whose token has expired, so that the
    entry is not to be used; the first call, which compares it with its own reading, serves it. *)
Definition example_expired : Tenant := example_tenant 2 one.
Definition example_late :=
  let t := 1000000000 * 1000000000 in
  let m := go_on 0 (example_event (t + 5) (Ok example_expired)) (spawn 0 7 GStart example_start) in
  let m := Nat.iter 6 (go_on 1 (example_event (t + 10) (Ok example_expired))) (spawn 1 7 GStart m) in
  go_on 0 (example_event (t + 20) (Ok example_expired)) m.
Example late_store_serves_expired_token :
  routines example_late !! 0%nat = Some (7, GDone (Ok example_expired)) ∧
  c_ValidUntil <$> (cache example_late !! cacheKey 7) = Some (1000000000 * 1000000000 + 10) ∧
  expirationTime (default zeroF (s_Expiry <$> t_SecretStore example_expired)) = 1000000000 * 1000000000.
Proof. split_and!; vm_compute; reflexivity. Qed.
