(* ===== verification/Enums.v ===== *)
(** * Enumerations by name

    [pkg/pb/synthetic_monitoring/multihttp_string.go]: the names of four enumerations of
    multihttp checks, kept as one string with an index; [checks_extra.go]: the JSON of
    five others, with their errors, and of the settings of a remote, whose password is
    never written. *)
From S2P Require Import Prelude Strs Net Checks Validate Tenants.

Open Scope Z_scope.

(** ** Names in one string *)

(** The tables of a type: its name, the names of its values run together, the same in
    lower case, where each starts and ends, and the values. *)
Record enumer := {
  en_type : string; en_Name : string; en_LowerName : string; en_Index : list nat; en_Values : list Z }.

Definition AssertionType : enumer :=
  {| en_type := "MultiHttpEntryAssertionType";
     en_Name := "TEXTJSON_PATH_VALUEJSON_PATH_ASSERTIONREGEX_ASSERTION";
     en_LowerName := "textjson_path_valuejson_path_assertionregex_assertion";
     en_Index := [0; 4; 19; 38; 53]%nat; en_Values := [0; 1; 2; 3] |}.
Definition SubjectVariant : enumer :=
  {| en_type := "MultiHttpEntryAssertionSubjectVariant";
     en_Name := "DEFAULT_SUBJECTRESPONSE_HEADERSHTTP_STATUS_CODERESPONSE_BODY";
     en_LowerName := "default_subjectresponse_headershttp_status_coderesponse_body";
     en_Index := [0; 15; 31; 47; 60]%nat; en_Values := [0; 1; 2; 3] |}.
Definition ConditionVariant : enumer :=
  {| en_type := "MultiHttpEntryAssertionConditionVariant";
     en_Name := "DEFAULT_CONDITIONNOT_CONTAINSEQUALSSTARTS_WITHENDS_WITHTYPE_OFCONTAINS";
     en_LowerName := "default_conditionnot_containsequalsstarts_withends_withtype_ofcontains";
     en_Index := [0; 17; 29; 35; 46; 55; 62; 70]%nat; en_Values := [0; 1; 2; 3; 4; 5; 6] |}.
Definition VariableType : enumer :=
  {| en_type := "MultiHttpEntryVariableType";
     en_Name := "JSON_PATHREGEXCSS_SELECTOR"; en_LowerName := "json_pathregexcss_selector";
     en_Index := [0; 9; 14; 26]%nat; en_Values := [0; 1; 2] |}.

Section enumer.
Variable e : enumer.

Definition name_at (names : string) (k : nat) : string :=
  slice (nth k (en_Index e) 0%nat) (nth (S k) (en_Index e) 0%nat) names.

(** [String]. *)
Definition enum_String (i : Z) : string :=
  if (i <? 0) || (llen (en_Index e) - 1 <=? i) then en_type e +:+ "(" +:+ itoa i +:+ ")"
  else name_at (en_Name e) (Z.to_nat i).

(** The [NameToValueMap], and the names. *)
Definition enum_NameToValueMap : gmap string Z :=
  list_to_map (concat (imap (λ k v, [(name_at (en_Name e) k, v); (name_at (en_LowerName e) k, v)]) (en_Values e))).
Definition enum_Strings : list string := imap (λ k _, name_at (en_Name e) k) (en_Values e).

(** The value of a name. *)
Definition enum_FromString (s : string) : option Z :=
  match enum_NameToValueMap !! s with
  | Some v => Some v
  | None => enum_NameToValueMap !! ToLower s
  end.

Definition enum_parse (s : string) : result string Z :=
  match enum_FromString s with
  | Some v => Ok v
  | None => Err (s +:+ " does not belong to " +:+ en_type e +:+ " values")
  end.

(** [IsA]. *)
Definition enum_IsA (i : Z) : bool := existsb (Z.eqb i) (en_Values e).
End enumer.

(** *** The functions of each type *)

Definition MultiHttpEntryAssertionType_String : Z → string := enum_String AssertionType.
Definition MultiHttpEntryAssertionTypeNameToValueMap : gmap string Z := enum_NameToValueMap AssertionType.
Definition MultiHttpEntryAssertionTypeString (s : string) : result string Z := enum_parse AssertionType s.
Definition MultiHttpEntryAssertionTypeValues : list Z := en_Values AssertionType.
Definition MultiHttpEntryAssertionTypeStrings : list string := enum_Strings AssertionType.
Definition IsAMultiHttpEntryAssertionType : Z → bool := enum_IsA AssertionType.

Definition MultiHttpEntryAssertionSubjectVariant_String : Z → string := enum_String SubjectVariant.
Definition MultiHttpEntryAssertionSubjectVariantNameToValueMap : gmap string Z := enum_NameToValueMap SubjectVariant.
Definition MultiHttpEntryAssertionSubjectVariantString (s : string) : result string Z := enum_parse SubjectVariant s.
Definition MultiHttpEntryAssertionSubjectVariantValues : list Z := en_Values SubjectVariant.
Definition MultiHttpEntryAssertionSubjectVariantStrings : list string := enum_Strings SubjectVariant.
Definition IsAMultiHttpEntryAssertionSubjectVariant : Z → bool := enum_IsA SubjectVariant.

Definition MultiHttpEntryAssertionConditionVariant_String : Z → string := enum_String ConditionVariant.
Definition MultiHttpEntryAssertionConditionVariantNameToValueMap : gmap string Z := enum_NameToValueMap ConditionVariant.
Definition MultiHttpEntryAssertionConditionVariantString (s : string) : result string Z := enum_parse ConditionVariant s.
Definition MultiHttpEntryAssertionConditionVariantValues : list Z := en_Values ConditionVariant.
Definition MultiHttpEntryAssertionConditionVariantStrings : list string := enum_Strings ConditionVariant.
Definition IsAMultiHttpEntryAssertionConditionVariant : Z → bool := enum_IsA ConditionVariant.

Definition MultiHttpEntryVariableType_String : Z → string := enum_String VariableType.
Definition MultiHttpEntryVariableTypeNameToValueMap : gmap string Z := enum_NameToValueMap VariableType.
Definition MultiHttpEntryVariableTypeString (s : string) : result string Z := enum_parse VariableType s.
Definition MultiHttpEntryVariableTypeValues : list Z := en_Values VariableType.
Definition MultiHttpEntryVariableTypeStrings : list string := enum_Strings VariableType.
Definition IsAMultiHttpEntryVariableType : Z → bool := enum_IsA VariableType.

Definition enumers : list (enumer * list (Z * string)) :=
  [(AssertionType, MultiHttpEntryAssertionType_name);
   (SubjectVariant, MultiHttpEntryAssertionSubjectVariant_name);
   (ConditionVariant, MultiHttpEntryAssertionConditionVariant_name);
   (VariableType, MultiHttpEntryVariableType_name)].

(** ** JSON *)

(** [MarshalJSON] of a type, with its error. *)
Definition marshalAs {E} (name : list (Z * string)) (err : E) (v : Z) : result E string :=
  match MarshalJSON name v with Some b => Ok b | None => Err err end.

Inductive enumErr :=
  | ErrInvalidIpVersionValue | ErrInvalidIpVersionString
  | ErrInvalidCompressionAlgorithmValue | ErrInvalidCompressionAlgorithmString
  | ErrInvalidHttpMethodValue_ | ErrInvalidHttpMethodString
  | ErrInvalidDnsRecordTypeValue | ErrInvalidDnsRecordTypeString
  | ErrInvalidDnsProtocolValue | ErrInvalidDnsProtocolString.

Definition IpVersion_MarshalJSON := marshalAs IpVersion_name ErrInvalidIpVersionValue.
Definition CompressionAlgorithm_MarshalJSON := marshalAs CompressionAlgorithm_name ErrInvalidCompressionAlgorithmValue.
Definition HttpMethod_MarshalJSON := marshalAs HttpMethod_name ErrInvalidHttpMethodValue_.
Definition DnsRecordType_MarshalJSON := marshalAs DnsRecordType_name ErrInvalidDnsRecordTypeValue.
Definition DnsProtocol_MarshalJSON := marshalAs DnsProtocol_name ErrInvalidDnsProtocolValue.

Section json.
(** [strconv.Unquote] of other literals than plain ones, as in [Validate.v]. *)
Variable unquoteSlow : string → option string.

(** [UnmarshalJSON] of a type. *)
Definition unmarshalAs (name : list (Z * string)) (err : enumErr) (b : string) : result enumErr Z :=
  match UnmarshalJSON unquoteSlow name b with Some v => Ok v | None => Err err end.

Definition IpVersion_UnmarshalJSON := unmarshalAs IpVersion_name ErrInvalidIpVersionString.
Definition CompressionAlgorithm_UnmarshalJSON := unmarshalAs CompressionAlgorithm_name ErrInvalidCompressionAlgorithmString.
Definition HttpMethod_UnmarshalJSON := unmarshalAs HttpMethod_name ErrInvalidHttpMethodString.
Definition DnsRecordType_UnmarshalJSON := unmarshalAs DnsRecordType_name ErrInvalidDnsRecordTypeString.
Definition DnsProtocol_UnmarshalJSON := unmarshalAs DnsProtocol_name ErrInvalidDnsProtocolString.
End json.

(** ** Remotes *)

Definition encrypted : string := "<encrypted>".

(** [MarshalZerologObject]: the fields of the event. *)
Definition RemoteInfo_fields (ri : RemoteInfo) : list (string * string) :=
  [("name", r_Name ri); ("url", r_Url ri); ("username", r_Username ri); ("password", encrypted)]%string.

(** [RemoteInfo.MarshalJSON], for an encoding of the struct. *)
Definition RemoteInfo_MarshalJSON (encode : RemoteInfo → string) (ri : RemoteInfo) : string :=
  encode {| r_Name := r_Name ri; r_Url := r_Url ri; r_Username := r_Username ri; r_Password := encrypted |}.

(** Neither depends on the password. *)
Lemma password_not_written encode ri p :
  let ri' := {| r_Name := r_Name ri; r_Url := r_Url ri; r_Username := r_Username ri; r_Password := p |} in
  RemoteInfo_fields ri' = RemoteInfo_fields ri ∧ RemoteInfo_MarshalJSON encode ri' = RemoteInfo_MarshalJSON encode ri.
Proof. done. Qed.

(** ** Specification *)

Lemma lower_lower a : lower (lower a) = lower a.
Proof. by destruct a as [[] [] [] [] [] [] [] []]. Qed.

(** Nothing in lower case has a capital letter. *)
Lemma lowerChars_lower l : Forall (λ a, lower a = a) (lowerChars l).
Proof.
  enough (Hn : ∀ n l, (length l ≤ n)%nat → Forall (λ a, lower a = a) (lowerChars l)) by by eapply Hn.
  clear l. induction n as [|n IH]; intros l Hl; [destruct l; [constructor|simpl in Hl; lia]|].
  destruct l as [|a [|b [|c l]]]; simpl in Hl.
  - constructor.
  - constructor; [apply lower_lower|constructor].
  - cbn [lowerChars]. destruct (_ && _); repeat constructor; apply lower_lower.
  - change (lowerChars (a :: b :: c :: l)) with
      (if (code a =? 196)%N && (code b =? 176)%N then "i"%char :: lowerChars (c :: l)
       else if (code a =? 226)%N && (code b =? 132)%N && (code c =? 170)%N then "k"%char :: lowerChars l
       else lower a :: lowerChars (b :: c :: l)).
    destruct (_ && _); [|destruct (_ && _)]; (constructor; [done || apply lower_lower|apply IH; simpl; lia]).
Qed.

(** The values are consecutive from 0, the table of the generated code has the same names,
    no two alike in lower case, and the map has exactly the names in both cases. *)
Definition enumer_ok (e : enumer) (t : list (Z * string)) : Prop :=
  t = imap (λ k v, (v, name_at e (en_Name e) k)) (en_Values e) ∧
  en_Values e = map Z.of_nat (seq 0 (length t)) ∧ length (en_Index e) = S (length t) ∧
  NoDup (map (λ p, ToLower p.2) t) ∧
  Forall (λ p, enum_NameToValueMap e !! p.2 = Some p.1 ∧ enum_NameToValueMap e !! ToLower p.2 = Some p.1 ∧
    ToLower (ToLower p.2) = ToLower p.2 ∧ Exists (λ a, lower a ≠ a) (chars p.2)) t ∧
  Forall (λ q, Exists (λ p, q.2 = p.1 ∧ (q.1 = p.2 ∨ q.1 = ToLower p.2)) t) (map_to_list (enum_NameToValueMap e)).

#[export] Instance enumer_ok_dec e t : Decision (enumer_ok e t).
Proof. unfold enumer_ok. apply _. Defined.

Lemma enumers_ok e t : (e, t) ∈ enumers → enumer_ok e t.
Proof.
  intros Hin. assert (H : Forall (λ p, enumer_ok p.1 p.2) enumers) by (apply (bool_decide_unpack _); by vm_compute).
  rewrite Forall_forall in H. by apply H in Hin.
Qed.

Lemma imap_names e k v :
  en_Values e = map Z.of_nat (seq 0 (length (en_Values e))) → en_Values e !! k = Some v → v = Z.of_nat k.
Proof.
  intros ->. rewrite list_lookup_fmap, fmap_Some. intros (n & Hn & ->).
  apply lookup_seq in Hn as [-> _]. done.
Qed.

Section spec.
Context (e : enumer) (t : list (Z * string)) (Hin : (e, t) ∈ enumers).

Lemma table_length : length (en_Values e) = length t.
Proof. destruct (enumers_ok _ _ Hin) as (Et & _). by rewrite Et, length_imap. Qed.

Lemma table_lookup v n : (v, n) ∈ t ↔ enum_IsA e v = true ∧ enum_String e v = n.
Proof.
  destruct (enumers_ok _ _ Hin) as (Et & Ev & Ei & _). pose proof table_length as Hl.
  assert (Hv : ∀ k w, en_Values e !! k = Some w → w = Z.of_nat k).
  { intros k w. apply imap_names. by rewrite Hl. }
  assert (Hs : ∀ k, (k < length t)%nat → enum_String e (Z.of_nat k) = name_at e (en_Name e) k).
  { intros k Hk. unfold enum_String, llen. rewrite Ei.
    rewrite (proj2 (Z.ltb_ge _ 0)) by lia. rewrite (proj2 (Z.leb_gt _ _)) by lia. simpl. by rewrite Nat2Z.id. }
  split.
  - rewrite Et at 1. intros (k & w & [= -> ->] & Hk)%elem_of_lookup_imap. pose proof (Hv _ _ Hk) as ->.
    assert (k < length t)%nat by (rewrite <-Hl; by eapply lookup_lt_Some). rewrite Hs by done. split; [|done].
    unfold enum_IsA. apply existsb_exists. exists (Z.of_nat k). split; [|apply Z.eqb_refl].
    apply list_elem_of_In. by eapply list_elem_of_lookup_2.
  - intros [Ha <-]. unfold enum_IsA in Ha. apply existsb_exists in Ha as (w & Hw & ->%Z.eqb_eq).
    apply list_elem_of_In, list_elem_of_lookup_1 in Hw as [k Hk]. pose proof (Hv _ _ Hk) as ->.
    assert (k < length t)%nat by (rewrite <-Hl; by eapply lookup_lt_Some). rewrite Hs by done.
    rewrite Et. apply elem_of_lookup_imap. by exists k, (Z.of_nat k).
Qed.

(** A key of the map is a name or a name in lower case. *)
Lemma map_lookup s v :
  enum_NameToValueMap e !! s = Some v ↔ ∃ n, (v, n) ∈ t ∧ (s = n ∨ s = ToLower n).
Proof.
  destruct (enumers_ok _ _ Hin) as (_ & _ & _ & _ & Hk & Hm). rewrite Forall_forall in Hk. rewrite Forall_forall in Hm. split.
  - intros Hs. apply elem_of_map_to_list in Hs. specialize (Hm _ Hs). apply Exists_exists in Hm as ([w n] & Hn & E & En).
    simpl in *. subst w. eauto.
  - intros (n & Hn & [->| ->]); by destruct (Hk _ Hn) as (? & ? & _).
Qed.

Lemma names_unique v n w m : (v, n) ∈ t → (w, m) ∈ t → ToLower n = ToLower m → v = w.
Proof.
  destruct (enumers_ok _ _ Hin) as (_ & _ & _ & Hnd & _). intros Hn Hm E.
  pose proof (head_filter_unique (λ p, ToLower p.2) t (v, n) Hnd Hn) as H1.
  pose proof (head_filter_unique (λ p, ToLower p.2) t (w, m) Hnd Hm) as H2. simpl in *. rewrite E, H2 in H1. congruence.
Qed.

(** The names of the enumerations of multihttp checks: a value of the type, and only
    such a value, is printed as its name in the generated table, another as a number;
    a text reads as the value whose name it is in some letter case, and as nothing else;
    so every value is read back from its text. *)
Lemma enumer_roundtrip :
  (∀ v n, (v, n) ∈ t ↔ enum_IsA e v = true ∧ enum_String e v = n) ∧
  (∀ v, enum_IsA e v = false → enum_String e v = en_type e +:+ "(" +:+ itoa v +:+ ")") ∧
  (∀ s v, enum_FromString e s = Some v ↔ ∃ n, (v, n) ∈ t ∧ ToLower s = ToLower n) ∧
  (∀ v, enum_IsA e v = true → enum_FromString e (enum_String e v) = Some v).
Proof.
  destruct (enumers_ok _ _ Hin) as (_ & Ev & Ei & _ & Hk & _). pose proof table_length as Hl. rewrite Forall_forall in Hk.
  assert (Hcap : ∀ v n s, (v, n) ∈ t → ToLower s ≠ n).
  { intros v n s Hn <-. destruct (Hk _ Hn) as (_ & _ & _ & (a & Ha & Hl')%Exists_exists). simpl in Ha.
    unfold ToLower in Ha. rewrite chars_of_chars in Ha. pose proof (lowerChars_lower (chars s)) as Hf.
    rewrite Forall_forall in Hf. by apply Hf in Ha. }
  assert (Hread : ∀ s v, enum_FromString e s = Some v ↔ ∃ n, (v, n) ∈ t ∧ ToLower s = ToLower n).
  { intros s v. unfold enum_FromString. split.
    - destruct (enum_NameToValueMap e !! s) as [w|] eqn:E.
      + intros [= ->]. apply map_lookup in E as (n & Hn & Es). exists n. split; [done|].
        destruct (Hk _ Hn) as (_ & _ & Hll & _). simpl in Hll. by destruct Es as [->| ->].
      + intros (n & Hn & Es)%map_lookup. exists n. split; [done|].
        destruct (Hk _ Hn) as (_ & _ & Hll & _). simpl in Hll.
        destruct Es as [Es|Es]; [|done]. by destruct (Hcap _ _ s Hn).
    - intros (n & Hn & El). destruct (enum_NameToValueMap e !! s) as [w|] eqn:E.
      + apply map_lookup in E as (m & Hm & Es). f_equal. eapply names_unique; [done..|].
        destruct (Hk _ Hm) as (_ & _ & Hll & _). simpl in Hll. destruct Es as [->| ->]; congruence.
      + rewrite El. apply map_lookup. eauto. }
  split_and!; [apply table_lookup| |exact Hread|].
  - intros v Ha. unfold enum_String. destruct (_ || _) eqn:Eo; [done|]. exfalso.
    apply orb_false_iff in Eo as [H0%Z.ltb_ge H1%Z.leb_gt]. unfold llen in H1. rewrite Ei in H1.
    assert (enum_IsA e v = true) as E; [|congruence]. unfold enum_IsA. apply existsb_exists. exists v.
    split; [|apply Z.eqb_refl]. rewrite Ev. apply in_map_iff. exists (Z.to_nat v). split; [lia|]. apply in_seq. lia.
  - intros v Ha. apply Hread. exists (enum_String e v). split; [|done]. by apply table_lookup.
Qed.
End spec.
