(* ===== verification/ApiDb.v ===== *)
(** * The database of the test API

    [cmd/test-api/internal/db/db.go]: tenants, probes with their tokens, and checks, in
    maps under one mutex, so that an operation is one step.  An operation that changes
    its argument through the pointer returns it; the clock is an argument. *)
From Stdlib Require Import Floats.SpecFloat.
From S2P Require Import Prelude Strs Net Checks Validate Updater Tenants.

Open Scope Z_scope.

Record Db := {
  tenants : gmap Z Tenant;
  probes : gmap Z Probe;
  probeTokens : gmap string Z;
  checks : gmap Z Check;
  checksByProbe : gmap Z (list Z);
}.

Definition New : Db :=
  {| tenants := ∅; probes := ∅; probeTokens := ∅; checks := ∅; checksByProbe := ∅ |}.

Definition set_tenants (m : gmap Z Tenant) (db : Db) : Db :=
  {| tenants := m; probes := probes db; probeTokens := probeTokens db; checks := checks db;
     checksByProbe := checksByProbe db |}.
Definition set_probes (m : gmap Z Probe) (tokens : gmap string Z) (db : Db) : Db :=
  {| tenants := tenants db; probes := m; probeTokens := tokens; checks := checks db;
     checksByProbe := checksByProbe db |}.
Definition set_checks (m : gmap Z Check) (byProbe : gmap Z (list Z)) (db : Db) : Db :=
  {| tenants := tenants db; probes := probes db; probeTokens := probeTokens db; checks := m;
     checksByProbe := byProbe |}.

Inductive dbErr :=
  | TokenNotFound | ProbeNotFound | TenantExists | TenantNotFound | TenantReferencedByProbe
  | TenantReferencedByCheck | InvalidTenant | ProbeExists | InvalidToken | CannotRenameProbe
  | CannotMoveProbe | InvalidProbeName | ProbeReferenced | CheckExists | InvalidProbe
  | CheckNotFound | CannotChangeJob | CannotChangeTarget | CannotMoveCheck
  | DbInvalid (e : verr).

(** [for _, v := range m { if f(v) ... }], where the order does not matter. *)
Definition anyOf {K A} `{Countable K} (f : A → bool) (m : gmap K A) : bool :=
  existsb (λ p, f p.2) (map_to_list m).

(** The zero values that a missing key gives. *)
Definition zeroCheck : Check :=
  {| Id := 0; TenantId := 0; Frequency := 0; Offset := 0; Timeout := 0; Enabled := false; Labels := [];
     Settings := noSettings; Probes := []; Target := EmptyString; Job := EmptyString;
     BasicMetricsOnly := false; AlertSensitivity := EmptyString; Created := S754_zero false;
     Modified := S754_zero false |}.

(** [nsNow], from [time.Now().UnixNano()]. *)
Definition nsNow (unixNano : Z) : spec_float := SFdiv 53 1024 (f64_of unixNano) f64_1e9.

(** ** Lookups *)

Definition FindProbeIDByToken (token : string) (db : Db) : result dbErr Z :=
  match probeTokens db !! token with Some id => Ok id | None => Err TokenNotFound end.
Definition FindProbeByID (id : Z) (db : Db) : result dbErr Probe :=
  match probes db !! id with Some p => Ok p | None => Err ProbeNotFound end.
Definition GetProbe (id : Z) (db : Db) : result dbErr Probe :=
  match probes db !! id with Some p => Ok p | None => Err ProbeNotFound end.
Definition GetTenant (id : Z) (db : Db) : result dbErr Tenant :=
  match tenants db !! id with Some t => Ok t | None => Err TenantNotFound end.
Definition GetCheck (id : Z) (db : Db) : result dbErr Check :=
  match checks db !! id with Some c => Ok c | None => Err CheckNotFound end.
Definition ListChecksForProbe (id : Z) (db : Db) : list Check :=
  map (λ cid, default zeroCheck (checks db !! cid)) (default [] (checksByProbe db !! id)).
Definition ListTenants (db : Db) : list Tenant := map snd (map_to_list (tenants db)).
Definition ListProbes (db : Db) : list Probe := map snd (map_to_list (probes db)).
Definition ListChecks (db : Db) : list Check := map snd (map_to_list (checks db)).

(** ** Tenants *)

(** The next id: the number of entries plus one. *)
Definition nextId {A} (m : gmap Z A) : Z := Z.of_nat (size m) + 1.

Definition AddTenant (now : Z) (tenant : Tenant) (db : Db) : Db * result dbErr Tenant :=
  if anyOf (λ t, t_StackId t =? t_StackId tenant) (tenants db) then (db, Err TenantExists)
  else
    let t := nsNow now in
    let newTenant :=
      {| t_Id := nextId (tenants db); t_OrgId := t_OrgId tenant;
         t_MetricsRemote := t_MetricsRemote tenant; t_EventsRemote := t_EventsRemote tenant;
         t_StackId := t_StackId tenant; t_Status := 0; t_Reason := EmptyString; t_Limits := None;
         t_CostAttributionLabels := []; t_LabelMode := 0; t_Created := t; t_Modified := t;
         t_SecretStore := None |} in
    (set_tenants (<[t_Id newTenant := newTenant]> (tenants db)) db, Ok newTenant).

Definition set_t_Modified (m : spec_float) (t : Tenant) : Tenant :=
  {| t_Id := t_Id t; t_OrgId := t_OrgId t; t_MetricsRemote := t_MetricsRemote t;
     t_EventsRemote := t_EventsRemote t; t_StackId := t_StackId t; t_Status := t_Status t;
     t_Reason := t_Reason t; t_Limits := t_Limits t; t_CostAttributionLabels := t_CostAttributionLabels t;
     t_LabelMode := t_LabelMode t; t_Created := t_Created t; t_Modified := m;
     t_SecretStore := t_SecretStore t |}.

Definition UpdateTenant (now : Z) (tenant : Tenant) (db : Db) : Db * result dbErr Tenant :=
  match tenants db !! t_Id tenant with
  | None => (db, Err TenantNotFound)
  | Some _ =>
      let tenant := set_t_Modified (nsNow now) tenant in
      (set_tenants (<[t_Id tenant := tenant]> (tenants db)) db, Ok tenant)
  end.

Definition DeleteTenant (id : Z) (db : Db) : Db * error dbErr :=
  match tenants db !! id with
  | None => (db, Some TenantNotFound)
  | Some _ =>
      if anyOf (λ p, p_TenantId p =? id) (probes db) then (db, Some TenantReferencedByProbe)
      else if anyOf (λ c, TenantId c =? id) (checks db) then (db, Some TenantReferencedByCheck)
      else (set_tenants (delete id (tenants db)) db, None)
  end.

(** ** Probes *)

Definition set_probe_stamp (id : Z) (created modified : spec_float) (p : Probe) : Probe :=
  {| p_Id := id; p_TenantId := p_TenantId p; p_Name := p_Name p; p_Latitude := p_Latitude p;
     p_Longitude := p_Longitude p; p_Labels := p_Labels p; p_Region := p_Region p; p_Public := p_Public p;
     p_Version := p_Version p; p_Created := created; p_Modified := modified;
     p_Capabilities := p_Capabilities p |}.

(** The names a new probe cannot have. *)
Definition nameTaken (probe p : Probe) : bool :=
  (p_Public probe || (p_TenantId p =? p_TenantId probe) || p_Public p) &&
  String.eqb (p_Name p) (p_Name probe).

Definition AddProbe (now : Z) (probe : Probe) (token : string) (db : Db) : Db * result dbErr Probe :=
  match Probe_Validate probe with
  | Some e => (db, Err (DbInvalid e))
  | None =>
      if bool_decide (tenants db !! p_TenantId probe = None) then (db, Err InvalidTenant)
      else if anyOf (nameTaken probe) (probes db) then (db, Err ProbeExists)
      else
        match probeTokens db !! token with
        | Some _ => (db, Err InvalidToken)
        | None =>
            let t := nsNow now in
            let probe := set_probe_stamp (nextId (probes db)) t t probe in
            (set_probes (<[p_Id probe := probe]> (probes db)) (<[token := p_Id probe]> (probeTokens db)) db,
             Ok probe)
        end
  end.

Definition UpdateProbe (now : Z) (probe : Probe) (db : Db) : Db * result dbErr Probe :=
  match probes db !! p_Id probe with
  | None => (db, Err ProbeNotFound)
  | Some oldProbe =>
      if negb (String.eqb (p_Name oldProbe) (p_Name probe)) then (db, Err CannotRenameProbe)
      else if negb (p_TenantId oldProbe =? p_TenantId probe) then (db, Err CannotMoveProbe)
      else
        match Probe_Validate probe with
        | Some e => (db, Err (DbInvalid e))
        | None =>
            if anyOf (λ p, negb (p_Id p =? p_Id probe) && (p_Public probe && String.eqb (p_Name p) (p_Name probe)))
                 (probes db)
            then (db, Err InvalidProbeName)
            else
              let updatedProbe := set_probe_stamp (p_Id probe) (p_Created probe) (nsNow now) probe in
              (set_probes (<[p_Id probe := updatedProbe]> (probes db)) (probeTokens db) db, Ok updatedProbe)
        end
  end.

Definition DeleteProbe (id : Z) (db : Db) : Db * error dbErr :=
  match probes db !! id with
  | None => (db, Some ProbeNotFound)
  | Some _ =>
      if anyOf (λ c, bool_decide (id ∈ Probes c)) (checks db) then (db, Some ProbeReferenced)
      else
        (set_probes (delete id (probes db)) (filter (λ p, p.2 ≠ id) (probeTokens db)) db, None)
  end.

(** ** Checks *)

Definition set_stamp (id : Z) (created modified : spec_float) (c : Check) : Check :=
  {| Id := id; TenantId := TenantId c; Frequency := Frequency c; Offset := Offset c; Timeout := Timeout c;
     Enabled := Enabled c; Labels := Labels c; Settings := Settings c; Probes := Probes c;
     Target := Target c; Job := Job c; BasicMetricsOnly := BasicMetricsOnly c;
     AlertSensitivity := AlertSensitivity c; Created := created; Modified := modified |}.

(** The loop over the probes of a new check. *)
Fixpoint checkProbes (check : Check) (ids : list Z) (db : Db) : error dbErr :=
  match ids with
  | [] => None
  | pId :: ids =>
      match probes db !! pId with
      | None => Some ProbeNotFound
      | Some probe =>
          if negb (p_TenantId probe =? TenantId check) && negb (p_Public probe) then Some InvalidProbe
          else checkProbes check ids db
      end
  end.

Definition addToProbes (id : Z) (ids : list Z) (m : gmap Z (list Z)) : gmap Z (list Z) :=
  fold_left (λ m pId, <[pId := default [] (m !! pId) ++ [id]]> m) ids m.

Section checks.
Context `{Validator}.

Definition AddCheck (now : Z) (check : Check) (db : Db) : go (Db * result dbErr Check) :=
  err ← validate check;
  match err with
  | Some e => Ret (db, Err (DbInvalid e))
  | None =>
      if bool_decide (tenants db !! TenantId check = None) then Ret (db, Err InvalidTenant)
      else if anyOf (λ c, String.eqb (Target c) (Target check) && String.eqb (Job c) (Job check)) (checks db)
      then Ret (db, Err CheckExists)
      else
        match checkProbes check (Probes check) db with
        | Some e => Ret (db, Err e)
        | None =>
            let t := nsNow now in
            let check := set_stamp (nextId (checks db)) t t check in
            Ret (set_checks (<[Id check := check]> (checks db))
                   (addToProbes (Id check) (Probes check) (checksByProbe db)) db, Ok check)
        end
  end.

(** It returns the old check. *)
Definition UpdateCheck (now : Z) (check : Check) (db : Db) : go (Db * result dbErr Check) :=
  match checks db !! Id check with
  | None => Ret (db, Err CheckNotFound)
  | Some oldCheck =>
      if negb (String.eqb (Job oldCheck) (Job check)) then Ret (db, Err CannotChangeJob)
      else if negb (String.eqb (Target oldCheck) (Target check)) then Ret (db, Err CannotChangeTarget)
      else if negb (TenantId oldCheck =? TenantId check) then Ret (db, Err CannotMoveCheck)
      else
        err ← validate check;
        match err with
        | Some e => Ret (db, Err (DbInvalid e))
        | None =>
            let check := set_stamp (Id check) (Created check) (nsNow now) check in
            Ret (set_checks (<[Id check := check]> (checks db)) (checksByProbe db) db, Ok oldCheck)
        end
  end.

Definition DeleteCheck (id : Z) (db : Db) : Db * error dbErr :=
  match checks db !! id with
  | None => (db, Some CheckNotFound)
  | Some _ => (set_checks (delete id (checks db)) (checksByProbe db) db, None)
  end.

(** ** Histories *)

Inductive dbOp :=
  | OpAddTenant (now : Z) (t : Tenant) | OpUpdateTenant (now : Z) (t : Tenant) | OpDeleteTenant (id : Z)
  | OpAddProbe (now : Z) (p : Probe) (token : string) | OpUpdateProbe (now : Z) (p : Probe) | OpDeleteProbe (id : Z)
  | OpAddCheck (now : Z) (c : Check) | OpUpdateCheck (now : Z) (c : Check) | OpDeleteCheck (id : Z).

Definition db_step (op : dbOp) (db : Db) : go Db :=
  match op with
  | OpAddTenant now t => Ret (AddTenant now t db).1
  | OpUpdateTenant now t => Ret (UpdateTenant now t db).1
  | OpDeleteTenant id => Ret (DeleteTenant id db).1
  | OpAddProbe now p token => Ret (AddProbe now p token db).1
  | OpUpdateProbe now p => Ret (UpdateProbe now p db).1
  | OpDeleteProbe id => Ret (DeleteProbe id db).1
  | OpAddCheck now c => fst <$> AddCheck now c db
  | OpUpdateCheck now c => fst <$> UpdateCheck now c db
  | OpDeleteCheck id => Ret (DeleteCheck id db).1
  end.

Fixpoint db_run (ops : list dbOp) (db : Db) : go Db :=
  match ops with
  | [] => Ret db
  | op :: ops => db ← db_step op db; db_run ops db
  end.

End checks.

(** ** The data of the server: [loadData] of [main.go] *)

(** The decoded file. *)
Record data := {
  d_Tenants : list Tenant; d_Probes : list Probe; d_ProbeTokens : gmap Z string; d_Checks : list Check }.

Inductive loadErr := LoadErr (e : dbErr) | NoTokenForProbe (id : Z).

Definition errorOf {A} (r : result dbErr A) : error loadErr :=
  match r with Ok _ => None | Err e => Some (LoadErr e) end.

(** A loop that stops at the first error; [clock] has a reading for each entry, by the
    number of entries left. *)
Fixpoint loadAll {A} (f : Z → A → Db → go (Db * error loadErr)) (clock : nat → Z) (l : list A) (db : Db)
    : go (Db * error loadErr) :=
  match l with
  | [] => Ret (db, None)
  | x :: l' =>
      '(db, err) ← f (clock (length l)) x db;
      match err with Some e => Ret (db, Some e) | None => loadAll f clock l' db end
  end.

Definition loadTenant (now : Z) (t : Tenant) (db : Db) : go (Db * error loadErr) :=
  let '(db, r) := AddTenant now t db in Ret (db, errorOf r).
Definition loadProbe (tokens : gmap Z string) (now : Z) (p : Probe) (db : Db) : go (Db * error loadErr) :=
  match tokens !! p_Id p with
  | None => Ret (db, Some (NoTokenForProbe (p_Id p)))
  | Some token => let '(db, r) := AddProbe now p token db in Ret (db, errorOf r)
  end.
Definition loadCheck `{Validator} (now : Z) (c : Check) (db : Db) : go (Db * error loadErr) :=
  '(db, r) ← AddCheck now c db; Ret (db, errorOf r).

(** [loadData], with a clock for each of its loops. *)
Definition loadData `{Validator} (tenantsAt probesAt checksAt : nat → Z) (d : data) (db : Db) : go (Db * error loadErr) :=
  '(db, err) ← loadAll loadTenant tenantsAt (d_Tenants d) db;
  match err with
  | Some e => Ret (db, Some e)
  | None =>
      '(db, err) ← loadAll (loadProbe (d_ProbeTokens d)) probesAt (d_Probes d) db;
      match err with
      | Some e => Ret (db, Some e)
      | None => loadAll loadCheck checksAt (d_Checks d) db
      end
  end.

(** ** Consistency *)

Lemma anyOf_false {K A} `{Countable K} (f : A → bool) (m : gmap K A) :
  anyOf f m = false ↔ ∀ k v, m !! k = Some v → f v = false.
Proof.
  unfold anyOf. rewrite <-not_true_iff_false, existsb_exists. split.
  - intros Hn k v Hk. apply not_true_iff_false. intros Hf. apply Hn. exists (k, v).
    rewrite <-list_elem_of_In. by rewrite elem_of_map_to_list.
  - intros Hall ([k v] & Hin & Hf). rewrite <-list_elem_of_In, elem_of_map_to_list in Hin.
    apply Hall in Hin. simpl in *. congruence.
Qed.

Lemma nextId_pos {A} (m : gmap Z A) : 1 ≤ nextId m.
Proof. unfold nextId. lia. Qed.
#[local] Hint Resolve nextId_pos : agent.

Section consistency.
Context `{Validator}.

(** Validation accepted the check, before it had its id and times. *)
Definition accepted (c : Check) : Prop :=
  ∃ id created modified, validate (set_stamp id created modified c) = Ret None.

Record dbinv (db : Db) : Prop := {
  di_tenant : ∀ id t, tenants db !! id = Some t → t_Id t = id ∧ 1 ≤ id;
  di_probe : ∀ id p, probes db !! id = Some p →
    p_Id p = id ∧ 1 ≤ id ∧ is_Some (tenants db !! p_TenantId p) ∧ Probe_Validate p = None;
  di_token : ∀ token id, probeTokens db !! token = Some id → is_Some (probes db !! id);
  di_names : ∀ i p j q, probes db !! i = Some p → probes db !! j = Some q → i ≠ j →
    p_Name p = p_Name q → p_Public p = false ∧ p_TenantId p ≠ p_TenantId q;
  di_check : ∀ id c, checks db !! id = Some c →
    Id c = id ∧ 1 ≤ id ∧ is_Some (tenants db !! TenantId c) ∧ accepted c;
  di_jobs : ∀ i c j d, checks db !! i = Some c → checks db !! j = Some d → i ≠ j →
    Target c ≠ Target d ∨ Job c ≠ Job d;
}.

Lemma New_dbinv : dbinv New.
Proof. split; simpl; set_solver. Qed.

(** Adding or changing a tenant keeps the references to tenants. *)
Lemma set_tenants_dbinv id t db :
  dbinv db → t_Id t = id → 1 ≤ id → dbinv (set_tenants (<[id := t]> (tenants db)) db).
Proof.
  intros [H1 H2 H3 H4 H5 H6] Hid Hpos.
  assert (Hkeep : ∀ k, is_Some (tenants db !! k) → is_Some (<[id := t]> (tenants db) !! k)).
  { intros k Hk. destruct (decide (id = k)) as [->|Hne]; [by rewrite lookup_insert_eq; eauto|].
    by rewrite lookup_insert_ne. }
  split; simpl; try done.
  - intros k t'. destruct (decide (id = k)) as [->|Hne].
    + rewrite lookup_insert_eq. by intros [= <-].
    + rewrite lookup_insert_ne by done. apply H1.
  - intros k p Hk. destruct (H2 k p Hk) as (?&?&?&?). auto.
  - intros k c Hk. destruct (H5 k c Hk) as (?&?&?&?). auto.
Qed.

Lemma AddTenant_dbinv now t db : dbinv db → dbinv (AddTenant now t db).1.
Proof.
  intros Hdb. unfold AddTenant. destruct (anyOf _ _); [done|]. apply set_tenants_dbinv; [done|done|].
  simpl. auto with agent.
Qed.

Lemma UpdateTenant_dbinv now t db : dbinv db → dbinv (UpdateTenant now t db).1.
Proof.
  intros Hdb. unfold UpdateTenant. destruct (tenants db !! t_Id t) as [old|] eqn:E; [|done].
  apply set_tenants_dbinv; [done..|]. simpl. by apply (di_tenant _ Hdb) in E as [_ ?].
Qed.

Lemma DeleteTenant_dbinv id db : dbinv db → dbinv (DeleteTenant id db).1.
Proof.
  intros Hdb. unfold DeleteTenant. destruct (tenants db !! id) as [t|]; [|done].
  destruct (anyOf _ (probes db)) eqn:Ep; [done|]. destruct (anyOf _ (checks db)) eqn:Ec; [done|].
  rewrite anyOf_false in Ep. rewrite anyOf_false in Ec. destruct Hdb as [H1 H2 H3 H4 H5 H6]. split; simpl; try done.
  - intros k t' [_ Hk]%lookup_delete_Some. by apply H1.
  - intros k p Hk. destruct (H2 k p Hk) as (?&?&?&?). split_and!; try done.
    rewrite lookup_delete_ne; [done|]. intros E. apply Ep, Z.eqb_neq in Hk. congruence.
  - intros k c Hk. destruct (H5 k c Hk) as (?&?&?&?). split_and!; try done.
    rewrite lookup_delete_ne; [done|]. intros E. apply Ec, Z.eqb_neq in Hk. congruence.
Qed.

(** A probe whose name is free is stored under an id. *)
Lemma set_probes_dbinv id p tokens db :
  dbinv db → p_Id p = id → 1 ≤ id → is_Some (tenants db !! p_TenantId p) → Probe_Validate p = None →
  (∀ tok i, tokens !! tok = Some i → i = id ∨ is_Some (probes db !! i)) →
  (∀ j q, probes db !! j = Some q → id ≠ j → p_Name p = p_Name q →
     p_Public p = false ∧ p_Public q = false ∧ p_TenantId p ≠ p_TenantId q) →
  dbinv (set_probes (<[id := p]> (probes db)) tokens db).
Proof.
  intros [H1 H2 H3 H4 H5 H6] Hid Hpos Ht Hv Htok Hn. split; simpl; try done.
  - intros k q. destruct (decide (id = k)) as [->|Hne].
    + rewrite lookup_insert_eq. by intros [= <-].
    + rewrite lookup_insert_ne by done. apply H2.
  - intros tok i [->|Hi]%Htok; [rewrite lookup_insert_eq; by eexists|].
    destruct (decide (id = i)) as [->|Hne]; [by rewrite lookup_insert_eq; eauto|]. by rewrite lookup_insert_ne.
  - intros i q j r. destruct (decide (id = i)) as [<-|Hi], (decide (id = j)) as [<-|Hj]; try done.
    + rewrite lookup_insert_eq, lookup_insert_ne by done. intros [= <-] Hr Hne En. destruct (Hn j r Hr Hj En) as (?&?&?). done.
    + rewrite lookup_insert_eq, lookup_insert_ne by done. intros Hq [= <-] Hne En.
      destruct (Hn i q Hq (not_eq_sym Hne)) as (?&?&?); [done|]. auto.
    + rewrite !lookup_insert_ne by done. apply H4.
Qed.

Lemma AddProbe_dbinv now p token db : dbinv db → dbinv (AddProbe now p token db).1.
Proof.
  intros Hdb. unfold AddProbe. destruct (Probe_Validate p) eqn:Ev; [done|].
  case_bool_decide as Et; [done|]. destruct (anyOf _ _) eqn:Ea; [done|].
  destruct (probeTokens db !! token) eqn:Etok; [done|]. rewrite anyOf_false in Ea.
  apply set_probes_dbinv; simpl; try done.
  - auto with agent.
  - by apply not_eq_None_Some.
  - intros tok i. destruct (decide (token = tok)) as [->|Hne].
    + rewrite lookup_insert_eq. intros [= <-]. by left.
    + rewrite lookup_insert_ne by done. intros Hi. right. by eapply di_token.
  - intros j q Hq _ En. apply Ea in Hq. unfold nameTaken in Hq.
    rewrite En, String.eqb_refl, andb_true_r, !orb_false_iff in Hq. destruct Hq as [[? Hne] ?].
    apply Z.eqb_neq in Hne. auto.
Qed.

Lemma UpdateProbe_dbinv now p db : dbinv db → dbinv (UpdateProbe now p db).1.
Proof.
  intros Hdb. unfold UpdateProbe. destruct (probes db !! p_Id p) as [old|] eqn:Eo; [|done].
  destruct (String.eqb_spec (p_Name old) (p_Name p)) as [En|]; [|done].
  destruct (Z.eqb_spec (p_TenantId old) (p_TenantId p)) as [Et|]; [|done]. simpl.
  destruct (Probe_Validate p) eqn:Ev; [done|]. destruct (anyOf _ _) eqn:Ea; [done|]. rewrite anyOf_false in Ea.
  destruct (di_probe _ Hdb _ _ Eo) as (_ & Hpos & Hten & _).
  apply set_probes_dbinv; simpl; try done; [by rewrite <-Et| |].
  - intros tok i Hi. right. by eapply di_token.
  - intros j q Hq Hj Enq. pose proof (Ea j q Hq) as Hf.
    destruct (di_probe _ Hdb _ _ Hq) as (Hqid & _).
    destruct (di_names _ Hdb _ _ _ _ Eo Hq Hj) as [_ Hne]; [congruence|].
    destruct (di_names _ Hdb _ _ _ _ Hq Eo (not_eq_sym Hj)) as [Hqp _]; [congruence|].
    rewrite Hqid, (proj2 (Z.eqb_neq _ _) (not_eq_sym Hj)), Enq, String.eqb_refl, andb_true_r in Hf.
    split_and!; [done|done|congruence].
Qed.

Lemma DeleteProbe_dbinv id db : dbinv db → dbinv (DeleteProbe id db).1.
Proof.
  intros Hdb. unfold DeleteProbe. destruct (probes db !! id) as [p|]; [|done].
  destruct (anyOf _ _); [done|]. destruct Hdb as [H1 H2 H3 H4 H5 H6]. split; simpl; try done.
  - intros k q [_ Hk]%lookup_delete_Some. by apply H2.
  - intros tok i [Hi Hne]%map_lookup_filter_Some. simpl in Hne. rewrite lookup_delete_ne by done. eauto.
  - intros i q j r [_ Hq]%lookup_delete_Some [_ Hr]%lookup_delete_Some. by apply H4.
Qed.

(** A check with a free target and job is stored under an id. *)
Lemma set_checks_dbinv id c byProbe db :
  dbinv db → Id c = id → 1 ≤ id → is_Some (tenants db !! TenantId c) → accepted c →
  (∀ j d, checks db !! j = Some d → id ≠ j → Target c ≠ Target d ∨ Job c ≠ Job d) →
  dbinv (set_checks (<[id := c]> (checks db)) byProbe db).
Proof.
  intros [H1 H2 H3 H4 H5 H6] Hid Hpos Ht Ha Hj. split; simpl; try done.
  - intros k d. destruct (decide (id = k)) as [->|Hne].
    + rewrite lookup_insert_eq. by intros [= <-].
    + rewrite lookup_insert_ne by done. apply H5.
  - intros i d j e. destruct (decide (id = i)) as [<-|Hi], (decide (id = j)) as [<-|Hj']; try done.
    + rewrite lookup_insert_eq, lookup_insert_ne by done. intros [= <-] He _. eauto.
    + rewrite lookup_insert_eq, lookup_insert_ne by done. intros Hd [= <-] Hne.
      destruct (Hj i d Hd (not_eq_sym Hne)); auto.
    + rewrite !lookup_insert_ne by done. apply H6.
Qed.

Lemma AddCheck_dbinv now c db db' r : dbinv db → AddCheck now c db = Ret (db', r) → dbinv db'.
Proof.
  intros Hdb. unfold AddCheck. destruct (validate c) as [[e|]|] eqn:Ev; cbn [mbind go_bind];
    [by intros [= <- <-]| |done].
  case_bool_decide as Et; [by intros [= <- <-]|].
  destruct (anyOf _ _) eqn:Ea; [by intros [= <- <-]|]. rewrite anyOf_false in Ea.
  destruct (checkProbes _ _ _); [by intros [= <- <-]|]. intros [= <- <-].
  apply set_checks_dbinv; simpl; try done.
  - auto with agent.
  - by apply not_eq_None_Some.
  - exists (Id c), (Created c), (Modified c). by destruct c.
  - intros j d Hd _. apply Ea in Hd. apply andb_false_iff in Hd as [Hd|Hd]; apply String.eqb_neq in Hd; auto.
Qed.

Lemma UpdateCheck_dbinv now c db db' r : dbinv db → UpdateCheck now c db = Ret (db', r) → dbinv db'.
Proof.
  intros Hdb. unfold UpdateCheck. destruct (checks db !! Id c) as [old|] eqn:Eo; [|by intros [= <- <-]].
  destruct (String.eqb_spec (Job old) (Job c)) as [Ej|]; [|by intros [= <- <-]].
  destruct (String.eqb_spec (Target old) (Target c)) as [Et|]; [|by intros [= <- <-]].
  destruct (Z.eqb_spec (TenantId old) (TenantId c)) as [En|]; [|by intros [= <- <-]]. simpl.
  destruct (validate c) as [[e|]|] eqn:Ev; cbn [mbind go_bind]; [by intros [= <- <-]| |done]. intros [= <- <-].
  destruct (di_check _ Hdb _ _ Eo) as (_ & Hpos & Hten & _).
  apply set_checks_dbinv; simpl; try done; [by rewrite <-En| |].
  - exists (Id c), (Created c), (Modified c). by destruct c.
  - intros j d Hd Hj. destruct (di_jobs _ Hdb _ _ _ _ Eo Hd Hj); [left|right]; congruence.
Qed.

Lemma AddCheck_returns now c db : well_formed c → returns (AddCheck now c db).
Proof.
  intros Hw. unfold AddCheck. destruct (validate_returns c Hw) as [[e|] ->]; cbn [mbind go_bind]; [by eexists|].
  repeat case_match; by eexists.
Qed.
Lemma UpdateCheck_returns now c db : well_formed c → returns (UpdateCheck now c db).
Proof.
  intros Hw. unfold UpdateCheck. destruct (validate_returns c Hw) as [[e|] ->]; cbn [mbind go_bind];
    repeat case_match; by eexists.
Qed.

Lemma DeleteCheck_dbinv id db : dbinv db → dbinv (DeleteCheck id db).1.
Proof.
  intros Hdb. unfold DeleteCheck. destruct (checks db !! id) as [c|]; [|done].
  destruct Hdb as [H1 H2 H3 H4 H5 H6]. split; simpl; try done.
  - intros k d [_ Hk]%lookup_delete_Some. by apply H5.
  - intros i d j e [_ Hd]%lookup_delete_Some [_ He]%lookup_delete_Some. by apply H6.
Qed.

Definition op_ok (op : dbOp) : Prop :=
  match op with OpAddCheck _ c | OpUpdateCheck _ c => well_formed c | _ => True end.

Lemma db_step_dbinv op db : dbinv db → op_ok op → ∃ db', db_step op db = Ret db' ∧ dbinv db'.
Proof.
  intros Hdb Hok. destruct op as [now t|now t|id|now p tok|now p|id|now c|now c|id]; simpl in *;
    eauto using AddTenant_dbinv, UpdateTenant_dbinv, DeleteTenant_dbinv, AddProbe_dbinv, UpdateProbe_dbinv,
      DeleteProbe_dbinv, DeleteCheck_dbinv.
  - destruct (AddCheck_returns now c db Hok) as [[db' r] E]. rewrite E. eexists. split; [done|].
    by eapply AddCheck_dbinv.
  - destruct (UpdateCheck_returns now c db Hok) as [[db' r] E]. rewrite E. eexists. split; [done|].
    by eapply UpdateCheck_dbinv.
Qed.

Lemma db_run_dbinv ops db : dbinv db → Forall op_ok ops → ∃ db', db_run ops db = Ret db' ∧ dbinv db'.
Proof.
  intros Hdb Hok. revert db Hdb. induction Hok as [|op ops Hop _ IH]; intros db Hdb; [by exists db|].
  destruct (db_step_dbinv op db Hdb Hop) as (db1 & E & Hdb1). simpl. rewrite E. by apply IH.
Qed.

(** The checks listed for a probe that are enabled are checks of the database. *)
Lemma listed_enabled db id c :
  dbinv db → c ∈ ListChecksForProbe id db → Enabled c = true → checks db !! Id c = Some c.
Proof.
  intros Hdb (cid & -> & _)%list_elem_of_fmap. destruct (checks db !! cid) as [d|] eqn:E; [|done]. simpl.
  intros _. by destruct (di_check _ Hdb _ _ E) as (-> & _).
Qed.

(** The database of the test API stays consistent under any sequence of its
    operations, which never panic on well-formed checks. A token authenticates a probe
    that exists, with its own id, valid, of a tenant that exists; a stored check has its
    own id, was accepted, and its tenant exists; two probes with the same name are
    private to different tenants; two checks differ in target or job; and an enabled
    check listed for a probe is the stored one. *)
Theorem db_consistent ops :
  Forall op_ok ops →
  ∃ db, db_run ops New = Ret db ∧
    (∀ token id, FindProbeIDByToken token db = Ok id →
       ∃ p t, FindProbeByID id db = Ok p ∧ p_Id p = id ∧ Probe_Validate p = None ∧
         GetTenant (p_TenantId p) db = Ok t ∧ t_Id t = p_TenantId p) ∧
    (∀ id c, GetCheck id db = Ok c →
       Id c = id ∧ 1 ≤ id ∧ accepted c ∧ ∃ t, GetTenant (TenantId c) db = Ok t) ∧
    (∀ i p j q, GetProbe i db = Ok p → GetProbe j db = Ok q → i ≠ j → p_Name p = p_Name q →
       p_Public p = false ∧ p_Public q = false ∧ p_TenantId p ≠ p_TenantId q) ∧
    (∀ i c j d, GetCheck i db = Ok c → GetCheck j db = Ok d → i ≠ j → Target c ≠ Target d ∨ Job c ≠ Job d) ∧
    (∀ id c, c ∈ ListChecksForProbe id db → Enabled c = true → GetCheck (Id c) db = Ok c).
Proof.
  intros Hok. destruct (db_run_dbinv ops New New_dbinv Hok) as (db & E & Hdb). exists db. split; [done|].
  assert (Hp : ∀ i p, GetProbe i db = Ok p → probes db !! i = Some p).
  { intros i p. unfold GetProbe. case_match; [|done]. by intros [= ->]. }
  assert (Hc : ∀ i c, GetCheck i db = Ok c ↔ checks db !! i = Some c).
  { intros i c. unfold GetCheck. case_match; split; congruence. }
  assert (Ht : ∀ i, is_Some (tenants db !! i) → ∃ t, GetTenant i db = Ok t ∧ t_Id t = i).
  { intros i [t Hi]. unfold GetTenant. rewrite Hi. exists t. split; [done|]. by apply (di_tenant _ Hdb). }
  split_and!.
  - intros token id. unfold FindProbeIDByToken, FindProbeByID. case_match eqn:Etok; [|done]. intros [= ->].
    destruct (di_token _ Hdb _ _ Etok) as [p Hpid]. rewrite Hpid.
    destruct (di_probe _ Hdb _ _ Hpid) as (Hid & _ & (t & Hti)%Ht & Hv). exists p, t. tauto.
  - intros id c Hid%Hc. destruct (di_check _ Hdb _ _ Hid) as (? & ? & (t & ? & _)%Ht & ?). eauto.
  - intros i p j q Hi%Hp Hj%Hp Hne En.
    destruct (di_names _ Hdb _ _ _ _ Hi Hj Hne En) as [? ?].
    destruct (di_names _ Hdb _ _ _ _ Hj Hi (not_eq_sym Hne) (eq_sym En)) as [? ?]. done.
  - intros i c j d Hi%Hc Hj%Hc. by apply (di_jobs _ Hdb).
  - intros id c Hin He. apply Hc. by eapply listed_enabled.
Qed.

(** ** Loaded data *)

(** The index by probe lists exactly the checks that name the probe. Only updates and
    deletions of checks break it. *)
Record indexed (db : Db) : Prop := {
  ix_ids : ∀ id, is_Some (checks db !! id) ↔ 1 ≤ id ≤ Z.of_nat (size (checks db));
  ix_probe : ∀ p id, id ∈ default [] (checksByProbe db !! p) ↔ ∃ c, checks db !! id = Some c ∧ p ∈ Probes c;
}.

Lemma addToProbes_elem id ids m p i :
  i ∈ default [] (addToProbes id ids m !! p) ↔ i ∈ default [] (m !! p) ∨ (i = id ∧ p ∈ ids).
Proof.
  revert m. induction ids as [|q ids IH]; intros m; [set_solver|]. cbn [addToProbes fold_left].
  fold (addToProbes id ids (<[q := default [] (m !! q) ++ [id]]> m)). rewrite IH.
  destruct (decide (q = p)) as [->|Hne].
  - rewrite lookup_insert_eq. simpl. set_solver.
  - rewrite lookup_insert_ne by done. set_solver.
Qed.

Lemma New_indexed : indexed New.
Proof.
  split; simpl.
  - intros id. rewrite lookup_empty. split; [by intros [? ?]|]. rewrite map_size_empty. lia.
  - intros p id. rewrite lookup_empty. set_solver.
Qed.

Lemma AddCheck_indexed now c db db' r : indexed db → AddCheck now c db = Ret (db', r) → indexed db'.
Proof.
  intros [Hi Hp]. unfold AddCheck. destruct (validate c) as [[e|]|]; cbn [mbind go_bind];
    [by intros [= <- <-]| |done].
  case_bool_decide; [by intros [= <- <-]|]. destruct (anyOf _ _); [by intros [= <- <-]|].
  destruct (checkProbes _ _ _); [by intros [= <- <-]|]. intros [= <- <-].
  assert (Hfree : checks db !! nextId (checks db) = None).
  { apply eq_None_not_Some. rewrite Hi. unfold nextId. lia. }
  split; simpl.
  - intros id. rewrite map_size_insert_None by done. destruct (decide (nextId (checks db) = id)) as [<-|Hne].
    + rewrite lookup_insert_eq. unfold nextId. split; [lia|by eexists].
    + rewrite lookup_insert_ne, Hi by done. unfold nextId in Hne. lia.
  - intros p id. rewrite addToProbes_elem, Hp. destruct (decide (nextId (checks db) = id)) as [<-|Hne].
    + rewrite lookup_insert_eq, Hfree. simpl. naive_solver.
    + rewrite lookup_insert_ne by done. naive_solver.
Qed.

(** What a loop of loading keeps. *)
Lemma loadAll_keeps {A} (P : Db → Prop) (f : Z → A → Db → go (Db * error loadErr)) clock l db db' err :
  (∀ now x db db' e, P db → f now x db = Ret (db', e) → P db') → P db →
  loadAll f clock l db = Ret (db', err) → P db'.
Proof.
  intros Hf. revert db. induction l as [|x l IH]; intros db Hdb; simpl; [by intros [= <- <-]|].
  destruct (f (clock (S (length l))) x db) as [[db1 [e|]]|] eqn:E; cbn [mbind go_bind]; [|by eauto|done].
  intros [= <- <-]. by eauto.
Qed.

Lemma loadData_good tenantsAt probesAt checksAt d db err :
  loadData tenantsAt probesAt checksAt d New = Ret (db, err) → dbinv db ∧ indexed db.
Proof.
  unfold loadData.
  set (P := λ db, dbinv db ∧ checks db = ∅ ∧ checksByProbe db = ∅).
  set (Q := λ db, dbinv db ∧ indexed db).
  assert (HPQ : ∀ db, P db → Q db).
  { intros db0 (Hi & Ec & Ep). split; [done|]. destruct New_indexed as [H1 H2].
    split; rewrite ?Ec, ?Ep; [exact H1|exact H2]. }
  assert (H1 : ∀ now x db db' e, P db → loadTenant now x db = Ret (db', e) → P db').
  { intros now x db0 db' e (Hi & Ec & Ep). unfold loadTenant. pose proof (AddTenant_dbinv now x _ Hi) as Hi'.
    destruct (AddTenant now x db0) as [db1 r] eqn:E. intros [= <- <-]. split; [done|].
    unfold AddTenant in E. destruct (anyOf _ _); injection E as <- <-; done. }
  assert (H2 : ∀ now x db db' e, P db → loadProbe (d_ProbeTokens d) now x db = Ret (db', e) → P db').
  { intros now x db0 db' e (Hi & Ec & Ep). unfold loadProbe.
    destruct (d_ProbeTokens d !! p_Id x) as [tok|]; [|by intros [= <- <-]].
    pose proof (AddProbe_dbinv now x tok _ Hi) as Hi'.
    destruct (AddProbe now x tok db0) as [db1 r] eqn:E. intros [= <- <-]. split; [done|].
    unfold AddProbe in E. repeat case_match; injection E as <- <-; done. }
  assert (H3 : ∀ now x db db' e, Q db → loadCheck now x db = Ret (db', e) → Q db').
  { intros now x db0 db' e [Hi Hx]. unfold loadCheck.
    destruct (AddCheck now x db0) as [[db1 r]|] eqn:E; cbn [mbind go_bind]; [|done]. intros [= <- <-].
    split; [by eapply AddCheck_dbinv|by eapply AddCheck_indexed]. }
  assert (HP : P New) by (split; [apply New_dbinv|done]).
  destruct (loadAll loadTenant _ _ _) as [[db1 [e|]]|] eqn:E1; cbn [mbind go_bind]; [|
    |done]; apply (loadAll_keeps P _ _ _ _ _ _ H1 HP) in E1; [by intros [= <- <-]; apply HPQ|].
  destruct (loadAll (loadProbe _) _ _ _) as [[db2 [e|]]|] eqn:E2; cbn [mbind go_bind]; [|
    |done]; apply (loadAll_keeps P _ _ _ _ _ _ H2 E1) in E2; [by intros [= <- <-]; apply HPQ|].
  intros E3. by apply (loadAll_keeps Q _ _ _ _ _ _ H3 (HPQ _ E2)) in E3.
Qed.

(** A probe is listed exactly the checks of the database that name it. *)
Lemma listed_exactly db p c :
  indexed db → c ∈ ListChecksForProbe p db ↔ ∃ id, checks db !! id = Some c ∧ p ∈ Probes c.
Proof.
  intros [_ Hp]. unfold ListChecksForProbe. rewrite list_elem_of_fmap. split.
  - intros (id & -> & (d & E & Hin)%Hp). exists id. by rewrite E.
  - intros (id & E & Hin). exists id. rewrite E. split; [done|]. apply Hp. eauto.
Qed.

End consistency.

(** ** Examples *)

Section examples.
#[local] Existing Instance example_validator.

Definition example_tenant (stack : Z) : Tenant :=
  {| t_Id := 0; t_OrgId := 7; t_MetricsRemote := None; t_EventsRemote := None; t_StackId := stack;
     t_Status := 0; t_Reason := EmptyString; t_Limits := None; t_CostAttributionLabels := [];
     t_LabelMode := 0; t_Created := S754_zero false; t_Modified := S754_zero false; t_SecretStore := None |}.
Definition example_probe (name : string) : Probe :=
  {| p_Id := 0; p_TenantId := 1; p_Name := name; p_Latitude := S754_zero false;
     p_Longitude := S754_zero false; p_Labels := []; p_Region := EmptyString; p_Public := false;
     p_Version := EmptyString; p_Created := S754_zero false; p_Modified := S754_zero false;
     p_Capabilities := None |}.
Definition example_job (id : Z) (job : string) (ps : list Z) : Check :=
  {| Id := id; TenantId := 1; Frequency := 1000; Offset := 0; Timeout := 1000; Enabled := true; Labels := [];
     Settings := instanceSettings CheckTypePing; Probes := ps; Target := loopbackIPv4; Job := job;
     BasicMetricsOnly := false; AlertSensitivity := EmptyString; Created := S754_zero false;
     Modified := S754_zero false |}.

Definition example_setup : list dbOp :=
  [OpAddTenant 1 (example_tenant 3); OpAddProbe 2 (example_probe "one") "t1"; OpAddProbe 3 (example_probe "two") "t2"].
Definition result_of (ops : list dbOp) : Db := match db_run ops New with Ret db => db | Panic _ => New end.

(** Ids are reused after a deletion: a third probe takes the id of the second, whose
    token then authenticates it. *)
Lemma token_of_replaced_probe :
  let db := result_of (example_setup ++ [OpDeleteProbe 1; OpAddProbe 4 (example_probe "three") "t3"]) in
  FindProbeIDByToken "t2" db = Ok 2 ∧ p_Name <$> probes db !! 2 = Some "three"%string.
Proof. vm_compute. done. Qed.

(** In the same way a new check replaces another one. *)
Lemma new_check_replaces_check :
  let db := result_of (example_setup ++ [OpAddCheck 4 (example_job 0 "a" [1]); OpAddCheck 5 (example_job 0 "b" [1]);
                                         OpDeleteCheck 1; OpAddCheck 6 (example_job 0 "c" [2])]) in
  map Job (ListChecks db) = ["c"%string] ∧ map Job (ListChecksForProbe 1 db) = [EmptyString; "c"%string].
Proof. vm_compute. done. Qed.

(** An update of the probes of a check does not reach the lists of the probes. *)
Lemma update_keeps_old_probes :
  let db := result_of (example_setup ++ [OpAddCheck 4 (example_job 0 "a" [1]); OpUpdateCheck 5 (example_job 1 "a" [2])]) in
  map Probes (ListChecks db) = [[2]] ∧ map Id (ListChecksForProbe 1 db) = [1] ∧ ListChecksForProbe 2 db = [].
Proof. vm_compute. done. Qed.

Definition example_ops : list dbOp :=
  example_setup ++ [OpAddCheck 4 (example_job 0 "a" [1]); OpDeleteTenant 1; OpDeleteProbe 2].

Lemma example_job_well_formed id job ps : well_formed (example_job id job ps).
Proof. split; [intros ? E; done|by exists CheckTypePing]. Qed.

Lemma db_consistent_witness :
  ∃ db, db_run example_ops New = Ret db ∧ FindProbeIDByToken "t1" db = Ok 1 ∧
    ∃ p, FindProbeByID 1 db = Ok p ∧ p_Id p = 1.
Proof.
  destruct (db_consistent example_ops) as (db & E & Htok & _).
  { repeat (constructor; [done|]). constructor; [apply example_job_well_formed|]. repeat constructor. }
  exists db. split; [exact E|].
  assert (Ht : FindProbeIDByToken "t1" db = Ok 1) by (vm_compute in E; injection E as <-; reflexivity).
  split; [exact Ht|]. destruct (Htok _ _ Ht) as (p & t & Hp & Hid & _). by exists p.
Defined.

End examples.
