(* ===== verification/ApiServer.v ===== *)
(** * The servers of the test API

    [cmd/test-api/internal/grpc/]: the authentication of a request ([grpc.go]), the
    registry of probes and the stream of changes of a probe ([checks.go]), and
    [GetTenant] ([tenants.go]), over the database of [ApiDb.v].

    The registry is a state machine: calls, waiters and streams are goroutines over a
    mutex and a heap of controllers, and each step is one critical section or one
    group of operations on the channels of a controller.  The changes a stream sends
    are functions of the database, of what the probe knows and of the updates. *)
From Stdlib Require Import Floats.SpecFloat.
From S2P Require Import Prelude Strs Net Checks Validate Updater Tenants ApiDb.

Open Scope Z_scope.

(** ** Authentication: [validateToken] *)

Inductive authErr :=
  | MissingMetadata | MissingToken | InvalidMetadata | InvalidFormat | InvalidEncoding
  | UnknownToken (e : dbErr).

Definition b64char (a : ascii) : bool :=
  isLetter a || isDigit a || Ascii.eqb a "+"%char || Ascii.eqb a "/"%char.

(** [base64.StdEncoding.DecodeString] accepts groups of four characters, of which the
    last may end in padding; it skips carriage returns and newlines. *)
Fixpoint b64groups (l : list ascii) : bool :=
  match l with
  | [] => true
  | a :: b :: c :: d :: l =>
      b64char a && b64char b &&
      match l with
      | [] => (b64char c && (b64char d || Ascii.eqb d "="%char)) || (Ascii.eqb c "="%char && Ascii.eqb d "="%char)
      | _ => b64char c && b64char d
      end && b64groups l
  | _ => false
  end.
Definition b64valid (s : string) : bool :=
  b64groups (List.filter (λ a, negb (bool_decide (code a = 10%N) || bool_decide (code a = 13%N))) (chars s)).

Definition bearer : string := "Bearer ".

(** The metadata of the request: none, or the values of its authorization header. *)
Definition validateToken (md : option (option (list string))) (db : Db) : result authErr Z :=
  match md with
  | None => Err MissingMetadata
  | Some None => Err MissingToken
  | Some (Some [auth]) =>
      if negb (hasPrefix bearer auth) then Err InvalidFormat
      else
        let b64token := String.substring (String.length bearer) (String.length auth - String.length bearer) auth in
        if negb (b64valid b64token) then Err InvalidEncoding
        else match FindProbeIDByToken b64token db with Ok id => Ok id | Err e => Err (UnknownToken e) end
  | Some (Some _) => Err InvalidMetadata
  end.

(** A handler gets the probe from its context; the interceptors put it there. *)
Definition contextWithProbeId (ctx : option Z) (probeId : Z) : option Z := Some probeId.
Definition probeIdFromContext (ctx : option Z) : option Z := ctx.
Definition unaryHandler {A} (md : option (option (list string))) (db : Db) (handler : option Z → A) : result authErr A :=
  probeID ← validateToken md db; Ok (handler (contextWithProbeId None probeID)).
Definition streamHandler {A} (md : option (option (list string))) (db : Db) (handler : option Z → A) : result authErr A :=
  probeID ← validateToken md db; Ok (handler (contextWithProbeId None probeID)).

(** [TenantsServer.GetTenant]. *)
Definition server_GetTenant (id : Z) (db : Db) : result dbErr Tenant := GetTenant id db.

(** [ChecksServer.Ping]. *)
Definition server_Ping (probeID : option Z) (sequence : Z) : option Z :=
  match probeID with None => None | Some _ => Some sequence end.

(** ** The changes of a stream *)

Notation checksSet := (gset Z).

Definition deletion (id : Z) : CheckChange :=
  {| Operation := CHECK_DELETE;
     change_Check := set_stamp id (S754_zero false) (S754_zero false) zeroCheck |}.

(** [filterUpdate]: [None] is the nil change. *)
Definition filterUpdate (probeID : Z) (up : CheckChange) (existingChecks : checksSet) : go (option CheckChange) :=
  let check := change_Check up in
  let exists_ := bool_decide (Id check ∈ existingChecks) in
  if bool_decide (probeID ∈ Probes check) then
    if exists_ then Ret (Some (if Enabled check then up else deletion (Id check)))
    else if negb (Enabled check) then Ret None
    else if Operation up =? CHECK_DELETE then Ret None
    else if Operation up =? CHECK_ADD then Ret (Some up)
    else if Operation up =? CHECK_UPDATE
    then Ret (Some {| Operation := CHECK_ADD; change_Check := check |})
    else Panic "unhandled operation"
  else if negb exists_ then Ret None
  else if Operation up =? CHECK_ADD then Ret (Some (deletion (Id check)))
  else if Operation up =? CHECK_DELETE then Ret (Some up)
  else if Operation up =? CHECK_UPDATE then Ret (Some (deletion (Id check)))
  else Panic "unhandled operation".

(** The loop of [processUpdate]. *)
Fixpoint processUpdate_loop (probeID : Z) (ups : list CheckChange) (existingChecks : checksSet)
    : go (list CheckChange * checksSet) :=
  match ups with
  | [] => Ret ([], existingChecks)
  | checkChange :: ups =>
      newChange ← filterUpdate probeID checkChange existingChecks;
      match newChange with
      | None => processUpdate_loop probeID ups existingChecks
      | Some newChange =>
          let id := Id (change_Check newChange) in
          let existingChecks :=
            if Operation newChange =? CHECK_ADD then {[id]} ∪ existingChecks
            else if Operation newChange =? CHECK_DELETE then existingChecks ∖ {[id]}
            else existingChecks in
          '(checks, existingChecks) ← processUpdate_loop probeID ups existingChecks;
          Ret (newChange :: checks, existingChecks)
      end
  end.

(** [processUpdate]: the message to send, if any. *)
Definition processUpdate (probeID : Z) (update : Changes) (existingChecks : checksSet)
    : go (option Changes * checksSet) :=
  '(checks, existingChecks) ← processUpdate_loop probeID (ch_Checks update) existingChecks;
  Ret (match checks, Tenants update with
       | [], [] => None
       | _, _ => Some {| Tenants := Tenants update; ch_Checks := checks;
                         IsDeltaFirstBatch := IsDeltaFirstBatch update |}
       end, existingChecks).

(** The state a probe reports: ids and modification times, of which the last counts. *)
Definition knownMap (known : list (Z * spec_float)) : gmap Z spec_float :=
  fold_left (λ m e, <[e.1 := e.2]> m) known ∅.

Definition initialChange (known : gmap Z spec_float) (check : Check) : option CheckChange :=
  match known !! Id check with
  | Some modTime =>
      if SFeqb modTime (Modified check) then None
      else Some {| Operation := CHECK_UPDATE; change_Check := check |}
  | None => Some {| Operation := CHECK_ADD; change_Check := check |}
  end.

(** [sendInitialChanges], from the checks listed for the probe: the message, if any,
    and the set of existing checks. *)
Definition sendInitialChanges (known : list (Z * spec_float)) (checks : list Check)
    : option Changes * checksSet :=
  match checks, known with
  | [], [] => (None, ∅)
  | _, _ =>
      let knownChecks := knownMap known in
      let enabled := List.filter Enabled checks in
      let m := list_to_set (map Id enabled) in
      let changes := omap (initialChange knownChecks) enabled in
      let gone := List.filter (λ cid, negb (bool_decide (cid ∈ m))) (map fst (map_to_list knownChecks)) in
      (Some {| Tenants := []; ch_Checks := changes ++ map deletion gone;
               IsDeltaFirstBatch := match known with [] => false | _ => true end |}, m)
  end.

(** What the loop of [GetChanges] selects; a closed channel of updates is passed over. *)
Inductive selected := Update (up : Changes) | UpdatesClosed | Restarted | StreamDone | ProbeGone.

Inductive ended := Streaming | Aborted | EndedOk | SendFailed | DbFailed.

(** The loop, with the outcome of each [Send]; it ends with the messages sent. *)
Fixpoint GetChanges_loop (probeID : Z) (sels : list (selected * bool)) (existingChecks : checksSet)
    : go (list Changes * checksSet * ended) :=
  match sels with
  | [] => Ret ([], existingChecks, Streaming)
  | (sel, sendOk) :: sels =>
      match sel with
      | Update up =>
          '(msg, existingChecks) ← processUpdate probeID up existingChecks;
          match msg with
          | None => GetChanges_loop probeID sels existingChecks
          | Some msg =>
              if sendOk then
                '(sent, existingChecks, e) ← GetChanges_loop probeID sels existingChecks;
                Ret (msg :: sent, existingChecks, e)
              else Ret ([], existingChecks, SendFailed)
          end
      | UpdatesClosed => GetChanges_loop probeID sels existingChecks
      | Restarted | ProbeGone => Ret ([], existingChecks, Aborted)
      | StreamDone => Ret ([], existingChecks, EndedOk)
      end
  end.

(** [GetChanges] after the activation, with the answer of the database. *)
Definition GetChanges_body (probeID : Z) (known : list (Z * spec_float)) (db : Db) (sendOk : bool)
    (sels : list (selected * bool)) : go (list Changes * checksSet * ended) :=
  let '(msg, existingChecks) := sendInitialChanges known (ListChecksForProbe probeID db) in
  match msg with
  | None => GetChanges_loop probeID sels existingChecks
  | Some msg =>
      if sendOk then
        '(sent, existingChecks, e) ← GetChanges_loop probeID sels existingChecks;
        Ret (msg :: sent, existingChecks, e)
      else Ret ([], existingChecks, SendFailed)
  end.

(** ** The table of [filterUpdate] *)

(** What the comment of [filterUpdate] tabulates, for the operations there are: whether
    the probe is listed, has the check, and the check is enabled. *)
Inductive verdict := Skip | SendAdd | SendUpdate | SendDelete.
Definition table (listed existing enabled : bool) (op : Z) : verdict :=
  match listed, existing with
  | false, false => Skip
  | false, true => SendDelete
  | true, false =>
      if negb enabled || (op =? CHECK_DELETE) then Skip else SendAdd
  | true, true =>
      if negb enabled || (op =? CHECK_DELETE) then SendDelete
      else if op =? CHECK_ADD then SendAdd else SendUpdate
  end.

Definition known_op (op : Z) : Prop := op = CHECK_ADD ∨ op = CHECK_UPDATE ∨ op = CHECK_DELETE.

(** A sent change is for the check of the update; adds and updates carry it whole. *)
Definition sends (v : verdict) (up : CheckChange) (r : option CheckChange) : Prop :=
  match v with
  | Skip => r = None
  | SendAdd => r = Some {| Operation := CHECK_ADD; change_Check := change_Check up |}
  | SendUpdate => r = Some {| Operation := CHECK_UPDATE; change_Check := change_Check up |}
  | SendDelete => ∃ c, r = Some {| Operation := CHECK_DELETE; change_Check := c |} ∧ Id c = Id (change_Check up)
  end.

Lemma filterUpdate_table probeID up existing :
  known_op (Operation up) →
  ∃ r, filterUpdate probeID up existing = Ret r ∧
    sends (table (bool_decide (probeID ∈ Probes (change_Check up)))
             (bool_decide (Id (change_Check up) ∈ existing)) (Enabled (change_Check up)) (Operation up)) up r.
Proof.
  intros Hop. unfold filterUpdate. destruct up as [op check]. simpl in *.
  destruct (bool_decide (probeID ∈ Probes check)), (bool_decide (Id check ∈ existing)), (Enabled check);
    destruct Hop as [->|[->| ->]]; simpl; eexists; (split; [reflexivity|]); try done; by eexists.
Qed.

(** An operation the protocol does not have ends the server. *)
Lemma unknown_operation_panics probeID op c existing :
  ¬ known_op op → probeID ∈ Probes c → Id c ∉ existing → Enabled c = true →
  filterUpdate probeID {| Operation := op; change_Check := c |} existing = Panic "unhandled operation".
Proof.
  intros Hop Hp Hi He. unfold filterUpdate. cbn [change_Check Operation].
  rewrite bool_decide_eq_true_2, bool_decide_eq_false_2, He by done. cbn [negb].
  unfold known_op in Hop.
  destruct (Z.eqb_spec op CHECK_DELETE), (Z.eqb_spec op CHECK_ADD), (Z.eqb_spec op CHECK_UPDATE); tauto.
Qed.

(** ** The registry of probes *)

(** A controller, by which of its channels are closed. *)
Record controller := { k_ready : bool; k_ch : bool; k_restart : bool; k_cleanup : bool }.
Definition newController : controller :=
  {| k_ready := false; k_ch := false; k_restart := false; k_cleanup := false |}.

(** [waitForProbe] and [GetChanges] end by deactivating a probe: they take whatever
    controller is registered under its id out of the map, and then close its channels. *)
Inductive goroutine :=
  | Waiting (id : Z) (c : nat)       (** [waitForProbe] selects *)
  | Serving (id : Z) (c : nat)       (** [GetChanges] selects *)
  | Leaving (id : Z)                 (** about to deactivate the id *)
  | Closing (c : nat)                (** has taken the controller, closes its channels *)
  | Returned.

Record Registry := {
  reg_probes : gmap Z nat;           (** ids to controllers *)
  reg_heap : list controller;
  reg_goroutines : list goroutine;
}.
Definition newRegistry : Registry := {| reg_probes := ∅; reg_heap := []; reg_goroutines := [] |}.

Inductive registerStatus := NotAuthorized | AlreadyExists | InternalError | Registered (p : Probe).

Inductive apiEvent :=
  | RegisterProbe (id : Z)           (** an authenticated call *)
  | WaitTimeout (k : nat)            (** the timer of goroutine [k] *)
  | WaitReady (k : nat)              (** its [ready] channel is closed *)
  | GetChanges (id : Z)              (** an authenticated call activates the probe *)
  | StreamEnds (k : nat)             (** the loop of goroutine [k] returns *)
  | Remove (k : nat)                 (** [deactivateProbe], under the mutex *)
  | Close (k : nat).                 (** [deactivateProbe], after it *)

(** [close]. *)
Definition closeChan (closed : bool) : go bool :=
  if closed then Panic "close of closed channel" else Ret true.

Definition set_goroutine (k : nat) (g : goroutine) (s : Registry) : Registry :=
  {| reg_probes := reg_probes s; reg_heap := reg_heap s; reg_goroutines := <[k := g]> (reg_goroutines s) |}.

(** [deactivateProbe], after the drain: the three channels. *)
Definition closeController (c : controller) : go controller :=
  ch ← closeChan (k_ch c); restart ← closeChan (k_restart c); cleanup ← closeChan (k_cleanup c);
  Ret {| k_ready := k_ready c; k_ch := ch; k_restart := restart; k_cleanup := cleanup |}.

Definition activate (c : controller) : go controller :=
  ready ← closeChan (k_ready c);
  Ret {| k_ready := ready; k_ch := k_ch c; k_restart := k_restart c; k_cleanup := k_cleanup c |}.

Definition api_step (ev : apiEvent) (s : Registry) : go Registry :=
  match ev with
  | RegisterProbe id =>
      Ret (match reg_probes s !! id with
           | Some _ => s
           | None =>
               let c := length (reg_heap s) in
               {| reg_probes := <[id := c]> (reg_probes s); reg_heap := reg_heap s ++ [newController];
                  reg_goroutines := reg_goroutines s ++ [Waiting id c] |}
           end)
  | WaitTimeout k =>
      Ret (match reg_goroutines s !! k with Some (Waiting id _) => set_goroutine k (Leaving id) s | _ => s end)
  | WaitReady k =>
      Ret (match reg_goroutines s !! k with
           | Some (Waiting _ c) =>
               if (match reg_heap s !! c with Some x => k_ready x | None => false end)
               then set_goroutine k Returned s else s
           | _ => s
           end)
  | GetChanges id =>
      match reg_probes s !! id with
      | None => Ret {| reg_probes := reg_probes s; reg_heap := reg_heap s;
                       reg_goroutines := reg_goroutines s ++ [Leaving id] |}
      | Some c =>
          match reg_heap s !! c with
          | None => Ret s
          | Some x =>
              x ← activate x;
              Ret {| reg_probes := reg_probes s; reg_heap := <[c := x]> (reg_heap s);
                     reg_goroutines := reg_goroutines s ++ [Serving id c] |}
          end
      end
  | StreamEnds k =>
      Ret (match reg_goroutines s !! k with Some (Serving id _) => set_goroutine k (Leaving id) s | _ => s end)
  | Remove k =>
      Ret (match reg_goroutines s !! k with
           | Some (Leaving id) =>
               match reg_probes s !! id with
               | None => set_goroutine k Returned s
               | Some c =>
                   set_goroutine k (Closing c)
                     {| reg_probes := delete id (reg_probes s); reg_heap := reg_heap s;
                        reg_goroutines := reg_goroutines s |}
               end
           | _ => s
           end)
  | Close k =>
      match reg_goroutines s !! k with
      | Some (Closing c) =>
          match reg_heap s !! c with
          | None => Ret s
          | Some x =>
              x ← closeController x;
              Ret (set_goroutine k Returned
                     {| reg_probes := reg_probes s; reg_heap := <[c := x]> (reg_heap s);
                        reg_goroutines := reg_goroutines s |})
          end
      | _ => Ret s
      end
  end.

(** What [RegisterProbe] answers, from the map and the database. *)
Definition registerResult (probeID : option Z) (s : Registry) (db : Db) : registerStatus :=
  match probeID with
  | None => NotAuthorized
  | Some id =>
      match reg_probes s !! id with
      | Some _ => AlreadyExists
      | None => match FindProbeByID id db with Ok p => Registered p | Err _ => InternalError end
      end
  end.

Fixpoint api_steps (evs : list apiEvent) (s : Registry) : go Registry :=
  match evs with
  | [] => Ret s
  | ev :: evs => s ← api_step ev s; api_steps evs s
  end.

(** ** Its invariant *)

Definition open (x : controller) : Prop := k_ch x = false ∧ k_restart x = false ∧ k_cleanup x = false.

(** The goroutine will deactivate the id, or is bound to. *)
Definition watches (id : Z) (c : nat) (ready : bool) (g : goroutine) : Prop :=
  g = Leaving id ∨ (if ready then g = Serving id c else g = Waiting id c).

Record reg_inv (s : Registry) : Prop := {
  ri_open : ∀ id c, reg_probes s !! id = Some c → ∃ x, reg_heap s !! c = Some x ∧ open x;
  ri_inj : ∀ i j c, reg_probes s !! i = Some c → reg_probes s !! j = Some c → i = j;
  ri_closing : ∀ k c, reg_goroutines s !! k = Some (Closing c) →
    (∃ x, reg_heap s !! c = Some x ∧ open x) ∧ ∀ id, reg_probes s !! id ≠ Some c;
  ri_owner : ∀ k l c, reg_goroutines s !! k = Some (Closing c) → reg_goroutines s !! l = Some (Closing c) → k = l;
  ri_watched : ∀ id c x, reg_probes s !! id = Some c → reg_heap s !! c = Some x →
    ∃ k g, reg_goroutines s !! k = Some g ∧ watches id c (k_ready x) g;
}.

Lemma newRegistry_inv : reg_inv newRegistry.
Proof. split; simpl; intros *; rewrite ?lookup_empty, ?lookup_nil; done. Qed.

(** The goroutines after one of them moves on, or one is added. *)
Lemma watched_moves (gs : list goroutine) k g g0 id c ready :
  gs !! k = Some g0 → (watches id c ready g0 → watches id c ready g) →
  (∃ j h, gs !! j = Some h ∧ watches id c ready h) →
  ∃ j h, <[k := g]> gs !! j = Some h ∧ watches id c ready h.
Proof.
  intros Hk Hg (j & h & Hj & Hw). destruct (decide (k = j)) as [->|Hne].
  - exists j, g. rewrite list_lookup_insert_eq by by eapply lookup_lt_Some. split; [done|]. apply Hg. congruence.
  - exists j, h. by rewrite list_lookup_insert_ne.
Qed.

Lemma lookup_moves {gs : list goroutine} {k g l h} :
  <[k := g]> gs !! l = Some h → l = k ∧ h = g ∨ l ≠ k ∧ gs !! l = Some h.
Proof. intros [(-> & -> & _)|[? ?]]%list_lookup_insert_Some; auto. Qed.

(** A goroutine that does not close moves on without touching the registry. *)
Lemma set_goroutine_inv k g g0 s :
  reg_inv s → reg_goroutines s !! k = Some g0 →
  (∀ c, g ≠ Closing c) →
  (∀ id c x, reg_probes s !! id = Some c → reg_heap s !! c = Some x → watches id c (k_ready x) g0 →
     watches id c (k_ready x) g) →
  reg_inv (set_goroutine k g s).
Proof.
  intros [H1 H2 H3 H4 H5] Hk Hg Hw. split; simpl; try done.
  - intros l c [[_ E]|[_ Hl]]%lookup_moves; [by destruct (Hg c)|by eapply H3].
  - intros l m c [[_ E]|[_ Hl]]%lookup_moves; [by destruct (Hg c)|].
    intros [[_ E]|[_ Hm]]%lookup_moves; [by destruct (Hg c)|by eapply H4].
  - intros id c x Hid Hc. eapply watched_moves; eauto.
Qed.

Lemma watches_lt {s id c} : reg_inv s → reg_probes s !! id = Some c → (c < length (reg_heap s))%nat.
Proof. intros Hi Hid. destruct (ri_open _ Hi _ _ Hid) as (x & Hx & _). by eapply lookup_lt_Some. Qed.

Lemma register_inv id s :
  reg_inv s → reg_probes s !! id = None →
  reg_inv {| reg_probes := <[id := length (reg_heap s)]> (reg_probes s); reg_heap := reg_heap s ++ [newController];
             reg_goroutines := reg_goroutines s ++ [Waiting id (length (reg_heap s))] |}.
Proof.
  intros Hi Hnone. pose proof Hi as [H1 H2 H3 H4 H5].
  assert (Hnew : (reg_heap s ++ [newController]) !! length (reg_heap s) = Some newController).
  { rewrite lookup_app_r, Nat.sub_diag by done. done. }
  assert (Hfresh : ∀ j, reg_probes s !! j ≠ Some (length (reg_heap s))).
  { intros j Hj%(watches_lt Hi). lia. }
  assert (Hcl : ∀ k c, (reg_goroutines s ++ [Waiting id (length (reg_heap s))]) !! k = Some (Closing c) →
    reg_goroutines s !! k = Some (Closing c)).
  { intros k c. rewrite lookup_app_Some, list_lookup_singleton_Some. by intros [?|(_ & _ & [=])]. }
  split; simpl.
  - intros i c. destruct (decide (id = i)) as [<-|Hne].
    + rewrite lookup_insert_eq. intros [= <-]. by exists newController.
    + rewrite lookup_insert_ne by done. intros Hc. destruct (H1 _ _ Hc) as (x & Hx & Ho).
      exists x. split; [|done]. by apply lookup_app_l_Some.
  - intros i j c. destruct (decide (id = i)) as [<-|Hni], (decide (id = j)) as [<-|Hnj]; try done;
      rewrite ?lookup_insert_eq, ?lookup_insert_ne by done.
    + intros [= <-] Hj. by apply Hfresh in Hj.
    + intros Hj [= <-]. by apply Hfresh in Hj.
    + by apply H2.
  - intros k c Hk%Hcl. destruct (H3 _ _ Hk) as ((x & Hx & Ho) & Hn). split.
    + exists x. split; [|done]. by apply lookup_app_l_Some.
    + intros i. destruct (decide (id = i)) as [<-|Hne]; [|by rewrite lookup_insert_ne].
      rewrite lookup_insert_eq. intros [= <-]. apply lookup_lt_Some in Hx. lia.
  - intros k l c Hk%Hcl Hl%Hcl. by eapply H4.
  - intros i c x. destruct (decide (id = i)) as [<-|Hne].
    + rewrite lookup_insert_eq. intros [= <-]. rewrite Hnew. intros [= <-].
      eexists (length (reg_goroutines s)), _. rewrite lookup_app_r, Nat.sub_diag by done. split; [done|]. by right.
    + rewrite lookup_insert_ne by done. intros Hc Hx.
      rewrite lookup_app_l in Hx by by eapply watches_lt.
      destruct (H5 _ _ _ Hc Hx) as (k & g & Hk & Hw). exists k, g. split; [|done]. by apply lookup_app_l_Some.
Qed.

(** A goroutine is added and the heap changes at one controller, which stays open. *)
Lemma activate_inv id c x x' s :
  reg_inv s → reg_probes s !! id = Some c → reg_heap s !! c = Some x → open x → activate x = Ret x' →
  reg_inv {| reg_probes := reg_probes s; reg_heap := <[c := x']> (reg_heap s);
             reg_goroutines := reg_goroutines s ++ [Serving id c] |}.
Proof.
  intros Hi Hid Hx Ho Ea. pose proof Hi as [H1 H2 H3 H4 H5].
  unfold activate, closeChan in Ea. destruct (k_ready x) eqn:Er; cbn in Ea; [done|]. injection Ea as <-.
  set (x' := {| k_ready := true; k_ch := k_ch x; k_restart := k_restart x; k_cleanup := k_cleanup x |}).
  assert (Hheap : ∀ d y, reg_heap s !! d = Some y → ∃ y', <[c := x']> (reg_heap s) !! d = Some y' ∧ (open y → open y')).
  { intros d y Hd. destruct (decide (c = d)) as [<-|Hne].
    - exists x'. rewrite list_lookup_insert_eq by by eapply lookup_lt_Some. split; [done|]. intros _. exact Ho.
    - exists y. by rewrite list_lookup_insert_ne. }
  assert (Hcl : ∀ k d, (reg_goroutines s ++ [Serving id c]) !! k = Some (Closing d) →
    reg_goroutines s !! k = Some (Closing d)).
  { intros k d. rewrite lookup_app_Some, list_lookup_singleton_Some. by intros [?|(_ & _ & [=])]. }
  split; simpl; try done.
  - intros i d Hd. destruct (H1 _ _ Hd) as (y & (y' & Hy' & Hyo)%Hheap & Hoy). eauto.
  - intros k d Hk%Hcl. destruct (H3 _ _ Hk) as ((y & (y' & Hy' & Hyo)%Hheap & Hoy) & Hn). eauto.
  - intros k l d Hk%Hcl Hl%Hcl. by eapply H4.
  - intros i d y Hd. destruct (decide (c = d)) as [<-|Hne].
    + rewrite list_lookup_insert_eq by by eapply lookup_lt_Some. intros [= <-].
      assert (i = id) as -> by by eapply H2.
      exists (length (reg_goroutines s)), (Serving id c). rewrite lookup_app_r, Nat.sub_diag by done.
      split; [done|]. by right.
    + rewrite list_lookup_insert_ne by done. intros Hy.
      destruct (H5 _ _ _ Hd Hy) as (k & g & Hk & Hw). exists k, g. split; [|done]. by apply lookup_app_l_Some.
Qed.

Lemma remove_inv k id c s :
  reg_inv s → reg_goroutines s !! k = Some (Leaving id) → reg_probes s !! id = Some c →
  reg_inv (set_goroutine k (Closing c)
    {| reg_probes := delete id (reg_probes s); reg_heap := reg_heap s; reg_goroutines := reg_goroutines s |}).
Proof.
  intros Hi Hk Hid. pose proof Hi as [H1 H2 H3 H4 H5].
  assert (Hnot : ∀ l, reg_goroutines s !! l ≠ Some (Closing c)).
  { intros l Hl. destruct (H3 _ _ Hl) as [_ Hn]. by apply (Hn id). }
  split; simpl.
  - intros i d [_ Hd]%lookup_delete_Some. by eapply H1.
  - intros i j d [_ Hi']%lookup_delete_Some [_ Hj]%lookup_delete_Some. by eapply H2.
  - intros l d [[-> [= ->]]|[_ Hl]]%lookup_moves.
    + split; [by eapply H1|]. intros i [Hne Hd]%lookup_delete_Some. apply Hne. by eapply H2.
    + destruct (H3 _ _ Hl) as [Hx Hn]. split; [done|]. intros i [_ Hd]%lookup_delete_Some. by apply (Hn i).
  - intros l m d [[-> El]|[_ Hl]]%lookup_moves [[-> Em]|[_ Hm]]%lookup_moves; try done.
    + injection El as ->. by destruct (Hnot m).
    + injection Em as ->. by destruct (Hnot l).
    + by eapply H4.
  - intros i d x [Hne Hd]%lookup_delete_Some Hx. eapply watched_moves; [done| |by eauto].
    intros [[= E]|Hw]; [by subst|]. by destruct (k_ready x).
Qed.

Lemma close_inv k c x' s :
  reg_inv s → reg_goroutines s !! k = Some (Closing c) →
  reg_inv (set_goroutine k Returned
    {| reg_probes := reg_probes s; reg_heap := <[c := x']> (reg_heap s); reg_goroutines := reg_goroutines s |}).
Proof.
  intros Hi Hk. pose proof Hi as [H1 H2 H3 H4 H5].
  destruct (H3 _ _ Hk) as [_ Hn].
  assert (Hd : ∀ i d, reg_probes s !! i = Some d → c ≠ d) by (intros i d Hd ->; by apply (Hn i)).
  split; simpl.
  - intros i d Hid. rewrite list_lookup_insert_ne by by eapply Hd. by eapply H1.
  - done.
  - intros l d [[_ [=]]|[Hne Hl]]%lookup_moves.
    assert (c ≠ d) by (intros ->; by destruct Hne; eapply H4). rewrite list_lookup_insert_ne by done. by eapply H3.
  - intros l m d [[_ [=]]|[_ Hl]]%lookup_moves [[_ [=]]|[_ Hm]]%lookup_moves. by eapply H4.
  - intros i d y Hid. rewrite list_lookup_insert_ne by by eapply Hd. intros Hy.
    eapply watched_moves; [done| |by eauto]. intros [[=]|Hw]. by destruct (k_ready y).
Qed.

(** A step returns and keeps the invariant, or it is the activation of a probe that a
    stream has activated before. *)
Lemma api_step_inv ev s :
  reg_inv s →
  (∃ s', api_step ev s = Ret s' ∧ reg_inv s') ∨
  (∃ id c x, ev = GetChanges id ∧ reg_probes s !! id = Some c ∧ reg_heap s !! c = Some x ∧ k_ready x = true ∧
     api_step ev s = Panic "close of closed channel").
Proof.
  intros Hi. destruct ev as [id|k|k|id|k|k|k]; cbn [api_step].
  - left. eexists. split; [done|]. destruct (reg_probes s !! id) eqn:E; [done|]. by apply register_inv.
  - left. eexists. split; [done|]. destruct (reg_goroutines s !! k) as [[id c| | | |]|] eqn:E; try done.
    eapply set_goroutine_inv; [done..|]. intros i d x _ _ [[=]|Hw]. destruct (k_ready x); [done|].
    injection Hw as <- <-. by left.
  - left. eexists. split; [done|]. destruct (reg_goroutines s !! k) as [[id c| | | |]|] eqn:E; try done.
    destruct (reg_heap s !! c) as [y|] eqn:Ey; [|done]. destruct (k_ready y) eqn:Er; [|done].
    eapply set_goroutine_inv; [done..|]. intros i d x _ Hx [[=]|Hw]. destruct (k_ready x) eqn:Erx; [done|].
    injection Hw as <- <-. congruence.
  - destruct (reg_probes s !! id) as [c|] eqn:Ec.
    + destruct (ri_open _ Hi _ _ Ec) as (x & Ex & Ho). rewrite Ex. destruct (k_ready x) eqn:Er.
      * right. exists id, c, x. split_and!; try done. unfold activate, closeChan. by rewrite Er.
      * left. destruct (activate x) as [x'|] eqn:Ea; [|unfold activate, closeChan in Ea; by rewrite Er in Ea].
        cbn [mbind go_bind]. eexists. split; [done|]. by eapply activate_inv.
    + left. eexists. split; [done|]. destruct Hi as [H1 H2 H3 H4 H5].
      assert (Hcl : ∀ k d, (reg_goroutines s ++ [Leaving id]) !! k = Some (Closing d) →
        reg_goroutines s !! k = Some (Closing d)).
      { intros k d. rewrite lookup_app_Some, list_lookup_singleton_Some. by intros [?|(_ & _ & [=])]. }
      split; simpl; try done.
      * intros k d Hk%Hcl. by eapply H3.
      * intros k l d Hk%Hcl Hl%Hcl. by eapply H4.
      * intros i d x Hd Hx. destruct (H5 _ _ _ Hd Hx) as (k & g & Hk & Hw). exists k, g.
        split; [|done]. by apply lookup_app_l_Some.
  - left. eexists. split; [done|]. destruct (reg_goroutines s !! k) as [[|id c| | |]|] eqn:E; try done.
    eapply set_goroutine_inv; [done..|]. intros i d x _ _ [[=]|Hw]. destruct (k_ready x); [|done].
    injection Hw as <- <-. by left.
  - left. eexists. split; [done|]. destruct (reg_goroutines s !! k) as [[| |id| |]|] eqn:E; try done.
    destruct (reg_probes s !! id) as [c|] eqn:Ec; [by apply remove_inv|].
    eapply set_goroutine_inv; [done..|]. intros i d x Hd _ [[= <-]|Hw]; [congruence|]. by destruct (k_ready x).
  - destruct (reg_goroutines s !! k) as [[| | |c|]|] eqn:E; try (by left; eauto).
    destruct (ri_closing _ Hi _ _ E) as [(x & Hx & Ho) _]. rewrite Hx. left.
    destruct x as [r c0 re cl]. destruct Ho as (? & ? & ?). simpl in *. subst. cbn.
    eexists. split; [done|]. by apply close_inv.
Qed.

Lemma api_steps_inv evs s : reg_inv s → ∀ s', api_steps evs s = Ret s' → reg_inv s'.
Proof.
  revert s. induction evs as [|ev evs IH]; intros s Hi s'; simpl; [by intros [= <-]|].
  destruct (api_step_inv ev s Hi) as [(s1 & -> & Hi1)|(?&?&?&_&_&_&_&->)]; [|done]. by apply IH.
Qed.

Lemma lookup_set_goroutine {k g h s} : reg_goroutines s !! k = Some g → reg_goroutines (set_goroutine k h s) !! k = Some h.
Proof. intros Hk. by apply list_lookup_insert_eq, (lookup_lt_Some _ _ _ Hk). Qed.

(** A goroutine that leaves takes its id, and only it, out of the registry. *)
Definition takes_out (id : Z) (s s' : Registry) : Prop :=
  reg_probes s' !! id = None ∧ ∀ j, j ≠ id → reg_probes s' !! j = reg_probes s !! j.
Lemma remove_leaving k id c s :
  reg_goroutines s !! k = Some (Leaving id) → reg_probes s !! id = Some c →
  ∃ s', api_step (Remove k) s = Ret s' ∧ reg_goroutines s' !! k = Some (Closing c) ∧ takes_out id s s'.
Proof.
  intros Hk Hc. cbn [api_step]. rewrite Hk, Hc. eexists. split; [done|].
  split; [by apply (lookup_set_goroutine (s := Build_Registry _ _ _) Hk)|].
  split; [apply lookup_delete_eq|intros j Hj; by apply lookup_delete_ne].
Qed.

Lemma leaving_now k id c s :
  reg_goroutines s !! k = Some (Leaving id) → reg_probes s !! id = Some c →
  ∃ ev, (ev = WaitTimeout k ∨ ev = StreamEnds k ∨ ev = Remove k) ∧
    ∃ s', api_steps [ev; Remove k] s = Ret s' ∧ takes_out id s s'.
Proof.
  intros Hk Hc. exists (Remove k). split; [auto|].
  destruct (remove_leaving k id c s Hk Hc) as (s' & E & Hk' & Ht). exists s'. split; [|done].
  cbn [api_steps]. rewrite E. cbn [mbind go_bind api_step]. by rewrite Hk'.
Qed.

Lemma leaving_step k id c ev s s1 :
  reg_probes s !! id = Some c → api_step ev s = Ret s1 → (ev = WaitTimeout k ∨ ev = StreamEnds k ∨ ev = Remove k) →
  reg_probes s1 = reg_probes s → reg_goroutines s1 !! k = Some (Leaving id) →
  ∃ ev, (ev = WaitTimeout k ∨ ev = StreamEnds k ∨ ev = Remove k) ∧
    ∃ s', api_steps [ev; Remove k] s = Ret s' ∧ takes_out id s s'.
Proof.
  intros Hc E Hev Hp Hk. exists ev. split; [done|]. rewrite <-Hp in Hc.
  destruct (remove_leaving k id c s1 Hk Hc) as (s' & E' & _ & Ht). exists s'.
  split; [cbn [api_steps]; rewrite E; cbn [mbind go_bind]; by rewrite E'|].
  unfold takes_out in *. by rewrite <-Hp.
Qed.

(** C28: the registry of probes in every interleaving of calls, timers and streams. The
    server panics in one case only: a probe asks for changes on a registration that an
    earlier request has activated, which closes its [ready] channel again; no channel is
    closed twice otherwise. And a registration never leaks: while one stands, the probe
    cannot register again, and a goroutine exists - the waiter if no stream has activated
    it, the stream that did, or one that is leaving - from which two steps take it out. *)
Theorem registry_protocol evs s :
  api_steps evs newRegistry = Ret s →
  (∀ ev why, api_step ev s = Panic why →
     ∃ id c x, ev = GetChanges id ∧ reg_probes s !! id = Some c ∧ reg_heap s !! c = Some x ∧ k_ready x = true) ∧
  (∀ id c, reg_probes s !! id = Some c →
     (∀ db, registerResult (Some id) s db = AlreadyExists) ∧
     ∃ k ev, (ev = WaitTimeout k ∨ ev = StreamEnds k ∨ ev = Remove k) ∧
       ∃ s', api_steps [ev; Remove k] s = Ret s' ∧ takes_out id s s').
Proof.
  intros E. pose proof (api_steps_inv evs newRegistry newRegistry_inv s E) as Hi. split.
  - intros ev why Ep. destruct (api_step_inv ev s Hi) as [(s1 & E1 & _)|(id & c & x & -> & Hc & Hx & Hr & _)];
      [congruence|eauto 10].
  - intros id c Hc. split; [intros db; unfold registerResult; by rewrite Hc|].
    destruct (ri_open _ Hi _ _ Hc) as (x & Hx & _).
    destruct (ri_watched _ Hi _ _ _ Hc Hx) as (k & g & Hk & Hw). exists k.
    destruct Hw as [->|Hw]; [by apply (leaving_now k id c)|].
    destruct (k_ready x); subst g;
      [eapply (leaving_step k id c (StreamEnds k))|eapply (leaving_step k id c (WaitTimeout k))];
      first [by cbn [api_step]; rewrite Hk|done|by auto|by apply (lookup_set_goroutine Hk)].
Qed.

Lemma registry_protocol_witness :
  let evs := [RegisterProbe 1; GetChanges 1; WaitReady 0; StreamEnds 1; Remove 1; RegisterProbe 1; Close 1] in
  ∃ s, api_steps evs newRegistry = Ret s ∧ ∀ db, registerResult (Some 1) s db = AlreadyExists.
Proof.
  intros evs. destruct (api_steps evs newRegistry) as [s|] eqn:E; [|vm_compute in E; discriminate E].
  exists s. split; [reflexivity|]. apply (proj2 (registry_protocol evs s E) 1 1%nat).
  vm_compute in E. injection E as <-. reflexivity.
Defined.

(** The second request for changes of a probe ends the server. *)
Lemma second_stream_panics :
  api_steps [RegisterProbe 1; GetChanges 1; GetChanges 1] newRegistry = Panic "close of closed channel".
Proof. by vm_compute. Qed.

(** A timer that expires while the probe asks for changes deactivates a probe that is
    being served, which may then register again. *)
Lemma timer_deactivates_served_probe :
  ∃ s, api_steps [RegisterProbe 1; GetChanges 1; WaitTimeout 0; Remove 0] newRegistry = Ret s ∧
    reg_goroutines s !! 1%nat = Some (Serving 1 0) ∧ reg_probes s !! 1 = None.
Proof. by eexists. Qed.

(** ** Authentication *)

(** The token of a request is valid base64 of a probe of the database. *)
Lemma validateToken_spec md db id :
  validateToken md db = Ok id ↔
  ∃ auth, md = Some (Some [auth]) ∧ hasPrefix bearer auth = true ∧
    let token := String.substring 7 (String.length auth - 7) auth in
    b64valid token = true ∧ probeTokens db !! token = Some id.
Proof.
  unfold validateToken, FindProbeIDByToken. change (String.length bearer) with 7%nat. split.
  - destruct md as [[[|auth [|]]|]|]; try done. intros H. exists auth. split; [done|].
    destruct (hasPrefix bearer auth); [|done]. cbn [negb] in H. split; [done|]. cbn zeta.
    destruct (b64valid _); [|done]. cbn [negb] in H. split; [done|]. destruct (_ !! _); congruence.
  - intros (auth & -> & -> & -> & ->). done.
Qed.

(** No handler runs for a request without the token of a probe, and a handler that runs
    finds the probe of the token in its context. *)
Lemma handlers_authenticated {A} md db (handler : option Z → A) :
  (∀ r, unaryHandler md db handler = Ok r ↔ ∃ id, validateToken md db = Ok id ∧ r = handler (Some id)) ∧
  (∀ r, streamHandler md db handler = Ok r ↔ ∃ id, validateToken md db = Ok id ∧ r = handler (Some id)).
Proof.
  split; intros r; unfold unaryHandler, streamHandler; destruct (validateToken md db); cbn; naive_solver.
Qed.
