(* ===== verification/ApiSync.v ===== *)
(** * The agent and the API together

    The updater of an agent ([Updater.v], [Desired.v]) against the stream of changes of
    the test API ([ApiServer.v]): what the server sends for a probe, applied by the
    agent, leaves the agent running exactly the checks the server wants there, and the
    server knows which they are. *)
From Stdlib Require Import Floats.SpecFloat.
From S2P Require Import Prelude Strs Net Ids Tenants Checks Validate Updater Desired Connection ApiDb ApiServer.

Open Scope Z_scope.

(** ** Identifiers *)

Lemma globalOrLocal_GetLocal id :
  globalOrLocal (GetLocalAndRegionIDs id).1 (GetLocalAndRegionIDs id).2 = id.
Proof.
  unfold GetLocalAndRegionIDs, GlobalIDToLocalID.
  assert (Hno : globalOrLocal id 0 = id).
  { unfold globalOrLocal, LocalIDToGlobalID. by destruct (IsLocalIDValid id). }
  destruct (IsGlobalIDValid id) eqn:Eg; cbn [negb]; [|exact Hno].
  destruct (IsRegionIDValid _) eqn:Er; cbn [negb]; [|exact Hno]. cbn [fst snd].
  assert (wrap64 (- id) = - id) as E.
  { reflect_ids. apply wrap64_id. unfold int64, minInt64, maxInt64. lia. }
  rewrite E in *. change MaxRegions with 1000 in *. unfold globalOrLocal.
  assert (Hl : IsLocalIDValid (Z.quot (- id) 1000) = true).
  { reflect_ids. pose proof (Z.quot_rem' (- id) 1000). pose proof (Z.rem_bound_pos (- id) 1000). lia. }
  rewrite LocalIDToGlobalID_eq by done.
  pose proof (Z.quot_rem' (- id) 1000). lia.
Qed.

Lemma GetLocal_local id : 1 ≤ id → GetLocalAndRegionIDs id = (id, 0).
Proof.
  intros Hid. unfold GetLocalAndRegionIDs, GlobalIDToLocalID.
  destruct (IsGlobalIDValid id) eqn:E; [|done]. reflect_ids. lia.
Qed.

(** The check an agent makes of a check it receives. *)
Definition agentCheck (c : Check) : mCheck :=
  {| sm := set_ids (GetLocalAndRegionIDs (Id c)).1
             (if TenantId c =? 0 then TenantId c else (GetLocalAndRegionIDs (TenantId c)).1) c;
     RegionId := (GetLocalAndRegionIDs (Id c)).2 |}.

Lemma GlobalID_agentCheck c : GlobalID (agentCheck c) = Id c.
Proof. apply globalOrLocal_GetLocal. Qed.

(** ** What the server wants *)

Definition wants (probeID : Z) (c : Check) : bool := bool_decide (probeID ∈ Probes c) && Enabled c.

(** A change of a check, for the checks that should run on a probe. *)
Definition worldChange (probeID : Z) (W : gmap Z Check) (up : CheckChange) : gmap Z Check :=
  let c := change_Check up in
  if (Operation up =? CHECK_DELETE) || negb (wants probeID c) then delete (Id c) W
  else if Operation up =? CHECK_ADD
  then match W !! Id c with Some _ => W | None => <[Id c := c]> W end
  else <[Id c := c]> W.

Definition worldUpdate (probeID : Z) (W : gmap Z Check) (up : Changes) : gmap Z Check :=
  foldl (worldChange probeID) W (ch_Checks up).

(** The enabled checks of a list. *)
Definition enabledChecks (cs : list Check) : gmap Z Check :=
  list_to_map (map (λ c, (Id c, c)) (List.filter Enabled cs)).

Section sync.
Context `{Validator}.
Variable recode : Check → option Check.
Variable k6 : bool.
Variable metricsError : mCheck → option string.
Variable scraperFactory : mCheck → option string.

(** A message that is marshalled and unmarshalled is the same message. *)
Hypothesis recode_id : ∀ c, recode c = Some c.

Notation change := (specChange recode k6 metricsError scraperFactory).
Notation batch := (specBatch recode k6 metricsError scraperFactory).
Notation ensure := (specEnsure k6 metricsError scraperFactory).

(** The agent accepts the check and can start it. *)
Definition runnable (c : Check) : Prop :=
  well_formed c ∧ isValid (agentCheck c) = true ∧ startable k6 metricsError scraperFactory (agentCheck c) = true.

Lemma FromSM_agentCheck c : FromSM recode c = Some (agentCheck c).
Proof.
  unfold FromSM, agentCheck. rewrite recode_id. simpl. by destruct (GetLocalAndRegionIDs (Id c)).
Qed.

Lemma specStart_runnable c D :
  runnable c → specUpdate k6 metricsError scraperFactory (agentCheck c) D = <[Id c := agentCheck c]> D.
Proof. intros (_ & Hv & Hs). unfold specUpdate, specStart. by rewrite Hv, Hs, GlobalID_agentCheck. Qed.

(** ** One change *)

Lemma specChange_add c D :
  runnable c →
  change D {| Operation := CHECK_ADD; change_Check := c |} =
  match D !! Id c with Some _ => D | None => <[Id c := agentCheck c]> D end.
Proof.
  intros Hr. unfold specChange. cbn [change_Check Operation]. rewrite FromSM_agentCheck. simpl.
  unfold specAdd. rewrite GlobalID_agentCheck. destruct (D !! Id c); [done|]. by apply specStart_runnable.
Qed.
Lemma specChange_update c D :
  runnable c → change D {| Operation := CHECK_UPDATE; change_Check := c |} = <[Id c := agentCheck c]> D.
Proof.
  intros Hr. unfold specChange. cbn [change_Check Operation]. rewrite FromSM_agentCheck. simpl.
  by apply specStart_runnable.
Qed.
Lemma specChange_delete c D :
  change D {| Operation := CHECK_DELETE; change_Check := c |} = delete (Id c) D.
Proof.
  unfold specChange. cbn [change_Check Operation]. rewrite FromSM_agentCheck. simpl.
  unfold specDelete. by rewrite GlobalID_agentCheck.
Qed.

(** The updates that can be served: of the operations there are, with checks that the
    agent can run where they should. *)
Definition change_served (probeID : Z) (up : CheckChange) : Prop :=
  known_op (Operation up) ∧ (wants probeID (change_Check up) = true → runnable (change_Check up)).

(** A message the agent can take. *)
Definition deliverable (ch : CheckChange) : Prop := Operation ch = CHECK_DELETE ∨ runnable (change_Check ch).

(** The server filters a change for the probe, keeps track of what the probe runs, and
    what it sends is what the probe needs. *)
Lemma filterUpdate_sync probeID up (W : gmap Z Check) :
  change_served probeID up →
  let W' := worldChange probeID W up in
  ∃ r, filterUpdate probeID up (dom W) = Ret r ∧
    match r with
    | None => W' = W
    | Some ch =>
        deliverable ch ∧ change (agentCheck <$> W) ch = agentCheck <$> W' ∧
        (if Operation ch =? CHECK_ADD then {[Id (change_Check ch)]} ∪ dom W
         else if Operation ch =? CHECK_DELETE then dom W ∖ {[Id (change_Check ch)]} else dom W) = dom W'
    end.
Proof.
  intros [Hop Hrun]. destruct (filterUpdate_table probeID up (dom W) Hop) as (r & -> & Hs).
  exists r. split; [done|]. destruct up as [op c]. cbn [change_Check Operation] in *.
  unfold worldChange, wants in *. cbn [change_Check Operation] in *.
  assert (Hdel : ∀ d, Id d = Id c → deliverable {| Operation := CHECK_DELETE; change_Check := d |} ∧
    change (agentCheck <$> W) {| Operation := CHECK_DELETE; change_Check := d |} = agentCheck <$> delete (Id c) W ∧
    dom W ∖ {[Id d]} = dom (delete (Id c) W)).
  { intros d Ed. split; [by left|]. by rewrite specChange_delete, Ed, fmap_delete, dom_delete_L. }
  destruct (bool_decide_reflect (probeID ∈ Probes c)) as [Hp|Hp]; simpl in *.
  2: { rewrite orb_true_r. case_bool_decide as He; simpl in Hs.
    - destruct Hs as (d & -> & Ed). by apply Hdel.
    - subst r. apply delete_id. by apply not_elem_of_dom. }
  destruct (Enabled c); simpl in *.
  2: { rewrite orb_true_r. case_bool_decide as He; simpl in Hs.
    - destruct Hs as (d & -> & Ed). by apply Hdel.
    - subst r. apply delete_id. by apply not_elem_of_dom. }
  specialize (Hrun eq_refl).
  assert (Hin : is_Some (W !! Id c) ↔ Id c ∈ dom W) by by rewrite elem_of_dom.
  destruct Hop as [->|[->| ->]]; simpl in *; case_bool_decide as He; simpl in Hs.
  - subst r. split; [by right|]. destruct (proj2 Hin He) as [d Hd]. rewrite Hd. rewrite specChange_add by done.
    rewrite lookup_fmap, Hd. simpl. split; [done|]. set_solver.
  - subst r. split; [by right|]. apply not_elem_of_dom in He. rewrite He. rewrite specChange_add by done.
    rewrite lookup_fmap, He. simpl. by rewrite fmap_insert, dom_insert_L.
  - subst r. split; [by right|]. rewrite specChange_update by done. rewrite fmap_insert. split; [done|].
    rewrite dom_insert_L. simpl. set_solver.
  - subst r. split; [by right|]. apply not_elem_of_dom in He. rewrite specChange_add by done.
    rewrite lookup_fmap, He. simpl. by rewrite fmap_insert, dom_insert_L.
  - destruct Hs as (d & -> & Ed). by apply Hdel.
  - subst r. apply delete_id. by apply not_elem_of_dom.
Qed.

(** ** Updates *)

Definition update_served (probeID : Z) (up : Changes) : Prop := Forall (change_served probeID) (ch_Checks up).

Lemma processUpdate_loop_sync probeID ups (W : gmap Z Check) :
  Forall (change_served probeID) ups →
  ∃ checks, processUpdate_loop probeID ups (dom W) = Ret (checks, dom (foldl (worldChange probeID) W ups)) ∧
    Forall deliverable checks ∧
    foldl change (agentCheck <$> W) checks = agentCheck <$> foldl (worldChange probeID) W ups.
Proof.
  intros Hs. revert W. induction Hs as [|up ups Hup _ IH]; intros W; [by exists []|]. cbn [processUpdate_loop foldl].
  destruct (filterUpdate_sync probeID up W Hup) as (r & -> & Hr). cbn [mbind go_bind].
  destruct r as [ch|].
  - destruct Hr as (Hd & Ec & ->). destruct (IH (worldChange probeID W up)) as (checks & -> & Hds & Ef).
    cbn [mbind go_bind]. exists (ch :: checks). split; [done|]. split; [by constructor|]. cbn [foldl]. by rewrite Ec.
  - rewrite Hr. apply IH.
Qed.

Lemma processUpdate_sync probeID up (W : gmap Z Check) :
  update_served probeID up →
  ∃ msg, processUpdate probeID up (dom W) = Ret (msg, dom (worldUpdate probeID W up)) ∧
    match msg with
    | None => agentCheck <$> worldUpdate probeID W up = agentCheck <$> W
    | Some msg => Forall deliverable (ch_Checks msg) ∧
        batch false (agentCheck <$> W) msg = agentCheck <$> worldUpdate probeID W up
    end.
Proof.
  intros Hs. unfold processUpdate, worldUpdate.
  destruct (processUpdate_loop_sync probeID (ch_Checks up) W Hs) as (checks & -> & Hd & Ef).
  cbn [mbind go_bind]. eexists. split; [done|].
  destruct checks as [|ch checks]; [destruct (Tenants up)|]; by auto.
Qed.

(** The updates the loop takes before it ends. *)
Fixpoint taken (sels : list (selected * bool)) : list Changes :=
  match sels with
  | (Update up, _) :: sels => up :: taken sels
  | (UpdatesClosed, _) :: sels => taken sels
  | _ => []
  end.

Lemma GetChanges_loop_sync probeID sels (W : gmap Z Check) :
  Forall (λ s, s.2 = true) sels → Forall (update_served probeID) (taken sels) →
  ∃ sent e, GetChanges_loop probeID sels (dom W) =
      Ret (sent, dom (foldl (worldUpdate probeID) W (taken sels)), e) ∧
    Forall (λ msg, Forall deliverable (ch_Checks msg)) sent ∧
    foldl (batch false) (agentCheck <$> W) sent = agentCheck <$> foldl (worldUpdate probeID) W (taken sels).
Proof.
  intros Hok. revert W. induction Hok as [|[sel ok] sels Hsel _ IH]; intros W Hs; [by exists [], Streaming|].
  simpl in Hsel. subst ok. destruct sel as [up| | | |]; cbn [GetChanges_loop taken] in *; try by eexists [], _.
  - apply Forall_cons in Hs as [Hup Hs]. cbn [foldl].
    destruct (processUpdate_sync probeID up W Hup) as (msg & -> & Hm). cbn [mbind go_bind].
    destruct (IH (worldUpdate probeID W up) Hs) as (sent & e & -> & Hd & Ef). destruct msg as [msg|].
    + destruct Hm as [Hmd Em]. cbn [mbind go_bind]. exists (msg :: sent), e. split; [done|].
      split; [by constructor|]. cbn [foldl]. by rewrite Em.
    + exists sent, e. rewrite <-Hm. auto.
  - by apply IH.
Qed.

(** ** The initial changes *)

Lemma knownMap_lookup known id t :
  NoDup known.*1 → knownMap known !! id = Some t ↔ (id, t) ∈ known.
Proof.
  intros Hnd. unfold knownMap.
  enough (Hall : ∀ m : gmap Z spec_float, fold_left (λ m e, <[e.1 := e.2]> m) known m !! id = Some t ↔
    (id, t) ∈ known ∨ (id ∉ known.*1 ∧ m !! id = Some t)).
  { rewrite Hall, lookup_empty. naive_solver. }
  induction known as [|[i x] known IH]; intros m; simpl; [set_solver|].
  apply NoDup_cons in Hnd as [Hi Hnd]. rewrite (IH Hnd). simpl in Hi. rewrite !elem_of_cons.
  destruct (decide (i = id)) as [->|Hne].
  - rewrite lookup_insert_eq. split.
    + intros [Hin|[_ [= ->]]]; auto.
    + intros [[[= ->]|Hin]|[Hn _]]; [by auto|by auto|]. tauto.
  - rewrite lookup_insert_ne by done. split.
    + intros [Hin|[Hn Hm]]; [by auto|]. right. split; [|done]. intros [->|?]; tauto.
    + intros [[[= -> _]|Hin]|[Hn Hm]]; [done|by auto|]. right. split; [tauto|done].
Qed.

(** The probe reports the checks it runs. *)
Definition reports (D : gmap Z mCheck) (known : list (Z * spec_float)) : Prop :=
  NoDup known.*1 ∧ ∀ id t, (id, t) ∈ known ↔ ∃ a, D !! id = Some a ∧ t = Modified (sm a).

Lemma knownMap_reports D known : reports D known → knownMap known = (λ a, Modified (sm a)) <$> D.
Proof.
  intros [Hnd Hin]. apply map_eq. intros id. apply option_eq. intros t.
  rewrite (knownMap_lookup _ _ _ Hnd), Hin, lookup_fmap, fmap_Some. naive_solver.
Qed.

Lemma reports_nil D known : reports D known → (known = [] ↔ D = ∅).
Proof.
  intros [_ Hin]. split.
  - intros ->. apply map_empty. intros id. destruct (D !! id) as [a|] eqn:E; [|done].
    assert ((id, Modified (sm a)) ∈ ([] : list (Z * spec_float))) as Hnil by (apply Hin; eauto). by apply elem_of_nil in Hnil.
  - intros ->. destruct known as [|[id t] known]; [done|].
    destruct (proj1 (Hin id t)) as (a & E & _); [by left|]. by rewrite lookup_empty in E.
Qed.

(** The listed checks agree with each other and with the versions the agent runs: an
    enabled check is the only one of its id, can run, and is what the agent runs if
    their modification times are the same. *)
Record consistent (D : gmap Z mCheck) (cs : list Check) : Prop := {
  co_run : ∀ c, c ∈ cs → Enabled c = true → runnable c;
  co_unique : ∀ c d, c ∈ cs → d ∈ cs → Enabled c = true → Enabled d = true → Id c = Id d → c = d;
  co_version : ∀ c a, c ∈ cs → Enabled c = true → D !! Id c = Some a →
    SFeqb (Modified (sm a)) (Modified c) = true → a = agentCheck c;
}.

(** The map of the ids of a list without conflicts. *)
Lemma list_to_map_ids (l : list Check) id c :
  (∀ c d, c ∈ l → d ∈ l → Id c = Id d → c = d) →
  (list_to_map (map (λ c, (Id c, c)) l) : gmap Z Check) !! id = Some c ↔ c ∈ l ∧ Id c = id.
Proof.
  intros Hu. split.
  - intros Hl%elem_of_list_to_map_2. apply list_elem_of_fmap in Hl as (d & [= -> ->] & Hd). done.
  - intros [Hin <-]. apply elem_of_list_to_map_1'.
    + intros d (e & [= E ->] & He)%list_elem_of_fmap. by apply Hu.
    + apply list_elem_of_fmap. by exists c.
Qed.

Lemma enabled_elem cs c : c ∈ List.filter Enabled cs ↔ c ∈ cs ∧ Enabled c = true.
Proof. rewrite !list_elem_of_In. apply filter_In. Qed.

Lemma enabledChecks_lookup D cs id c :
  consistent D cs → enabledChecks cs !! id = Some c ↔ c ∈ cs ∧ Enabled c = true ∧ Id c = id.
Proof.
  intros Hc. unfold enabledChecks. rewrite list_to_map_ids, enabled_elem; [tauto|].
  intros d e [Hd Hed]%enabled_elem [He Hee]%enabled_elem. by eapply co_unique.
Qed.

Lemma dom_enabledChecks cs : dom (enabledChecks cs) = list_to_set (map Id (List.filter Enabled cs)) :> gset Z.
Proof.
  unfold enabledChecks. rewrite dom_list_to_map_L. f_equal. rewrite <-list_fmap_compose. by apply list_fmap_ext.
Qed.

(** Applying the changes for a list of enabled checks to what the agent runs. *)
Lemma changes_applied (D0 : gmap Z mCheck) (cs l : list Check) D :
  consistent D0 cs → (∀ c, c ∈ l → c ∈ cs ∧ Enabled c = true) →
  (∀ c, c ∈ l → D !! Id c = D0 !! Id c ∨ D !! Id c = Some (agentCheck c)) →
  let R := foldl change D (omap (initialChange ((λ a, Modified (sm a)) <$> D0)) l) in
  (∀ c, c ∈ l → R !! Id c = Some (agentCheck c)) ∧ (∀ id, id ∉ map Id l → R !! id = D !! id).
Proof.
  intros Hc. revert D. induction l as [|c l IH]; intros D Hl HD; [split; [by intros ? ?%elem_of_nil|done]|].
  destruct (Hl c) as [Hin Hen]; [by left|]. pose proof (co_run _ _ Hc c Hin Hen) as Hrun.
  set (K := (λ a, Modified (sm a)) <$> D0) in *.
  set (D1 := match initialChange K c with Some ch => change D ch | None => D end).
  assert (H1 : D1 !! Id c = Some (agentCheck c) ∧ ∀ id, id ≠ Id c → D1 !! id = D !! id).
  { unfold D1, initialChange, K. rewrite lookup_fmap. destruct (D0 !! Id c) as [a|] eqn:E0; simpl.
    - destruct (SFeqb _ _) eqn:Eq.
      + split; [|done]. destruct (HD c) as [E|E]; [by left| |done].
        rewrite E, E0. f_equal. by eapply co_version.
      + rewrite specChange_update by done. split; [by rewrite lookup_insert_eq|].
        intros id Hid. by rewrite lookup_insert_ne.
    - rewrite specChange_add by done. destruct (HD c) as [E|E]; [by left| |].
      + rewrite E, E0. split; [by rewrite lookup_insert_eq|]. intros id Hid. by rewrite lookup_insert_ne.
      + by rewrite E. }
  destruct H1 as [H1 H1o].
  destruct (IH D1) as [I1 I2].
  { intros d Hd. apply Hl. by right. }
  { intros d Hd. destruct (decide (Id d = Id c)) as [E|Hne].
    - right. destruct (Hl d) as [Hd1 Hd2]; [by right|]. rewrite (co_unique _ _ Hc d c) by done. done.
    - rewrite H1o by done. apply HD. by right. }
  assert (ER : foldl change D (omap (initialChange K) (c :: l)) = foldl change D1 (omap (initialChange K) l)).
  { cbn [omap list_omap]. unfold D1. by destruct (initialChange K c). }
  cbn zeta. rewrite ER. split.
  - intros d [->|Hd]%elem_of_cons; [|by apply I1].
    destruct (decide (Id c ∈ map Id l)) as [(e & E & He)%list_elem_of_fmap|Hno].
    + destruct (Hl e) as [He1 He2]; [by right|]. rewrite (co_unique _ _ Hc c e) by done. by apply I1.
    + by rewrite I2.
  - intros id Hno. cbn [map] in Hno. rewrite not_elem_of_cons in Hno. destruct Hno as [Hne Hno].
    rewrite I2 by done. by apply H1o.
Qed.

Lemma deletions_applied ids D id :
  foldl change D (map deletion ids) !! id = if decide (id ∈ ids) then None else D !! id.
Proof.
  revert D. induction ids as [|i ids IH]; intros D; [done|]. cbn [map foldl]. rewrite IH.
  unfold deletion. rewrite specChange_delete. cbn [Id set_stamp].
  destruct (decide (id ∈ ids)) as [Hin|Hn].
  - rewrite decide_True by by right. done.
  - destruct (decide (id = i)) as [->|Hne].
    + rewrite decide_True by by left. by rewrite lookup_delete_eq.
    + rewrite decide_False by (by rewrite not_elem_of_cons). by rewrite lookup_delete_ne.
Qed.

(** A first list of checks, for an agent that runs nothing. *)
Lemma listed_applied cs (l : list Check) D :
  consistent ∅ cs → (∀ c, c ∈ l → c ∈ cs ∧ Enabled c = true) →
  (∀ c, c ∈ l → D !! Id c = None ∨ D !! Id c = Some (agentCheck c)) →
  let R := foldl ensure D (map agentCheck l) in
  (∀ c, c ∈ l → R !! Id c = Some (agentCheck c)) ∧ (∀ id, id ∉ map Id l → R !! id = D !! id).
Proof.
  intros Hc. revert D. induction l as [|c l IH]; intros D Hl HD; [split; [by intros ? ?%elem_of_nil|done]|].
  destruct (Hl c) as [Hin Hen]; [by left|]. pose proof (co_run _ _ Hc c Hin Hen) as Hrun. cbn [map foldl].
  set (D1 := ensure D (agentCheck c)).
  assert (H1 : D1 !! Id c = Some (agentCheck c) ∧ ∀ id, id ≠ Id c → D1 !! id = D !! id).
  { unfold D1, specEnsure. rewrite GlobalID_agentCheck. destruct (HD c) as [E|E]; [by left| |].
    - rewrite E, specStart_runnable by done. split; [by rewrite lookup_insert_eq|].
      intros id Hid. by rewrite lookup_insert_ne.
    - rewrite E, bool_decide_eq_true_2 by done. done. }
  destruct H1 as [H1 H1o]. destruct (IH D1) as [I1 I2].
  { intros d Hd. apply Hl. by right. }
  { intros d Hd. destruct (decide (Id d = Id c)) as [E|Hne].
    - right. destruct (Hl d) as [Hd1 Hd2]; [by right|]. rewrite (co_unique _ _ Hc d c) by done. done.
    - rewrite H1o by done. apply HD. by right. }
  cbn zeta. split.
  - intros d [->|Hd]%elem_of_cons; [|by apply I1].
    destruct (decide (Id c ∈ map Id l)) as [(e & E & He)%list_elem_of_fmap|Hno].
    + destruct (Hl e) as [He1 He2]; [by right|]. rewrite (co_unique _ _ Hc c e) by done. by apply I1.
    + by rewrite I2.
  - intros id Hno. cbn [map] in Hno. rewrite not_elem_of_cons in Hno. destruct Hno as [Hne Hno].
    rewrite I2 by done. by apply H1o.
Qed.

(** What runs after the changes is the map of enabled checks. *)
Lemma lookup_enabled D cs (R : gmap Z mCheck) :
  consistent D cs →
  (∀ c, c ∈ List.filter Enabled cs → R !! Id c = Some (agentCheck c)) →
  (∀ id, id ∉ map Id (List.filter Enabled cs) → R !! id = None) →
  R = agentCheck <$> enabledChecks cs.
Proof.
  intros Hc H1 H2. apply map_eq. intros id. rewrite lookup_fmap.
  destruct (enabledChecks cs !! id) as [c|] eqn:E; simpl.
  - apply (enabledChecks_lookup _ _ _ _ Hc) in E as (Hin & He & <-). apply H1. by apply enabled_elem.
  - apply H2. intros (c & -> & Hin)%list_elem_of_fmap. apply enabled_elem in Hin as [Hin He].
    assert (enabledChecks cs !! Id c = Some c) as E' by (by apply (enabledChecks_lookup _ _ _ _ Hc)). congruence.
Qed.

Lemma initialChanges_adds l : omap (initialChange ∅) l = map (λ c, {| Operation := CHECK_ADD; change_Check := c |}) l.
Proof.
  induction l as [|c l IH]; [done|]. cbn [omap list_omap map]. unfold initialChange at 1.
  rewrite lookup_empty. by f_equal.
Qed.

Lemma listed_adds l :
  listed recode (map (λ c, {| Operation := CHECK_ADD; change_Check := c |}) l) = map agentCheck l.
Proof.
  induction l as [|c l IH]; [done|]. unfold listed in *. cbn [omap list_omap map change_Check Operation].
  rewrite Z.eqb_refl, FromSM_agentCheck. by f_equal.
Qed.

Lemma initialChange_deliverable K c ch : runnable c → initialChange K c = Some ch → deliverable ch.
Proof.
  intros Hr. unfold initialChange. repeat case_match; intros [= <-]; by right.
Qed.

Lemma initial_sync D known cs :
  reports D known → consistent D cs →
  match sendInitialChanges known cs with
  | (None, m) => D = ∅ ∧ cs = [] ∧ m = ∅
  | (Some msg, m) => m = dom (enabledChecks cs) ∧ Forall deliverable (ch_Checks msg) ∧
      batch true D msg = agentCheck <$> enabledChecks cs
  end.
Proof.
  intros Hk Hc. pose proof (reports_nil _ _ Hk) as Hnil. pose proof (knownMap_reports _ _ Hk) as EK.
  set (l := List.filter Enabled cs).
  assert (Hl : ∀ c, c ∈ l → c ∈ cs ∧ Enabled c = true) by (intros c; apply enabled_elem).
  assert (Hmsg : cs ≠ [] ∨ known ≠ [] → match sendInitialChanges known cs with
    | (None, _) => False
    | (Some msg, m) => m = dom (enabledChecks cs) ∧ Forall deliverable (ch_Checks msg) ∧
      batch true D msg = agentCheck <$> enabledChecks cs end).
  { intros Hne.
    assert (E : sendInitialChanges known cs =
      (Some {| Tenants := [];
               ch_Checks := omap (initialChange (knownMap known)) l ++
                 map deletion (List.filter (λ cid, negb (bool_decide (cid ∈ (list_to_set (map Id l) : gset Z))))
                                 (map fst (map_to_list (knownMap known))));
               IsDeltaFirstBatch := match known with [] => false | _ => true end |},
       list_to_set (map Id l))).
    { unfold sendInitialChanges. destruct cs, known; by destruct Hne. }
    rewrite E. split; [symmetry; apply dom_enabledChecks|]. cbn [ch_Checks]. split.
    { apply Forall_app. split.
      - apply Forall_forall. intros ch (c & Hin & Ech)%list_elem_of_omap. destruct (Hl _ Hin).
        eapply initialChange_deliverable; [|done]. by apply (co_run _ _ Hc).
      - apply Forall_fmap, Forall_forall. intros id _. by left. }
    unfold specBatch. cbn [ch_Checks IsDeltaFirstBatch]. rewrite EK. destruct known as [|k known]; cbn [negb andb].
    - assert (D = ∅) as -> by by apply Hnil. rewrite fmap_empty, map_to_list_empty. cbn [map List.filter].
      rewrite app_nil_r, initialChanges_adds. unfold specFirstBatch. rewrite listed_adds.
      destruct (listed_applied cs l ∅ Hc Hl) as [R1 R2]; [by left|].
      apply (lookup_enabled ∅ cs); [done| |].
      + intros c Hin. apply map_lookup_filter_Some. split; [by apply R1|]. simpl.
        rewrite <-list_fmap_compose. apply list_elem_of_fmap. exists c. split; [|done]. simpl. by rewrite GlobalID_agentCheck.
      + intros id Hno. apply map_lookup_filter_None. left. by rewrite R2.
    - rewrite foldl_app. destruct (changes_applied D cs l D Hc Hl) as [R1 R2]; [by left|].
      set (gone := List.filter _ _).
      assert (Hgone : ∀ id, id ∈ gone ↔ is_Some (D !! id) ∧ id ∉ map Id l).
      { intros id. unfold gone. rewrite list_elem_of_In, filter_In, <-list_elem_of_In, negb_true_iff,
          bool_decide_eq_false, elem_of_list_to_set. apply and_iff_compat_r. split.
        - intros ([i t] & -> & Hin)%list_elem_of_fmap. apply elem_of_map_to_list in Hin. simpl.
          rewrite lookup_fmap, fmap_Some in Hin. destruct Hin as (a & -> & _). by eexists.
        - intros [a Ha]. apply list_elem_of_fmap. exists (id, Modified (sm a)). split; [done|].
          apply elem_of_map_to_list. by rewrite lookup_fmap, Ha. }
      apply (lookup_enabled D cs); [done| |].
      + intros c Hin. rewrite deletions_applied, decide_False; [by apply R1|].
        rewrite Hgone. intros [_ Hno]. apply Hno. apply list_elem_of_fmap. by exists c.
      + intros id Hno. rewrite deletions_applied. destruct (decide (id ∈ gone)) as [|Hng]; [done|].
        rewrite R2 by done. rewrite Hgone in Hng. apply eq_None_not_Some. tauto. }
  destruct cs as [|c cs]; [destruct known as [|k known]|].
  - simpl. split; [by apply Hnil|done].
  - generalize (Hmsg (or_intror (not_eq_sym (nil_cons (x := k) (l := known))))).
    by destruct (sendInitialChanges _ _) as [[msg|] m].
  - generalize (Hmsg (or_introl (not_eq_sym (nil_cons (x := c) (l := cs))))).
    by destruct (sendInitialChanges _ _) as [[msg|] m].
Qed.

(** ** A connection *)

Notation process := (processChanges recode k6 metricsError scraperFactory).

Lemma deliverable_ok ch : deliverable ch → change_ok recode ch.
Proof.
  intros [Hd|Hr] Hne check; [done|]. rewrite FromSM_agentCheck. intros [= <-]. exact (proj1 Hr).
Qed.

Lemma deliverable_conn_ok sent : Forall (λ msg, Forall deliverable (ch_Checks msg)) sent → conn_ok recode sent.
Proof. intros Hd. eapply Forall_impl; [exact Hd|]. intros msg Hm. eapply Forall_impl; [exact Hm|]. apply deliverable_ok. Qed.

Lemma knownChecks_reports u : reports (desired u) (knownChecks u).
Proof. destruct (knownChecks_spec u) as [Hnd Hin]. by split. Qed.

(** C8: the agent runs what the API wants. An agent connects; the enabled checks listed for
    its probe have ids of their own, can run there, and are what it runs under their id if
    the modification times are the same; it runs some check or some is listed; the sends
    succeed, and the updates are of known kinds, with checks that can run where they should;
    messages arrive as they were sent. The server sends the difference with the enabled
    checks listed for the probe, and then each update filtered for the probe. Applied by
    the agent, the messages leave it running exactly the checks that the database listed,
    changed by the updates as the probe should see them; and the set of checks that the
    server keeps for the probe is the set of checks that run there. (Without any check on
    either side nothing is sent first, and the agent takes the first update for the list:
    [first_update_taken_as_list].) *)
Theorem agent_matches_api probeID u db sels :
  inv u → consistent (desired u) (ListChecksForProbe probeID db) →
  ListChecksForProbe probeID db ≠ [] ∨ knownChecks u ≠ [] →
  Forall (λ s, s.2 = true) sels → Forall (update_served probeID) (taken sels) →
  let W := foldl (worldUpdate probeID) (enabledChecks (ListChecksForProbe probeID db)) (taken sels) in
  ∃ sent e u', GetChanges_body probeID (knownChecks u) db true sels = Ret (sent, dom W, e) ∧
    process sent true u = Ret u' ∧ inv u' ∧ desired u' = agentCheck <$> W.
Proof.
  intros Hi Hc Hne Hok Hs. cbn zeta. unfold GetChanges_body.
  pose proof (initial_sync _ _ _ (knownChecks_reports u) Hc) as Hinit.
  destruct (sendInitialChanges _ _) as [[msg|] m].
  - destruct Hinit as (-> & Hd & Eb).
    destruct (GetChanges_loop_sync probeID sels (enabledChecks (ListChecksForProbe probeID db)) Hok Hs) as (sent & e & -> & Hds & Ef). cbn [mbind go_bind].
    destruct (processChanges_sim recode k6 metricsError scraperFactory (msg :: sent) (desired u) u)
      as (u' & Eu & Hi' & Ed); [by split|apply deliverable_conn_ok; by constructor|].
    exists (msg :: sent), e, u'. split_and!; [done|done|done|]. rewrite Ed. cbn [specConnection]. by rewrite Eb.
  - destruct Hinit as (ED & Ecs & _). exfalso. destruct Hne as [Hne|Hne]; [done|].
    apply Hne. by apply (reports_nil _ _ (knownChecks_reports u)).
Qed.

(** ** The data of the server, and a new agent *)

(** Validation looks neither at the id nor at the times of a check. *)
Class StampedValidator := validate_stamp id created modified c :
  validate (set_stamp id created modified c) = validate c.

Context `{StampedValidator}.

Lemma agentCheck_local c : 1 ≤ Id c → 1 ≤ TenantId c → agentCheck c = {| sm := c; RegionId := 0 |}.
Proof.
  intros Hid Ht. unfold agentCheck. rewrite (GetLocal_local (Id c)), (GetLocal_local (TenantId c)) by done.
  simpl. destruct (TenantId c =? 0); by destruct c.
Qed.

(** The checks of the database that should run on the probe. *)
Definition assigned (probeID : Z) (db : Db) : gmap Z mCheck :=
  (λ c, {| sm := c; RegionId := 0 |}) <$> filter (λ p, wants probeID p.2 = true) (checks db).

Lemma stored_agentCheck db id c :
  dbinv db → checks db !! id = Some c → Id c = id ∧ agentCheck c = {| sm := c; RegionId := 0 |} ∧ isValid (agentCheck c) = true.
Proof.
  intros Hdb E. destruct (di_check _ Hdb _ _ E) as (Hid & Hpos & [t Ht] & (i & cr & mo & Hv)).
  destruct (di_tenant _ Hdb _ _ Ht) as [_ Htpos].
  rewrite agentCheck_local by (by rewrite ?Hid). split_and!; [done..|].
  unfold isValid. simpl. rewrite validate_stamp in Hv. by rewrite Hv.
Qed.

Lemma loaded_consistent probeID db :
  dbinv db → indexed db →
  (∀ id c, checks db !! id = Some c → wants probeID c = true →
     well_formed c ∧ startable k6 metricsError scraperFactory {| sm := c; RegionId := 0 |} = true) →
  consistent ∅ (ListChecksForProbe probeID db) ∧
  agentCheck <$> enabledChecks (ListChecksForProbe probeID db) = assigned probeID db.
Proof.
  intros Hdb Hix Hrun.
  assert (Hin : ∀ c, c ∈ ListChecksForProbe probeID db → Enabled c = true →
    checks db !! Id c = Some c ∧ wants probeID c = true).
  { intros c (id & E & Hp)%(listed_exactly _ _ _ Hix) He.
    destruct (stored_agentCheck _ _ _ Hdb E) as (-> & _). split; [done|].
    unfold wants. by rewrite bool_decide_eq_true_2, He. }
  assert (Hc : consistent ∅ (ListChecksForProbe probeID db)).
  { split.
    - intros c Hl He. destruct (Hin c Hl He) as [E Hw]. destruct (Hrun _ _ E Hw) as [Hwf Hst].
      destruct (stored_agentCheck _ _ _ Hdb E) as (_ & Ea & Hv). split_and!; [done|done|by rewrite Ea].
    - intros c d Hc Hd Hec Hed E. destruct (Hin c Hc Hec) as [E1 _], (Hin d Hd Hed) as [E2 _]. congruence.
    - intros c a _ _. by rewrite lookup_empty. }
  split; [done|]. apply map_eq. intros id. unfold assigned. rewrite !lookup_fmap.
  set (F := filter _ _).
  destruct (checks db !! id) as [c|] eqn:E; simpl.
  - destruct (stored_agentCheck _ _ _ Hdb E) as (Hid & Ea & _).
    destruct (wants probeID c) eqn:Ew; simpl.
    + assert (F !! id = Some c) as -> by by apply map_lookup_filter_Some.
      assert (enabledChecks (ListChecksForProbe probeID db) !! id = Some c) as ->; [|by simpl; rewrite Ea].
      apply andb_true_iff in Ew as [Hp%bool_decide_eq_true He]. apply (enabledChecks_lookup _ _ _ _ Hc).
      split_and!; [|done|done]. apply (listed_exactly _ _ _ Hix). eauto.
    + assert (F !! id = None) as ->.
      { apply map_lookup_filter_None. right. intros d [= <-]%(eq_trans (eq_sym E)) ?. simpl in *. congruence. }
      apply fmap_None, eq_None_not_Some. intros [d Hd].
      apply (enabledChecks_lookup _ _ _ _ Hc) in Hd as (Hl & He & <-). destruct (Hin d Hl He). congruence.
  - assert (F !! id = None) as -> by (apply map_lookup_filter_None; by left).
    apply fmap_None, eq_None_not_Some. intros [d Hd].
    apply (enabledChecks_lookup _ _ _ _ Hc) in Hd as (Hl & He & <-). destruct (Hin d Hl He). congruence.
Qed.

(** From the data file of the server to the checks that run. When the file loads, and
    a new agent authenticates and asks for changes, it ends up running exactly the enabled
    checks of the file that name its probe, as they are stored, provided they carry
    settings and this agent can start them: they need not be valid by assumption, since the
    database accepted them. *)
Theorem loaded_checks_run tenantsAt probesAt checksAt d db err md probeID :
  loadData tenantsAt probesAt checksAt d New = Ret (db, err) →
  validateToken md db = Ok probeID →
  (∀ id c, checks db !! id = Some c → wants probeID c = true →
     well_formed c ∧ startable k6 metricsError scraperFactory {| sm := c; RegionId := 0 |} = true) →
  ∃ p, FindProbeByID probeID db = Ok p ∧
  ∃ sent e u, GetChanges_body probeID (knownChecks newUpdater) db true [] = Ret (sent, dom (assigned probeID db), e) ∧
    process sent true newUpdater = Ret u ∧ desired u = assigned probeID db.
Proof.
  intros El Etok Hrun. destruct (loadData_good _ _ _ _ _ _ El) as [Hdb Hix].
  apply validateToken_spec in Etok as (auth & _ & _ & _ & Etok).
  destruct (di_token _ Hdb _ _ Etok) as [p Hp]. exists p. split; [unfold FindProbeByID; by rewrite Hp|].
  destruct (loaded_consistent _ _ Hdb Hix Hrun) as [Hc Ha].
  assert (Hdom : dom (assigned probeID db) = dom (enabledChecks (ListChecksForProbe probeID db)) :> gset Z).
  { by rewrite <-Ha, dom_fmap_L. }
  unfold GetChanges_body. pose proof (initial_sync _ _ _ (knownChecks_reports newUpdater) Hc) as Hinit.
  destruct (sendInitialChanges _ _) as [[msg|] m].
  - destruct Hinit as (-> & Hd & Eb). cbn [GetChanges_loop mbind go_bind].
    destruct (processChanges_sim recode k6 metricsError scraperFactory [msg] ∅ newUpdater)
      as (u & Eu & Hi' & Ed); [by split; [apply newUpdater_inv|]|apply deliverable_conn_ok; by constructor|].
    exists [msg], Streaming, u. rewrite Hdom. split_and!; [done|done|]. rewrite Ed, <-Ha. exact Eb.
  - destruct Hinit as (_ & Ecs & ->). cbn [GetChanges_loop]. exists [], Streaming, newUpdater.
    rewrite Hdom, <-Ha, Ecs, dom_enabledChecks. split_and!; [done|done|].
    unfold desired, enabledChecks. simpl. by rewrite !fmap_empty.
Qed.

End sync.

#[export] Instance checks_extra_stamped urlParse regexpCompile ParseMediaType vn vv :
  @StampedValidator (checks_extra_validator urlParse regexpCompile ParseMediaType vn vv).
Proof. intros id created modified c. reflexivity. Qed.

(** ** Examples *)

Section examples.
#[local] Existing Instance example_validator.

Definition example_data : data :=
  {| d_Tenants := [example_tenant 3]; d_Probes := [example_probe "one"];
     d_ProbeTokens := {[0 := "dG9rZW4="%string]}; d_Checks := [example_job 7 "a" [1]; example_job 8 "b" [1]] |}.
Definition example_clock (n : nat) : Z := 1000000000.
Definition example_db : Db :=
  match loadData example_clock example_clock example_clock example_data New with Ret (db, _) => db | Panic _ => New end.

Lemma loaded_checks_run_witness :
  ∃ sent e u, GetChanges_body 1 (knownChecks newUpdater) example_db true [] =
      Ret (sent, dom (assigned 1 example_db), e) ∧
    processChanges Some true (λ _, None) (λ _, None) sent true newUpdater = Ret u ∧
    (λ c, Job (sm c)) <$> desired u !! 2 = Some "b"%string.
Proof.
  assert (El : ∃ err, loadData example_clock example_clock example_clock example_data New = Ret (example_db, err))
    by (eexists; vm_compute; reflexivity).
  destruct El as [err El].
  assert (Hc : checks example_db = list_to_map (map (λ c, (Id c, c)) (ListChecks example_db)))
    by (vm_compute; reflexivity).
  destruct (loaded_checks_run Some true (λ _, None) (λ _, None) (λ _, eq_refl) example_clock example_clock
    example_clock example_data example_db err (Some (Some ["Bearer dG9rZW4="%string])) 1 El)
    as (p & _ & sent & e & u & Eg & Eu & Ed).
  - vm_compute. reflexivity.
  - intros id c E Hw. rewrite Hc in E. apply elem_of_list_to_map_2, list_elem_of_fmap in E as (d & [= -> ->] & Hin).
    assert (Hd : Settings d = instanceSettings CheckTypePing).
    { revert Hin. generalize d. apply Forall_forall. vm_compute. repeat constructor. }
    split; [|unfold startable; simpl; unfold filteredOut, Type_; simpl; by rewrite Hd].
    split; unfold Type_; rewrite Hd; [intros ? E; done|by exists CheckTypePing].
  - exists sent, e, u. split; [exact Eg|]. split; [exact Eu|]. rewrite Ed. vm_compute. reflexivity.
Defined.

(** An agent runs a check at the version of the server, which then updates it. *)
Definition example_listed : Db := set_checks {[1 := example_check 1000 1]} {[1 := [1]]} New.
Definition example_update (op : Z) (c : Check) : CheckChange := {| Operation := op; change_Check := c |}.
Definition example_sels : list (selected * bool) :=
  [(Update {| Tenants := []; ch_Checks := [example_update CHECK_UPDATE (example_check 2000 2)];
              IsDeltaFirstBatch := false |}, true); (StreamDone, true)].

Lemma example_start_inv : inv example_start.
Proof.
  destruct (handleChangeBatch_sim Some true (λ _, None) (λ _, None) (example_batch (example_check 1000 1) CHECK_ADD)
    true ∅ newUpdater (conj newUpdater_inv eq_refl)) as (u & E & Hi & _).
  - constructor; [|constructor]. intros _ check [= <-]. apply example_check_well_formed.
  - unfold example_start. by rewrite E.
Qed.

Lemma example_check_runnable f m :
  f = 1000 ∨ f = 2000 → runnable true (λ _, None) (λ _, None) (example_check f m).
Proof. intros [->| ->]; (split_and!; [apply example_check_well_formed|by vm_compute|by vm_compute]). Qed.

Lemma agent_matches_api_witness :
  ∃ sent ex e u', GetChanges_body 1 (knownChecks example_start) example_listed true example_sels = Ret (sent, ex, e) ∧
    processChanges Some true (λ _, None) (λ _, None) sent true example_start = Ret u' ∧
    (λ c, Frequency (sm c)) <$> desired u' !! 1 = Some 2000.
Proof.
  destruct (agent_matches_api Some true (λ _, None) (λ _, None) (λ _, eq_refl) 1 example_start example_listed example_sels)
    as (sent & e & u' & Eg & Eu & _ & Ed).
  - apply example_start_inv.
  - assert (Hone : ∀ c, c ∈ ListChecksForProbe 1 example_listed → c = example_check 1000 1).
    { intros c Hin. apply list_elem_of_singleton. exact Hin. }
    split.
    + intros c ->%Hone _. apply example_check_runnable. by left.
    + intros c d ->%Hone ->%Hone. done.
    + intros c a ->%Hone _ Ea _. vm_compute in Ea. injection Ea as <-. vm_compute. reflexivity.
  - left. vm_compute. discriminate.
  - repeat constructor.
  - constructor; [|constructor]. constructor; [|constructor]. split; [by right; left|].
    intros _. apply example_check_runnable. by right.
  - eexists sent, _, e, u'. split; [exact Eg|]. split; [exact Eu|]. rewrite Ed. vm_compute. reflexivity.
Defined.

(** Nothing is sent to a probe without checks; its first update then counts as its list
    of checks, in which the agent looks at additions only: a check that is added and
    deleted by the same message stays on the agent, and the server does not know it. *)
Lemma first_update_taken_as_list :
  let sels := [(Update {| Tenants := []; IsDeltaFirstBatch := false;
      ch_Checks := [example_update CHECK_ADD (example_check 1000 1); example_update CHECK_DELETE (example_check 1000 1)] |}, true)] in
  ∃ sent e u, GetChanges_body 1 (knownChecks newUpdater) New true sels = Ret (sent, ∅, e) ∧
    processChanges Some true (λ _, None) (λ _, None) sent true newUpdater = Ret u ∧
    is_Some (desired u !! 1).
Proof. eexists _, _, _. split; [vm_compute; reflexivity|]. split; [vm_compute; reflexivity|]. vm_compute. by eexists. Qed.

End examples.
