(* ===== verification/Caches.v ===== *)
(** * Caches

    [internal/cache/]: the local and the memcached clients, the kinds of cache, the
    resolution of the addresses of memcached servers, and the choice that
    [setupCache] (src/cmd/synthetic-monitoring-agent/main.go) makes between them.

    The stores behind the clients (otter and memcached) are third-party: the class
    [ByteStore] says what the agent relies on, and a store may lose entries at any
    time.  The codec (encoding/gob) is a parameter, and so is the choice that the memcached
    library makes of a server for a key.  Clients that share their servers, as agents may, are
    one network. *)
From S2P Require Import Prelude Strs Net Checks Tenants.
From Stdlib Require Import Floats.SpecFloat.

Open Scope Z_scope.

(** ** The stores *)

(** A deadline in nanoseconds; [None] is never. *)
Definition alive (deadline : option Z) (now : Z) : Prop :=
  match deadline with None => True | Some d => now < d end.

Class ByteStore (S B : Type) := {
  bs_empty : S;
  bs_get : Z → string → S → option B;
  bs_set : string → B → option Z → S → S;
  bs_delete : string → S → S;
  bs_flush : S → S;
  bs_evolves : S → S → Prop;
  bs_get_empty now k : bs_get now k bs_empty = None;
  bs_get_set now k k' v d s x : bs_get now k (bs_set k' v d s) = Some x →
    (k = k' ∧ x = v ∧ alive d now) ∨ (k ≠ k' ∧ bs_get now k s = Some x);
  bs_get_delete now k k' s x : bs_get now k (bs_delete k' s) = Some x → k ≠ k' ∧ bs_get now k s = Some x;
  bs_get_flush now k s : bs_get now k (bs_flush s) = None;
  bs_get_evolves now k s s' x : bs_evolves s s' → bs_get now k s' = Some x → bs_get now k s = Some x;
}.

(** ** Keys and expirations *)

Inductive cacheErr := ErrCacheMiss | ErrEmptyKey | ErrKeyLength | ErrEncode | ErrDecode | ErrStore.

Definition MaxKeyLength : Z := 250.
Definition validateKey (key : string) : option cacheErr :=
  if String.eqb key "" then Some ErrEmptyKey
  else if MaxKeyLength <? slen key then Some ErrKeyLength
  else None.

(** The [int32] conversion of a float truncates; out of range the result is
    implementation-defined ([minInt32] on amd64). *)
Definition float_to_int32 (f : spec_float) : Z :=
  let z := float_to_int64 f in
  if (-2147483648 <=? z) && (z <=? 2147483647) then z else -2147483648.
Definition expirationSec (expiration : Z) : Z := float_to_int32 (seconds expiration).

Definition day : Z := 24 * 3600 * 1000000000.

(** When an entry of the local cache expires: otter's writing policy, made by
    [NewLocal], and [SetExpiresAfter]. *)
Definition localTTL (defaultTTL expiration : Z) : Z :=
  let ttl := if expiration =? 0 then defaultTTL else expiration in
  if 0 <? ttl then ttl else if 0 <? defaultTTL then defaultTTL else day.

(** ** Addresses of memcached servers *)

Definition JoinHostPort (host port : string) : string :=
  if string_has colon host then "[" +:+ host +:+ "]:" +:+ port else host +:+ ":" +:+ port.

(** [resolveServers]: [lookup] is the resolver's answer, the addresses as text. *)
Definition resolveServer (lookup : string → option (list string)) (server : string) : list string :=
  match SplitHostPort server with
  | None => []
  | Some (host, port) =>
      if ParseIP host then [server]
      else match lookup host with
           | Some ips => map (λ ip, JoinHostPort ip port) ips
           | None => []
           end
  end.
Definition resolveServers (servers : list string) (lookup : string → option (list string)) : list string :=
  concat (map (resolveServer lookup) servers).

Inductive setupErr := ErrNoServers | ErrEmptyServer | ErrInvalidServer | ErrNoneResolved | ErrSetServers.

(** The loop that validates the addresses; the trimmed ones replace them. *)
Fixpoint validServers (servers : list string) : result setupErr (list string) :=
  match servers with
  | [] => Ok []
  | server :: servers =>
      let server := TrimSpace server in
      if String.eqb server "" then Err ErrEmptyServer
      else match SplitHostPort server with
           | None => Err ErrInvalidServer
           | Some _ => servers ← validServers servers; Ok (server :: servers)
           end
  end.

(** A client: the servers of its configuration, and those it uses. [accepts] is whether
    the server list takes the addresses. *)
Record serverState := { originalServers : list string; serverList : list string }.

Definition NewMemcachedClient (servers : list string) (lookup : string → option (list string))
    (accepts : list string → bool) : result setupErr serverState :=
  match servers with
  | [] => Err ErrNoServers
  | _ =>
      servers ← validServers servers;
      match resolveServers servers lookup with
      | [] => Err ErrNoneResolved
      | resolved => if accepts resolved then Ok {| originalServers := servers; serverList := resolved |}
                    else Err ErrSetServers
      end
  end.

(** One tick of [refreshServers]. *)
Definition refresh (c : serverState) (answer : (string → option (list string)) * (list string → bool)) : serverState :=
  match resolveServers (originalServers c) answer.1 with
  | [] => c
  | resolved => if answer.2 resolved then {| originalServers := originalServers c; serverList := resolved |} else c
  end.

(** Whatever the resolver answers over time, a client always has a server, and all its
    servers come from one resolution of the configured addresses that was accepted. *)
Lemma servers_never_empty servers lookup accepts c answers :
  NewMemcachedClient servers lookup accepts = Ok c →
  let c' := fold_left refresh answers c in
  serverList c' ≠ [] ∧ originalServers c' = originalServers c ∧
  ∃ lookup' accepts', (lookup', accepts') ∈ (lookup, accepts) :: answers ∧ accepts' (serverList c') = true ∧
    serverList c' = resolveServers (originalServers c) lookup'.
Proof.
  intros Hnew.
  assert (H0 : serverList c ≠ [] ∧ accepts (serverList c) = true ∧
    serverList c = resolveServers (originalServers c) lookup).
  { unfold NewMemcachedClient in Hnew. destruct servers as [|s servers]; [done|].
    destruct (validServers (s :: servers)) as [l|]; [|done]. cbn in Hnew.
    destruct (resolveServers l lookup) as [|a r] eqn:Er; [done|].
    destruct (accepts (a :: r)) eqn:Ea; [|done]. injection Hnew as <-. done. }
  clear Hnew. cbn zeta. destruct H0 as (Hne & Ha & Hr).
  assert (Hinv : ∀ answers done c1, originalServers c1 = originalServers c → serverList c1 ≠ [] →
    (∃ l a, (l, a) ∈ done ∧ a (serverList c1) = true ∧ serverList c1 = resolveServers (originalServers c) l) →
    let c' := fold_left refresh answers c1 in
    serverList c' ≠ [] ∧ originalServers c' = originalServers c ∧
    ∃ l a, (l, a) ∈ done ++ answers ∧ a (serverList c') = true ∧
      serverList c' = resolveServers (originalServers c) l).
  { clear. induction answers as [|[l a] answers IH]; intros done c1 Ho Hne Hex; simpl.
    { rewrite app_nil_r. auto. }
    rewrite cons_middle, app_assoc. apply IH.
    - unfold refresh. cbn. destruct (resolveServers _ l); [done|]. by destruct (a _).
    - unfold refresh. cbn. destruct (resolveServers _ l); [done|]. by destruct (a _).
    - assert (Hold : ∃ l' a', (l', a') ∈ done ++ [(l, a)] ∧ a' (serverList c1) = true ∧
        serverList c1 = resolveServers (originalServers c) l').
      { destruct Hex as (l' & a' & ? & ?). exists l', a'. set_solver. }
      unfold refresh. cbn. rewrite Ho. destruct (resolveServers (originalServers c) l) as [|x r] eqn:Er; [done|].
      destruct (a (x :: r)) eqn:Ea; [|done]. exists l, a. cbn. split; [set_solver|done]. }
  apply (Hinv answers [(lookup, accepts)]); [done|done|]. exists lookup, accepts. split; [left|done].
Qed.

(** ** The clients *)

(** What the two clients differ in: the check of a key, and the deadline an entry gets
    when it is set with an expiration at a time. *)
Record client := {
  cl_validate : string → option cacheErr;
  cl_deadline : Z → Z → option Z }.

Definition localClient (defaultTTL : Z) : client :=
  {| cl_validate := λ _, None;
     cl_deadline := λ now expiration, Some (now + localTTL defaultTTL expiration) |}.

(** [serverDeadline]: when a memcached server lets an item set with a number of seconds
    expire. *)
Definition memcachedClient (serverDeadline : Z → Z → option Z) : client :=
  {| cl_validate := validateKey;
     cl_deadline := λ now expiration, serverDeadline now (expirationSec expiration) |}.

(** How a request to the store ends: done, or with an error before or after it took
    effect. The local store never fails. *)
Inductive fate := Done | LostBefore | LostAfter.

(** The stores by address, and the clients, each with the servers it uses: those of
    memcached may differ, since each resolves the addresses again when it likes.  A local
    cache is a client of one server, its own. *)
Record network (S : Type) := { nw_clients : nat → serverState; nw_stores : gmap string S }.
#[global] Arguments Build_network {S} _ _.
#[global] Arguments nw_clients {S} _.
#[global] Arguments nw_stores {S} _.

Definition localServer : serverState := {| originalServers := []; serverList := [EmptyString] |}.
Definition localPick (servers : list string) (key : string) : option string := head servers.

Section clients.
Context {S B : Type} `{ByteStore S B} {V : Type}.
(** [encode]; [decode] fills the destination. *)
Variable encode : V → option B.
Variable decode : B → V → option V.
Variable cl : client.
(** [ServerList.PickServer]. *)
Variable pick : list string → string → option string.

Notation network := (network S).

Definition store_at (a : string) (n : network) : S := default bs_empty (nw_stores n !! a).
Definition set_store (a : string) (s : S) (n : network) : network :=
  {| nw_clients := nw_clients n; nw_stores := <[a := s]> (nw_stores n) |}.
Definition set_client (i : nat) (c : serverState) (n : network) : network :=
  {| nw_clients := λ j, if decide (j = i) then c else nw_clients n j; nw_stores := nw_stores n |}.
(** The server that a client asks for a key. *)
Definition target (i : nat) (key : string) (n : network) : option string :=
  pick (serverList (nw_clients n i)) key.

Definition applied (f : fate) (a : string) (s' : S) (n : network) : network * option cacheErr :=
  match f with
  | Done => (set_store a s' n, None)
  | LostBefore => (n, Some ErrStore)
  | LostAfter => (set_store a s' n, Some ErrStore)
  end.

Definition Set_ (i : nat) (now : Z) (key : string) (value : V) (expiration : Z) (f : fate) (n : network)
    : network * option cacheErr :=
  match cl_validate cl key with
  | Some e => (n, Some e)
  | None =>
      match encode value with
      | None => (n, Some ErrEncode)
      | Some data =>
          match target i key n with
          | None => (n, Some ErrStore)
          | Some a => applied f a (bs_set key data (cl_deadline cl now expiration) (store_at a n)) n
          end
      end
  end.

(** [Get]: the destination it leaves, or its error; [fails] is an error of the store. *)
Definition Get_ (i : nat) (now : Z) (key : string) (dest : V) (fails : bool) (n : network) : result cacheErr V :=
  match cl_validate cl key with
  | Some e => Err e
  | None =>
      match target i key n with
      | None => Err ErrStore
      | Some a =>
          if fails then Err ErrStore
          else match bs_get now key (store_at a n) with
               | None => Err ErrCacheMiss
               | Some data => match decode data dest with Some v => Ok v | None => Err ErrDecode end
               end
      end
  end.

Definition Delete_ (i : nat) (key : string) (f : fate) (n : network) : network * option cacheErr :=
  match cl_validate cl key with
  | Some e => (n, Some e)
  | None =>
      match target i key n with
      | None => (n, Some ErrStore)
      | Some a => applied f a (bs_delete key (store_at a n)) n
      end
  end.

(** [FlushAll] asks one server after the other, until one fails. *)
Fixpoint flushEach (servers : list string) (fs : list fate) (n : network) : network * option cacheErr :=
  match servers with
  | [] => (n, None)
  | a :: servers =>
      match applied (hd Done fs) a (bs_flush (store_at a n)) n with
      | (n, None) => flushEach servers (tl fs) n
      | r => r
      end
  end.
Definition Flush_ (i : nat) (fs : list fate) (n : network) : network * option cacheErr :=
  flushEach (serverList (nw_clients n i)) fs n.

(** ** Runs *)

Inductive op :=
  | OpSet (i : nat) (now : Z) (key : string) (value : V) (expiration : Z) (f : fate)
  | OpDelete (i : nat) (key : string) (f : fate)
  | OpFlush (i : nat) (fs : list fate)
  | OpEvict (a : string) (s : S)
  | OpRefresh (i : nat) (answer : (string → option (list string)) * (list string → bool)).

Definition run_op (o : op) (n : network) : network :=
  match o with
  | OpSet i now key value expiration f => (Set_ i now key value expiration f n).1
  | OpDelete i key f => (Delete_ i key f n).1
  | OpFlush i fs => (Flush_ i fs n).1
  | OpEvict a s => set_store a s n
  | OpRefresh i answer => set_client i (refresh (nw_clients n i) answer) n
  end.

(** Evictions only lose entries. *)
Fixpoint possible (ops : list op) (n : network) : Prop :=
  match ops with
  | [] => True
  | o :: ops => (∀ a s, o = OpEvict a s → bs_evolves (store_at a n) s) ∧ possible ops (run_op o n)
  end.
Definition run_ops (ops : list op) (n : network) : network := fold_left (λ n o, run_op o n) ops n.

Definition took (f : fate) : bool := match f with LostBefore => false | _ => true end.

(** The servers that a flush reaches. *)
Fixpoint flushed (servers : list string) (fs : list fate) : list string :=
  match servers with
  | [] => []
  | a :: servers =>
      match hd Done fs with
      | Done => a :: flushed servers (tl fs)
      | LostAfter => [a]
      | LostBefore => []
      end
  end.

(** The operation replaces or removes the entry of a key on a server. *)
Definition overrides (a key : string) (o : op) (n : network) : bool :=
  match o with
  | OpSet i _ k value _ f =>
      took f && String.eqb k key && bool_decide (cl_validate cl k = None) && bool_decide (is_Some (encode value)) &&
      bool_decide (target i k n = Some a)
  | OpDelete i k f =>
      took f && String.eqb k key && bool_decide (cl_validate cl k = None) && bool_decide (target i k n = Some a)
  | OpFlush i fs => bool_decide (a ∈ flushed (serverList (nw_clients n i)) fs)
  | OpEvict _ _ | OpRefresh _ _ => false
  end.
(** No operation of a run does. *)
Fixpoint kept (a key : string) (ops : list op) (n : network) : bool :=
  match ops with [] => true | o :: ops => negb (overrides a key o n) && kept a key ops (run_op o n) end.

Lemma run_ops_app l1 l2 n : run_ops (l1 ++ l2) n = run_ops l2 (run_ops l1 n).
Proof. apply fold_left_app. Qed.
Lemma kept_app a key l1 l2 n : kept a key (l1 ++ l2) n = kept a key l1 n && kept a key l2 (run_ops l1 n).
Proof. revert n. induction l1 as [|o l1 IH]; intros n; [done|]. simpl. by rewrite IH, andb_assoc. Qed.

Lemma store_at_set a a' s n : store_at a (set_store a' s n) = if decide (a = a') then s else store_at a n.
Proof.
  unfold store_at, set_store. simpl. case_decide; [subst; by rewrite lookup_insert_eq|].
  by rewrite lookup_insert_ne.
Qed.

(** The data was written under the key on the server by the last operation on it, and still
    lives. *)
Definition written (n0 : network) (ops : list op) (a : string) (now : Z) (key : string) (data : B) : Prop :=
  ∃ l1 i t value expiration f l2, ops = l1 ++ OpSet i t key value expiration f :: l2 ∧
    took f = true ∧ target i key (run_ops l1 n0) = Some a ∧ encode value = Some data ∧
    alive (cl_deadline cl t expiration) now ∧
    kept a key l2 (run_ops (l1 ++ [OpSet i t key value expiration f]) n0) = true.

Lemma written_more n0 ops o a now key data :
  overrides a key o (run_ops ops n0) = false → written n0 ops a now key data → written n0 (ops ++ [o]) a now key data.
Proof.
  intros Ho (l1 & i & t & value & expiration & f & l2 & -> & Hf & Ht & He & Ha & Hl).
  exists l1, i, t, value, expiration, f, (l2 ++ [o]). rewrite <-app_assoc. split_and!; try done.
  rewrite kept_app, Hl. cbn [kept andb]. rewrite <-run_ops_app, <-app_assoc. cbn [app]. by rewrite Ho.
Qed.

(** What an operation does to an entry: it keeps it, or it removed it, or it wrote it. *)
Lemma applied_store f a a' s' n : store_at a (applied f a' s' n).1 =
  if took f && bool_decide (a' = a) then s' else store_at a n.
Proof.
  destruct f; simpl; rewrite ?store_at_set; [|done|]; repeat case_decide; try case_bool_decide; congruence.
Qed.
Lemma flushEach_store servers fs n a now key data :
  bs_get now key (store_at a (flushEach servers fs n).1) = Some data →
  a ∉ flushed servers fs ∧ bs_get now key (store_at a n) = Some data.
Proof.
  revert fs n. induction servers as [|a' servers IH]; intros fs n; [by split; [apply not_elem_of_nil|]|].
  simpl. destruct (hd Done fs); simpl.
  - intros (Hn & Hg)%IH. rewrite store_at_set in Hg. case_decide; [by rewrite bs_get_flush in Hg|].
    by rewrite not_elem_of_cons.
  - intros Hg. split; [apply not_elem_of_nil|done].
  - rewrite store_at_set. case_decide; [by rewrite bs_get_flush|]. by rewrite list_elem_of_singleton.
Qed.

Lemma run_op_written n0 ops o :
  (∀ a s, o = OpEvict a s → bs_evolves (store_at a (run_ops ops n0)) s) →
  (∀ a now key data, bs_get now key (store_at a (run_ops ops n0)) = Some data → written n0 ops a now key data) →
  ∀ a now key data, bs_get now key (store_at a (run_ops (ops ++ [o]) n0)) = Some data →
    written n0 (ops ++ [o]) a now key data.
Proof.
  intros He Hw a now key data. rewrite run_ops_app. simpl. set (n := run_ops ops n0) in *.
  assert (Hkeep : overrides a key o n = false → bs_get now key (store_at a n) = Some data →
    written n0 (ops ++ [o]) a now key data) by (intros Ho Hg; by apply written_more, Hw).
  destruct o as [i t k value expiration f|i k f|i fs|a' s'|i answer]; simpl in *.
  - unfold Set_. destruct (cl_validate cl k) as [e|] eqn:Ek; simpl.
    { apply Hkeep. rewrite (bool_decide_eq_false_2 (Some e = None)) by done. by rewrite andb_false_r. }
    destruct (encode value) as [d|] eqn:Ev; simpl.
    2: { apply Hkeep. rewrite (bool_decide_eq_false_2 (is_Some None)) by (by intros [? ?]). by rewrite !andb_false_r. }
    destruct (target i k n) as [a'|] eqn:Et; simpl; [|apply Hkeep; by rewrite andb_false_r].
    rewrite applied_store. destruct (took f) eqn:Ef; [|by apply Hkeep]. destruct (decide (a' = a)) as [->|Ha].
    2: { rewrite (bool_decide_eq_false_2 (a' = a)) by done. apply Hkeep.
         rewrite (bool_decide_eq_false_2 (Some a' = Some a)) by congruence. by rewrite andb_false_r. }
    rewrite (bool_decide_eq_true_2 (a = a)) by done. cbn [andb]. intros [(-> & -> & Ha)|[Hne Hg]]%bs_get_set.
    + exists ops, i, t, value, expiration, f, []. by split_and!.
    + apply Hkeep; [|done]. rewrite (proj2 (String.eqb_neq k key)) by done. done.
  - unfold Delete_. destruct (cl_validate cl k) as [e|] eqn:Ek; simpl.
    { apply Hkeep. rewrite (bool_decide_eq_false_2 (Some e = None)) by done. by rewrite andb_false_r. }
    destruct (target i k n) as [a'|] eqn:Et; simpl; [|apply Hkeep; by rewrite andb_false_r].
    rewrite applied_store. destruct (took f) eqn:Ef; [|by apply Hkeep]. destruct (decide (a' = a)) as [->|Ha].
    2: { rewrite (bool_decide_eq_false_2 (a' = a)) by done. apply Hkeep.
         rewrite (bool_decide_eq_false_2 (Some a' = Some a)) by congruence. by rewrite andb_false_r. }
    rewrite (bool_decide_eq_true_2 (a = a)) by done. cbn [andb]. intros [Hne Hg]%bs_get_delete. apply Hkeep; [|done].
    by rewrite (proj2 (String.eqb_neq k key)) by done.
  - intros (Hn & Hg)%flushEach_store. apply Hkeep; [|done]. by apply bool_decide_eq_false_2.
  - rewrite store_at_set. case_decide; [|by apply Hkeep]. subst a'. intros Hg. apply Hkeep; [done|].
    eapply bs_get_evolves; [by apply He|done].
  - by apply Hkeep.
Qed.

Lemma run_ops_written n0 ops : (∀ a, store_at a n0 = bs_empty) → possible ops n0 →
  ∀ a now key data, bs_get now key (store_at a (run_ops ops n0)) = Some data → written n0 ops a now key data.
Proof.
  intros H0. assert (Hall : ∀ l ops0,
    (∀ a now key data, bs_get now key (store_at a (run_ops ops0 n0)) = Some data → written n0 ops0 a now key data) →
    possible l (run_ops ops0 n0) →
    ∀ a now key data, bs_get now key (store_at a (run_ops (ops0 ++ l) n0)) = Some data →
      written n0 (ops0 ++ l) a now key data).
  { clear ops. induction l as [|o l IH]; intros ops0 Hw Hp; [by rewrite app_nil_r|].
    destruct Hp as [He Hp]. rewrite cons_middle, app_assoc. apply IH; [by apply run_op_written|].
    by rewrite run_ops_app. }
  intros Hp. apply (Hall ops []); [|done]. intros a now key data. simpl. by rewrite H0, bs_get_empty.
Qed.

(** C24: a cache only serves what was stored.  In every run of any number of clients over
    servers that may lose entries, with failures of the servers at any point, and clients
    that change their servers at any time, a [Get] that succeeds decodes exactly what the last
    [Set] of that key on the server it asks encoded: since then no [Set], [Delete] or [Flush]
    of a client took effect on the key there, and the deadline that the client gave it has not
    passed.  As long as all clients ask that server for the key, this is the last [Set] of
    the key of all, and no [Delete] followed it.  Keys the client refuses touch nothing. *)
Theorem cache_serves_last_set n0 ops i now key dest fails v :
  (∀ a, store_at a n0 = bs_empty) → possible ops n0 →
  Get_ i now key dest fails (run_ops ops n0) = Ok v →
  cl_validate cl key = None ∧
  ∃ a l1 j t value expiration f l2 data, target i key (run_ops ops n0) = Some a ∧
    ops = l1 ++ OpSet j t key value expiration f :: l2 ∧
    f ≠ LostBefore ∧ target j key (run_ops l1 n0) = Some a ∧
    encode value = Some data ∧ decode data dest = Some v ∧
    alive (cl_deadline cl t expiration) now ∧
    kept a key l2 (run_ops (l1 ++ [OpSet j t key value expiration f]) n0) = true ∧
    ((∀ k l3 l4, ops = l3 ++ l4 → target k key (run_ops l3 n0) = Some a) →
     (∀ o k t' value' expiration' f', o ∈ l2 → o = OpSet k t' key value' expiration' f' →
        f' = LostBefore ∨ encode value' = None) ∧
     (∀ o k f', o ∈ l2 → o = OpDelete k key f' → f' = LostBefore)).
Proof.
  intros H0 Hp. unfold Get_. destruct (cl_validate cl key) eqn:Ek; [done|].
  destruct (target i key (run_ops ops n0)) as [a|] eqn:Et; [|done]. destruct fails; [done|].
  destruct (bs_get now key _) as [data|] eqn:Eg; [|done].
  destruct (decode data dest) as [v'|] eqn:Ed; [|done]. intros [= <-]. split; [done|].
  destruct (run_ops_written n0 ops H0 Hp _ _ _ _ Eg) as (l1 & j & t & value & expiration & f & l2 & -> & Hf & Hj & He & Ha & Hl).
  exists a, l1, j, t, value, expiration, f, l2, data. split_and!; try done; [by destruct f|].
  intros Hst. set (o1 := OpSet j t key value expiration f) in *.
  assert (Hno : ∀ o k, o ∈ l2 → ∃ n, target k key n = Some a ∧ overrides a key o n = false).
  { intros o k (m1 & m2 & ->)%list_elem_of_split. exists (run_ops (l1 ++ o1 :: m1) n0). split.
    - apply (Hst k (l1 ++ o1 :: m1) (o :: m2)). by rewrite <-app_assoc.
    - rewrite kept_app in Hl. apply andb_true_iff in Hl as [_ Hl]. simpl in Hl.
      apply andb_true_iff in Hl as [Hl%negb_true_iff _]. revert Hl. rewrite <-run_ops_app, <-app_assoc. done. }
  split.
  - intros o k t' value' expiration' f' Hin ->. destruct (Hno _ k Hin) as (n & Hn & Ho). simpl in Ho.
    rewrite String.eqb_refl, Ek, Hn, (bool_decide_eq_true_2 (_ = None)), (bool_decide_eq_true_2 (Some a = Some a)) in Ho
      by done.
    destruct (encode value') as [d|]; [left|by right]. rewrite bool_decide_eq_true_2 in Ho by done. by destruct f'.
  - intros o k f' Hin ->. destruct (Hno _ k Hin) as (n & Hn & Ho). simpl in Ho.
    rewrite String.eqb_refl, Ek, Hn, (bool_decide_eq_true_2 (_ = None)), (bool_decide_eq_true_2 (Some a = Some a)) in Ho
      by done. by destruct f'.
Qed.

End clients.

(** ** The cache of the tenant manager *)

(** A client of a network, at a time, is a cache as the manager expects it: the value the
    manager gets is one that it, or another agent, stored.  While the client keeps its
    servers, a server that loses entries only loses them for the manager; when it changes
    its servers, the entries that the others still hold come back. *)
Section managerCache.
Context {S B : Type} `{ByteStore S B} (encode : cachedTenant → option B) (raw : B → option cachedTenant)
  (cl : client) (pick : list string → string → option string) (i : nat).

Definition client_get (k : string) (c : Z * network S) : option cachedTenant :=
  match cl_validate cl k with
  | None => a ← target pick i k c.2; data ← bs_get c.1 k (store_at a c.2); raw data
  | Some _ => None
  end.
Definition client_held (k : string) (x : cachedTenant) (c : Z * network S) : Prop :=
  ∃ a now data, bs_get now k (store_at a c.2) = Some data ∧ raw data = Some x.

Lemma client_get_held k c x : client_get k c = Some x → client_held k x c.
Proof.
  unfold client_get. destruct (cl_validate cl k); [done|]. destruct (target pick i k c.2) as [a|]; [|done]. cbn.
  destruct (bs_get _ _ _) as [data|] eqn:E; [|done]. intros Hx. by exists a, c.1, data.
Qed.

Definition client_Cache (Hraw : ∀ v b, encode v = Some b → raw b = Some v) : Cache (Z * network S).
Proof using All.
  refine {|
    cache_get := client_get;
    cache_set k v ttl c := (c.1, (Set_ encode cl pick i c.1 k v ttl Done c.2).1);
    cache_held := client_held;
    loses c c' := (∀ k x, client_get k c' = Some x → client_get k c = Some x) ∧
                  (∀ k x, client_held k x c' → client_held k x c);
    evolves c c' := ∀ k x, client_held k x c' → client_held k x c;
  |}.
  - apply client_get_held.
  - intros k k' v ttl [now n] x. unfold client_get, Set_. cbn. destruct (cl_validate cl k); [done|].
    destruct (cl_validate cl k'); [by right|]. destruct (encode v) as [b|] eqn:Ev; [|by right].
    destruct (target pick i k' n) as [a'|]; [|by right]. cbn.
    change (target pick i k (set_store a' _ n)) with (target pick i k n).
    destruct (target pick i k n) as [a|]; [|done]. cbn. rewrite store_at_set. case_decide as Ha; [|by right].
    destruct (bs_get now k (bs_set _ _ _ _)) as [data|] eqn:Eg; [|done]. subst a'.
    apply bs_get_set in Eg as [(-> & -> & _)|[Hne Eg]]; cbn.
    + rewrite (Hraw _ _ Ev). intros [= ->]. by left.
    + rewrite Eg. by right.
  - intros k k' v ttl [now n] x (a & now' & data & Hg & Hx). revert Hg. unfold Set_. cbn.
    destruct (cl_validate cl k'); [right; by exists a, now', data|].
    destruct (encode v) as [b|] eqn:Ev; [|right; by exists a, now', data].
    destruct (target pick i k' n) as [a'|]; [|right; by exists a, now', data]. cbn.
    rewrite store_at_set. case_decide; [|right; by exists a, now', data]. subst a'.
    intros [(-> & -> & _)|[Hne Eg]]%bs_get_set; [left|right; by exists a, now', data].
    rewrite (Hraw _ _ Ev) in Hx. by simplify_eq.
  - intros c c' k x He. apply He.
  - intros c c' k x He. apply He.
  - intros c c' He. apply He.
Defined.

(** Losing entries and the passing of time lose; a change of servers evolves. *)
Lemma evict_loses Hraw a s now n :
  bs_evolves (store_at a n) s → loses (Cache := client_Cache Hraw) (now, n) (now, set_store a s n).
Proof.
  intros He. cbn. split.
  - intros k x. unfold client_get. destruct (cl_validate cl k); [done|]. cbn.
    change (target pick i k (set_store a s n)) with (target pick i k n).
    destruct (target pick i k n) as [a'|]; [|done]. cbn. rewrite store_at_set. case_decide; [subst a'|done].
    destruct (bs_get now k s) as [data|] eqn:Eg; [|done]. by rewrite (bs_get_evolves _ _ _ _ _ He Eg).
  - intros k x (a' & now' & data & Hg & Hx). exists a', now', data. split; [|done]. cbn in *. revert Hg.
    rewrite store_at_set. case_decide; [subst a'|done]. by apply bs_get_evolves.
Qed.
Lemma refresh_evolves Hraw j answer now now' n :
  evolves (Cache := client_Cache Hraw) (now, n) (now', set_client j (refresh (nw_clients n j) answer) n).
Proof. cbn. intros k x (a & t & data & Hg & Hx). by exists a, t, data. Qed.
End managerCache.

(** ** A store, for the examples *)

Section mapStore.
Notation store := (gmap string (string * option Z)).
Definition map_get (now : Z) (k : string) (s : store) : option string :=
  '(v, d) ← s !! k; if (match d with None => true | Some d => now <? d end) then Some v else None.
#[export, refine] Instance map_ByteStore : ByteStore store string := {|
  bs_empty := ∅;
  bs_get := map_get;
  bs_set k v d s := <[k := (v, d)]> s;
  bs_delete k s := delete k s;
  bs_flush _ := ∅;
  bs_evolves s s' := s' ⊆ s;
|}.
Proof.
  - done.
  - intros now k k' v d s x. unfold map_get. destruct (decide (k = k')) as [->|Hne].
    + rewrite lookup_insert_eq. cbn. destruct d as [d|]; cbn; [|intros [= ->]; by left].
      destruct (Z.ltb_spec now d); [|done]. intros [= ->]. by left.
    + rewrite lookup_insert_ne by done. by right.
  - intros now k k' s x. unfold map_get. destruct (decide (k = k')) as [->|Hne].
    + by rewrite lookup_delete_eq.
    + by rewrite lookup_delete_ne.
  - done.
  - intros now k s s' x Hs. unfold map_get. destruct (s' !! k) as [[v d]|] eqn:E; [|done].
    by rewrite (lookup_weaken _ _ _ _ E Hs).
Defined.
End mapStore.

(** Memcached's documented reading of an expiration: 0 is never, up to 30 days it counts
    from now, more is a Unix time, and a negative one has passed. *)
Definition documentedDeadline (now sec : Z) : option Z :=
  if sec =? 0 then None
  else if sec <? 0 then Some now
  else if sec <=? 30 * 24 * 3600 then Some (now + sec * 1000000000)
  else Some (sec * 1000000000).

(** An expiration below a second never expires in memcached, although only 0 is documented
    to. *)
Lemma short_expiration_never_expires now :
  cl_deadline (memcachedClient documentedDeadline) now 999999999 = None.
Proof. vm_compute. done. Qed.

(** Without an expiration, an entry of the local cache still has one: the default of the
    configuration, or a day. *)
Lemma zero_expiration_expires defaultTTL now :
  cl_deadline (localClient defaultTTL) now 0 = Some (now + if 0 <? defaultTTL then defaultTTL else day).
Proof. simpl. unfold localTTL. simpl. by destruct (0 <? defaultTTL). Qed.

(** A negative expiration is ignored by the local cache, while memcached drops the entry. *)
Lemma negative_expirations_differ now :
  cl_deadline (localClient 0) now (-1000000000) = Some (now + day) ∧
  cl_deadline (memcachedClient documentedDeadline) now (-1000000000) = Some now.
Proof. done. Qed.

Notation mapStore := (gmap string (string * option Z)).
Notation mapOp := (op (S := mapStore) (V := string)).

(** Two agents of one server: the last [Set] of the key is what the first gets. *)
Lemma cache_serves_last_set_witness :
  let cl := memcachedClient documentedDeadline in
  let n0 : network mapStore := Build_network
    (λ _, {| originalServers := ["1.2.3.4:1"]; serverList := ["1.2.3.4:1"] |}) ∅ in
  let ops : list mapOp :=
    [OpSet 0 0 "k" "old" 60000000000 Done; OpSet 1 5 "k" "new" 60000000000 LostAfter;
     OpSet 0 6 "k" "lost" 60000000000 LostBefore; OpDelete 0 "other" Done] in
  ∃ l1 j t value expiration f l2, ops = l1 ++ OpSet j t "k" value expiration f :: l2 ∧ f ≠ LostBefore ∧
    value = "new".
Proof.
  intros cl n0 ops.
  destruct (cache_serves_last_set (S := mapStore) (V := string)
    (λ v, Some v) (λ b _, Some b) cl localPick n0 ops 0 1000 "k" "dest" false "new")
    as (_ & a & l1 & j & t & value & expiration & f & l2 & data & _ & E & Hf & _ & He & Hd & _).
  - intros a. unfold store_at. simpl. by rewrite lookup_empty.
  - cbn. split_and!; try done; intros ? ? [=].
  - vm_compute. reflexivity.
  - exists l1, j, t, value, expiration, f, l2. split; [exact E|]. split; [exact Hf|]. congruence.
Defined.

(** A client that changes its servers and comes back to the first gets a value that it has
    replaced in the meantime. *)
Definition onlyAt (ip : string) : (string → option (list string)) * (list string → bool) :=
  (λ _, Some [ip], λ _, true).
Lemma refresh_serves_old_value :
  let n0 : network mapStore := Build_network
    (λ _, {| originalServers := ["cache:1"]; serverList := ["1.1.1.1:1"] |}) ∅ in
  let ops : list mapOp :=
    [OpSet 0 0 "k" "v1" 0 Done; OpRefresh 0 (onlyAt "2.2.2.2"); OpSet 0 1 "k" "v2" 0 Done;
     OpRefresh 0 (onlyAt "1.1.1.1")] in
  Get_ (λ b _, Some b) (memcachedClient documentedDeadline) localPick 0 2 "k" "" false
    (run_ops (λ v, Some v) (memcachedClient documentedDeadline) localPick ops n0) = Ok "v1".
Proof. vm_compute. reflexivity. Qed.

(** ** Kinds of cache *)

Inductive Kind := KindAuto | KindLocal | KindMemcached | KindNoop | KindOther (s : string).

(** [Kind.Set]: the flag. *)
Definition Kind_Set (s : string) : option Kind :=
  if String.eqb s "auto" then Some KindAuto
  else if String.eqb s "local" then Some KindLocal
  else if String.eqb s "memcached" then Some KindMemcached
  else if String.eqb s "noop" then Some KindNoop
  else None.
Definition Kind_String (k : Kind) : string :=
  match k with
  | KindAuto => "auto" | KindLocal => "local" | KindMemcached => "memcached" | KindNoop => "noop"
  | KindOther s => s
  end.

Lemma Kind_roundtrip s k : Kind_Set s = Some k → Kind_String k = s.
Proof.
  unfold Kind_Set. intros H.
  repeat (case_match eqn:E; [apply String.eqb_eq in E; by simplify_eq|]; clear E). done.
Qed.

(** The cache [setupCache] makes. [localOk] is whether otter builds. *)
Inductive cacheClient := UsesLocal (capacity initial ttl : Z) | UsesNoop | UsesMemcached (c : serverState).

Definition setupLocalCache (capacity ttl : Z) (localOk : bool) : cacheClient :=
  if (0 <? capacity) && localOk then UsesLocal capacity (capacity ÷ 10) ttl else UsesNoop.

Definition setupCache (cacheType : Kind) (servers : list string) (capacity ttl : Z) (localOk : bool)
    (lookup : string → option (list string)) (accepts : list string → bool) : result setupErr cacheClient :=
  let effective := match cacheType with
                   | KindAuto => match servers with [] => KindLocal | _ => KindMemcached end
                   | k => k
                   end in
  match effective with
  | KindMemcached =>
      match servers with
      | [] => Ok (setupLocalCache capacity ttl localOk)
      | _ => c ← NewMemcachedClient servers lookup accepts; Ok (UsesMemcached c)
      end
  | KindLocal => Ok (setupLocalCache capacity ttl localOk)
  | KindNoop => Ok UsesNoop
  | _ => Ok (setupLocalCache capacity ttl localOk)
  end.

(** There is always a cache, unless memcached servers are configured and used but cannot be:
    then there is an error instead of the local cache that the documentation promises. *)
Lemma setup_cache_outcome cacheType servers capacity ttl localOk lookup accepts :
  match setupCache cacheType servers capacity ttl localOk lookup accepts with
  | Err e => (cacheType = KindAuto ∨ cacheType = KindMemcached) ∧ servers ≠ [] ∧
             NewMemcachedClient servers lookup accepts = Err e
  | Ok (UsesMemcached c) => (cacheType = KindAuto ∨ cacheType = KindMemcached) ∧
                            NewMemcachedClient servers lookup accepts = Ok c
  | Ok UsesNoop => cacheType = KindNoop ∨ capacity ≤ 0 ∨ localOk = false
  | Ok (UsesLocal c i t) => c = capacity ∧ 0 < c ∧ t = ttl ∧ localOk = true ∧ cacheType ≠ KindNoop
  end.
Proof.
  assert (Hl : cacheType ≠ KindNoop → match setupLocalCache capacity ttl localOk with
    | UsesMemcached c => (cacheType = KindAuto ∨ cacheType = KindMemcached) ∧
                         NewMemcachedClient servers lookup accepts = Ok c
    | UsesNoop => cacheType = KindNoop ∨ capacity ≤ 0 ∨ localOk = false
    | UsesLocal c i t => c = capacity ∧ 0 < c ∧ t = ttl ∧ localOk = true ∧ cacheType ≠ KindNoop
    end).
  { intros Hk. unfold setupLocalCache. destruct (Z.ltb_spec 0 capacity), localOk; simpl; auto. }
  unfold setupCache. destruct cacheType; destruct servers as [|x l]; cbn -[NewMemcachedClient setupLocalCache];
    try (by left); try (by apply Hl).
  all: destruct (NewMemcachedClient (x :: l) lookup accepts) eqn:E; cbn; auto.
Qed.
