(* ===== verification/Interpolation.v ===== *)
(** * Interpolation of variables and secrets

    [internal/prober/interpolation/interpolation.go]: [Resolve] replaces
    ${secrets.name} and ${name} in the settings of HTTP checks; [ToJavaScript]
    turns a string with variables into the JavaScript expression that the script of
    a multihttp check embeds.  The two regular expressions are matched byte by byte:
    their classes are ASCII, and [^}] takes any byte of any rune. *)
From S2P Require Import Prelude Strs.

Open Scope Z_scope.

(** ** Regular expressions *)

Definition isVarStart (a : ascii) : bool := isLetter a || Ascii.eqb a "_"%char.
Definition isVarChar (a : ascii) : bool := isVarStart a || isDigit a || isDash a.

(** The longest prefix of bytes in a class. *)
Fixpoint spanClass (cls : ascii → bool) (l : list ascii) : list ascii * list ascii :=
  match l with
  | a :: l' => if cls a then let '(x, y) := spanClass cls l' in (a :: x, y) else ([], l)
  | [] => ([], [])
  end.

(** [l] without its prefix [p]. *)
Fixpoint stripPrefixOf (p l : list ascii) : option (list ascii) :=
  match p, l with
  | [], _ => Some l
  | a :: p, b :: l => if Ascii.eqb a b then stripPrefixOf p l else None
  | _, [] => None
  end.

(** [VariableRegex] at the start of [l]: the captured name and what follows. *)
Definition matchVariable (l : list ascii) : option (list ascii * list ascii) :=
  l ← stripPrefixOf (chars "${") l;
  match l with
  | a :: l =>
      if isVarStart a then
        let '(n, r) := spanClass isVarChar l in
        r ← stripPrefixOf (chars "}") r; Some (a :: n, r)
      else None
  | [] => None
  end.

(** [SecretRegex] at the start of [l]. *)
Definition matchSecret (l : list ascii) : option (list ascii * list ascii) :=
  l ← stripPrefixOf (chars "${secrets.") l;
  let '(n, r) := spanClass (λ a, negb (Ascii.eqb a "}"%char)) l in
  r ← stripPrefixOf (chars "}") r; Some (n, r).

(** [FindAll]: for each match the text before it and its capture, and the text
    after the last one.  The fuel is the length of the input. *)
Fixpoint findAll_loop (fuel : nat) (m : list ascii → option (list ascii * list ascii))
    (l : list ascii) : list (list ascii * list ascii) * list ascii :=
  match fuel with
  | O => ([], l)
  | S fuel =>
      match m l with
      | Some (n, r) => let '(ms, rest) := findAll_loop fuel m r in (([], n) :: ms, rest)
      | None =>
          match l with
          | [] => ([], [])
          | a :: l' =>
              let '(ms, rest) := findAll_loop fuel m l' in
              match ms with
              | [] => ([], a :: rest)
              | (p, n) :: ms => ((a :: p, n) :: ms, rest)
              end
          end
      end
  end.
Definition findAll m (l : list ascii) := findAll_loop (length l) m l.

(** ** [Resolve] *)

Definition variablePlaceholder (n : list ascii) : list ascii := chars "${" ++ n ++ chars "}".
Definition secretPlaceholder (n : list ascii) : list ascii := chars "${secrets." ++ n ++ chars "}".

(** [strings.ReplaceAll] for a non-empty [old]. *)
Fixpoint replaceAll_loop (fuel : nat) (old new l : list ascii) : list ascii :=
  match fuel with
  | O => l
  | S fuel =>
      match stripPrefixOf old l with
      | Some r => new ++ replaceAll_loop fuel old new r
      | None => match l with [] => [] | a :: l' => a :: replaceAll_loop fuel old new l' end
      end
  end.
Definition replaceAll (old new l : list ascii) : list ascii := replaceAll_loop (length l) old new l.

Definition isLowerAlnum (a : ascii) : bool := ((97 <=? code a)%N && (code a <=? 122)%N) || isDigit a.
Definition isValidSecretName (name : list ascii) : bool :=
  negb ((llen name =? 0) || (253 <? llen name)) &&
  match head name, last name with
  | Some a, Some b => isLowerAlnum a && isLowerAlnum b
  | _, _ => false
  end &&
  forallb (λ a, isLowerAlnum a || isDash a || Ascii.eqb a "."%char) name.

Section resolver.
Context {E : Type}.

Inductive resolveErr :=
  | ErrSecretName (name : list ascii)
  | ErrSecret (name : list ascii) (e : E).

(** [variableProvider] is nil when there is none; its errors are [None]. *)
Record Resolver := {
  GetVariable : option (list ascii → option (list ascii));
  GetSecretValue : list ascii → result E (list ascii);
  secretEnabled : bool;
}.

Definition processVariables (r : Resolver) (value : list ascii) : list ascii :=
  match GetVariable r with
  | None => value
  | Some get =>
      fold_left
        (λ result m, match get m.2 with
                     | None => result
                     | Some v => replaceAll (variablePlaceholder m.2) v result
                     end)
        (findAll matchVariable value).1 value
  end.

(** [if part != "" { result.WriteString(r.processVariables(part)) }]. *)
Definition nonSecret (r : Resolver) (part : list ascii) : list ascii :=
  match part with [] => [] | _ => processVariables r part end.

(** The first pass validates the names, the second one builds the result. *)
Fixpoint checkNames (ms : list (list ascii * list ascii)) : option (list ascii) :=
  match ms with
  | [] => None
  | (_, n) :: ms => if isValidSecretName n then checkNames ms else Some n
  end.
Fixpoint resolveParts (r : Resolver) (ms : list (list ascii * list ascii)) (rest : list ascii)
    : result resolveErr (list ascii) :=
  match ms with
  | [] => Ok (nonSecret r rest)
  | (pre, n) :: ms =>
      match GetSecretValue r n with
      | Err e => Err (ErrSecret n e)
      | Ok v => out ← resolveParts r ms rest; Ok (nonSecret r pre ++ v ++ out)
      end
  end.

Definition Resolve (r : Resolver) (value : list ascii) : result resolveErr (list ascii) :=
  match value with
  | [] => Ok []
  | _ =>
      if negb (secretEnabled r) then Ok (processVariables r value)
      else
        let '(ms, rest) := findAll matchSecret value in
        match checkNames ms with
        | Some n => Err (ErrSecretName n)
        | None => resolveParts r ms rest
        end
  end.
End resolver.

(** ** [ToJavaScript] *)

Definition hexDigit (n : N) : ascii :=
  if (n <? 10)%N then ascii_of_N (48 + n) else ascii_of_N (87 + n).

(** [escapeJavaScript], one byte. *)
Definition escapeByte (b : ascii) : list ascii :=
  let bs := "092"%char in
  if Ascii.eqb b "'" then [bs; "'"%char]
  else if Ascii.eqb b "034" then [bs; "034"%char]
  else if Ascii.eqb b "092" then [bs; bs]
  else if (code b =? 10)%N then [bs; "n"%char]
  else if (code b =? 13)%N then [bs; "r"%char]
  else if (code b =? 9)%N then [bs; "t"%char]
  else if (code b <? 32)%N || (126 <? code b)%N then
    [bs; "x"%char; hexDigit (code b / 16); hexDigit (code b mod 16)]
  else [b].
Definition escapeJavaScript (buf : list ascii) : list ascii := concat (map escapeByte buf).

Definition quote : ascii := "'"%char.
Definition plus (s : list ascii) : list ascii := match s with [] => [] | _ => ["+"%char] end.
Definition quoted (buf : list ascii) : list ascii := quote :: escapeJavaScript buf ++ [quote].
Definition varRef (n : list ascii) : list ascii := chars "vars['" ++ n ++ chars "']".

(** The loop over [locs], with the content of the builder. *)
Fixpoint toJavaScript_loop (ms : list (list ascii * list ascii)) (s : list ascii) : list ascii :=
  match ms with
  | [] => s
  | (pre, n) :: ms =>
      let s := s ++ plus s in
      let s := match pre with [] => s | _ => s ++ quoted pre ++ ["+"%char] end in
      toJavaScript_loop ms (s ++ varRef n)
  end.

Definition ToJavaScript (value : list ascii) : list ascii :=
  match value with
  | [] => [quote; quote]
  | _ =>
      let '(ms, rest) := findAll matchVariable value in
      let s := toJavaScript_loop ms [] in
      match rest with [] => s | _ => s ++ plus s ++ quoted rest end
  end.

(** ** The JavaScript the output is read as

    An expression of single-quoted literals and references vars['name'] joined by
    plus signs, with the escapes of ECMAScript that concern the output: its value
    is a sequence of code units and variables. *)
Definition unhex (a : ascii) : option N :=
  if isDigit a then Some (code a - 48)%N
  else if (97 <=? code a)%N && (code a <=? 102)%N then Some (code a - 87)%N
  else None.

(** A literal after its opening quote: its code units and what follows its closing
    quote; a line terminator or an unknown escape is refused. *)
Fixpoint jsLiteral (l : list ascii) : option (list N * list ascii) :=
  match l with
  | [] => None
  | a :: l =>
      if Ascii.eqb a quote then Some ([], l)
      else if Ascii.eqb a "092" then
        match l with
        | [] => None
        | b :: l =>
            if Ascii.eqb b "x" then
              match l with
              | h1 :: h2 :: l =>
                  d1 ← unhex h1; d2 ← unhex h2; '(us, r) ← jsLiteral l; Some ((16 * d1 + d2)%N :: us, r)
              | _ => None
              end
            else
              u ← (if Ascii.eqb b quote || Ascii.eqb b "034" || Ascii.eqb b "092" then Some (code b)
                   else if Ascii.eqb b "n" then Some 10%N
                   else if Ascii.eqb b "r" then Some 13%N
                   else if Ascii.eqb b "t" then Some 9%N
                   else None);
              '(us, r) ← jsLiteral l; Some (u :: us, r)
        end
      else if (code a =? 10)%N || (code a =? 13)%N then None
      else '(us, r) ← jsLiteral l; Some (code a :: us, r)
  end.

(** A code unit or a variable. *)
Definition jsValue : Type := list (N + list ascii).

Definition jsTerm (l : list ascii) : option (jsValue * list ascii) :=
  match l with
  | [] => None
  | a :: l' =>
      if Ascii.eqb a quote then '(us, r) ← jsLiteral l'; Some (map inl us, r)
      else
        r ← stripPrefixOf (chars "vars['") l;
        let '(n, r) := spanClass (λ a, negb (Ascii.eqb a quote)) r in
        r ← stripPrefixOf (chars "']") r; Some ([inr n], r)
  end.
Fixpoint jsExpr (fuel : nat) (l : list ascii) : option jsValue :=
  match fuel with
  | O => None
  | S fuel =>
      '(v, r) ← jsTerm l;
      match r with
      | [] => Some v
      | a :: r => if Ascii.eqb a "+" then w ← jsExpr fuel r; Some (v ++ w) else None
      end
  end.
Definition jsEval (l : list ascii) : option jsValue := jsExpr (S (length l)) l.

(** What a template means: its bytes and its variables. *)
Definition bytes (l : list ascii) : jsValue := map (λ a, inl (code a)) l.
Definition template (value : list ascii) : jsValue :=
  let '(ms, rest) := findAll matchVariable value in
  concat (map (λ m, bytes m.1 ++ [inr m.2]) ms) ++ bytes rest.

(** ** Matches *)

Lemma spanClass_app cls l : (spanClass cls l).1 ++ (spanClass cls l).2 = l.
Proof.
  induction l as [|a l IH]; [done|]. simpl. destruct (cls a); [|done].
  destruct (spanClass cls l) as [x y]. simpl in *. by rewrite IH.
Qed.
Lemma spanClass_all cls l : Forall (λ a, cls a = true) (spanClass cls l).1.
Proof.
  induction l as [|a l IH]; [constructor|]. simpl. destruct (cls a) eqn:E; [|constructor].
  destruct (spanClass cls l) as [x y]. by constructor.
Qed.
Lemma spanClass_stop cls x b l :
  Forall (λ a, cls a = true) x → cls b = false → spanClass cls (x ++ b :: l) = (x, b :: l).
Proof.
  induction 1 as [|a x Ha _ IH]; simpl; intros Hb; [by rewrite Hb|]. by rewrite Ha, IH.
Qed.
Lemma stripPrefixOf_app p l : stripPrefixOf p (p ++ l) = Some l.
Proof. induction p as [|a p IH]; simpl; [done|]. by rewrite Ascii.eqb_refl. Qed.
Lemma stripPrefixOf_Some p l r : stripPrefixOf p l = Some r → l = p ++ r.
Proof.
  revert l. induction p as [|a p IH]; intros l; simpl; [by intros [= ->]|].
  destruct l as [|b l]; [done|].
  destruct (Ascii.eqb_spec a b) as [<-|]; [|done]. by intros ->%IH.
Qed.

(** A variable's name is an identifier. *)
Definition identifier (n : list ascii) : Prop :=
  match n with [] => False | a :: n => isVarStart a = true ∧ Forall (λ a, isVarChar a = true) n end.

Lemma matchVariable_spec l n r :
  matchVariable l = Some (n, r) → l = variablePlaceholder n ++ r ∧ identifier n.
Proof.
  unfold matchVariable, variablePlaceholder. intros H.
  apply bind_Some in H as (l1 & ->%stripPrefixOf_Some & H).
  destruct l1 as [|a l1]; [done|]. destruct (isVarStart a) eqn:Ea; [|done].
  pose proof (spanClass_app isVarChar l1) as Happ. pose proof (spanClass_all isVarChar l1) as Hall.
  destruct (spanClass isVarChar l1) as [x y]. simpl in Happ, Hall. subst l1.
  apply bind_Some in H as (r' & ->%stripPrefixOf_Some & [= <- <-]). split; [|done].
  by rewrite <-!(assoc_L (++)).
Qed.

Lemma matchVariable_placeholder n r :
  identifier n → matchVariable (variablePlaceholder n ++ r) = Some (n, r).
Proof.
  unfold matchVariable, variablePlaceholder. destruct n as [|a n]; [done|]. intros [Ha Hn].
  rewrite <-!(assoc_L (++)), stripPrefixOf_app. simpl. rewrite Ha.
  rewrite spanClass_stop by done. simpl. done.
Qed.

Lemma matchVariable_shorter l n r : matchVariable l = Some (n, r) → (length r < length l)%nat.
Proof.
  intros [-> _]%matchVariable_spec. unfold variablePlaceholder. rewrite !length_app. simpl. lia.
Qed.

Lemma matchSecret_spec l n r :
  matchSecret l = Some (n, r) →
  l = secretPlaceholder n ++ r ∧ Forall (λ a, a ≠ "}"%char) n.
Proof.
  unfold matchSecret, secretPlaceholder. intros H.
  apply bind_Some in H as (l1 & ->%stripPrefixOf_Some & H).
  pose proof (spanClass_app (λ a, negb (Ascii.eqb a "}"%char)) l1) as Happ.
  pose proof (spanClass_all (λ a, negb (Ascii.eqb a "}"%char)) l1) as Hall.
  destruct (spanClass _ l1) as [x y]. simpl in Happ, Hall. subst l1.
  apply bind_Some in H as (r' & ->%stripPrefixOf_Some & [= <- <-]). split.
  - by rewrite <-!(assoc_L (++)).
  - eapply Forall_impl; [exact Hall|]. intros a Ha ->. done.
Qed.

(** The fuel of [findAll] is enough. *)
Lemma findAll_loop_fuel m f1 f2 l :
  (∀ l n r, m l = Some (n, r) → (length r < length l)%nat) →
  (length l ≤ f1)%nat → (length l ≤ f2)%nat → findAll_loop f1 m l = findAll_loop f2 m l.
Proof.
  intros Hm. revert f2 l. induction f1 as [|f1 IH]; intros f2 l H1 H2.
  { destruct l; [|simpl in *; lia]. destruct f2; [done|]. simpl.
    destruct (m []) as [[n r]|] eqn:Em; [apply Hm in Em; simpl in Em; lia|done]. }
  destruct f2 as [|f2].
  { destruct l; [|simpl in *; lia]. simpl.
    destruct (m []) as [[n r]|] eqn:Em; [apply Hm in Em; simpl in Em; lia|done]. }
  simpl. destruct (m l) as [[n r]|] eqn:Em.
  - apply Hm in Em. rewrite (IH f2 r) by lia. done.
  - destruct l as [|a l]; [done|]. simpl in *. rewrite (IH f2 l) by lia. done.
Qed.

(** Matches cover the input, and each satisfies what the expression says. *)
Lemma findAll_covers m (ph : list ascii → list ascii) (P : list ascii → Prop) l :
  (∀ l n r, m l = Some (n, r) → l = ph n ++ r ∧ P n) →
  let '(ms, rest) := findAll m l in
  concat (map (λ x, x.1 ++ ph x.2) ms) ++ rest = l ∧ Forall (λ x, P x.2) ms.
Proof.
  intros Hm. unfold findAll. generalize (length l). intros f. revert l.
  induction f as [|f IH]; intros l; simpl; [done|].
  destruct (m l) as [[n r]|] eqn:Em.
  - apply Hm in Em as [-> Hn]. specialize (IH r). destruct (findAll_loop f m r) as [ms rest].
    destruct IH as [<- Hms]. simpl. split; [by rewrite <-(assoc_L (++))|by constructor].
  - destruct l as [|a l]; [done|]. specialize (IH l). destruct (findAll_loop f m l) as [[|[p n] ms] rest].
    + destruct IH as [<- _]. done.
    + destruct IH as [<- Hms]. simpl. split; [done|]. by inversion Hms; constructor.
Qed.

(** ** Literals and terms *)

Lemma jsLiteral_escape b k :
  jsLiteral (escapeByte b ++ k) = '(us, r) ← jsLiteral k; Some (code b :: us, r).
Proof. destruct b as [[] [] [] [] [] [] [] []]; reflexivity. Qed.

Lemma jsLiteral_quoted buf k :
  jsLiteral (escapeJavaScript buf ++ quote :: k) = Some (map code buf, k).
Proof.
  unfold escapeJavaScript. induction buf as [|b buf IH]; [done|]. simpl concat.
  by rewrite <-(assoc_L (++)), jsLiteral_escape, IH.
Qed.

(** A literal or a variable. *)
Inductive part := Lit (buf : list ascii) | Var (n : list ascii).
Definition render (p : part) : list ascii :=
  match p with Lit buf => quoted buf | Var n => varRef n end.
Definition meaning (p : part) : jsValue :=
  match p with Lit buf => bytes buf | Var n => [inr n] end.
Definition part_ok (p : part) : Prop := match p with Lit _ => True | Var n => identifier n end.

Lemma identifier_no_quote n : identifier n → Forall (λ a, negb (Ascii.eqb a quote) = true) n.
Proof.
  assert (H : ∀ a, isVarChar a = true → negb (Ascii.eqb a quote) = true).
  { intros a. by destruct a as [[] [] [] [] [] [] [] []]. }
  destruct n as [|a n]; [done|]. intros [Ha Hn]. constructor.
  - apply H. unfold isVarChar. by rewrite Ha.
  - eapply Forall_impl; [exact Hn|]. apply H.
Qed.

Lemma jsTerm_render p k : part_ok p → jsTerm (render p ++ k) = Some (meaning p, k).
Proof.
  destruct p as [buf|n]; simpl; intros Hp.
  - unfold quoted. simpl. rewrite <-(assoc_L (++)). simpl. rewrite jsLiteral_quoted. simpl.
    unfold bytes. by rewrite map_map.
  - unfold varRef. simpl. rewrite <-(assoc_L (++)). simpl.
    rewrite spanClass_stop; [done|by apply identifier_no_quote|done].
Qed.

(** Joining with plus signs. *)
Definition cat (s t : list ascii) : list ascii :=
  match s, t with
  | [], _ => t
  | _, [] => s
  | _, _ => s ++ "+"%char :: t
  end.
Definition renderAll (ps : list part) : list ascii := foldr (λ p s, cat (render p) s) [] ps.

Lemma cat_assoc a b c : cat (cat a b) c = cat a (cat b c).
Proof.
  destruct a as [|x a]; [done|]. destruct b as [|y b]; [done|]. destruct c as [|z c]; [done|].
  simpl. by rewrite <-(assoc_L (++)).
Qed.
Lemma cat_nil s : cat s [] = s.
Proof. by destruct s. Qed.
Lemma cat_plus s t : t ≠ [] → cat s t = s ++ plus s ++ t.
Proof. destruct s; [done|]. by destruct t. Qed.
Lemma renderAll_app l1 l2 : renderAll (l1 ++ l2) = cat (renderAll l1) (renderAll l2).
Proof. induction l1 as [|p l1 IH]; simpl; [done|]. by rewrite IH, cat_assoc. Qed.

Lemma render_cons p : ∃ a s, render p = a :: s.
Proof. destruct p; simpl; unfold quoted, varRef; simpl; eauto. Qed.

Lemma jsExpr_renderAll ps f :
  Forall part_ok ps → ps ≠ [] → (length ps ≤ f)%nat →
  jsExpr f (renderAll ps) = Some (concat (map meaning ps)).
Proof.
  intros Hps. revert f. induction Hps as [|p ps Hp Hps IH]; intros f Hne Hf; [done|].
  destruct f as [|f]; simpl in Hf; [lia|].
  change (renderAll (p :: ps)) with (cat (render p) (renderAll ps)).
  assert (Hcat : ∀ s, cat (render p) s = render p ++ match s with [] => [] | _ => "+"%char :: s end).
  { intros s. destruct (render_cons p) as (a & x & ->). destruct s; simpl; [by rewrite app_nil_r|done]. }
  rewrite Hcat. cbn [jsExpr]. rewrite jsTerm_render by done. cbn [mbind option_bind].
  destruct ps as [|q ps].
  - simpl. by rewrite app_nil_r.
  - assert (IH' := IH f ltac:(done) ltac:(simpl in *; lia)).
    destruct (renderAll (q :: ps)) as [|c s] eqn:E.
    + change (renderAll (q :: ps)) with (cat (render q) (renderAll ps)) in E.
      destruct (render_cons q) as (a & x & Eq). rewrite Eq in E. by destruct (renderAll ps).
    + simpl Ascii.eqb. cbv iota. by rewrite IH'.
Qed.

Definition litIf (buf : list ascii) : list part := match buf with [] => [] | _ => [Lit buf] end.
Definition parts (ms : list (list ascii * list ascii)) (rest : list ascii) : list part :=
  concat (map (λ m, litIf m.1 ++ [Var m.2]) ms) ++ litIf rest.

Lemma toJavaScript_loop_parts ms s :
  toJavaScript_loop ms s = cat s (renderAll (concat (map (λ m, litIf m.1 ++ [Var m.2]) ms))).
Proof.
  revert s. induction ms as [|[pre n] ms IH]; intros s; simpl; [by rewrite cat_nil|].
  rewrite IH, renderAll_app, <-cat_assoc. f_equal.
  rewrite (cat_plus s) by (destruct pre; simpl; by destruct (varRef n) eqn:E).
  destruct pre as [|a pre]; simpl; rewrite <-!(assoc_L (++)); [done|].
  simpl. by rewrite <-!(assoc_L (++)).
Qed.

Lemma template_parts value :
  template value =
  concat (map meaning (parts (findAll matchVariable value).1 (findAll matchVariable value).2)).
Proof.
  unfold template, parts. destruct (findAll matchVariable value) as [ms rest]. cbn [fst snd].
  assert (Hl : ∀ buf, concat (map meaning (litIf buf)) = bytes buf).
  { intros [|a buf]; [done|]. simpl. by rewrite app_nil_r. }
  rewrite map_app, concat_app, Hl. f_equal. induction ms as [|[pre n] ms IH]; [done|].
  cbn [map concat fst snd]. by rewrite map_app, concat_app, <-IH, map_app, concat_app, Hl.
Qed.

(** C38: the JavaScript a string with variables is turned into is one expression
    that evaluates to that string, each ${name} being the variable of that name:
    no content of the string ends a literal early or adds code. *)
Theorem ToJavaScript_evaluates value :
  jsEval (ToJavaScript value) = Some (template value) ∧
  let '(ms, rest) := findAll matchVariable value in
  concat (map (λ m, m.1 ++ variablePlaceholder m.2) ms) ++ rest = value ∧
  Forall (λ m, identifier m.2) ms.
Proof.
  assert (Hc := findAll_covers matchVariable variablePlaceholder identifier value matchVariable_spec).
  split; [|exact Hc]. rewrite template_parts. unfold ToJavaScript, jsEval.
  destruct value as [|a value]; [reflexivity|]. destruct (findAll matchVariable (a :: value)) as [ms rest].
  destruct Hc as [Hv Hid]. simpl fst. simpl snd.
  set (out := match rest with [] => _ | _ => _ end).
  assert (Hout : out = renderAll (parts ms rest)).
  { unfold out, parts. rewrite renderAll_app, toJavaScript_loop_parts. simpl cat at 1.
    destruct rest as [|b rest]; simpl litIf; [by rewrite cat_nil|].
    change (renderAll [Lit (b :: rest)]) with (cat (quoted (b :: rest)) []). rewrite cat_nil.
    by rewrite (cat_plus _ (quoted (b :: rest))). }
  rewrite Hout. apply jsExpr_renderAll.
  - unfold parts. apply Forall_app. split; [|by destruct rest; repeat constructor].
    apply Forall_concat, Forall_map. eapply Forall_impl; [exact Hid|].
    intros [pre n] Hn. apply Forall_app. split; [by destruct pre; repeat constructor|by constructor].
  - intros Hn. unfold parts in Hn. apply app_nil in Hn as [Hms Hr].
    destruct rest; [|done]. destruct ms as [|[pre n] ms]; [done|]. simpl in Hms.
    by destruct pre.
  - assert (Hlen : ∀ ps, (length ps ≤ length (renderAll ps))%nat).
    { induction ps as [|p ps IH]; [done|]. simpl.
      destruct (render_cons p) as (x & s & ->). destruct (renderAll ps) as [|y t]; simpl in *; [lia|].
      rewrite length_app. simpl. lia. }
    specialize (Hlen (parts ms rest)). lia.
Qed.

(** ** [Resolve] *)

(** What a value with secrets becomes, each secret's value given. *)
Definition filled {E} (r : Resolver (E:=E)) (ms : list (list ascii * list ascii))
    (vs : list (list ascii)) (rest : list ascii) : list ascii :=
  concat (zip_with (λ m v, nonSecret r m.1 ++ v) ms vs) ++ nonSecret r rest.

Lemma checkNames_spec ms :
  match checkNames ms with
  | None => Forall (λ m, isValidSecretName m.2 = true) ms
  | Some n => isValidSecretName n = false ∧ n ∈ map snd ms
  end.
Proof.
  induction ms as [|[pre n] ms IH]; [constructor|]. simpl.
  destruct (isValidSecretName n) eqn:E.
  - destruct (checkNames ms) as [n'|]; [|by constructor].
    destruct IH as [? ?]. split; [done|by right].
  - split; [done|left].
Qed.

Lemma resolveParts_spec {E} (r : Resolver (E:=E)) ms rest :
  match resolveParts r ms rest with
  | Ok out => ∃ vs, Forall2 (λ m v, GetSecretValue r m.2 = Ok v) ms vs ∧ out = filled r ms vs rest
  | Err err => ∃ l1 pre n l2 e, ms = l1 ++ (pre, n) :: l2 ∧ err = ErrSecret n e ∧
      GetSecretValue r n = Err e ∧ Forall (λ m, ∃ v, GetSecretValue r m.2 = Ok v) l1
  end.
Proof.
  induction ms as [|[pre n] ms IH]; simpl; [by exists []|].
  destruct (GetSecretValue r n) as [v|e] eqn:E1.
  - destruct (resolveParts r ms rest) as [out|err].
    + destruct IH as (vs & Hvs & ->). exists (v :: vs). split; [by constructor|].
      unfold filled. simpl. by rewrite <-!(assoc_L (++)).
    + destruct IH as (l1 & pre' & n' & l2 & e & -> & -> & He & Hl1).
      exists ((pre, n) :: l1), pre', n', l2, e. split_and!; [done..|]. constructor; [by exists v|done].
  - exists [], pre, n, ms, e. split_and!; [done..|constructor].
Qed.

(** A name the resolver looks up is a DNS subdomain name: it cannot leave the
    path of the secret it is put into. *)
Lemma isValidSecretName_spec name :
  isValidSecretName name = true →
  (0 < length name ≤ 253)%nat ∧
  Forall (λ a, isLowerAlnum a = true ∨ a = "-"%char ∨ a = "."%char) name ∧
  ∃ a b, head name = Some a ∧ last name = Some b ∧ isLowerAlnum a = true ∧ isLowerAlnum b = true.
Proof.
  unfold isValidSecretName, llen. intros H.
  apply andb_true_iff in H as [H Hall]. apply andb_true_iff in H as [Hlen Hends].
  apply negb_true_iff, orb_false_iff in Hlen as [H0%Z.eqb_neq H253%Z.ltb_ge]. split; [lia|]. split.
  - rewrite forallb_forall in Hall. apply Forall_forall.
    intros a Ha%list_elem_of_In. specialize (Hall a Ha).
    apply orb_true_iff in Hall as [[?|?]%orb_true_iff|?]; [by left| |].
    + right. left. by apply Ascii.eqb_eq.
    + right. right. by apply Ascii.eqb_eq.
  - destruct (head name) as [a|], (last name) as [b|]; try done.
    apply andb_true_iff in Hends as [? ?]. by exists a, b.
Qed.

(** With secrets enabled, the value is cut at its ${secrets.name}; if all the
    names are valid and all the secrets are found the result is the value with each
    placeholder replaced by the secret as it is, never interpreted again, and the
    text between them with its variables replaced.  Otherwise the error names an
    invalid name, before any secret is asked for, or the first secret that failed. *)
Theorem Resolve_secrets {E} (r : Resolver (E:=E)) value :
  secretEnabled r = true → value ≠ [] →
  let '(ms, rest) := findAll matchSecret value in
  concat (map (λ m, m.1 ++ secretPlaceholder m.2) ms) ++ rest = value ∧
  match Resolve r value with
  | Ok out =>
      Forall (λ m, isValidSecretName m.2 = true) ms ∧
      ∃ vs, Forall2 (λ m v, GetSecretValue r m.2 = Ok v) ms vs ∧
        out = filled r ms vs rest ∧
        (GetVariable r = None → out = concat (zip_with (λ m v, m.1 ++ v) ms vs) ++ rest)
  | Err (ErrSecretName n) => n ∈ map snd ms ∧ isValidSecretName n = false
  | Err (ErrSecret n e) =>
      Forall (λ m, isValidSecretName m.2 = true) ms ∧ GetSecretValue r n = Err e ∧
      ∃ l1 pre l2, ms = l1 ++ (pre, n) :: l2 ∧ Forall (λ m, ∃ v, GetSecretValue r m.2 = Ok v) l1
  end.
Proof.
  intros Hen Hne. assert (Hc := findAll_covers matchSecret secretPlaceholder _ value matchSecret_spec).
  unfold Resolve. destruct (findAll matchSecret value) as [ms rest] eqn:Ef.
  destruct Hc as [Hv _]. split; [done|]. destruct value as [|a value]; [done|]. rewrite Hen. simpl negb. cbv iota.
  assert (Hn := checkNames_spec ms). destruct (checkNames ms) as [n|]; [by destruct Hn|].
  assert (Hr := resolveParts_spec r ms rest). destruct (resolveParts r ms rest) as [out|err].
  - split; [done|]. destruct Hr as (vs & Hvs & ->). exists vs. split_and!; [done..|]. intros Hnil.
    assert (Hid : ∀ l, nonSecret r l = l) by (intros [|b l]; [done|]; simpl; unfold processVariables; by rewrite Hnil).
    unfold filled. rewrite Hid. f_equal. f_equal. clear Hvs Hv Ef Hn.
    revert vs. induction ms as [|m ms IH]; intros [|v vs]; [done..|]. simpl. by rewrite Hid, IH.
  - destruct Hr as (l1 & pre & n & l2 & e & -> & -> & He & Hl1). split_and!; [done..|]. by exists l1, pre, l2.
Qed.

Lemma Resolve_secrets_witness :
  let r : Resolver (E:=unit) := {| GetVariable := None;
    GetSecretValue := λ n, Ok (chars "${secrets.b}"); secretEnabled := true |} in
  let value := chars "x ${secrets.a} y" in
  let '(ms, rest) := findAll matchSecret value in
  concat (map (λ m, m.1 ++ secretPlaceholder m.2) ms) ++ rest = value ∧
  match Resolve r value with
  | Ok out =>
      Forall (λ m, isValidSecretName m.2 = true) ms ∧
      ∃ vs, Forall2 (λ m v, GetSecretValue r m.2 = Ok v) ms vs ∧
        out = filled r ms vs rest ∧
        (GetVariable r = None → out = concat (zip_with (λ m v, m.1 ++ v) ms vs) ++ rest)
  | Err (ErrSecretName n) => n ∈ map snd ms ∧ isValidSecretName n = false
  | Err (ErrSecret n e) =>
      Forall (λ m, isValidSecretName m.2 = true) ms ∧ GetSecretValue r n = Err e ∧
      ∃ l1 pre l2, ms = l1 ++ (pre, n) :: l2 ∧ Forall (λ m, ∃ v, GetSecretValue r m.2 = Ok v) l1
  end.
Proof. intros r value. apply Resolve_secrets; [reflexivity|discriminate]. Defined.

(** ** Examples *)

Example resolve_example :
  Resolve (E:=unit) {| GetVariable := None; GetSecretValue := λ n, Ok (chars "<" ++ n ++ chars ">");
                       secretEnabled := true |} (chars "a ${secrets.x} ${y} ${secrets.z}")
  = Ok (chars "a <x> ${y} <z>").
Proof. reflexivity. Qed.

(** A variable's value is searched for the variables that come later: the
    replacement is not a single pass. *)
Example variables_are_rescanned :
  processVariables (E:=unit)
    {| GetVariable := Some (λ n, if bool_decide (n = chars "a") then Some (chars "${b}") else Some (chars "x"));
       GetSecretValue := λ _, Ok []; secretEnabled := false |}
    (chars "${a} ${b}") = chars "x x".
Proof. reflexivity. Qed.

(** The two bytes of an e with acute accent become two characters of JavaScript. *)
Example non_ascii_is_not_preserved :
  jsEval (ToJavaScript ["195"%char; "169"%char]) = Some [inl 195%N; inl 169%N].
Proof. reflexivity. Qed.

Example to_javascript_example :
  of_chars (ToJavaScript (chars "Hello ${username}!")) = "'Hello '+vars['username']+'!'".
Proof. reflexivity. Qed.
