(* ===== verification/Script.v ===== *)
(** * The k6 script of a multihttp check

    [internal/prober/multihttp/script.go] and its template [script.tmpl]: the
    settings of a check become the JavaScript program k6 runs.  The texts the user
    controls end up in string literals; the theorems are about a lexer for the part
    of JavaScript that separates literals, comments and code.

    Texts are lists of bytes.  [unicode.IsPrint] is a parameter. *)
From Stdlib Require Import ZifyN.
From S2P Require Import Prelude Strs Net Header Checks Validate Interpolation.

Open Scope Z_scope.

(** Constant texts: a tilde stands for a double quote, which no text uses. *)
Definition js (s : string) : list ascii :=
  map (λ a, if Ascii.eqb a "~" then "034"%char else a) (chars s).

(** ** [text/template]: [JSEscape] *)

(** [utf8.DecodeRune]: a rune and its width; a wrong byte is U+FFFD, of width one. *)
Definition between (lo hi : N) (a : ascii) : bool := (lo <=? code a)%N && (code a <=? hi)%N.
Definition low6 (a : ascii) : N := (code a mod 64)%N.
Definition decodeRune (l : list ascii) : N * nat :=
  let bad := (65533%N, 1%nat) in
  match l with
  | [] => (65533%N, 0%nat)
  | a :: l =>
      if between 0 127 a then (code a, 1%nat)
      else if between 194 223 a then
        match l with
        | b :: _ => if between 128 191 b then ((code a mod 32 * 64 + low6 b)%N, 2%nat) else bad
        | _ => bad
        end
      else if between 224 239 a then
        match l with
        | b :: c :: _ =>
            if between (if (code a =? 224)%N then 160 else 128) (if (code a =? 237)%N then 159 else 191) b
               && between 128 191 c
            then ((code a mod 16 * 4096 + low6 b * 64 + low6 c)%N, 3%nat) else bad
        | _ => bad
        end
      else if between 240 244 a then
        match l with
        | b :: c :: d :: _ =>
            if between (if (code a =? 240)%N then 144 else 128) (if (code a =? 244)%N then 143 else 191) b
               && between 128 191 c && between 128 191 d
            then ((code a mod 8 * 262144 + low6 b * 4096 + low6 c * 64 + low6 d)%N, 4%nat) else bad
        | _ => bad
        end
      else bad
  end.

Arguments decodeRune l : simpl never.

(** ["%04X"]. *)
Definition hexUpper (n : N) : ascii := if (n <? 10)%N then ascii_of_N (48 + n) else ascii_of_N (55 + n).
Fixpoint hexDigits (fuel : nat) (n : N) (acc : list ascii) : list ascii :=
  match fuel with
  | O => acc
  | S fuel =>
      let acc := hexUpper (n mod 16) :: acc in
      if (n <? 16)%N then acc else hexDigits fuel (n / 16) acc
  end.
Definition hex4 (n : N) : list ascii :=
  let ds := hexDigits 8 n [] in replicate (4 - length ds) "0"%char ++ ds.

(** A byte below 128. *)
Definition escapeAscii (a : ascii) : list ascii :=
  let bs := "092"%char in
  if Ascii.eqb a "092" then [bs; bs]
  else if Ascii.eqb a "'" then [bs; "'"%char]
  else if Ascii.eqb a "034" then [bs; "034"%char]
  else if Ascii.eqb a "<" then bs :: chars "u003C"
  else if Ascii.eqb a ">" then bs :: chars "u003E"
  else if Ascii.eqb a "&" then bs :: chars "u0026"
  else if Ascii.eqb a "=" then bs :: chars "u003D"
  else if (code a <? 32)%N then
    bs :: chars "u00" ++ [hexUpper (code a / 16); hexUpper (code a mod 16)]
  else [a].

Section script.
Variable isPrint : N → bool.

Fixpoint JSEscape_loop (fuel : nat) (l : list ascii) : list ascii :=
  match fuel, l with
  | _, [] => []
  | O, _ => l
  | S fuel, a :: l' =>
      if (code a <? 128)%N then escapeAscii a ++ JSEscape_loop fuel l'
      else
        let '(r, size) := decodeRune l in
        (if isPrint r then take size l else "092"%char :: "u"%char :: hex4 r) ++
        JSEscape_loop fuel (drop size l)
  end.
Definition JSEscape (l : list ascii) : list ascii := JSEscape_loop (length l) l.
Definition JSEscapeString (s : string) : list ascii := JSEscape (chars s).

(** ** Strings with variables *)

Definition isUserVarChar (a : ascii) : bool := isVarStart a || isDigit a.

(** [userVariables] at the start of [l]. *)
Definition matchUserVariable (l : list ascii) : option (list ascii * list ascii) :=
  l ← stripPrefixOf (chars "${") l;
  match l with
  | a :: l =>
      if isVarStart a then
        let '(n, r) := spanClass isUserVarChar l in
        r ← stripPrefixOf (chars "}") r; Some (a :: n, r)
      else None
  | [] => None
  end.

Definition sq (l : list ascii) : list ascii := quote :: JSEscape l ++ [quote].

Fixpoint expansion_loop (ms : list (list ascii * list ascii)) (s : list ascii) : list ascii :=
  match ms with
  | [] => s
  | (pre, n) :: ms =>
      let s := s ++ plus s in
      let s := match pre with [] => s | _ => s ++ sq pre ++ js "+" end in
      expansion_loop ms (s ++ js "vars['" ++ n ++ js "']")
  end.

Definition performVariableExpansion (s : string) : list ascii :=
  match chars s with
  | [] => js "''"
  | buf =>
      let '(ms, rest) := findAll matchUserVariable buf in
      let s := expansion_loop ms [] in
      match rest with [] => s | _ => s ++ plus s ++ sq rest end
  end.

(** ** Requests *)

Definition buildQueryParam (urlVarName : string) (field : QueryField) : list ascii :=
  js urlVarName ++ js ".searchParams.append(" ++ performVariableExpansion (q_Name field) ++ js ", " ++
  performVariableExpansion (q_Value field) ++ js ")".

Definition buildBody (body : option HttpRequestBody) : list ascii :=
  match body with
  | None => js "null"
  | Some b =>
      match b_Payload b with
      | [] => js "~~"
      | payload => js "encoding.b64decode(~" ++ base64 payload ++ js "~, 'rawstd', ~s~)"
      end
  end.

(** The variables of the body, each once, in the order of their first use. *)
Fixpoint uniqueMatches (seen : list (list ascii)) (ms : list (list ascii * list ascii)) : list (list ascii) :=
  match ms with
  | [] => []
  | (_, n) :: ms =>
      if bool_decide (n ∈ seen) then uniqueMatches seen ms else n :: uniqueMatches (n :: seen) ms
  end.
Definition interpolateBodyVariable (bodyVarName : string) (n : list ascii) : list ascii :=
  js bodyVarName ++ js "=" ++ js bodyVarName ++ js ".replaceAll('" ++ variablePlaceholder n ++
  js "', vars['" ++ n ++ js "'])".
Definition interpolateBodyVariables (bodyVarName : string) (body : option HttpRequestBody)
    : list (list ascii) :=
  match body with
  | None => []
  | Some b =>
      map (interpolateBodyVariable bodyVarName)
        (uniqueMatches [] (findAll matchUserVariable (b_Payload b)).1)
  end.

Definition buildHeader (comma : list ascii) (header : HttpHeader) : list ascii :=
  comma ++ js "~" ++ JSEscapeString (h_Name header) ++ js "~:" ++
  performVariableExpansion (h_Value header).
Fixpoint buildHeaders_loop (comma : list ascii) (headers : list HttpHeader) : list ascii :=
  match headers with
  | [] => []
  | h :: headers => buildHeader comma h ++ buildHeaders_loop (js ",") headers
  end.

Definition contentType (b : HttpRequestBody) : list ascii :=
  match chars (b_ContentType b) with
  | [] => []
  | _ => js "'Content-Type':~" ++ JSEscapeString (b_ContentType b) ++ js "~"
  end.
Definition contentEncoding (comma : list ascii) (b : HttpRequestBody) : list ascii :=
  match chars (b_ContentEncoding b) with
  | [] => []
  | _ => comma ++ js "'Content-Encoding':~" ++ JSEscapeString (b_ContentEncoding b) ++ js "~"
  end.
Definition commaAfter (s : list ascii) : list ascii := match s with [] => [] | _ => js "," end.

Definition bodyHeaders (body : option HttpRequestBody) : list ascii :=
  match body with
  | None => []
  | Some b => contentType b ++ contentEncoding (commaAfter (contentType b)) b
  end.

Definition buildHeaders (headers : list HttpHeader) (body : option HttpRequestBody) : list ascii :=
  match headers, body with
  | [], None => []
  | _, _ =>
      js "{" ++ bodyHeaders body ++ buildHeaders_loop (commaAfter (bodyHeaders body)) headers ++ js "}"
  end.

(** ** Assertions *)

(** The text of an enumeration's condition; TYPE_OF (5) has none. *)
Definition conditionName (c : Z) : string :=
  match c with
  | 1 => "does not contain"
  | 6 | 0 => "contains"
  | 2 => "equals"
  | 3 => "starts with"
  | 4 => "ends with"
  | _ => ""
  end%string.
Definition Name (c : Z) (subject value : string) : list ascii :=
  JSEscapeString subject ++ js " " ++ js (conditionName c) ++ js " \~" ++ JSEscapeString value ++ js "\~".

Definition Render (c : Z) (subject value : string) : list ascii :=
  let call (f : string) := js subject ++ js f ++ JSEscapeString value in
  match c with
  | 1 => js "!" ++ call ".includes(~"%string ++ js "~)"
  | 6 | 0 => call ".includes(~"%string ++ js "~)"
  | 2 => call " === ~"%string ++ js "~"
  | 3 => call ".startsWith(~"%string ++ js "~)"
  | 4 => call ".endsWith(~"%string ++ js "~)"
  | _ => []
  end.

Definition allHeaders : list ascii :=
  js "const values = Object.entries(response.headers).map(header => header[0].toLowerCase() + ': ' + header[1]); ".

(** The two builders of [buildChecks] after its switch: the entry of the check and
    the description of the assertion. *)
Definition assertionTexts (a : MultiHttpEntryAssertion) : list ascii * list ascii :=
  let c := as_Condition a in
  let value := as_Value a in
  let expr := as_Expression a in
  let regexp (what : string) (test : list ascii) (descr : string) :=
    (js what ++ js " matches /" ++ JSEscapeString expr ++
     js "/~: response => { const expr = new RegExp(~" ++ JSEscapeString expr ++ js "~); " ++ test,
     js descr ++ chars expr) in
  match as_Type a with
  | 0 =>
      match as_Subject a with
      | 3 | 0 =>
          (Name c "body" value ++ js "~: response => " ++ Render c "response.body" value,
           Render c "response.body" value)
      | 1 =>
          (Name c "header" value ++ js "~: response => { " ++
           match chars expr with
           | [] => allHeaders ++ js "return !!values.find(value => " ++ Render c "value" value ++ js ");"
           | _ => js "return assertHeader(response.headers, ~" ++ JSEscapeString expr ++ js "~, " ++
                  js "v => " ++ Render c "value" value ++ js ");"
           end ++ js " }",
           Render c "value" value)
      | 2 =>
          (Name c "status code" value ++ js "~: response => " ++
           Render c "response.status.toString()" value,
           Render c "response.status.toString()" value)
      | _ => ([], [])
      end
  | 1 =>
      (Name c expr value ++ js "~: response => jsonpath.query(response.json(), ~" ++
       JSEscapeString expr ++ js "~).some(values => " ++ Render c "values" value ++ js ")",
       Render c "values" value)
  | 2 =>
      (JSEscapeString expr ++ js " exists~: response => jsonpath.query(response.json(), ~" ++
       JSEscapeString expr ++ js "~).length > 0",
       js "JsonPath expression " ++ chars expr)
  | 3 =>
      match as_Subject a with
      | 3 | 0 => regexp "body"%string (js "return expr.test(response.body); }") "Body matches"%string
      | 1 => regexp "headers"%string
               (allHeaders ++ js "return !!values.find(value => expr.test(value)); }") "Headers match"%string
      | 2 => regexp "status"%string (js "return expr.test(response.status.toString()); }")
               "Status matches"%string
      | _ => ([], [])
      end
  | _ => ([], [])
  end.

Definition buildChecks (urlVarName : string) (method : list ascii) (a : MultiHttpEntryAssertion) : list ascii :=
  js "currentCheck = check(response, { ~" ++ (assertionTexts a).1 ++
  js " }, {~url~: " ++ js urlVarName ++ js ".toString(), ~method~: ~" ++ method ++
  js "~});
	if(!currentCheck) {
		console.error(~Assertion failed:~, ~" ++ JSEscape (assertionTexts a).2 ++ js "~);
		fail()
	};
".

Definition buildVars (v : MultiHttpEntryVariable) : list ascii :=
  let expr := JSEscapeString (v_Expression v) in
  match v_Type v with
  | 1 => js "match = new RegExp('" ++ expr ++ js "').exec(response.body); "
  | _ => []
  end ++
  js "vars['" ++ JSEscapeString (v_Name v) ++ js "'] = " ++
  match v_Type v with
  | 0 => js "jsonpath.query(response.json(), '" ++ expr ++ js "')[0]"
  | 1 => js "match ? match[1] || match[0] : null"
  | 2 => js "response.html('" ++ expr ++ js "')" ++
         match chars (v_Attribute v) with
         | [] => js ".html()"
         | _ => js ".first().attr('" ++ JSEscapeString (v_Attribute v) ++ js "')"
         end
  | _ => []
  end ++ js ";".

(** ** [script.tmpl]

    [text/template] writes values as they are.  A nil entry, request, header, query
    field, assertion or variable ends the execution with an error. *)
Definition templateStart : list ascii := js "import http from 'k6/http';
import { check, fail } from 'k6';
import { test } from 'k6/execution';
// TODO(mem): conditionally import these modules
// - import encoding if base64 decoding is required
// - import jsonpath if there are json assertions
import encoding from 'k6/encoding';
import jsonpath from 'https://jslib.k6.io/jsonpath/1.0.2/index.js';
import { URL } from 'https://jslib.k6.io/url/1.0.0/index.js';

export const options = {
	scenarios: {
		default: {
			executor: 'shared-iterations',
			tags: {
				// TODO(mem): build tags out of options for the check?
				environment: 'production',
			},
			// exec: 'runner',
			maxDuration: '10s', // TODO(mem): this would be the timeout for the check
			gracefulStop: '1s',
		},
	},

	dns: {
		ttl: '2m', // TODO(mem): this doesn't need to be much higher than the maxDuration
		select: 'first',
		// TODO(mem): we can build this maps to IP option in checks, more or less
		policy: 'preferIPv4', // preferIPv6, onlyIPv4, onlyIPv6, any
	},

	// TODO(mem): we can build this out of check options
	insecureSkipTLSVerify: false,
	tlsVersion: {
		// TODO(mem): we can build this out of check options
		min: 'tls1.2',
		max: 'tls1.3',
	},
	// TODO(mem): we can build this out of agent version
	userAgent: 'synthetic-monitoring-agent/v0.14.3 (linux amd64; g64b8bab; +https://github.com/grafana/synthetic-monitoring-agent)',

	maxRedirects: 10,

	// k6 options
	vus: 1,
	// linger: false,
	summaryTimeUnit: 's',
	discardResponseBodies: false, // enable only if there are checks?
};

function assertHeader(headers, name, matcher) {
	const lcName = name.toLowerCase();
	const values = Object.entries(headers).
		filter(h => h[0].toLowerCase() === lcName).
		map(h => h[1]);

	if (values.find(v => matcher(v)) !== undefined) {
		return true;
	} else if (values.length === 0) {
		console.warn(`'${name}' not present in response`);
	} else {
		values.forEach(v => console.warn(`'${name}' has the value '${v}'`));
	}

	return false;
}

export default function() {
	let response;
	let body;
	let url;
	let currentCheck;
	let match;
	const logResponse = ".

Definition forEach {A} (f : A → list ascii) (after : list ascii) (l : list A) : list ascii :=
  concat (map (λ x, f x ++ after) l).

Definition newLine : list ascii := js "
	".

(** [{{ .Request.Method.String }}]. *)
Definition methodString (m : Z) : list ascii :=
  match list_find (λ p, p.1 = m) HttpMethod_name with
  | Some (_, (_, n)) => js n
  | None => chars (itoa m)
  end.

(** A request whose headers and query fields are not nil. *)
Record liveRequest := {
  lr_Method : Z; lr_Url : string; lr_Headers : list HttpHeader; lr_QueryFields : list QueryField;
  lr_Body : option HttpRequestBody }.
Record liveEntry := {
  le_Request : liveRequest; le_Assertions : list MultiHttpEntryAssertion;
  le_Variables : list MultiHttpEntryVariable }.

Definition liveOf (e : option MultiHttpEntry) : option liveEntry :=
  e ← e; r ← e_Request e;
  hs ← mapM id (r_Headers r); qs ← mapM id (r_QueryFields r);
  asserts ← mapM id (e_Assertions e); vs ← mapM id (e_Variables e);
  Some {| le_Request := {| lr_Method := r_Method r; lr_Url := r_Url r; lr_Headers := hs;
                           lr_QueryFields := qs; lr_Body := r_Body r |};
          le_Assertions := asserts; le_Variables := vs |}.

Definition entryText (idx : nat) (e : liveEntry) : list ascii :=
  let r := le_Request e in
  let url := chars (lr_Url r) in
  let method := methodString (lr_Method r) in
  let headers := buildHeaders (lr_Headers r) (lr_Body r) in
  js "
	console.log(~Starting request to " ++
  url ++
  js "...~);
	try {
		url = new URL(" ++
  performVariableExpansion (lr_Url r) ++
  js ");
	} catch(e) {
		console.error(~Invalid URL: " ++
  url ++
  js "~);
		fail()
	}" ++
  newLine ++
  forEach (buildQueryParam "url") (js ";" ++ newLine) (lr_QueryFields r) ++
  js "

	body = " ++
  buildBody (lr_Body r) ++
  js ";" ++
  newLine ++
  forEach id (js ";" ++ newLine) (interpolateBodyVariables "body" (lr_Body r)) ++
  js "
	response = http.request('" ++
  method ++
  js "', url.toString(), body, {
		// TODO(mem): build params out of options for the check
		tags: {
		  name: '" ++
  chars (itoa (Z.of_nat idx)) ++
  js "', // TODO(mem): give the user some control over this?
		  __raw_url__: '" ++
  url ++
  js "',
		},
		redirects: 0" ++
  match headers with [] => [] | _ => js ",
		headers: " ++ headers end ++
  js "
	});
	console.log(~Response received from " ++
  url ++
  js ", status~, response.status);
	if(logResponse) {
		const body = response.body || ''
		console.log(~Response body received from " ++
  url ++
  js ":~, body.slice(0, 1000));
	}
	if(response.error) {
		console.error(~Request error:~ + url.toString() + ~: ~ + response.error)
	}
	" ++
  forEach (buildChecks "url" method) newLine (le_Assertions e) ++
  forEach buildVars newLine (le_Variables e).

Fixpoint entriesText (idx : nat) (es : list liveEntry) : list ascii :=
  match es with [] => [] | e :: es => entryText idx e ++ entriesText (S idx) es end.

Definition scriptText (logResponses : bool) (es : list liveEntry) : list ascii :=
  templateStart ++ js (if logResponses then "true" else "false") ++ js "
	const vars = {};

 " ++ entriesText 0 es ++ js "
}
".

Definition settingsToScript (s : MultiHttpSettings) : option (list ascii) :=
  es ← mapM liveOf (mh_Entries s); Some (scriptText (mh_LogResponses s) es).

(** ** Reserved headers of a request: [multihttp.go]

    [reservedHeaders] is iterated in some order, here the order of the list; the
    keys are canonical.  [updatedHeaders]
    is one variable for all the entries. *)
Definition augment_entry (reserved : list (string * list string))
    (updated headers : list HttpHeader) : list HttpHeader :=
  updated ++ filter (λ h, CanonicalHeaderKey (h_Name h) ∉ map fst reserved) headers.

Fixpoint augment_loop (reserved : list (string * list string))
    (updated : list HttpHeader) (entries : list (list HttpHeader)) : list (list HttpHeader) :=
  match entries with
  | [] => []
  | hs :: entries =>
      let updated := augment_entry reserved updated hs in
      updated :: augment_loop reserved updated entries
  end.

Definition reservedHeader (kv : string * list string) : HttpHeader :=
  {| h_Name := kv.1; h_Value := join "," kv.2 |}.

(** The headers of each entry after [augmentHttpHeaders]. *)
Definition augmentHttpHeaders (reserved : list (string * list string)) (entries : list (list HttpHeader))
    : list (list HttpHeader) :=
  augment_loop reserved (map reservedHeader reserved) entries.
End script.

(** ** A lexer for JavaScript

    It separates code from comments and literals, and checks that brackets match.
    A literal in simple or double quotes ends on its line.  The code is collected
    without the contents of literals and comments; a slash that does not start a
    line comment is refused (the template has no division and no regular expression
    literal). *)
Inductive mode := Code | Slash | Comment | Str (q : ascii) | Esc (q : ascii).
Definition lexState : Type := mode * list ascii * list ascii.

Definition opening (a : ascii) : option ascii :=
  match code a with 40%N => Some ")"%char | 91%N => Some "]"%char | 123%N => Some "}"%char | _ => None end.
Definition isQuote (a : ascii) : bool :=
  match code a with 39%N | 34%N | 96%N => true | _ => false end.
Definition isClosing (a : ascii) : bool :=
  match code a with 41%N | 93%N | 125%N => true | _ => false end.
Definition isNewline (a : ascii) : bool :=
  match code a with 10%N | 13%N => true | _ => false end.

Definition lexStep (a : ascii) (st : lexState) : option lexState :=
  let '(m, stack, c) := st in
  match m with
  | Code =>
      if isQuote a then Some (Str a, stack, a :: c)
      else if Ascii.eqb a "/" then Some (Slash, stack, c)
      else
        match opening a with
        | Some b => Some (Code, b :: stack, a :: c)
        | None =>
            if isClosing a then
              match stack with
              | b :: stack => if Ascii.eqb a b then Some (Code, stack, a :: c) else None
              | [] => None
              end
            else Some (Code, stack, a :: c)
        end
  | Slash => if Ascii.eqb a "/" then Some (Comment, stack, c) else None
  | Comment => if isNewline a then Some (Code, stack, a :: c) else Some st
  | Str q =>
      if Ascii.eqb a q then Some (Code, stack, a :: c)
      else if Ascii.eqb a "092" then Some (Esc q, stack, c)
      else if isNewline a && negb (Ascii.eqb q "`") then None
      else Some st
  | Esc q => Some (Str q, stack, c)
  end.
Arguments lexStep a st : simpl never.
Fixpoint run (l : list ascii) (st : lexState) : option lexState :=
  match l with [] => Some st | a :: l => st ← lexStep a st; run l st end.

(** The code of a whole program: it ends outside literals, all brackets closed. *)
Definition lex (l : list ascii) : option (list ascii) :=
  match run l (Code, [], []) with
  | Some (Code, [], c) => Some (rev c)
  | _ => None
  end.

(** ** Simulation of texts

    [Sim m s m' s' x y]: from mode [m] and brackets [s] both texts lex to mode [m']
    and brackets [s'], with the same code. *)
Definition Sim (m : mode) (s : list ascii) (m' : mode) (s' : list ascii) (x y : list ascii) : Prop :=
  ∃ w, run x (m, s, []) = Some (m', s', w) ∧ run y (m, s, []) = Some (m', s', w).

Lemma run_app x y st : run (x ++ y) st = run x st ≫= run y.
Proof.
  revert st. induction x as [|a x IH]; intros st; [done|]. simpl.
  destruct (lexStep a st); simpl; auto.
Qed.

Lemma lexStep_frame a m s c m' s' c' t k :
  lexStep a (m, s, c) = Some (m', s', c') → lexStep a (m, s ++ t, c ++ k) = Some (m', s' ++ t, c' ++ k).
Proof.
  unfold lexStep. intros H.
  destruct m; simpl in *; repeat case_match; simplify_eq/=; first [done|congruence].
Qed.
Lemma run_frame x m s c m' s' c' t k :
  run x (m, s, c) = Some (m', s', c') → run x (m, s ++ t, c ++ k) = Some (m', s' ++ t, c' ++ k).
Proof.
  revert m s c. induction x as [|a x IH]; simpl; intros m s c H; [by simplify_eq|].
  apply bind_Some in H as ([[m1 s1] c1] & H1 & H2). rewrite (lexStep_frame _ _ _ _ _ _ _ t k H1).
  simpl. by apply IH.
Qed.

Lemma Sim_app m s m1 s1 m2 s2 x x' y y' :
  Sim m s m1 s1 x x' → Sim m1 s1 m2 s2 y y' → Sim m s m2 s2 (x ++ y) (x' ++ y').
Proof.
  intros (w1 & Hx & Hx') (w2 & Hy & Hy'). exists (w2 ++ w1).
  rewrite !run_app, Hx, Hx'. simpl.
  assert (H := run_frame _ _ _ _ _ _ _ [] w1 Hy). assert (H' := run_frame _ _ _ _ _ _ _ [] w1 Hy').
  rewrite !app_nil_r in H, H'. by split.
Qed.
Lemma Sim_frame m s m' s' x y t : Sim m s m' s' x y → Sim m (s ++ t) m' (s' ++ t) x y.
Proof.
  intros (w & H1 & H2). exists w.
  apply (run_frame _ _ _ _ _ _ _ t []) in H1, H2. rewrite !app_nil_r in H1, H2. by split.
Qed.
Lemma Sim_code x y s : Sim Code [] Code [] x y → Sim Code s Code s x y.
Proof. apply (Sim_frame Code [] Code [] x y s). Qed.

#[export] Instance Sim_sym m s m' s' : Symmetric (Sim m s m' s').
Proof. intros x y (w & H1 & H2). by exists w. Qed.
#[export] Instance Sim_trans m s m' s' : Transitive (Sim m s m' s').
Proof. intros x y z (w & H1 & H2) (w' & H3 & H4). exists w. split; congruence. Qed.
Lemma Sim_refl m s m' s' w x : run x (m, s, []) = Some (m', s', w) → Sim m s m' s' x x.
Proof. intros H. by exists w. Qed.
Lemma Sim_nil m s : Sim m s m s [] [].
Proof. by exists []. Qed.

(** The same code, and no literal or bracket left open. *)
Lemma Sim_lex x y : Sim Code [] Code [] x y → is_Some (lex x) ∧ lex x = lex y.
Proof. intros (w & H1 & H2). unfold lex. rewrite H1, H2. eauto. Qed.

(** ** Texts inside a literal *)

Definition delimiter (q : ascii) : Prop := q = quote ∨ q = "034"%char.
Definition InStr (x : list ascii) : Prop :=
  ∀ q, delimiter q → run x (Str q, [], []) = Some (Str q, [], []).

Definition plainChar (a : ascii) : bool :=
  negb (isQuote a) && negb (Ascii.eqb a "092") && negb (isNewline a).
Definition plain (l : list ascii) : Prop := Forall (λ a, plainChar a = true) l.

Lemma InStr_nil : InStr [].
Proof. by intros q Hq. Qed.
Lemma InStr_app x y : InStr x → InStr y → InStr (x ++ y).
Proof. intros Hx Hy q Hq. rewrite run_app, Hx by done. by apply Hy. Qed.
Lemma InStr_plain x : plain x → InStr x.
Proof.
  intros H q Hq. induction H as [|a x Ha _ IH]; [done|].
  unfold plainChar in Ha. apply andb_true_iff in Ha as [[Hq1 Hb]%andb_true_iff Hn].
  apply negb_true_iff in Hq1, Hb, Hn. simpl. unfold lexStep at 1. rewrite Hb, Hn.
  destruct (Ascii.eqb_spec a q) as [->|]; [|done]. destruct Hq as [->| ->]; done.
Qed.

Lemma InStr_const x :
  match run x (Str quote, [], []), run x (Str "034"%char, [], []) with
  | Some (Str q1, [], []), Some (Str q2, [], []) => Ascii.eqb q1 quote && Ascii.eqb q2 "034"
  | _, _ => false
  end = true → InStr x.
Proof.
  intros H q Hq. repeat case_match; try done. apply andb_true_iff in H as [->%Ascii.eqb_eq ->%Ascii.eqb_eq].
  by destruct Hq as [->| ->].
Qed.

Lemma Sim_str q s x y : delimiter q → InStr x → InStr y → Sim (Str q) s (Str q) s x y.
Proof.
  intros Hq Hx Hy. apply (Sim_frame _ [] _ [] x y s). exists []. split; [by apply Hx|by apply Hy].
Qed.

(** ** Escaped text stays inside *)

Lemma escapeAscii_InStr a : InStr (escapeAscii a).
Proof.
  apply InStr_const. destruct a as [[] [] [] [] [] [] [] []]; vm_compute; reflexivity.
Qed.

Lemma hexUpper_plain n : (n < 16)%N → plainChar (hexUpper n) = true.
Proof.
  intros H. assert (Hn : n ∈ (N.of_nat <$> seq 0 16)).
  { apply list_elem_of_fmap. exists (N.to_nat n). split; [lia|]. apply elem_of_seq. lia. }
  revert n Hn H. apply (Forall_forall (λ n, (n < 16)%N → plainChar (hexUpper n) = true)).
  repeat constructor.
Qed.
Lemma hexDigits_plain f n acc : plain acc → plain (hexDigits f n acc).
Proof.
  revert n acc. induction f as [|f IH]; intros n acc H; simpl; [done|].
  assert (plain (hexUpper (n mod 16) :: acc)).
  { constructor; [|done]. apply hexUpper_plain. by apply N.mod_lt. }
  destruct (n <? 16)%N; [done|]. by apply IH.
Qed.
Lemma hex4_plain n : plain (hex4 n).
Proof.
  apply Forall_app; split; [by apply Forall_replicate|]. apply hexDigits_plain. constructor.
Qed.

Lemma high_plain a lo hi : (128 ≤ lo)%N → between lo hi a = true → plainChar a = true.
Proof.
  unfold between. rewrite andb_true_iff, !N.leb_le. intros Hlo [H _].
  assert (Hc : (128 ≤ code a)%N) by lia. clear -Hc. revert Hc.
  destruct a as [[] [] [] [] [] [] [] []]; vm_compute; congruence.
Qed.

(** A decoded rune is made of bytes above 127. *)
Lemma decodeRune_plain a l :
  (128 ≤ code a)%N →
  let size := (decodeRune (a :: l)).2 in (1 ≤ size)%nat ∧ plain (take size (a :: l)).
Proof.
  intros Ha. assert (Pa : plainChar a = true).
  { apply (high_plain a 128 255); [done|]. unfold between. apply andb_true_iff. split; [by apply N.leb_le|].
    apply N.leb_le. assert (H := Ascii.N_ascii_bounded a). unfold code. lia. }
  unfold decodeRune. replace (between 0 127 a) with false.
  2: { unfold between. symmetry. apply andb_false_iff. right. apply N.leb_gt. lia. }
  repeat case_match; simpl;
    repeat match goal with
    | H : _ && _ = true |- _ => apply andb_true_iff in H as [? ?]
    end; (split; [lia|]); repeat (constructor; [first [done|eapply high_plain; [|done]; repeat case_match; lia]|]);
    constructor.
Qed.

Lemma JSEscape_InStr isPrint l : InStr (JSEscape isPrint l).
Proof.
  unfold JSEscape. assert (Hf : (length l ≤ length l)%nat) by lia. revert Hf.
  generalize (length l) at 2 3 as f. intros f. revert l.
  induction f as [|f IH]; intros [|a l] Hf; simpl in Hf |- *; [apply InStr_nil|lia|apply InStr_nil|].
  destruct (N.ltb_spec (code a) 128) as [Ha|Ha].
  - apply InStr_app; [apply escapeAscii_InStr|]. apply IH. lia.
  - destruct (decodeRune_plain a l Ha) as [Hs Hp]. destruct (decodeRune (a :: l)) as [r size]. simpl in Hs, Hp.
    apply InStr_app; [|apply IH; rewrite length_drop; simpl; lia].
    destruct (isPrint r); [by apply InStr_plain|]. 
    change (InStr (chars "\u" ++ hex4 r)). apply InStr_app; [by apply InStr_const|].
    apply InStr_plain, hex4_plain.
Qed.

(** ** Constants and automation *)

Create HintDb script.
#[local] Hint Resolve InStr_nil InStr_app JSEscape_InStr : script.
#[local] Hint Extern 2 (InStr (js _)) => apply InStr_const; vm_compute; reflexivity : script.
#[local] Hint Extern 1 (InStr (JSEscapeString _ _)) => apply JSEscape_InStr : script.
#[local] Hint Extern 1 (delimiter _) => first [left; reflexivity|right; reflexivity] : script.

(** A constant text, computed. *)
Ltac sim_const := eapply Sim_refl; vm_compute; reflexivity.
(** Texts piece by piece: constants, contents of literals, parts with a lemma. *)
Ltac sim :=
  lazymatch goal with
  | |- Sim _ _ _ _ [] [] => apply Sim_nil
  | |- Sim _ _ _ _ (js _) (js _) => sim_const
  | |- Sim _ _ _ _ newLine newLine => sim_const
  | |- Sim _ _ _ _ (_ ++ _) (_ ++ _) => eapply Sim_app; [sim|sim]
  | |- Sim (Str _) _ _ _ _ _ => apply Sim_str; eauto with script
  | |- Sim Code _ _ _ _ _ => solve [eauto with script]
  end.

Section sim.
Context (isPrint : N → bool).

Lemma Name_InStr c subject value : InStr (Name isPrint c subject value).
Proof.
  unfold Name. repeat apply InStr_app; eauto with script.
  unfold conditionName. repeat case_match; eauto with script.
Qed.

(** The subjects of conditions. *)
Definition subjects : list string :=
  ["response.body"; "value"; "response.status.toString()"; "values"]%string.

Lemma Render_Sim c subject v v' s :
  subject ∈ subjects → Sim Code s Code s (Render isPrint c subject v) (Render isPrint c subject v').
Proof.
  intros Hs. apply Sim_code. unfold subjects in Hs.
  repeat (apply elem_of_cons in Hs as [->|Hs]; [unfold Render; repeat case_match; sim|]).
  by apply elem_of_nil in Hs.
Qed.
#[local] Hint Resolve Name_InStr : script.
#[local] Hint Extern 2 (Sim _ _ _ _ (Render _ _ _ _) _) =>
  apply Render_Sim; unfold subjects; set_solver : script.

(** Assertions of known type and subject with the same form. *)
Definition sameAssertion (a a' : MultiHttpEntryAssertion) : Prop :=
  as_Type a = as_Type a' ∧ as_Subject a = as_Subject a' ∧ as_Condition a = as_Condition a' ∧
  (as_Expression a = EmptyString ↔ as_Expression a' = EmptyString).
Definition knownAssertion (a : MultiHttpEntryAssertion) : Prop :=
  0 ≤ as_Type a ≤ 3 ∧ 0 ≤ as_Subject a ≤ 3.

Lemma chars_nil s : chars s = [] ↔ s = EmptyString.
Proof. by destruct s. Qed.

Lemma assertionTexts_Sim a a' s :
  sameAssertion a a' → knownAssertion a →
  Sim (Str "034"%char) s Code s (assertionTexts isPrint a).1 (assertionTexts isPrint a').1.
Proof.
  intros (Ht & Hs & Hc & He) [Kt Ks]. apply (Sim_frame _ [] _ [] _ _ s).
  unfold assertionTexts. rewrite <-Ht, <-Hs, <-Hc. rewrite <-!chars_nil in He.
  destruct (as_Type a) as [|[[|[]|]|[[]|[]|]|]|]; try lia;
    destruct (as_Subject a) as [|[[|[]|]|[[]|[]|]|]|]; try lia; cbn [fst]; unfold allHeaders;
    try (destruct (chars (as_Expression a)), (chars (as_Expression a')); [|naive_solver..|]); sim.
Qed.

Lemma buildChecks_Sim method a a' s :
  InStr method → sameAssertion a a' → knownAssertion a →
  Sim Code s Code s (buildChecks isPrint "url" method a) (buildChecks isPrint "url" method a').
Proof.
  intros Hm Ha Ka. apply Sim_code. unfold buildChecks.
  eapply Sim_app; [sim_const|]. eapply Sim_app; [by apply assertionTexts_Sim|]. sim.
Qed.

Definition sameVariable (v v' : MultiHttpEntryVariable) : Prop :=
  v_Type v = v_Type v' ∧ (v_Attribute v = EmptyString ↔ v_Attribute v' = EmptyString).

Lemma buildVars_Sim v v' s :
  sameVariable v v' → Sim Code s Code s (buildVars isPrint v) (buildVars isPrint v').
Proof.
  intros [Ht Ha]. apply Sim_code. unfold buildVars. rewrite <-Ht. rewrite <-!chars_nil in Ha.
  destruct (v_Type v) as [|[| [] |]|]; try sim.
  destruct (chars (v_Attribute v)), (chars (v_Attribute v')); [|naive_solver..|]; sim.
Qed.

(** ** Expansions *)

(** The form of a text with variables: which literals are between them. *)
Definition isNil {A} (l : list A) : bool := match l with [] => true | _ => false end.
Definition expansionShape (s : string) : list bool * bool :=
  let '(ms, rest) := findAll matchUserVariable (chars s) in (map (λ m, isNil m.1) ms, isNil rest).

Lemma varChar_plain a : isUserVarChar a = true → plainChar a = true.
Proof. destruct a as [[] [] [] [] [] [] [] []]; vm_compute; congruence. Qed.

Lemma matchUserVariable_spec l n r :
  matchUserVariable l = Some (n, r) → l = variablePlaceholder n ++ r ∧ plain n.
Proof.
  unfold matchUserVariable, variablePlaceholder. intros H.
  apply bind_Some in H as (l1 & ->%stripPrefixOf_Some & H).
  destruct l1 as [|a l1]; [done|]. destruct (isVarStart a) eqn:Ea; [|done].
  pose proof (spanClass_app isUserVarChar l1) as Happ. pose proof (spanClass_all isUserVarChar l1) as Hall.
  destruct (spanClass isUserVarChar l1) as [x y]. simpl in Happ, Hall. subst l1.
  apply bind_Some in H as (r' & ->%stripPrefixOf_Some & [= <- <-]).
  rewrite <-!(assoc_L (++)). split; [done|]. constructor.
  - apply varChar_plain. unfold isUserVarChar. by rewrite Ea.
  - eapply Forall_impl; [exact Hall|]. apply varChar_plain.
Qed.

Lemma matches_plain l : Forall (λ m, plain m.2) (findAll matchUserVariable l).1.
Proof.
  assert (H := findAll_covers matchUserVariable variablePlaceholder plain l matchUserVariable_spec).
  destruct (findAll matchUserVariable l). apply H.
Qed.

Lemma sq_Sim l l' s : Sim Code s Code s (sq isPrint l) (sq isPrint l').
Proof.
  apply Sim_code. change (sq isPrint l) with (js "'" ++ JSEscape isPrint l ++ js "'").
  change (sq isPrint l') with (js "'" ++ JSEscape isPrint l' ++ js "'"). sim.
Qed.
#[local] Hint Resolve sq_Sim InStr_plain : script.

Lemma plus_Sim x x' s : isNil x = isNil x' → Sim Code s Code s (plus x) (plus x').
Proof. destruct x, x'; try done; intros _; apply Sim_code; [apply Sim_nil|sim_const]. Qed.
Lemma isNil_app {A} (x y : list A) : isNil (x ++ y) = isNil x && isNil y.
Proof. by destruct x. Qed.

Lemma expansion_loop_Sim ms ms' x x' :
  Forall (λ m, plain m.2) ms → Forall (λ m, plain m.2) ms' →
  map (λ m, isNil m.1) ms = map (λ m, isNil m.1) ms' →
  Sim Code [] Code [] x x' → isNil x = isNil x' →
  Sim Code [] Code [] (expansion_loop isPrint ms x) (expansion_loop isPrint ms' x') ∧
  isNil (expansion_loop isPrint ms x) = isNil (expansion_loop isPrint ms' x').
Proof.
  revert ms' x x'. induction ms as [|[p n] ms IH]; intros [|[p' n'] ms'] x x' Hm Hm' E Hx Hn;
    simpl in E; try done.
  injection E as Ep E. apply Forall_cons in Hm as [Pn Hm], Hm' as [Pn' Hm']. simpl in Pn, Pn'.
  cbn [expansion_loop]. apply IH; try done.
  - apply Sim_app with Code []; [|sim].
    assert (Sim Code [] Code [] (x ++ plus x) (x' ++ plus x')) by (eapply Sim_app; [done|by apply plus_Sim]).
    destruct p, p'; try done. eapply Sim_app; [done|]. sim.
  - by rewrite !isNil_app, !andb_false_r.
Qed.

(** A non-empty text has a match or a rest. *)
Lemma performVariableExpansion_eq u :
  performVariableExpansion isPrint u =
  let '(ms, rest) := findAll matchUserVariable (chars u) in
  let s := expansion_loop isPrint ms [] in
  match ms, rest with
  | [], [] => js "''"
  | _, [] => s
  | _, _ => s ++ plus s ++ sq isPrint rest
  end.
Proof.
  unfold performVariableExpansion. destruct (chars u) as [|a l] eqn:Eu; [done|].
  assert (Hc := findAll_covers matchUserVariable variablePlaceholder plain (a :: l) matchUserVariable_spec).
  destruct (findAll matchUserVariable (a :: l)) as [[|m ms] [|b rest]]; try done.
  by destruct Hc.
Qed.

Lemma performVariableExpansion_Sim t t' s :
  expansionShape t = expansionShape t' →
  Sim Code s Code s (performVariableExpansion isPrint t) (performVariableExpansion isPrint t').
Proof.
  intros E. apply Sim_code. rewrite !performVariableExpansion_eq. unfold expansionShape in E.
  assert (Hp := matches_plain (chars t)). assert (Hp' := matches_plain (chars t')).
  destruct (findAll matchUserVariable (chars t)) as [ms rest].
  destruct (findAll matchUserVariable (chars t')) as [ms' rest']. simpl in Hp, Hp'.
  injection E as E Er.
  destruct (expansion_loop_Sim ms ms' [] []) as [Hs Hn]; try done; [apply Sim_nil|].
  assert (Sim Code [] Code [] (expansion_loop isPrint ms [] ++ plus (expansion_loop isPrint ms []) ++ sq isPrint rest)
    (expansion_loop isPrint ms' [] ++ plus (expansion_loop isPrint ms' []) ++ sq isPrint rest')).
  { eapply Sim_app; [done|]. eapply Sim_app; [by apply plus_Sim|]. eauto with script. }
  by destruct ms, ms', rest, rest'.
Qed.
#[local] Hint Resolve performVariableExpansion_Sim : script.

(** ** Requests *)

Definition sameField (q q' : QueryField) : Prop :=
  expansionShape (q_Name q) = expansionShape (q_Name q') ∧
  expansionShape (q_Value q) = expansionShape (q_Value q').
Lemma buildQueryParam_Sim q q' s :
  sameField q q' → Sim Code s Code s (buildQueryParam isPrint "url" q) (buildQueryParam isPrint "url" q').
Proof. intros [Hn Hv]. apply Sim_code. unfold buildQueryParam. sim. Qed.

Definition sameHeader (h h' : HttpHeader) : Prop :=
  expansionShape (h_Value h) = expansionShape (h_Value h').

Definition bodyVariables (b : HttpRequestBody) : list (list ascii) :=
  uniqueMatches [] (findAll matchUserVariable (b_Payload b)).1.
Definition sameBody (b b' : option HttpRequestBody) : Prop :=
  match b, b' with
  | None, None => True
  | Some b, Some b' =>
      isNil (b_Payload b) = isNil (b_Payload b') ∧
      length (bodyVariables b) = length (bodyVariables b') ∧
      isNil (chars (b_ContentType b)) = isNil (chars (b_ContentType b')) ∧
      isNil (chars (b_ContentEncoding b)) = isNil (chars (b_ContentEncoding b'))
  | _, _ => False
  end.

Lemma base64Digit_plain n : (n < 64)%N → plainChar (base64Digit n) = true.
Proof.
  intros H. assert (Hn : n ∈ (N.of_nat <$> seq 0 64)).
  { apply list_elem_of_fmap. exists (N.to_nat n). split; [lia|]. apply elem_of_seq. lia. }
  revert n Hn H. apply (Forall_forall (λ n, (n < 64)%N → plainChar (base64Digit n) = true)).
  repeat constructor.
Qed.
Lemma base64_plain l : plain (base64 l).
Proof.
  assert (H : ∀ l, plain (base64 l) ∧ ∀ a, plain (base64 (a :: l)) ∧ ∀ b, plain (base64 (a :: b :: l))).
  2: { apply H. }
  clear l. induction l as [|c l IH].
  - split; [constructor|]. intros a. pose proof (code_bound a).
    split; [|intros b; pose proof (code_bound b)];
      repeat (constructor; [apply base64Digit_plain; 
        zify; Z.div_mod_to_equations; lia|]); constructor.
  - split; [apply IH|]. intros a. split; [apply IH|]. intros b.
    pose proof (code_bound a). pose proof (code_bound b). pose proof (code_bound c).
    change (base64 (a :: b :: c :: l)) with
      ([base64Digit (code a / 4); base64Digit (code a mod 4 * 16 + code b / 16);
        base64Digit (code b mod 16 * 4 + code c / 64); base64Digit (code c mod 64)] ++ base64 l).
    apply Forall_app. split; [|apply IH].
    repeat (constructor; [apply base64Digit_plain; zify; Z.div_mod_to_equations; lia|]); constructor.
Qed.
#[local] Hint Resolve base64_plain : script.

Lemma buildBody_Sim b b' s : sameBody b b' → Sim Code s Code s (buildBody b) (buildBody b').
Proof.
  intros H. apply Sim_code. destruct b as [b|], b' as [b'|]; try done; [|sim_const].
  destruct H as (H & _). unfold buildBody. destruct (b_Payload b), (b_Payload b'); try done; sim.
Qed.

(** Lists of texts, one after another. *)
Lemma forEach_Sim {A B} (R : A → B → Prop) f g x s l l' :
  (∀ a b, R a b → Sim Code s Code s (f a ++ x) (g b ++ x)) → Forall2 R l l' →
  Sim Code s Code s (forEach f x l) (forEach g x l').
Proof.
  intros Hf. unfold forEach. induction 1 as [|a b l l' Hab _ IH]; [apply Sim_nil|].
  eapply Sim_app; [by apply Hf|done].
Qed.

Lemma uniqueMatches_plain seen ms : Forall (λ m, plain m.2) ms → Forall plain (uniqueMatches seen ms).
Proof.
  intros H. revert seen. induction H as [|[p n] ms Hn _ IH]; intros seen; simpl; [constructor|].
  case_bool_decide; [done|]. by constructor.
Qed.
Lemma interpolateBodyVariable_Sim n n' s :
  plain n → plain n' →
  Sim Code s Code s (interpolateBodyVariable "body" n) (interpolateBodyVariable "body" n').
Proof.
  intros Hn Hn'. apply Sim_code. unfold interpolateBodyVariable, variablePlaceholder.
  change (chars "${") with (js "${"). change (chars "}") with (js "}"). sim.
Qed.
Lemma interpolateBodyVariables_Sim b b' :
  sameBody b b' →
  Forall2 (Sim Code [] Code []) (interpolateBodyVariables "body" b) (interpolateBodyVariables "body" b').
Proof.
  intros H. destruct b as [b|], b' as [b'|]; try done. destruct H as (_ & H & _). simpl.
  assert (P : ∀ b, Forall plain (bodyVariables b)) by (intros; apply uniqueMatches_plain, matches_plain).
  fold (bodyVariables b) (bodyVariables b'). pose proof (P b) as P1. pose proof (P b') as P2.
  revert H P2. generalize (bodyVariables b') as l'. induction P1 as [|n l Hn _ IH]; intros [|n' l'] H P2; try done.
  apply Forall_cons in P2 as [??]. constructor; [by apply interpolateBodyVariable_Sim|]. apply IH; [simpl in H; lia|done].
Qed.

Lemma buildHeader_Sim c h h' s :
  c ∈ [[]; js ","] → sameHeader h h' → Sim Code s Code s (buildHeader isPrint c h) (buildHeader isPrint c h').
Proof.
  intros Hc Hh. apply Sim_code. unfold buildHeader.
  repeat (apply elem_of_cons in Hc as [->|Hc]; [sim|]). by apply elem_of_nil in Hc.
Qed.
Lemma buildHeaders_loop_Sim c hs hs' s :
  c ∈ [[]; js ","] → Forall2 sameHeader hs hs' →
  Sim Code s Code s (buildHeaders_loop isPrint c hs) (buildHeaders_loop isPrint c hs').
Proof.
  intros Hc H. revert c Hc. induction H as [|h h' hs hs' Hh _ IH]; intros c Hc; [apply Sim_nil|].
  eapply Sim_app; [by apply buildHeader_Sim|]. apply IH. right. left.
Qed.

Lemma bodyHeaders_Sim b b' s :
  sameBody b b' →
  Sim Code s Code s (bodyHeaders isPrint b) (bodyHeaders isPrint b') ∧
  commaAfter (bodyHeaders isPrint b) = commaAfter (bodyHeaders isPrint b').
Proof.
  intros H. destruct b as [b|], b' as [b'|]; try done; [|split; [apply Sim_nil|done]].
  destruct H as (_ & _ & Ht & He). unfold bodyHeaders, contentType, contentEncoding.
  assert (Hc : ∀ x, commaAfter (js "'Content-Type':~" ++ x) = js ",") by done.
  destruct (chars (b_ContentType b)), (chars (b_ContentType b')); try done;
    destruct (chars (b_ContentEncoding b)), (chars (b_ContentEncoding b')); try done;
    (split; [apply Sim_code; rewrite ?Hc, ?app_nil_l; cbn [commaAfter]; sim|done]).
Qed.

Lemma buildHeaders_Sim hs hs' b b' s :
  Forall2 sameHeader hs hs' → sameBody b b' →
  Sim Code s Code s (buildHeaders isPrint hs b) (buildHeaders isPrint hs' b') ∧
  isNil (buildHeaders isPrint hs b) = isNil (buildHeaders isPrint hs' b').
Proof.
  intros Hh Hb. destruct (bodyHeaders_Sim b b' ["}"%char] Hb) as [Hs Hc].
  assert (Hall : Sim Code s Code s
    (js "{" ++ bodyHeaders isPrint b ++ buildHeaders_loop isPrint (commaAfter (bodyHeaders isPrint b)) hs ++ js "}")
    (js "{" ++ bodyHeaders isPrint b' ++ buildHeaders_loop isPrint (commaAfter (bodyHeaders isPrint b')) hs' ++ js "}")).
  { apply Sim_code. eapply Sim_app; [sim_const|]. eapply Sim_app; [exact Hs|]. rewrite <-Hc.
    eapply Sim_app; [apply buildHeaders_loop_Sim; [|done]|sim_const].
    destruct (bodyHeaders isPrint b); [left|right; left]. }
  unfold buildHeaders. destruct Hh, b, b'; try done. split; [apply Sim_nil|done].
Qed.

(** ** Entries and scripts *)

Definition sameEntry (e e' : liveEntry) : Prop :=
  let r := le_Request e in
  let r' := le_Request e' in
  lr_Method r = lr_Method r' ∧ expansionShape (lr_Url r) = expansionShape (lr_Url r') ∧
  Forall2 sameHeader (lr_Headers r) (lr_Headers r') ∧
  Forall2 sameField (lr_QueryFields r) (lr_QueryFields r') ∧ sameBody (lr_Body r) (lr_Body r') ∧
  Forall2 sameAssertion (le_Assertions e) (le_Assertions e') ∧
  Forall2 sameVariable (le_Variables e) (le_Variables e').

Definition plainUrl (e : liveEntry) : Prop := plain (chars (lr_Url (le_Request e))).
Definition knownEntry (e : liveEntry) : Prop :=
  known HttpMethod_name (lr_Method (le_Request e)) = true ∧ Forall knownAssertion (le_Assertions e).

Lemma methodString_InStr m : known HttpMethod_name m = true → InStr (methodString m).
Proof.
  intros H. assert (Hm : 0 ≤ m < 9) by (by apply (known_range HttpMethod_name 9)).
  assert (Hc : m ∈ (Z.of_nat <$> seq 0 9)).
  { apply list_elem_of_fmap. exists (Z.to_nat m). split; [lia|]. apply elem_of_seq. lia. }
  clear Hm H. revert m Hc. apply Forall_forall. repeat constructor; by apply InStr_const.
Qed.

Lemma pretty_N_go_plain x s : plain (chars s) → plain (chars (pretty_N_go x s)).
Proof.
  revert s. induction (N.lt_wf_0 x) as [x _ IH]; intros s Hs.
  destruct (decide (0 < x)%N) as [Hx|Hx].
  - rewrite pretty_N_go_step by done. apply IH; [by apply N.div_lt|]. constructor; [|done].
    assert (Hm : (x `mod` 10 < 10)%N) by (by apply N.mod_lt).
    revert Hm. generalize (x `mod` 10)%N. intros y Hy.
    assert (Hc : y ∈ (N.of_nat <$> seq 0 10)).
    { apply list_elem_of_fmap. exists (N.to_nat y). split; [lia|]. apply elem_of_seq. lia. }
    clear -Hc. revert y Hc. apply Forall_forall. repeat constructor.
  - assert (x = 0%N) as -> by lia. by rewrite pretty_N_go_0.
Qed.
Lemma itoa_plain n : plain (chars (itoa (Z.of_nat n))).
Proof.
  unfold itoa. destruct n as [|n]; [repeat constructor|]. apply pretty_N_go_plain. constructor.
Qed.

Lemma forEach_Forall2 {A B} (R : A → B → Prop) f g x l l' :
  (∀ a b, R a b → Sim Code [] Code [] (f a) (g b)) → Sim Code [] Code [] x x → Forall2 R l l' →
  Sim Code [] Code [] (forEach f x l) (forEach g x l').
Proof. intros Hf Hx. apply forEach_Sim. intros a b Hab. eapply Sim_app; [by apply Hf|done]. Qed.

Lemma entryText_Sim i e e' s :
  sameEntry e e' → knownEntry e → plainUrl e → plainUrl e' →
  Sim Code s Code s (entryText isPrint i e) (entryText isPrint i e').
Proof.
  intros (Hm & Hu & Hh & Hq & Hb & Ha & Hv) (Km & Ka) Pu Pu'. apply Sim_code. unfold entryText.
  rewrite <-Hm. assert (Im := methodString_InStr _ Km). assert (Ii := itoa_plain i).
  assert (Iu := InStr_plain _ Pu). assert (Iu' := InStr_plain _ Pu').
  assert (Hqs : Sim Code [] Code []
    (forEach (buildQueryParam isPrint "url") (js ";" ++ newLine) (lr_QueryFields (le_Request e)))
    (forEach (buildQueryParam isPrint "url") (js ";" ++ newLine) (lr_QueryFields (le_Request e')))).
  { eapply forEach_Forall2; [|sim|done]. intros; by apply buildQueryParam_Sim. }
  assert (Hbs : Sim Code [] Code []
    (forEach id (js ";" ++ newLine) (interpolateBodyVariables "body" (lr_Body (le_Request e))))
    (forEach id (js ";" ++ newLine) (interpolateBodyVariables "body" (lr_Body (le_Request e'))))).
  { eapply forEach_Forall2; [|sim|by apply interpolateBodyVariables_Sim]. done. }
  assert (Has : Sim Code [] Code []
    (forEach (buildChecks isPrint "url" (methodString (lr_Method (le_Request e)))) newLine (le_Assertions e))
    (forEach (buildChecks isPrint "url" (methodString (lr_Method (le_Request e)))) newLine (le_Assertions e'))).
  { apply (forEach_Forall2 (λ a a', sameAssertion a a' ∧ knownAssertion a)); [|sim|].
    - intros a a' [??]. by apply buildChecks_Sim.
    - clear -Ha Ka. induction Ha; [constructor|]. apply Forall_cons in Ka as [??]. constructor; auto. }
  assert (Hvs : Sim Code [] Code []
    (forEach (buildVars isPrint) newLine (le_Variables e)) (forEach (buildVars isPrint) newLine (le_Variables e'))).
  { eapply forEach_Forall2; [|sim|done]. intros; by apply buildVars_Sim. }
  assert (Hbb := λ s, buildBody_Sim _ _ s Hb).
  assert (Hhh : ∀ s, Sim Code s Code s
    match buildHeaders isPrint (lr_Headers (le_Request e)) (lr_Body (le_Request e)) with
    | [] => [] | _ => js ",
		headers: " ++ buildHeaders isPrint (lr_Headers (le_Request e)) (lr_Body (le_Request e)) end
    match buildHeaders isPrint (lr_Headers (le_Request e')) (lr_Body (le_Request e')) with
    | [] => [] | _ => js ",
		headers: " ++ buildHeaders isPrint (lr_Headers (le_Request e')) (lr_Body (le_Request e')) end).
  { intros t. destruct (buildHeaders_Sim _ _ _ _ t Hh Hb) as [H1 H2].
    destruct (buildHeaders isPrint (lr_Headers (le_Request e)) (lr_Body (le_Request e))),
      (buildHeaders isPrint (lr_Headers (le_Request e')) (lr_Body (le_Request e'))); try done.
    eapply Sim_app; [|done]. apply Sim_code. sim_const. }
  sim.
Qed.

Lemma entriesText_Sim i es es' s :
  Forall2 sameEntry es es' → Forall knownEntry es → Forall plainUrl es → Forall plainUrl es' →
  Sim Code s Code s (entriesText isPrint i es) (entriesText isPrint i es').
Proof.
  intros H. revert i. induction H as [|e e' es es' He _ IH]; intros i Hk Hp Hp'; [apply Sim_nil|].
  apply Forall_cons in Hk as [??], Hp as [??], Hp' as [??].
  eapply Sim_app; [by apply entryText_Sim|]. by apply IH.
Qed.

Lemma scriptText_Sim b es es' :
  Forall2 sameEntry es es' → Forall knownEntry es → Forall plainUrl es → Forall plainUrl es' →
  Sim Code [] Code [] (scriptText isPrint b es) (scriptText isPrint b es').
Proof.
  intros Hs Hk Hp Hp'. unfold scriptText. eapply Sim_app; [sim_const|].
  eapply Sim_app; [destruct b; sim_const|]. eapply Sim_app; [sim_const|].
  eapply Sim_app; [by apply entriesText_Sim|]. sim_const.
Qed.
End sim.

(** ** Scripts of validated settings *)

Lemma Forall2_refl {A} (R : A → A → Prop) l : (∀ x, R x x) → Forall2 R l l.
Proof. intros H. apply Forall_Forall2_diag, Forall_true. auto. Qed.
Lemma sameEntry_refl e : sameEntry e e.
Proof.
  unfold sameEntry. split_and!; try done; try (apply Forall2_refl; done).
  by destruct (lr_Body _).
Qed.

(** The lexer accepts the script of known entries. *)
Lemma scriptText_lex isPrint b es :
  Forall knownEntry es → Forall plainUrl es → is_Some (lex (scriptText isPrint b es)).
Proof. intros. eapply Sim_lex, scriptText_Sim; try done. apply Forall2_refl, sameEntry_refl. Qed.

(** What validation lets through, but for nil assertions, the template accepts. *)
Lemma mapM_deref {A} (v : A → go (error verr)) (l : list (option A)) :
  Forall (λ x, deref v x = Ret None) l →
  ∃ k, mapM id l = Some k ∧ Forall (λ x, v x = Ret None) k.
Proof.
  induction 1 as [|[x|] l Hx _ (k & Hk & Hv)]; [by exists []|..|done].
  exists (x :: k). simpl. change (id (Some x)) with (Some x). simpl. rewrite Hk. split; [done|by constructor].
Qed.
Lemma mapM_assertions l :
  Forall (λ x, MultiHttpEntryAssertion_Validate x = Ret None) l → None ∉ l →
  ∃ k, mapM id l = Some k ∧ Forall knownAssertion k.
Proof.
  induction 1 as [|[x|] l Hx _ IH]; intros Hn; [by exists []|..|set_solver].
  destruct IH as (k & Hk & Hv); [set_solver|]. exists (x :: k). simpl. change (id (Some x)) with (Some x). simpl.
  rewrite Hk. split; [done|]. constructor; [|done].
  apply assertion_spec in Hx as (Hs & _ & Ht). unfold knownAssertion. naive_solver lia.
Qed.

Section validated.
Context (isPrint : N → bool) (urlParse : string → option url) (ParseMediaType : string → bool)
  (vn vv : string → bool).

Definition plainUrls (s : MultiHttpSettings) : Prop :=
  ∀ e r, Some e ∈ mh_Entries s → e_Request e = Some r → plain (chars (r_Url r)).
Definition noNilAssertion (s : MultiHttpSettings) : Prop :=
  ∀ e, Some e ∈ mh_Entries s → None ∉ e_Assertions e.

Lemma valid_entry_live e :
  deref (MultiHttpEntry_Validate urlParse ParseMediaType vn vv) e = Ret None →
  (∀ e' r, e = Some e' → e_Request e' = Some r → plain (chars (r_Url r))) →
  (∀ e', e = Some e' → None ∉ e_Assertions e') →
  ∃ l, liveOf e = Some l ∧ knownEntry l ∧ plainUrl l.
Proof.
  destruct e as [e|]; [|done]. cbn [deref]. unfold MultiHttpEntry_Validate, liveOf.
  cbn [mbind option_bind]. destruct (e_Request e) as [r|] eqn:Er; [|done].
  unfold MultiHttpEntryRequest_Validate.
  rewrite !andThen_nil, !validateCollection_spec.
  intros ((Hm & _ & _ & Hh & Hq) & _ & _ & Ha & Hv & _) Hu Hn. cbn [mbind option_bind].
  destruct (mapM_deref _ _ Hh) as (hs & Eh & _), (mapM_deref _ _ Hq) as (qs & Eq & _).
  destruct (mapM_assertions _ Ha (Hn _ eq_refl)) as (als & Ea & Hk).
  destruct (mapM_deref _ _ Hv) as (vs & Ev & _).
  rewrite Eh, Eq, Ea, Ev.
  eexists. split; [done|].
  split; [split|by apply (Hu e r)]; [|done].
  injection Hm as Hm. unfold HttpMethod_Validate in Hm. apply failIf_nil, negb_false_iff in Hm. done.
Qed.

Lemma valid_entries_live l :
  Forall (λ e, deref (MultiHttpEntry_Validate urlParse ParseMediaType vn vv) e = Ret None) l →
  (∀ e r, Some e ∈ l → e_Request e = Some r → plain (chars (r_Url r))) →
  (∀ e, Some e ∈ l → None ∉ e_Assertions e) →
  ∃ es, mapM liveOf l = Some es ∧ Forall knownEntry es ∧ Forall plainUrl es.
Proof.
  induction 1 as [|e l He _ IH]; intros Hu Hn; [by exists []|].
  destruct IH as (es & Hes & Hk & Hp); [set_solver..|].
  destruct (valid_entry_live e He) as (x & Hx & Kx & Px); [intros; eapply Hu; [subst; left|done]|intros; apply Hn; subst; left|].
  exists (x :: es). simpl. rewrite Hx. simpl. rewrite Hes. repeat split; by try constructor.
Qed.

Lemma valid_settings_live s :
  MultiHttpSettings_Validate urlParse ParseMediaType vn vv s = Ret None →
  plainUrls s → noNilAssertion s →
  ∃ es, mapM liveOf (mh_Entries s) = Some es ∧ Forall knownEntry es ∧ Forall plainUrl es.
Proof.
  unfold MultiHttpSettings_Validate. rewrite !andThen_nil, validateCollection_spec.
  intros (_ & _ & Hv) Hu Hn. by apply valid_entries_live.
Qed.
End validated.

(** C13: user text is never code.  Two sets of settings of the same form (the same
    methods, kinds of assertions and variables, numbers of headers and fields, and
    places of variables in texts) give scripts whose code, that is what is outside
    literals and comments, is the same: no name, value, expression, payload, header or
    content type adds to it or takes from it.  The URLs must have no quotes, backslashes or
    line breaks: the text of one with a variable is copied as it is and may add code, see
    [raw_url_adds_code]. *)
Theorem user_text_is_not_code isPrint s s' es es' :
  mapM liveOf (mh_Entries s) = Some es → mapM liveOf (mh_Entries s') = Some es' →
  mh_LogResponses s = mh_LogResponses s' → Forall2 sameEntry es es' →
  Forall knownEntry es → Forall plainUrl es → Forall plainUrl es' →
  ∃ x x' c, settingsToScript isPrint s = Some x ∧ settingsToScript isPrint s' = Some x' ∧
    lex x = Some c ∧ lex x' = Some c.
Proof.
  intros He He' Hl Hs Hk Hp Hp'.
  destruct (Sim_lex _ _ (scriptText_Sim isPrint (mh_LogResponses s) es es' Hs Hk Hp Hp')) as [[c Hc] Heq].
  exists (scriptText isPrint (mh_LogResponses s) es), (scriptText isPrint (mh_LogResponses s') es'), c.
  unfold settingsToScript. rewrite He, He'. rewrite <-Hl, <-Heq. auto.
Qed.

(** The headers an entry is sent with.  After [augmentHttpHeaders], entry [i] has
    the reserved headers, and then the headers that are not reserved of entries 0 to
    [i]: since the list being built is never reset, the headers of an entry, credentials
    included, are also sent with the requests of all the later entries. *)
Theorem headers_accumulate reserved entries i :
  (i < length entries)%nat →
  augmentHttpHeaders reserved entries !! i =
  Some (map reservedHeader reserved ++
        concat (map (filter (λ h, CanonicalHeaderKey (h_Name h) ∉ map fst reserved)) (take (S i) entries))).
Proof.
  unfold augmentHttpHeaders. generalize (map reservedHeader reserved) as upd. revert i.
  induction entries as [|hs entries IH]; intros i upd Hi; simpl in Hi; [lia|].
  cbn [augment_loop]. destruct i as [|i]; simpl.
  - by rewrite app_nil_r.
  - rewrite IH by lia. unfold augment_entry. by rewrite <-(assoc_L (++)).
Qed.

Lemma headers_accumulate_witness :
  augmentHttpHeaders [("X-Sm-Id", ["1"; "2"])]%string
    [[{| h_Name := "Authorization"; h_Value := "token" |}];
     [{| h_Name := "X-Sm-Id"; h_Value := "mine" |}]]%string !! 1%nat =
  Some [{| h_Name := "X-Sm-Id"; h_Value := "1,2" |}; {| h_Name := "Authorization"; h_Value := "token" |}]%string.
Proof. rewrite headers_accumulate by (simpl; lia). reflexivity. Defined.

(** ** Instances *)

Definition sampleEntry (url header value : string) : MultiHttpEntry :=
  {| e_Request := Some {| r_Method := 5; r_Url := url;
       r_Headers := [Some {| h_Name := "A"; h_Value := header |}];
       r_QueryFields := [Some {| q_Name := "q"; q_Value := value |}];
       r_Body := Some {| b_ContentType := "text/plain"; b_ContentEncoding := "";
                         b_Payload := chars "x=${y}" |} |};
     e_Assertions := [Some {| as_Type := 0; as_Subject := 1; as_Condition := 1;
                              as_Expression := ""; as_Value := value |}];
     e_Variables := [Some {| v_Type := 2; v_Name := "a"; v_Expression := value; v_Attribute := "x" |}] |}%string.
Definition sample (url header value : string) : MultiHttpSettings :=
  {| mh_Entries := [Some (sampleEntry url header value)]; mh_LogResponses := false |}.

Lemma user_text_is_not_code_witness :
  ∃ x x' c,
    settingsToScript (λ _, false) (sample "http://a.b/${x}" "'+evil()+'" "\'); evil(); ('") = Some x ∧
    settingsToScript (λ _, false) (sample "http://c.d/${y}" "text" "v") = Some x' ∧
    lex x = Some c ∧ lex x' = Some c.
Proof.
  eapply user_text_is_not_code; [reflexivity..| | | |].
  - repeat constructor; simpl; naive_solver.
  - repeat constructor; simpl; lia.
  - repeat constructor.
  - repeat constructor.
Defined.

(** A URL with a variable is not validated, and is copied into literals as it is:
    here it ends one and adds a call to the program. *)
Lemma raw_url_adds_code urlParse ParseMediaType :
  ∃ s x c, MultiHttpSettings_Validate urlParse ParseMediaType (λ _, true) (λ _, true) s = Ret None ∧
    settingsToScript (λ _, false) s = Some x ∧ lex x = Some c ∧ contains "evil()" (of_chars c) = true.
Proof.
  exists {| mh_Entries := [Some {| e_Request := Some {| r_Method := 0;
            r_Url := of_chars (js "${x}~); '; evil(); ' //"); r_Headers := []; r_QueryFields := []; r_Body := None |};
            e_Assertions := []; e_Variables := [] |}]; mh_LogResponses := false |}.
  eexists _, _. split; [reflexivity|]. split; [reflexivity|]. split; vm_compute; reflexivity.
Qed.

(** The matcher of a header assertion with an expression binds v and tests value. *)
Lemma header_matcher_unbound :
  contains "v => value.includes(" (of_chars (buildChecks (λ _, true) "url" (js "GET")
    {| as_Type := 0; as_Subject := 1; as_Condition := 6; as_Expression := "Server"; as_Value := "nginx" |})) = true.
Proof. reflexivity. Qed.
