(* ===== verification/K6.v ===== *)
(** * Running k6 scripts

    [internal/k6runner]: the errors of a run ([error.go]), the remote runner and its
    retries ([http.go]), the local runner ([local.go], [env.go]) with its repository of
    k6 binaries ([version/repository.go]), and the processor that turns the response
    of a runner into the result of a probe ([k6runner.go]).

    An error is the list of the errors it wraps and joins, in the order in which
    [errors.Is] and [errors.As] visit them; nil is the empty list and [errors.Join] is
    concatenation.  Parsers that are not part of the program (logfmt, the Prometheus
    text format, JSON, semantic versions) are parameters. *)
From Stdlib Require Import SpecFloat.
From stdpp Require Import sorting.
From S2P Require Import Prelude Strs Checks.

Open Scope Z_scope.

(** ** Errors *)

(** [Exit code]: an [exec.ExitError]; its code is -1 when a signal ended the process. *)
Inductive kerr :=
  | DeadlineExceeded | Canceled | ErrStacktrace | ErrThrown | Exit (code : Z)
  | errRetryable | ErrNoTimeout | ErrUnexpectedStatus (status : Z) | ErrBuggyRunner
  | ErrFromRunner (errorCode error : string) | OtherError (what : string).
Definition err : Type := list kerr.

Definition isDeadline (e : kerr) : bool := match e with DeadlineExceeded => true | _ => false end.
Definition isStacktrace (e : kerr) : bool := match e with ErrStacktrace => true | _ => false end.
Definition isThrown (e : kerr) : bool := match e with ErrThrown => true | _ => false end.
Definition isRetryable (e : kerr) : bool := match e with errRetryable => true | _ => false end.

(** [errors.Is] and [errors.As] for an [ExitError]. *)
Definition Is (p : kerr → bool) (e : err) : bool := existsb p e.
Fixpoint asExit (e : err) : option Z :=
  match e with
  | [] => None
  | Exit c :: _ => Some c
  | _ :: e => asExit e
  end.

Definition isUserError (e : err) : bool :=
  Is isDeadline e || match asExit e with Some c => c <? 127 | None => false end.

Definition ErrorCodeNone : string := "".
Definition ErrorCodeFailed : string := "failed".
Definition ErrorCodeTimeout : string := "timeout".
Definition ErrorCodeKilled : string := "killed".
Definition ErrorCodeAborted : string := "aborted".
Definition ErrorCodeUnknown : string := "unknown".

Definition errorType (e : err) : string :=
  match e with
  | [] => ErrorCodeNone
  | _ =>
      if Is isDeadline e then ErrorCodeTimeout
      else if Is isStacktrace e then ErrorCodeAborted
      else if Is isThrown e then ErrorCodeFailed
      else
        match asExit e with
        | None => ErrorCodeUnknown
        | Some c => if 128 <=? c then ErrorCodeKilled else ErrorCodeAborted
        end
  end.

(** ** Logs in logfmt

    The records of a text, and whether the decoder ended with an error. *)
Definition record : Type := list (string * string).
(** A map entry: the last occurrence of the key, or the empty string. *)
Definition keyVal (k : string) (r : record) : string :=
  match list_find (λ kv, kv.1 = k) (rev r) with Some (_, (_, v)) => v | None => "" end.

Definition errorOfRecord (r : record) : option kerr :=
  if String.eqb (keyVal "level" r) "error" && String.eqb (keyVal "source" r) "stacktrace"
  then Some ErrStacktrace
  else if String.eqb (keyVal "level" r) "error" && hasPrefix "Uncaught (in promise)" (keyVal "msg" r)
  then Some ErrThrown
  else None.

(** [ScanRecord] ends at the first error of the decoder; the record being read then is
    ignored. *)
Fixpoint errorFromRecords (rs : list record) : err :=
  match rs with
  | [] => []
  | r :: rs => match errorOfRecord r with Some e => [e] | None => errorFromRecords rs end
  end.

(** ** The remote runner *)

Record RunResponse := {
  rr_Error : string; rr_ErrorCode : string; rr_Metrics : list ascii; rr_Logs : list ascii }.

Record HttpRunner := { backoff : Z; graceTime : Z }.
Definition second : Z := 1000000000.
Definition millisecond : Z := 1000000.
Definition defaultBackoff : Z := 10 * second.
Definition defaultGraceTime : Z := 20 * second.

(** What happens to one request: it cannot be built, it is not answered, or it is
    answered with a status and a body ([None] when it does not decode). *)
Inductive reply :=
  | NotBuilt (what : string)
  | NotSent (e : err)
  | Answer (status : Z) (body : option RunResponse).

(** The deadline a runner is given, [NotAfter], is relative to the time of the request. *)
Definition requestTimeout (r : HttpRunner) (timeout : Z) : Z :=
  wrap64 (wrap64 (timeout * millisecond) + graceTime r).

Definition request (timeout : Z) (rep : reply) : result err RunResponse :=
  if wrap64 (timeout * millisecond) =? 0 then Err [ErrNoTimeout]
  else
    match rep with
    | NotBuilt what => Err [OtherError what]
    | NotSent e => Err (errRetryable :: e)
    | Answer status body =>
        match status with
        | 200 | 408 | 422 | 500 =>
            match body with
            | None => Err [OtherError "decoding script result"]
            | Some resp => Ok resp
            end
        | 400 => Err [ErrUnexpectedStatus status]
        | _ => Err [errRetryable; ErrUnexpectedStatus status]
        end
    end.

(** One round of [Run]: the reply, the time the request took, the random jitter, and the
    error of the context when [select] chooses it ([None] when the timer fires). *)
Record round := { rd_reply : reply; rd_elapsed : Z; rd_jitter : Z; rd_ctx : option kerr }.

(** The loop from [wait]: the rounds that happen, until it returns.  It gives the
    result, the number of requests made and the time spent; [None] means that it has not
    returned after the given rounds. *)
Fixpoint Run_loop (r : HttpRunner) (timeout wait : Z) (rs : list round)
    : option (result err RunResponse * nat * Z) :=
  match rs with
  | [] => None
  | rd :: rs =>
      match request timeout (rd_reply rd) with
      | Ok resp => Some (Ok resp, 1%nat, rd_elapsed rd)
      | Err e =>
          if negb (Is isRetryable e) then Some (Err e, 1%nat, rd_elapsed rd)
          else
            let waitRemaining := Z.max 0 (wait - rd_elapsed rd) in
            match rd_ctx rd with
            | Some c => Some (Err (e ++ [c]), 1%nat, rd_elapsed rd)
            | None =>
                '(res, n, t) ← Run_loop r timeout (wrap64 (wait + wrap64 (backoff r + rd_jitter rd))) rs;
                Some (res, S n, rd_elapsed rd + waitRemaining + t)
            end
      end
  end.

Definition Run (r : HttpRunner) (timeout : Z) (rs : list round)
    : go (option (result err RunResponse * nat * Z)) :=
  if backoff r =? 0 then Panic "zero backoff, runner is misconfigured, refusing to DoS"
  else Ret (Run_loop r timeout (backoff r) rs).

(** The context all the attempts share: twice the timeout when there is no deadline. *)
Definition retriesTimeout (untilDeadline : option Z) (timeout : Z) : Z :=
  match untilDeadline with
  | Some d => d
  | None => wrap64 (wrap64 (timeout * millisecond) * 2)
  end.

(** ** The remote runner returns *)

(** A schedule of rounds under a context that ends at [D]: jitter is below the back-off,
    and the timer wins the [select] only when it fires by then. *)
Fixpoint obeys (r : HttpRunner) (D t wait : Z) (rs : list round) : Prop :=
  match rs with
  | [] => True
  | rd :: rs =>
      let fires := t + rd_elapsed rd + Z.max 0 (wait - rd_elapsed rd) in
      0 ≤ rd_elapsed rd ∧ 0 ≤ rd_jitter rd < backoff r ∧ (rd_ctx rd = None → fires ≤ D) ∧
      obeys r D fires (wrap64 (wait + wrap64 (backoff r + rd_jitter rd))) rs
  end.

(** What ends a run. *)
Definition ends (timeout : Z) (rd : round) (res : result err RunResponse) : Prop :=
  match request timeout (rd_reply rd) with
  | Ok resp => res = Ok resp
  | Err e =>
      (Is isRetryable e = false ∧ res = Err e) ∨
      (Is isRetryable e = true ∧ ∃ c, rd_ctx rd = Some c ∧ res = Err (e ++ [c]))
  end.
Definition retried (timeout : Z) (rd : round) : Prop :=
  rd_ctx rd = None ∧ ∃ e, request timeout (rd_reply rd) = Err e ∧ Is isRetryable e = true.

Lemma Run_loop_returns r timeout D t wait k rs :
  0 < backoff r → 0 ≤ t → D + 2 * backoff r ≤ maxInt64 → 1 ≤ k → k * backoff r ≤ wait →
  obeys r D t wait rs → (0 < length rs)%nat → D - t < Z.of_nat (length rs) * backoff r →
  ∃ res n spent, Run_loop r timeout wait rs = Some (res, n, spent) ∧ (1 ≤ n ≤ length rs)%nat ∧
    (n = 1%nat ∨ (Z.of_nat n - 1) * (2 * k + Z.of_nat n - 2) * backoff r ≤ 2 * (D - t)) ∧
    Forall (retried timeout) (take (n - 1) rs) ∧
    ∃ rd, rs !! (n - 1)%nat = Some rd ∧ ends timeout rd res.
Proof.
  intros Hb. revert t wait k. induction rs as [|rd rs IH]; intros t wait k Ht HD Hk Hw Ho Hl Hn;
    simpl in Hl; [lia|].
  destruct Ho as (He & Hj & Hc & Ho). cbn [Run_loop].
  assert (Hone : ∀ res, ends timeout rd res →
    ∃ res' n spent, Some (res, 1%nat, rd_elapsed rd) = Some (res', n, spent) ∧ (1 ≤ n ≤ S (length rs))%nat ∧
      (n = 1%nat ∨ (Z.of_nat n - 1) * (2 * k + Z.of_nat n - 2) * backoff r ≤ 2 * (D - t)) ∧
      Forall (retried timeout) (take (n - 1) (rd :: rs)) ∧
      ∃ rd', (rd :: rs) !! (n - 1)%nat = Some rd' ∧ ends timeout rd' res').
  { intros res Hres. eexists _, _, _. split; [done|]. split; [lia|]. split; [by left|].
    split; [constructor|]. by exists rd. }
  unfold ends in Hone. destruct (request timeout (rd_reply rd)) as [resp|e] eqn:Er; [by apply Hone|].
  destruct (Is isRetryable e) eqn:Ei; simpl; [|apply Hone; by left].
  destruct (rd_ctx rd) as [c|] eqn:Ec; [apply Hone; right; eauto|].
  specialize (Hc eq_refl). clear Hone. set (fires := t + rd_elapsed rd + Z.max 0 (wait - rd_elapsed rd)) in *.
  assert (Hf : t + wait ≤ fires) by lia.
  assert (Hwrap : wrap64 (wait + wrap64 (backoff r + rd_jitter rd)) = wait + (backoff r + rd_jitter rd)).
  { rewrite (wrap64_id (backoff r + _)), wrap64_id; unfold int64, minInt64; [done| |]; nia. }
  destruct rs as [|rd2 rs]; [simpl in Hn; nia|].
  rewrite Hwrap in Ho |- *.
  destruct (IH fires (wait + (backoff r + rd_jitter rd)) (k + 1)) as (res & n & spent & -> & Hn1 & Hq & Hfa & rd' & Hrd & Hends);
    try done; try nia; [simpl; lia|simpl in *; nia|].
  eexists _, (S n), _. split; [done|]. split; [simpl in *; lia|]. split; [right|].
  { destruct Hq as [->|Hq]; [nia|].
    replace (Z.of_nat (S n)) with (Z.of_nat n + 1) by lia. nia. }
  replace (S n - 1)%nat with (S (n - 1)) by lia. split.
  - constructor; [|done]. split; [done|]. eauto.
  - by exists rd'.
Qed.

(** C18: the retries of a remote run end.  Whatever the runner answers, and however long
    it takes, a run under a context that ends at [D] returns; if it made [n] requests
    then (n-1)*n*backoff <= 2*D, since the k-th wait is at least k times the back-off;
    every request but the last failed with a retryable error, and the result is the
    response, the first error that is not retryable, or the last retryable error joined
    with that of the context. *)
Theorem remote_run_returns r timeout D rs :
  0 < backoff r → 0 ≤ D → D + 2 * backoff r ≤ maxInt64 → obeys r D 0 (backoff r) rs →
  (0 < length rs)%nat → D < Z.of_nat (length rs) * backoff r →
  ∃ res n spent, Run r timeout rs = Ret (Some (res, n, spent)) ∧ (1 ≤ n ≤ length rs)%nat ∧
    (Z.of_nat n - 1) * Z.of_nat n * backoff r ≤ 2 * D ∧
    Forall (retried timeout) (take (n - 1) rs) ∧
    ∃ rd, rs !! (n - 1)%nat = Some rd ∧ ends timeout rd res.
Proof.
  intros Hb HD Hmax Ho Hl Hn.
  destruct (Run_loop_returns r timeout D 0 (backoff r) 1 rs) as (res & n & spent & Hr & Hn1 & Hq & Hrest);
    try done; try lia.
  exists res, n, spent. unfold Run. replace (backoff r =? 0) with false by lia. rewrite Hr.
  split_and!; try done; try apply Hn1; try apply Hrest. destruct Hq as [->|Hq]; [simpl; lia|nia].
Qed.

Definition okResponse : RunResponse :=
  {| rr_Error := ""; rr_ErrorCode := ""; rr_Metrics := []; rr_Logs := [] |}.

(** Unavailable, too late a timeout, then an answer: three requests, 10 and 21 seconds
    of back-off. *)
Lemma remote_run_returns_witness :
  ∃ res n spent,
    Run {| backoff := 10 * second; graceTime := 20 * second |} 1000
      [{| rd_reply := Answer 503 None; rd_elapsed := second; rd_jitter := second; rd_ctx := None |};
       {| rd_reply := NotSent []; rd_elapsed := 30 * second; rd_jitter := 0; rd_ctx := None |};
       {| rd_reply := Answer 500 (Some okResponse); rd_elapsed := second; rd_jitter := 0; rd_ctx := None |};
       {| rd_reply := Answer 400 None; rd_elapsed := second; rd_jitter := 0; rd_ctx := Some DeadlineExceeded |};
       {| rd_reply := Answer 400 None; rd_elapsed := second; rd_jitter := 0; rd_ctx := Some DeadlineExceeded |};
       {| rd_reply := Answer 400 None; rd_elapsed := second; rd_jitter := 0; rd_ctx := Some DeadlineExceeded |};
       {| rd_reply := Answer 400 None; rd_elapsed := second; rd_jitter := 0; rd_ctx := Some DeadlineExceeded |};
       {| rd_reply := Answer 400 None; rd_elapsed := second; rd_jitter := 0; rd_ctx := Some DeadlineExceeded |}]
    = Ret (Some (res, n, spent)) ∧ (Z.of_nat n - 1) * Z.of_nat n * (10 * second) ≤ 2 * (75 * second).
Proof.
  destruct (remote_run_returns {| backoff := 10 * second; graceTime := 20 * second |} 1000 (75 * second)
    [{| rd_reply := Answer 503 None; rd_elapsed := second; rd_jitter := second; rd_ctx := None |};
     {| rd_reply := NotSent []; rd_elapsed := 30 * second; rd_jitter := 0; rd_ctx := None |};
     {| rd_reply := Answer 500 (Some okResponse); rd_elapsed := second; rd_jitter := 0; rd_ctx := None |};
     {| rd_reply := Answer 400 None; rd_elapsed := second; rd_jitter := 0; rd_ctx := Some DeadlineExceeded |};
     {| rd_reply := Answer 400 None; rd_elapsed := second; rd_jitter := 0; rd_ctx := Some DeadlineExceeded |};
     {| rd_reply := Answer 400 None; rd_elapsed := second; rd_jitter := 0; rd_ctx := Some DeadlineExceeded |};
     {| rd_reply := Answer 400 None; rd_elapsed := second; rd_jitter := 0; rd_ctx := Some DeadlineExceeded |};
     {| rd_reply := Answer 400 None; rd_elapsed := second; rd_jitter := 0; rd_ctx := Some DeadlineExceeded |}])
    as (res & n & spent & H & _ & Hq & _).
  1-3: by vm_compute.
  { cbn [obeys]. repeat split; try (vm_compute; done). }
  1-2: simpl; unfold second; lia.
  exists res, n, spent. split; [exact H|exact Hq].
Defined.

(** A response with one of 408, 422 and 500 is final whether it decodes or not; 400 is
    final; a timeout of zero never reaches the runner. *)
Lemma request_final timeout status body e :
  request timeout (Answer status body) = Err e → status ∈ [200; 400; 408; 422; 500] →
  Is isRetryable e = false.
Proof.
  unfold request. case_match; [by intros [= <-]|]. intros Hr Hs.
  repeat (apply elem_of_cons in Hs as [->|Hs]; [destruct body; simplify_eq; done|]). by apply elem_of_nil in Hs.
Qed.

(** ** The processor *)

Section processor.
(** The logfmt decoder: the complete records, and when it fails the pairs read of the
    record at which it does, if it fails inside one (a line too long is not scanned). *)
Variable logfmt : list ascii → list record * option (option record).
(** The Prometheus text decoder with [ExtractSamples]: the samples, and whether it
    fails after them.  A sample has its labels, the name included, and a value. *)
Record sample := { sm_metric : gmap string string; sm_value : spec_float }.
Variable decode : list ascii → list sample * bool.
(** [NewConstMetric] for a name and labels, and [registry.Register]. *)
Variable constMetric : string → gmap string string → bool.
Variable register : list sample → bool.

Definition errorFromLogs (logs : list ascii) : err := errorFromRecords (logfmt logs).1.

(** [k6LogsToLogger]: the lines it logs, and its error.  The decoder's error is looked
    at only in the end, so that what was read of the last record is logged. *)
Definition keepRecord (r : record) : bool :=
  negb (String.eqb (keyVal "level" r) "debug" && String.eqb (keyVal "source" r) "").
Definition k6LogsToLogger (logs : list ascii) : list record * option kerr :=
  let '(rs, partial) := logfmt logs in
  (List.filter keepRecord (rs ++ match partial with Some (Some r) => [r] | _ => [] end),
   match partial with Some _ => Some (OtherError "logfmt") | None => None end).

Definition MetricNameLabel : string := "__name__".
Definition metricToLabels (m : gmap string string) : gmap string string := delete MetricNameLabel m.

(** [sampleCollector.process]. *)
Definition collectSample (s : sample) : option kerr :=
  match sm_metric s !! MetricNameLabel with
  | None => Some (OtherError "missing metric name")
  | Some name =>
      if constMetric name (metricToLabels (sm_metric s)) then None
      else Some (OtherError "creating prometheus metric")
  end.
(** [checkResultCollector.process] and [probeDurationCollector.process]. *)
Definition metricName (s : sample) : string := default EmptyString (sm_metric s !! MetricNameLabel).
Definition isZero (f : spec_float) : bool := match f with S754_zero _ => true | _ => false end.
Definition collectFailure (failure : bool) (s : sample) : bool :=
  if String.eqb (metricName s) "probe_checks_total" &&
     String.eqb (default EmptyString (sm_metric s !! "result"%string)) "fail" && negb (isZero (sm_value s))
  then true else failure.
Definition collectDuration (d : Z) (s : sample) : Z :=
  if String.eqb (metricName s) "probe_script_duration_seconds"
  then float_to_int64 (SFmul 53 1024 (sm_value s) f64_1e9) else d.

(** [extractMetricSamples] with the three collectors: the samples collected, whether a
    check failed, and the duration. *)
Record collectors := { c_samples : list sample; c_failure : bool; c_duration : Z }.
Fixpoint processSamples (ss : list sample) (c : collectors) : result kerr collectors :=
  match ss with
  | [] => Ok c
  | s :: ss =>
      match collectSample s with
      | Some e => Err e
      | None =>
          processSamples ss {| c_samples := c_samples c ++ [s]; c_failure := collectFailure (c_failure c) s;
                               c_duration := collectDuration (c_duration c) s |}
      end
  end.
Definition extractMetricSamples (metrics : list ascii) : result kerr collectors :=
  let '(ss, failed) := decode metrics in
  c ← processSamples ss {| c_samples := []; c_failure := false; c_duration := 0 |};
  if failed then Err (OtherError "decoding prometheus metrics") else Ok c.

(** What [Processor.Run] returns, the lines it logs and what it registers. *)
Record probeResult := {
  p_success : bool; p_duration : Z; p_err : err; p_logged : list record;
  p_registered : option (list sample) }.

Definition diagnostic (resp : RunResponse) : record :=
  [("level", "error"); ("msg", "script did not execute successfully"); ("error", rr_Error resp);
   ("errorCode", rr_ErrorCode resp)]%string.

Definition userCodes : list string := ["timeout"; "killed"; "user"; "failed"; "aborted"]%string.

(** The deferred log line comes after the others, on every return after it is set up. *)
Definition Processor_Run (res : result err RunResponse) : probeResult :=
  let failed e := {| p_success := false; p_duration := 0; p_err := e; p_logged := []; p_registered := None |} in
  match res with
  | Err e => failed e
  | Ok resp =>
      if xorb (String.eqb (rr_Error resp) "") (String.eqb (rr_ErrorCode resp) "") then failed [ErrBuggyRunner]
      else
        let deferred := if String.eqb (rr_ErrorCode resp) "" then [] else [diagnostic resp] in
        let '(lines, logErr) := k6LogsToLogger (rr_Logs resp) in
        let ret ok d e registered :=
          {| p_success := ok; p_duration := d; p_err := e; p_logged := lines ++ deferred;
             p_registered := registered |} in
        match logErr with
        | Some e => ret false 0 [e] None
        | None =>
            match extractMetricSamples (rr_Metrics resp) with
            | Err e => ret false 0 [e] None
            | Ok c =>
                if negb (register (c_samples c)) then ret false 0 [OtherError "cannot register collector"] None
                else
                  let registered := Some (c_samples c) in
                  if String.eqb (rr_ErrorCode resp) "" then ret true (c_duration c) [] registered
                  else if bool_decide (rr_ErrorCode resp ∈ userCodes) then ret false (c_duration c) [] registered
                  else ret false (c_duration c) [ErrFromRunner (rr_ErrorCode resp) (rr_Error resp)] registered
            end
        end
  end.

Lemma processSamples_spec ss c :
  (∃ e, processSamples ss c = Err e ∧ ¬ Forall (λ s, collectSample s = None) ss) ∨
  (Forall (λ s, collectSample s = None) ss ∧
   processSamples ss c = Ok {| c_samples := c_samples c ++ ss; c_failure := fold_left collectFailure ss (c_failure c);
                               c_duration := fold_left collectDuration ss (c_duration c) |}).
Proof.
  revert c. induction ss as [|s ss IH]; intros c; simpl.
  - right. split; [constructor|]. destruct c. simpl. by rewrite app_nil_r.
  - destruct (collectSample s) as [e|] eqn:Es.
    + left. exists e. split; [done|]. intros H. apply Forall_cons in H as [H _]. congruence.
    + destruct (IH {| c_samples := c_samples c ++ [s]; c_failure := collectFailure (c_failure c) s;
                      c_duration := collectDuration (c_duration c) s |}) as [(e & -> & H)|[H ->]]; [left|right].
      * exists e. split; [done|]. intros Hf. apply H. by apply Forall_cons in Hf as [_ ?].
      * split; [by constructor|]. simpl. by rewrite <-(assoc_L (++)).
Qed.

(** The outputs of a run can be used: logs and metrics decode, every sample makes a
    metric, and they register. *)
Definition usable (resp : RunResponse) : Prop :=
  (logfmt (rr_Logs resp)).2 = None ∧ (decode (rr_Metrics resp)).2 = false ∧
  Forall (λ s, collectSample s = None) (decode (rr_Metrics resp)).1 ∧
  register (decode (rr_Metrics resp)).1 = true.

Definition scriptDuration (resp : RunResponse) : Z := fold_left collectDuration (decode (rr_Metrics resp)).1 0.

Lemma extract_spec resp :
  (∃ e, extractMetricSamples (rr_Metrics resp) = Err e ∧ ¬ usable resp) ∨
  (∃ c, extractMetricSamples (rr_Metrics resp) = Ok c ∧ c_samples c = (decode (rr_Metrics resp)).1 ∧
        c_duration c = scriptDuration resp ∧
        (usable resp ↔ (logfmt (rr_Logs resp)).2 = None ∧ register (c_samples c) = true)).
Proof.
  unfold extractMetricSamples, usable, scriptDuration. destruct (decode (rr_Metrics resp)) as [ss failed]. simpl.
  destruct (processSamples_spec ss {| c_samples := []; c_failure := false; c_duration := 0 |})
    as [(e & -> & H)|[H ->]]; simpl; [left; exists e; tauto|].
  destruct failed; [left; eexists; split; [done|]; by intros (_ & ? & _)|].
  right. eexists. split; [done|]. simpl. tauto.
Qed.

(** A response whose code, if any, blames the script is not an error. *)
Lemma processor_known_code resp :
  usable resp → (rr_Error resp = "" ↔ rr_ErrorCode resp = "")%string →
  rr_ErrorCode resp = ""%string ∨ rr_ErrorCode resp ∈ userCodes →
  p_err (Processor_Run (Ok resp)) = [] ∧
  p_success (Processor_Run (Ok resp)) = bool_decide (rr_ErrorCode resp = ""%string) ∧
  p_duration (Processor_Run (Ok resp)) = scriptDuration resp.
Proof.
  intros Hu Hd Hc. destruct (extract_spec resp) as [(e & _ & Hn)|(c & He & Hs & Hdur & Hreg)]; [done|].
  apply Hreg in Hu as [Hl Hr]. unfold Processor_Run, k6LogsToLogger. rewrite He.
  destruct (logfmt (rr_Logs resp)) as [rs [r|]]; simpl in *; [done|]. rewrite Hr. simpl.
  destruct (String.eqb_spec (rr_Error resp) ""), (String.eqb_spec (rr_ErrorCode resp) ""); try tauto; simpl.
  - by rewrite bool_decide_true.
  - rewrite (bool_decide_true (_ ∈ userCodes)) by tauto. by rewrite bool_decide_false.
Qed.
(** Only a response without error and code whose outputs can be used succeeds. *)
Lemma processor_success resp :
  p_success (Processor_Run (Ok resp)) = true →
  rr_Error resp = ""%string ∧ rr_ErrorCode resp = ""%string ∧ usable resp.
Proof.
  unfold Processor_Run, k6LogsToLogger.
  destruct (String.eqb_spec (rr_Error resp) ""), (String.eqb_spec (rr_ErrorCode resp) ""); simpl; try done.
  all: destruct (extract_spec resp) as [(e' & -> & _)|(c & -> & _ & _ & Hu)],
    (logfmt (rr_Logs resp)) as [rs [r|]]; simpl in *; try done.
  all: destruct (register (c_samples c)); simpl; try done.
  - intros _. split; [done|]. split; [done|]. by apply Hu.
  - by case_bool_decide.
Qed.

(** C31: what a probe makes of a runner's response.  A runner's error, and a response
    with only one of error and code, fail the probe with that error and log nothing.
    Otherwise every log record of the script but k6's own debug ones is logged, even
    when the metrics cannot be read, and after them the reason when there is an error
    code; the probe succeeds exactly when there is no code and the outputs can be used;
    a code that blames the script is a failed probe without an error, any other is
    reported; the duration is that of the last duration sample. *)
Theorem processor_outcome res :
  match res with
  | Err e => Processor_Run res = {| p_success := false; p_duration := 0; p_err := e; p_logged := []; p_registered := None |}
  | Ok resp =>
      if decide ((rr_Error resp = "" ↔ rr_ErrorCode resp = "")%string) then
        p_logged (Processor_Run res) = (k6LogsToLogger (rr_Logs resp)).1 ++
          (if decide (rr_ErrorCode resp = ""%string) then [] else [diagnostic resp]) ∧
        (p_success (Processor_Run res) = true ↔ rr_ErrorCode resp = ""%string ∧ usable resp) ∧
        (p_err (Processor_Run res) = [] ↔
           usable resp ∧ (rr_ErrorCode resp = ""%string ∨ rr_ErrorCode resp ∈ userCodes)) ∧
        (usable resp → p_duration (Processor_Run res) = scriptDuration resp ∧
           p_registered (Processor_Run res) = Some (decode (rr_Metrics resp)).1)
      else p_err (Processor_Run res) = [ErrBuggyRunner] ∧ p_logged (Processor_Run res) = []
  end.
Proof.
  destruct res as [resp|e]; [|done]. unfold Processor_Run.
  destruct (String.eqb_spec (rr_Error resp) "") as [Ee|Ee], (String.eqb_spec (rr_ErrorCode resp) "") as [Ec|Ec];
    simpl; case_decide as Hd; try tauto; try (exfalso; tauto).
  all: rewrite ?decide_True, ?decide_False by done.
  all: unfold k6LogsToLogger; destruct (extract_spec resp) as [(e & -> & Hu)|(c & -> & Hs & Hdur & Hu)];
    destruct (logfmt (rr_Logs resp)) as [rs [r|]] eqn:El; simpl in *.
  all: try (assert (Hnu : ¬ usable resp) by (intros (Hl & _); rewrite El in Hl; done)).
  all: try (split; [done|]; tauto || (split; [split; [done|tauto]|split; [split; [done|tauto]|tauto]])).
  all: destruct (register (c_samples c)) eqn:Er; simpl; try case_bool_decide; simpl;
    (split; [done|]); rewrite <-Hs; intuition congruence.
Qed.

(** ** The local runner *)

(** [cmd.Run] joined with the error of its context, when it is a user error (the script
    ran), and what the logs say. *)
Definition maxLogsSizeBytes : Z := 255 * 1024.
Definition maxMetricsSizeBytes : Z := 100 * 1024.

(** [bytes.LastIndexByte]: the prefix of [l] up to and with its last newline. *)
Definition newline : ascii := "010"%char.
Fixpoint uptoLastNewline (l : list ascii) : option (list ascii) :=
  match l with
  | [] => None
  | a :: l =>
      match uptoLastNewline l with
      | Some p => Some (a :: p)
      | None => if Ascii.eqb a newline then Some [a] else None
      end
  end.

(** [readFileLimit] of a file that opens and reads without errors. *)
Definition readFileLimit (file : list ascii) (limit : Z) (existing : list ascii) : list ascii * bool :=
  let copied := take (Z.to_nat limit) file in
  let buf := existing ++ copied in
  if llen copied <? limit then (buf, false)
  else if bool_decide (drop (Z.to_nat limit) file = []) then (buf, false)
  else (default buf (uptoLastNewline buf), true).

(** The text of an error, [Error()], is a parameter. *)
Variable errorText : err → string.
(** The first line of the logs, and the two notices of truncation. *)
Variable versionLine : list ascii.
Variable truncationNotice : Z → list ascii.

(** The result of [os/exec] and of reading the two files; a file that cannot be read has
    an error.  The code then wraps [err], the error of the command, not its own. *)
Definition wrapped (e : err) (what : string) : err := e ++ [OtherError what].
Definition Local_finish (cmdErr ctxErr : err) (logs metrics : result err (list ascii))
    : result err RunResponse :=
  let e := cmdErr ++ ctxErr in
  if negb (bool_decide (e = [])) && negb (isUserError e) then Err (wrapped e "executing k6 script")
  else
    match logs with
    | Err _ => Err (wrapped e "reading k6 logs")
    | Ok logsFile =>
        let '(logs, truncated) := readFileLimit logsFile maxLogsSizeBytes versionLine in
        let logs := if truncated then logs ++ truncationNotice maxLogsSizeBytes else logs in
        match metrics with
        | Err _ => Err (wrapped e "reading k6 metrics")
        | Ok metricsFile =>
            let '(metrics, truncated) := readFileLimit metricsFile maxMetricsSizeBytes [] in
            let logs := if truncated then logs ++ truncationNotice maxMetricsSizeBytes else logs in
            let e := e ++ errorFromLogs logs in
            Ok match e with
               | [] => {| rr_Error := ""; rr_ErrorCode := ""; rr_Metrics := metrics; rr_Logs := logs |}
               | _ => {| rr_Error := errorText e; rr_ErrorCode := errorType e;
                         rr_Metrics := metrics; rr_Logs := logs |}
               end
        end
    end.

Lemma uptoLastNewline_spec l :
  match uptoLastNewline l with
  | Some p => ∃ r, l = p ++ r ∧ newline ∉ r ∧ last p = Some newline
  | None => newline ∉ l
  end.
Proof.
  induction l as [|a l IH]; simpl; [set_solver|]. destruct (uptoLastNewline l) as [p|].
  - destruct IH as (r & -> & Hr & Hp). exists r. split_and!; try done. rewrite last_cons, Hp. done.
  - destruct (Ascii.eqb_spec a newline) as [->|]; [|set_solver]. by exists l.
Qed.

(** A file within the limit is read whole; a longer one is cut after the last line that
    ends within the limit. *)
Lemma readFileLimit_spec file limit existing :
  0 ≤ limit → (existing = [] ∨ last existing = Some newline) →
  let '(buf, truncated) := readFileLimit file limit existing in
  (truncated = true ↔ limit < llen file) ∧
  (truncated = false → buf = existing ++ file) ∧
  (truncated = true →
   ∃ kept cut, take (Z.to_nat limit) file = kept ++ cut ∧
     ((existing = [] ∧ buf = kept ∧ cut = [] ∧ newline ∉ kept) ∨
      (buf = existing ++ kept ∧ newline ∉ cut ∧ (kept = [] ∨ last kept = Some newline)))).
Proof.
  intros Hl Hex. unfold readFileLimit, llen. rewrite length_take.
  destruct (Z.ltb_spec (Z.of_nat (Nat.min (Z.to_nat limit) (length file))) limit) as [Hlt|Hge].
  { split; [split; [done|lia]|]. split; [|done]. intros _. by rewrite take_ge by lia. }
  case_bool_decide as Hd.
  { assert (length (drop (Z.to_nat limit) file) = 0%nat) as H0 by (by rewrite Hd). rewrite length_drop in H0.
    split; [split; [done|lia]|]. split; [|done]. intros _. by rewrite take_ge by lia. }
  assert (length (drop (Z.to_nat limit) file) ≠ 0%nat) as H0 by (by destruct (drop _ file)).
  rewrite length_drop in H0. split; [split; [lia|done]|]. split; [done|]. intros _.
  assert (Hs := uptoLastNewline_spec (existing ++ take (Z.to_nat limit) file)).
  destruct (uptoLastNewline _) as [p|]; simpl.
  - destruct Hs as (r & Heq & Hr & Hp).
    apply app_eq_inv in Heq as [(k & He & Hk)|(k & He & Hk)]; subst.
    + exists [], (take (Z.to_nat limit) file). split; [done|]. right.
      destruct k as [|a k]; [rewrite !app_nil_r; simpl in Hr; auto|].
      destruct Hex as [Hn|Hex]; [by destruct p|]. rewrite last_app_cons in Hex.
      exfalso. apply Hr. apply elem_of_app. left.
      by apply last_Some_elem_of in Hex.
    + exists k, r. split; [done|]. right. split; [done|]. split; [done|].
      destruct k as [|a k]; [by left|]. right. by rewrite last_app_cons in Hp.
  - exists (take (Z.to_nat limit) file), []. rewrite app_nil_r. split; [done|]. left.
    destruct Hex as [->|Hex]; [done|]. apply last_Some_elem_of in Hex. set_solver.
Qed.

(** ** What the local runner reports *)

Lemma errorFromRecords_shape rs : errorFromRecords rs ∈ [[]; [ErrStacktrace]; [ErrThrown]].
Proof.
  induction rs as [|r rs IH]; simpl; [left|]. unfold errorOfRecord.
  repeat case_match; simplify_eq; try done; set_solver.
Qed.
Lemma asExit_app c e e' : asExit e = Some c → asExit (e ++ e') = Some c.
Proof. induction e as [|[] e IH]; simpl; try done; auto. Qed.
Lemma Is_app p e e' : Is p (e ++ e') = Is p e || Is p e'.
Proof. unfold Is. apply existsb_app. Qed.

Lemma user_error_code e e' :
  e = [] ∨ isUserError e = true → e' ∈ [[]; [ErrStacktrace]; [ErrThrown]] →
  errorType (e ++ e') ∈ [ErrorCodeNone; ErrorCodeTimeout; ErrorCodeFailed; ErrorCodeAborted].
Proof.
  intros He He'. destruct He as [->|He].
  { repeat (apply elem_of_cons in He' as [->|He']; [simpl; set_solver|]). by apply elem_of_nil in He'. }
  unfold errorType. destruct (e ++ e') as [|x l] eqn:E; [left|]. rewrite <-E. clear E x l.
  rewrite !Is_app. unfold isUserError in He.
  destruct (Is isDeadline e || Is isDeadline e') eqn:Ed; [set_solver|].
  apply orb_false_iff in Ed as [Ed _]. rewrite Ed in He. simpl in He.
  destruct (asExit e) as [c|] eqn:Ec; [|done]. rewrite (asExit_app c) by done.
  replace (128 <=? c) with false by lia. repeat case_match; set_solver.
Qed.

(** C39: what a local run reports.  When [Local.Run] returns a response, its code is
    empty, timeout, failed or aborted, and it has an error text exactly when it has a
    code; so the processor never takes it for a buggy or unknown one.  In particular the
    code killed is never reported: an exit code of 127 or more makes the whole run fail,
    and a process ended by a signal has exit code -1, which is reported as aborted. *)
Theorem local_run_reports cmdErr ctxErr logs metrics resp :
  (∀ e, e ≠ [] → errorText e ≠ EmptyString) →
  Local_finish cmdErr ctxErr logs metrics = Ok resp →
  rr_ErrorCode resp ∈ [ErrorCodeNone; ErrorCodeTimeout; ErrorCodeFailed; ErrorCodeAborted] ∧
  (rr_Error resp = EmptyString ↔ rr_ErrorCode resp = EmptyString) ∧
  (usable resp → p_err (Processor_Run (Ok resp)) = []).
Proof.
  intros Ht H. assert (Hc : rr_ErrorCode resp ∈ [ErrorCodeNone; ErrorCodeTimeout; ErrorCodeFailed; ErrorCodeAborted] ∧
    (rr_Error resp = EmptyString ↔ rr_ErrorCode resp = EmptyString)).
  { unfold Local_finish in H. set (e := cmdErr ++ ctxErr) in *.
    destruct (negb (bool_decide (e = [])) && negb (isUserError e)) eqn:Eu; [done|].
    assert (He : e = [] ∨ isUserError e = true).
    { case_bool_decide; [by left|]. right. by destruct (isUserError e). }
    destruct logs as [lf|]; [|done]. destruct (readFileLimit lf _ _) as [lb lt].
    destruct metrics as [mf|]; [|done]. destruct (readFileLimit mf _ _) as [mb mt].
    set (lg := if mt then _ else _) in H.
    assert (Hcode := user_error_code e (errorFromLogs lg) He (errorFromRecords_shape _)).
    destruct (e ++ errorFromLogs lg) as [|x l] eqn:E; simplify_eq/=; [set_solver|]. split; [done|].
    split; [by intros ?%Ht|]. repeat case_match; done. }
  destruct Hc as [Hc Hd]. split; [done|]. split; [done|]. intros Hu.
  apply processor_known_code; [done|done|]. unfold userCodes.
  unfold ErrorCodeNone, ErrorCodeTimeout, ErrorCodeFailed, ErrorCodeAborted in Hc. set_solver.
Qed.
End processor.

(** Exit code 107 with a deadline, and no logs. *)
Lemma local_run_reports_witness :
  rr_ErrorCode {| rr_Error := "error"; rr_ErrorCode := "timeout"; rr_Metrics := []; rr_Logs := [] |} ∈
    [ErrorCodeNone; ErrorCodeTimeout; ErrorCodeFailed; ErrorCodeAborted].
Proof.
  apply (local_run_reports (λ _, ([], None)) (λ _, ([], false)) (λ _ _, true) (λ _, true) (λ _, "error"%string) []
    (λ _, []) [Exit 107] [DeadlineExceeded] (Ok []) (Ok [])).
  - intros e _. discriminate.
  - reflexivity.
Defined.

(** A process ended by a signal. *)
Lemma killed_is_aborted : errorType [Exit (-1)] = ErrorCodeAborted ∧ isUserError [Exit (-1)] = true.
Proof. done. Qed.
(** The code of a shell for a killed child fails the run instead. *)
Lemma killed_is_unreported : errorType [Exit 137] = ErrorCodeKilled ∧ isUserError [Exit 137] = false.
Proof. done. Qed.

(** When the logs cannot be read and k6 ended well, the error wraps nil. *)
Lemma unread_logs_error logfmt errorText versionLine notice e metrics :
  Local_finish logfmt errorText versionLine notice [] [] (Err e) metrics =
  Err [OtherError "reading k6 logs"].
Proof. done. Qed.

(** ** The environment and arguments of k6 *)

Definition envDefaults : list (string * string) :=
  [("K6_BROWSER_LOG", "info"); ("K6_AUTO_EXTENSION_RESOLUTION", "false")]%string.
Definition hasEnv (name : string) (env : list string) : bool := existsb (hasPrefix (name +:+ "=")) env.
(** The map of defaults is visited in some order. *)
Definition k6Env (order : list (string * string)) (localEnv : list string) : list string :=
  fold_left (λ env d, if hasEnv d.1 env then env else env ++ [(d.1 +:+ "=" +:+ d.2)]) order localEnv.

(** [buildK6Args]; the blacklist is a field of the runner. *)
Definition buildK6RefID (executionID : string) : option string :=
  if String.eqb executionID "" then None else Some ("sm:" +:+ executionID).
Definition commonArgs (blacklistedIP metricsFn logsFn : string) : list string :=
  ["run"; "--out"; "sm=" +:+ metricsFn; "--log-format"; "logfmt"; "--log-output"; "file=" +:+ logsFn;
   "--max-redirects"; "10"; "--batch"; "10"; "--batch-per-host"; "4"; "--no-connection-reuse";
   "--blacklist-ip"; blacklistedIP; "--block-hostnames"; "*.cluster.local";
   "--summary-time-unit"; "s"; "--dns"; "ttl=30s,select=random,policy=preferIPv4"; "--address"; "";
   "--no-thresholds"; "--no-usage-report"; "--no-color"; "--summary-mode"; "disabled"; "--verbose";
   "--throw"]%string.
Definition buildK6Args (blacklistedIP checkType metricsFn logsFn scriptFn configFile executionID : string)
    : list string :=
  commonArgs blacklistedIP metricsFn logsFn ++
  (if String.eqb configFile "" then [] else ["--secret-source"; "grafanasecrets=config=" +:+ configFile]%string) ++
  (if String.eqb checkType (CheckType_String CheckTypeBrowser) then
     match buildK6RefID executionID with
     | None => []
     | Some id => ["-e"; "K6_CLOUD_PUSH_REF_ID=" +:+ id]%string
     end
   else ["--vus"; "1"; "--iterations"; "1"]%string) ++
  [scriptFn].

(** [SecretStore.IsConfigured]: the secrets file is made only for a complete store. *)
Record SecretStore := { ss_Url : string; ss_Token : string }.
Definition IsConfigured (s : SecretStore) : bool :=
  negb (String.eqb (ss_Url s) "") && negb (String.eqb (ss_Token s) "").

(** ** The repository of binaries *)

(** Semantic versions, of a third-party library: an order, and constraints that parse to
    predicates. *)
Class Semver (V : Type) := {
  Compare : V → V → Z;
  NewConstraint : string → option (V → bool);
  Compare_sym a b : Compare a b ≤ 0 ↔ 0 ≤ Compare b a;
  Compare_total a b : Compare a b ≤ 0 ∨ Compare b a ≤ 0;
  Compare_trans a b c : Compare a b ≤ 0 → Compare b c ≤ 0 → Compare a c ≤ 0 }.

Section repository.
Context {V : Type} `{Semver V}.
(** [filepath.Join]. *)
Variable filepathJoin : string → string → string.

Record Entry := { e_Path : string; e_Version : V }.
Record Repository := { Root : string; Override : string; entries : list Entry }.
Definition set_entries (es : list Entry) (r : Repository) : Repository :=
  {| Root := Root r; Override := Override r; entries := es |}.

(** A file of the root directory. *)
Record dirFile := { f_Name : string; f_IsDir : bool; f_Perm : option Z }.
Definition keepBinary (root : string) (f : dirFile) : option (option string) :=
  if f_IsDir f then Some None
  else
    match f_Perm f with
    | None => None
    | Some perm =>
        if Z.land perm 73 =? 0 then Some None
        else if negb (contains "k6" (f_Name f)) then Some None
        else Some (Some (filepathJoin root (f_Name f)))
    end.
(** [binaries]: [None] is an error; the directory does not read when [files] is [None]. *)
Definition binaries (r : Repository) (files : option (list dirFile)) : option (list string) :=
  if negb (String.eqb (Override r) "") then Some [Override r]
  else files ← files; ks ← mapM (keepBinary (Root r)) files; Some (omap id ks).

Definition newer (a b : Entry) : Prop := Compare (e_Version b) (e_Version a) ≤ 0.
#[global] Instance newer_dec a b : Decision (newer a b).
Proof. unfold newer. apply _. Defined.

(** The versions of the binaries, in order, up to the first that fails. *)
Fixpoint addEntries (version : string → option V) (bins : list string) (es : list Entry) : list Entry * bool :=
  match bins with
  | [] => (es, true)
  | b :: bins =>
      match version b with
      | None => (es, false)
      | Some v => addEntries version bins (es ++ [{| e_Path := b; e_Version := v |}])
      end
  end.

(** [scan]: the repository it leaves, and whether it succeeded.  [version] runs a binary
    and parses what it prints. *)
Definition scan (force : bool) (files : option (list dirFile)) (version : string → option V) (r : Repository)
    : Repository * bool :=
  if (0 <? llen (entries r)) && negb force then (r, true)
  else
    match binaries r files with
    | None => (r, false)
    | Some bins =>
        let '(es, ok) := addEntries version bins (entries r) in
        if ok then (set_entries (merge_sort newer es) r, true) else (set_entries es r, false)
    end.

Inductive resolveErr := ErrScan | ErrInvalidConstraint | ErrUnsatisfiable.

Definition Resolve (constraint : string) files version (r : Repository) : Repository * result resolveErr Entry :=
  let '(r, ok) := scan false files version r in
  (r, if negb ok then Err ErrScan
      else match NewConstraint constraint with
           | None => Err ErrInvalidConstraint
           | Some check =>
               match list_find (λ e, check (e_Version e) = true) (entries r) with
               | Some (_, e) => Ok e
               | None => Err ErrUnsatisfiable
               end
           end).

Definition Entries files version (r : Repository) : Repository * option (list Entry) :=
  let '(r, ok) := scan false files version r in (r, if ok then Some (entries r) else None).

#[global] Instance newer_total : Total newer.
Proof. intros a b. unfold newer. destruct (Compare_total (e_Version a) (e_Version b)); tauto. Qed.
#[global] Instance newer_trans : Transitive newer.
Proof. intros a b c H1 H2. unfold newer in *. by eapply Compare_trans. Qed.

Definition entryOf (version : string → option V) (e : Entry) : Prop := version (e_Path e) = Some (e_Version e).

Lemma addEntries_all version bins es :
  Forall (λ b, is_Some (version b)) bins →
  ∃ es', addEntries version bins es = (es ++ es', true) ∧ map e_Path es' = bins ∧ Forall (entryOf version) es'.
Proof.
  intros Hb. revert es. induction Hb as [|b bins [v Hv] _ IH]; intros es; simpl.
  - exists []. by rewrite app_nil_r.
  - rewrite Hv. destruct (IH (es ++ [{| e_Path := b; e_Version := v |}])) as (es' & -> & Hm & Hf).
    exists ({| e_Path := b; e_Version := v |} :: es'). rewrite <-(assoc_L (++)). split; [done|].
    simpl. rewrite Hm. split; [done|]. by constructor.
Qed.

Lemma addEntries_ok version bins es es' :
  addEntries version bins es = (es', true) → Forall (λ b, is_Some (version b)) bins.
Proof.
  revert es. induction bins as [|b bins IH]; intros es; simpl; [by constructor|].
  destruct (version b) eqn:Ev; [|done]. intros ?%IH. by constructor.
Qed.

(** The first match of a sorted list is a greatest one. *)
Lemma first_match_greatest (P : Entry → Prop) `{∀ e, Decision (P e)} l :
  Sorted newer l →
  match list_find P l with
  | Some (_, e) => e ∈ l ∧ P e ∧ ∀ e', e' ∈ l → P e' → newer e e'
  | None => ∀ e, e ∈ l → ¬ P e
  end.
Proof.
  intros Hs%Sorted_StronglySorted; [|apply _]. induction Hs as [|x l _ IH Hx]; simpl; [set_solver|].
  case_decide as HP.
  - split; [left|]. split; [done|]. intros e' [->|Hin]%elem_of_cons _.
    + destruct (total newer x x); done.
    + by eapply Forall_forall in Hx.
  - destruct (list_find P l) as [[i e]|]; simpl; [|set_solver].
    destruct IH as (? & ? & IH). split; [by right|]. split; [done|]. set_solver.
Qed.

(** The scans of a repository, none of which failed: what each one found in the directory,
    and what the binaries answered, the last first. *)
Inductive scans (r0 : Repository) : list (option (list dirFile) * (string → option V)) → Repository → Prop :=
  | scans_new : entries r0 = [] → scans r0 [] r0
  | scans_again h r files version r' :
      scans r0 h r → scan false files version r = (r', true) → scans r0 ((files, version) :: h) r'.

(** The entries are the binaries of one of them, newest first. *)
Definition entriesOf (r0 : Repository) (scanned : option (list dirFile) * (string → option V)) (es : list Entry)
    : Prop :=
  ∃ es0, binaries r0 scanned.1 = Some (map e_Path es0) ∧ Forall (entryOf scanned.2) es0 ∧
    es = merge_sort newer es0.

Lemma scan_entries force files version r r' :
  scan force files version r = (r', true) → entries r = [] → entriesOf r (files, version) (entries r').
Proof.
  intros Hs He. unfold scan in Hs. rewrite He in Hs. cbn in Hs.
  destruct (binaries r files) as [bins|] eqn:Eb; [|done].
  destruct (addEntries version bins []) as [es ok] eqn:Ea. destruct ok; [|done]. injection Hs as <-.
  destruct (addEntries_all version bins []) as (es' & Ha & Hm & Hf); [by eapply addEntries_ok|].
  rewrite Ea in Ha. injection Ha as ->. exists es'. cbn. by rewrite Hm.
Qed.

Lemma scan_cached files version r : entries r ≠ [] → scan false files version r = (r, true).
Proof.
  intros Hr. unfold scan. destruct (entries r) as [|x es]; [done|].
  destruct (Z.ltb_spec 0 (llen (x :: es))) as [|Hl]; [done|]. unfold llen in Hl. cbn [length] in Hl. lia.
Qed.

Lemma scan_binaries force files version r : ∀ files',
  binaries (scan force files version r).1 files' = binaries r files'.
Proof.
  intros files'. unfold scan. destruct (_ && _); [done|]. destruct (binaries r files); [|done].
  by destruct (addEntries _ _ _) as [es []].
Qed.

Lemma scans_entries r0 h r :
  scans r0 h r →
  (∀ files, binaries r files = binaries r0 files) ∧
  (entries r = [] ∨ ∃ scanned, scanned ∈ h ∧ entriesOf r0 scanned (entries r)).
Proof.
  induction 1 as [He|h r files version r' Hs [IHb IHe] Hscan]; [by split; [|left]|]. split.
  { intros f. rewrite <-IHb. change r' with ((r', true).1). rewrite <-Hscan. apply scan_binaries. }
  right. destruct IHe as [He|(scanned & Hin & He)].
  - exists (files, version). split; [left|]. destruct (scan_entries _ _ _ _ _ Hscan He) as (es & Hb & Hf & ->).
    exists es. by rewrite <-IHb.
  - destruct (entries r) as [|x es] eqn:Er.
    + exists (files, version). split; [left|]. destruct (scan_entries _ _ _ _ _ Hscan Er) as (es & Hb & Hf & ->).
      exists es. by rewrite <-IHb.
    + exists scanned. split; [by right|]. rewrite scan_cached in Hscan by (by rewrite Er).
      injection Hscan as <-. by rewrite Er.
Qed.

(** The chosen k6 binary is the newest.  On a repository of which no scan failed, what
    [Resolve] finds is a binary of one of its scans, and no other of that scan that
    satisfies the constraint is newer; when it says that none does, none of that scan
    does. *)
Lemma resolve_newest constraint files version r0 h r r' res :
  scans r0 h r → Resolve constraint files version r = (r', res) →
  match res with
  | Ok e => ∃ check scanned bins, NewConstraint constraint = Some check ∧
      scanned ∈ (files, version) :: h ∧ binaries r0 scanned.1 = Some bins ∧
      Forall (λ b, is_Some (scanned.2 b)) bins ∧
      e_Path e ∈ bins ∧ scanned.2 (e_Path e) = Some (e_Version e) ∧ check (e_Version e) = true ∧
      (∀ b v, b ∈ bins → scanned.2 b = Some v → check v = true → Compare v (e_Version e) ≤ 0)
  | Err ErrUnsatisfiable => ∃ check scanned bins, NewConstraint constraint = Some check ∧
      scanned ∈ (files, version) :: h ∧ binaries r0 scanned.1 = Some bins ∧
      ∀ b v, b ∈ bins → scanned.2 b = Some v → check v = false
  | Err _ => True
  end.
Proof.
  intros Hs. unfold Resolve. destruct (scan false files version r) as [r1 ok] eqn:Escan. destruct ok; [|by intros [= _ <-]].
  intros [= _ <-]. destruct (NewConstraint constraint) as [check|]; [|done].
  assert (Hs1 := scans_again _ _ _ _ _ _ Hs Escan). 
  assert (He1 : ∃ scanned, scanned ∈ (files, version) :: h ∧ entriesOf r0 scanned (entries r1)).
  { destruct (scans_entries _ _ _ Hs) as [Hb He], (scans_entries _ _ _ Hs1) as [_ He1].
    destruct He1 as [He1|?]; [|done]. exists (files, version). split; [left|].
    destruct (entries r) as [|x es] eqn:Er.
    - destruct (scan_entries _ _ _ _ _ Escan Er) as (es & ? & ? & ?). exists es. by rewrite <-Hb.
    - rewrite scan_cached in Escan by (by rewrite Er). injection Escan as <-. by rewrite Er in He1. }
  destruct He1 as (scanned & Hin & es & Hb & Hf & He).
  assert (Hp := merge_sort_Permutation newer es).
  assert (Hmatch := first_match_greatest (λ e, check (e_Version e) = true) _ (Sorted_merge_sort newer es)).
  rewrite <-He in Hmatch, Hp.
  assert (Hfind : ∀ b v, b ∈ map e_Path es → scanned.2 b = Some v → ∃ e, e ∈ entries r1 ∧ e_Version e = v).
  { intros b v (e & -> & Hein)%list_elem_of_fmap Hver. exists e. rewrite Hp. split; [done|].
    eapply Forall_forall in Hf; [|exact Hein]. unfold entryOf in Hf. congruence. }
  destruct (list_find _ _) as [[i e]|].
  - destruct Hmatch as (He' & Hce & Hmax). rewrite Hp in He'. exists check, scanned, (map e_Path es).
    split_and!; try done.
    + apply Forall_map. eapply Forall_impl; [exact Hf|]. intros x Hx. by eexists.
    + apply list_elem_of_fmap. eauto.
    + by eapply Forall_forall in Hf.
    + intros b v Hbin Hver Hcv. destruct (Hfind b v Hbin Hver) as (e' & He'' & <-). by apply Hmax.
  - exists check, scanned, (map e_Path es). split_and!; try done. intros b v Hbin Hver.
    destruct (Hfind b v Hbin Hver) as (e' & He' & <-). specialize (Hmatch e' He'). by destruct (check _).
Qed.
End repository.

(** ** Instances *)

Lemma Z_compare_sym (a b : Z) : a - b ≤ 0 ↔ 0 ≤ b - a.
Proof. lia. Qed.
Lemma Z_compare_total (a b : Z) : a - b ≤ 0 ∨ b - a ≤ 0.
Proof. lia. Qed.
Lemma Z_compare_trans (a b c : Z) : a - b ≤ 0 → b - c ≤ 0 → a - c ≤ 0.
Proof. lia. Qed.
#[global] Instance Semver_Z : Semver Z := {|
  Compare a b := a - b;
  NewConstraint s := Some (λ v, if String.eqb s "1" then v <? 20 else true);
  Compare_sym := Z_compare_sym; Compare_total := Z_compare_total; Compare_trans := Z_compare_trans |}.

Definition sampleFiles : option (list dirFile) :=
  Some [{| f_Name := "k6-a"; f_IsDir := false; f_Perm := Some 493 |};
        {| f_Name := "k6-b"; f_IsDir := false; f_Perm := Some 493 |};
        {| f_Name := "k6-c"; f_IsDir := false; f_Perm := Some 493 |};
        {| f_Name := "notes"; f_IsDir := false; f_Perm := Some 420 |}]%string.
Definition joinSlash (a b : string) : string := a +:+ "/" +:+ b.
Definition sampleRepository : @Repository Z := {| Root := "/k6"; Override := ""; entries := [] |}.
Definition sampleVersion (p : string) : option Z :=
  (if String.eqb p "/k6/k6-a" then Some 11 else if String.eqb p "/k6/k6-b" then Some 21 else Some 19)%string.

(** The directory was scanned once; it cannot be read any more, and is not. *)
Definition scannedRepository : @Repository Z := (scan joinSlash false sampleFiles sampleVersion sampleRepository).1.
Lemma sample_scans : scans joinSlash sampleRepository [(sampleFiles, sampleVersion)] scannedRepository.
Proof. eapply scans_again; [by apply scans_new|]. vm_compute. reflexivity. Qed.
Lemma resolve_newest_witness :
  match (Resolve joinSlash "1" None (λ _, None) scannedRepository).2 with
  | Ok e => e_Path e = "/k6/k6-c"%string | Err _ => False end.
Proof.
  destruct (Resolve joinSlash "1" None (λ _, None) scannedRepository) as [r' res] eqn:E.
  assert (H := resolve_newest joinSlash "1" None (λ _, None) _ _ _ r' res sample_scans E).
  vm_compute in E. injection E as <- <-. exact eq_refl.
Defined.

(** A scan that fails keeps the binaries it had read, unsorted; the next call takes them
    for a complete scan, and resolves to a version that is not the newest. *)
Lemma failed_scan_is_kept :
  let broken p := if String.eqb p "/k6/k6-c" then None else sampleVersion p in
  let '(r, res) := Resolve joinSlash "*" sampleFiles broken sampleRepository in
  res = Err ErrScan ∧
  ∃ e, (Resolve joinSlash "*" sampleFiles sampleVersion r).2 = Ok e ∧ e_Version e = 11.
Proof. vm_compute. split; [done|]. by eexists. Qed.

(** The defaults are set unless the environment has them; twice changes nothing. *)
Lemma hasEnv_app name e e' : hasEnv name (e ++ e') = hasEnv name e || hasEnv name e'.
Proof. apply existsb_app. Qed.
Lemma k6Env_keeps order env : ∃ added, k6Env order env = env ++ added.
Proof.
  unfold k6Env. revert env. induction order as [|d order IH]; intros env; simpl; [exists []; by rewrite app_nil_r|].
  destruct (hasEnv d.1 env); [apply IH|].
  destruct (IH (env ++ [d.1 +:+ "=" +:+ d.2])) as [added ->]. rewrite <-(assoc_L (++)). by eexists.
Qed.
Lemma k6Env_has order env d : d ∈ order → hasEnv d.1 (k6Env order env) = true.
Proof.
  unfold k6Env. revert env. induction order as [|d' order IH]; intros env Hd; [by apply elem_of_nil in Hd|].
  apply elem_of_cons in Hd as [->|Hd]; simpl; [|by apply IH].
  assert (Hx : ∀ e, hasEnv d'.1 e = true → hasEnv d'.1 (k6Env order e) = true).
  { intros e He. destruct (k6Env_keeps order e) as [added ->]. by rewrite hasEnv_app, He. }
  apply Hx. destruct (hasEnv d'.1 env) eqn:E; [done|]. rewrite hasEnv_app. apply orb_true_iff. right.
  unfold hasEnv. simpl. rewrite orb_false_r.
  replace (d'.1 +:+ "=" +:+ d'.2) with ((d'.1 +:+ "=") +:+ d'.2) by apply append_assoc.
  apply hasPrefix_app.
Qed.
Lemma k6Env_idempotent order env : k6Env order (k6Env order env) = k6Env order env.
Proof.
  assert (H : ∀ l e, (∀ d, d ∈ l → hasEnv d.1 e = true) → k6Env l e = e).
  { unfold k6Env. induction l as [|d l IH]; intros e Hl; simpl; [done|].
    rewrite Hl by left. apply IH. set_solver. }
  apply H. intros d Hd. by apply k6Env_has.
Qed.
