(* ===== verification/PushV1.v ===== *)
(** * The first publisher and the remote-write client

    [internal/pkg/prom/prom.go] (sending with back-off, and the TLS
    configuration of a client, which follows its CA file), [internal/pusher/clients.go], [internal/pusher/v1/pusher.go]
    and [internal/pusher/registry.go].

    What the network, the tenant provider and the file system answer are inputs. *)
From S2P Require Import Prelude Strs Ids PushErrors Tenants.

Open Scope Z_scope.

(** ** Sending with back-off: [withBackoff] *)

Definition maxRetries : nat := 10.
Definition minBackoff : Z := 30 * 1000000.
Definition maxBackoff : Z := 250 * 1000000.
Definition clampBackoff (a : Z) : Z := if maxBackoff <? a then maxBackoff else a.

Definition recoverable (e : goerr) : bool := match e with recoverableError _ => true | _ => false end.

(** One iteration: the error of the context when it is done, and what [store] returns. *)
Record storeRound := { sr_ctx : error goerr; sr_store : error goerr }.

(** The error returned, the retries counted and the times slept, in order; [None] when
    the loop needs more rounds than given. *)
Fixpoint withBackoff_loop (retries : nat) (backoff : Z) (err : error goerr) (ins : list storeRound)
    : option (error goerr * nat * list Z) :=
  let done e := Some (e, (maxRetries - retries)%nat, []) in
  match retries with
  | O => done err
  | S retries' =>
      match ins with
      | [] => None
      | i :: ins =>
          match sr_ctx i, sr_store i with
          | Some e, _ => done (Some e)
          | None, None => done None
          | None, Some e =>
              if negb (recoverable e) then done (Some e)
              else if (0 <? retries')%nat then
                '(r, n, sl) ← withBackoff_loop retries' (clampBackoff (2 * backoff)) (Some e) ins;
                Some (r, n, backoff :: sl)
              else withBackoff_loop retries' backoff (Some e) ins
          end
      end
  end.
Definition withBackoff (ins : list storeRound) : option (error goerr * nat * list Z) :=
  withBackoff_loop maxRetries minBackoff None ins.

(** ** Clients *)

Section clients.
Context {url : Type} (urlParse : string → option url).

Record BasicAuth := { ba_Username : string; ba_Password : string }.
Record ClientConfig := {
  cc_URL : url; cc_Timeout : Z; cc_BasicAuth : option BasicAuth; cc_Headers : gmap string string }.

Definition ClientFromRemoteInfo (remote : option RemoteInfo) : go (result goerr ClientConfig) :=
  match remote with
  | None => Panic "nil pointer dereference"
  | Some remote => Ret
      match urlParse (r_Url remote +:+ "/push") with
      | None => Err (ErrWrap "parsing URL" (ErrText "parse"))
      | Some u => Ok {|
          cc_URL := u; cc_Timeout := 5 * 1000000000;
          cc_BasicAuth := if String.eqb (r_Username remote) "" then None
                          else Some {| ba_Username := r_Username remote; ba_Password := r_Password remote |};
          cc_Headers := {["X-Prometheus-Remote-Write-Version"%string := "0.1.0"%string]} |}
      end
  end.

(** [NewClient] with no TLS settings does not fail: [NewTLSConfig] has nothing to read. *)
Definition Client : Type := ClientConfig.
Record remoteTarget := { rt_Events : Client; rt_Metrics : Client }.

Definition updateClient (tenant : Tenant) : go (result goerr remoteTarget) :=
  m ← ClientFromRemoteInfo (t_MetricsRemote tenant);
  match m with
  | Err e => Ret (Err (ErrWrap "creating metrics client configuration" e))
  | Ok m =>
      ev ← ClientFromRemoteInfo (t_EventsRemote tenant);
      Ret match ev with
          | Err e => Err (ErrWrap "creating events client configuration" e)
          | Ok ev => Ok {| rt_Events := ev; rt_Metrics := m |}
          end
  end.

(** [getClient]: the map of clients it leaves; a new client evicts the old one first,
    and a failure leaves the tenant without a client. *)
Definition clientsMap : Type := gmap Z remoteTarget.
Definition getClient (tenantId : Z) (newClient : bool) (getTenant : result goerr Tenant) (clients : clientsMap)
    : go (clientsMap * result goerr remoteTarget) :=
  let clients := if newClient then delete tenantId clients else clients in
  match (if newClient then None else clients !! tenantId) with
  | Some c => Ret (clients, Ok c)
  | None =>
      match getTenant with
      | Err e => Ret (clients, Err e)
      | Ok tenant =>
          c ← updateClient tenant;
          Ret match c with
              | Err e => (clients, Err e)
              | Ok c => (<[t_Id tenant := c]> clients, Ok c)
              end
      end
  end.

(** ** [publish] *)

Inductive dataKind := Logs | MetricsKind.
Inductive failReason := ClientFailed | RetryExhausted.
(** The counters it increments; a push also records which client was used. *)
Inductive effect :=
  | Pushed (k : dataKind) (c : Client) (bytes : Z)
  | Errored (k : dataKind) (c : Client) (status : Z)
  | Failed (k : dataKind) (why : failReason).

(** One attempt: the answer of the tenant provider, and what the two pushes return; the
    push of metrics panics on a series without samples ([PromClient.empty_series_panics]). *)
Record attempt := {
  at_tenant : result goerr Tenant; at_events : result goerr Z; at_metrics : go (result goerr Z) }.

(** A push of one kind: what is left to send, whether to [continue] with a new client,
    and the counters. *)
Definition pushKind (k : dataKind) (c : Client) (pending : bool) (res : go (result goerr Z))
    : go (bool * bool * list effect) :=
  if negb pending then Ret (false, false, [])
  else
    res ← res;
    Ret match res with
        | Ok n => (false, false, [Pushed k c n])
        | Err e =>
            let status := GetHttpStatusCode e in
            (true, bool_decide (status = Some 401), [Errored k c (default 0 status)])
        end.

Definition failedIf (pending : bool) (k : dataKind) (why : failReason) : list effect :=
  if pending then [Failed k why] else [].

Definition after (ev : list effect) (m : go (clientsMap * list effect)) : go (clientsMap * list effect) :=
  '(clients, ev') ← m; Ret (clients, ev ++ ev').

Fixpoint publish_loop (retry : nat) (tenantID : Z) (newClient streams metrics : bool)
    (clients : clientsMap) (ins : list attempt) : go (clientsMap * list effect) :=
  match retry, ins with
  | S retry, i :: ins =>
      '(clients, client) ← getClient tenantID newClient (at_tenant i) clients;
      match client with
      | Err _ => Ret (clients, failedIf streams Logs ClientFailed ++ failedIf metrics MetricsKind ClientFailed)
      | Ok client =>
          '(streams, again, ev) ← pushKind Logs (rt_Events client) streams (Ret (at_events i));
          if (again : bool) then after ev (publish_loop retry tenantID true streams metrics clients ins)
          else
            '(metrics, again, mv) ← pushKind MetricsKind (rt_Metrics client) metrics (at_metrics i);
            if (again : bool) then after (ev ++ mv) (publish_loop retry tenantID true streams metrics clients ins)
            else if negb streams && negb metrics then Ret (clients, ev ++ mv)
            else after (ev ++ mv) (publish_loop retry tenantID newClient streams metrics clients ins)
      end
  | _, _ =>
      Ret (clients, failedIf streams Logs RetryExhausted ++ failedIf metrics MetricsKind RetryExhausted)
  end.
(** [ins] has the two attempts. *)
Definition publish (tenantID : Z) (streams metrics : bool) (clients : clientsMap) (i1 i2 : attempt)
    : go (clientsMap * list effect) :=
  publish_loop 2 tenantID false streams metrics clients [i1; i2].
End clients.

(** ** What a call of [withBackoff] does *)

(** The waits between the ten attempts, in milliseconds. *)
Definition schedule : list Z := map (λ ms, ms * 1000000) [30; 60; 120; 240; 250; 250; 250; 250; 250].

Definition retriedRound (i : storeRound) : Prop :=
  sr_ctx i = None ∧ ∃ e, sr_store i = Some e ∧ recoverable e = true.
(** What an iteration that is not followed by another returns. *)
Definition lastRound (i : storeRound) (r : error goerr) : Prop :=
  match sr_ctx i, sr_store i with
  | Some e, _ => r = Some e
  | None, o => r = o
  end.

(** A loop with [n] attempts left: [k] of its rounds fail and are not the last one, or
    all [n] fail. *)
Definition backoffResult (n : nat) (err : error goerr) (ins : list storeRound)
    (res : option (error goerr * nat * list Z)) : Prop :=
  ∃ r k (m : nat) (sl : list Z), res = Some (r, m, sl) ∧ (k ≤ n)%nat ∧ m = (maxRetries - n + k)%nat ∧
    length sl = (if decide (k = n) then n - 1 else k)%nat ∧
    Forall retriedRound (take k ins) ∧
    (k = n → r = match last (take n ins) with Some i => sr_store i | None => err end) ∧
    ((k < n)%nat → ∃ i, ins !! k = Some i ∧ lastRound i r ∧ ¬ retriedRound i).

Lemma backoffResult_stop n err i ins r :
  lastRound i r → ¬ retriedRound i →
  backoffResult (S n) err (i :: ins) (Some (r, (maxRetries - S n)%nat, [])).
Proof.
  intros Hr Hnr. exists r, 0%nat, (maxRetries - S n)%nat, []. simpl.
  repeat split; try done; try lia. eauto.
Qed.

Lemma withBackoff_loop_spec n backoff err ins :
  (n ≤ maxRetries)%nat → (n ≤ length ins)%nat →
  backoffResult n err ins (withBackoff_loop n backoff err ins).
Proof.
  intros Hn. revert backoff err ins. induction n as [|n IH]; intros backoff err ins Hl.
  - exists err, 0%nat, (maxRetries - 0)%nat, []. simpl. repeat split; done || lia.
  - destruct ins as [|i ins]; simpl in Hl; [lia|]. cbn [withBackoff_loop].
    destruct (sr_ctx i) as [e|] eqn:Ec;
      [apply backoffResult_stop; [by unfold lastRound; rewrite Ec|intros [? _]; congruence]|].
    destruct (sr_store i) as [e|] eqn:Es;
      [|apply backoffResult_stop; [by unfold lastRound; rewrite Ec, Es|intros (_ & e' & He & Hr); congruence]].
    destruct (recoverable e) eqn:Er; simpl;
      [|apply backoffResult_stop; [by unfold lastRound; rewrite Ec, Es|intros (_ & e' & He & Hr); congruence]].
    assert (Hi : retriedRound i) by (split; eauto).
    destruct n as [|n].
    + exists (Some e), 1%nat, maxRetries, []. simpl. rewrite take_0.
      repeat split; try done; try lia. by constructor.
    + destruct (IH ltac:(lia) (clampBackoff (2 * backoff)) (Some e) ins ltac:(lia))
        as (r & k & m & sl & E & Hk & Hm & Hsl & Hf & Hlast & Hrest).
      simpl (0 <? S n)%nat. cbv iota. rewrite E.
      exists r, (S k), m, (backoff :: sl). split; [done|]. split; [lia|].
      split; [unfold maxRetries in *; lia|]. split; [simpl; repeat case_decide; lia|].
      split; [by constructor|]. split.
      * intros [= ->]. rewrite (Hlast eq_refl). destruct ins as [|j ins]; [simpl in Hl; lia|]. simpl.
        by destruct (last (j :: take n ins)) eqn:El; [|apply last_None in El].
      * intros Hlt. by apply Hrest; lia.
Qed.

Fixpoint waits (n : nat) (backoff : Z) : list Z :=
  match n with O => [] | S n => backoff :: waits n (clampBackoff (2 * backoff)) end.
Lemma withBackoff_loop_waits n backoff err ins r m sl :
  withBackoff_loop n backoff err ins = Some (r, m, sl) → sl `prefix_of` waits (n - 1) backoff.
Proof.
  revert backoff err ins r m sl. induction n as [|n IH]; intros backoff err ins r m sl; simpl.
  { intros [= <- <- <-]. done. }
  destruct ins as [|i ins]; [done|]. rewrite Nat.sub_0_r.
  destruct (sr_ctx i), (sr_store i) as [e|]; intros E; simplify_eq; try apply prefix_nil.
  destruct (recoverable e); simpl in E; simplify_eq; [|apply prefix_nil].
  destruct n as [|n]; [by apply IH in E|]. simpl (0 <? S n)%nat in E. cbv iota in E.
  apply bind_Some in E as ([[r' m'] sl'] & E & [= <- <- <-]). apply IH in E. simpl in E.
  rewrite Nat.sub_0_r in E. by apply prefix_cons.
Qed.
Definition sumZ (l : list Z) : Z := foldr Z.add 0 l.
Lemma sumZ_prefix l l' : Forall (λ z, 0 ≤ z) l' → l `prefix_of` l' → sumZ l ≤ sumZ l'.
Proof.
  intros Hp [k ->]. induction l as [|z l IH]; simpl in *.
  - induction Hp; simpl; lia.
  - apply Forall_cons in Hp as [_ Hp]. specialize (IH Hp). unfold sumZ in *. simpl. lia.
Qed.

(** Sending with back-off.  A send makes at most ten attempts, with the waits 30,
    60, 120, 240 and then 250 milliseconds between them, 1.7 seconds at most in all; it
    goes on exactly while attempts fail with a recoverable error and the context is not
    done; it returns the last attempt's result, or the error of the context; the number
    of retries it reports is the number of failed attempts that were recoverable. *)
Theorem send_with_backoff ins :
  (10 ≤ length ins)%nat →
  ∃ r k sl, withBackoff ins = Some (r, k, sl) ∧ (k ≤ 10)%nat ∧ sl `prefix_of` schedule ∧ sumZ sl ≤ 1700 * 1000000 ∧
    length sl = Nat.min k 9 ∧ Forall retriedRound (take k ins) ∧
    match (if decide (k = 10) then ins !! 9 else ins !! k)%nat with
    | Some i => lastRound i r ∧ (k ≠ 10%nat → ¬ retriedRound i)
    | None => False
    end.
Proof.
  intros Hl. destruct (withBackoff_loop_spec 10 minBackoff None ins) as (r & k & m & sl & E & Hk & Hm & Hsl & Hf & H10 & Hlt);
    [done|done|].
  assert (Hp := withBackoff_loop_waits _ _ _ _ _ _ _ E). change (waits (10 - 1) minBackoff) with schedule in Hp.
  assert (m = k) as -> by (unfold maxRetries in Hm; lia).
  exists r, k, sl. split; [done|]. split; [done|]. split; [done|].
  split; [by apply (sumZ_prefix _ schedule); [repeat constructor|]|].
  split; [case_decide; lia|]. split; [done|]. case_decide as Hd.
  - subst k. specialize (H10 eq_refl). rewrite last_lookup, length_take_le in H10 by lia. simpl in H10.
    rewrite lookup_take_lt in H10 by lia. destruct (ins !! 9%nat) as [i|] eqn:Ei.
    + split; [|done]. unfold lastRound. assert (Hi : take 10 ins !! 9%nat = Some i) by (rewrite lookup_take_lt by lia; done).
      eapply Forall_lookup_1 in Hf; [|exact Hi]. destruct Hf as [-> _]. done.
    + apply lookup_ge_None in Ei. lia.
  - destruct Hlt as (i & -> & Hr & Hn); [lia|]. done.
Qed.

Lemma send_with_backoff_witness :
  ∃ r k sl, withBackoff (repeat {| sr_ctx := None; sr_store := Some (recoverableError (ErrText "reset")) |} 3 ++
    repeat {| sr_ctx := None; sr_store := None |} 7) = Some (r, k, sl) ∧ sumZ sl ≤ 1700 * 1000000.
Proof.
  destruct (send_with_backoff (repeat {| sr_ctx := None; sr_store := Some (recoverableError (ErrText "reset")) |} 3 ++
    repeat {| sr_ctx := None; sr_store := None |} 7) ltac:(simpl; lia)) as (r & k & sl & E & _ & _ & Hs & _).
  exists r, k, sl. split; [exact E|exact Hs].
Defined.

(** ** What [publish] accounts for *)

Section publish.
Context {url : Type} (urlParse : string → option url).

Definition ofKind (k k' : dataKind) : bool :=
  match k, k' with Logs, Logs | MetricsKind, MetricsKind => true | _, _ => false end.
Definition settled (k : dataKind) (e : @effect url) : bool :=
  match e with Pushed k' _ _ | Failed k' _ => ofKind k k' | Errored _ _ _ => false end.
Definition settlements (k : dataKind) (l : list (@effect url)) : nat := length (List.filter (settled k) l).

Lemma settlements_app k l l' : settlements k (l ++ l') = (settlements k l + settlements k l')%nat.
Proof. unfold settlements. by rewrite List.filter_app, length_app. Qed.

Lemma pushKind_settles k k' c pending res pending' again l :
  pushKind k' c pending res = Ret (pending', again, l) →
  settlements k l = (if ofKind k k' then Nat.b2n pending - Nat.b2n pending' else 0)%nat ∧
  (pending' = true → pending = true) ∧ (again = true → pending' = true).
Proof.
  unfold pushKind. destruct pending, res as [[n|e]|w]; simpl; try done; intros [= <- <- <-]; destruct k, k'; simpl; done.
Qed.
Lemma failedIf_settles k p k' why : settlements k (failedIf p k' why) = (if ofKind k k' then Nat.b2n p else 0)%nat.
Proof. destruct p, k, k'; done. Qed.

Lemma publish_loop_settles k retry id nc s m clients ins clients' l :
  publish_loop urlParse retry id nc s m clients ins = Ret (clients', l) →
  settlements k l = Nat.b2n (if ofKind k Logs then s else m).
Proof.
  revert nc s m clients ins clients' l. induction retry as [|retry IH]; intros nc s m clients ins clients' l.
  { simpl. intros [= <- <-]. rewrite settlements_app, !failedIf_settles. destruct k; simpl; lia. }
  destruct ins as [|i ins]; simpl.
  { intros [= <- <-]. rewrite settlements_app, !failedIf_settles. destruct k; simpl; lia. }
  destruct (getClient urlParse id nc (at_tenant i) clients) as [[cl [c|e]]|w]; simpl; [|..|done].
  2: { intros [= <- <-]. rewrite settlements_app, !failedIf_settles. destruct k; simpl; lia. }
  destruct (pushKind Logs _ s _) as [[[s' again] ev]|w] eqn:Es; simpl; [|done].
  apply (pushKind_settles k) in Es as (Hs & Hs1 & Hs2).
  assert (Hrec : ∀ nc m0 pre, after pre (publish_loop urlParse retry id nc s' m0 cl ins) = Ret (clients', l) →
    settlements k l = (settlements k pre + Nat.b2n (if ofKind k Logs then s' else m0))%nat).
  { intros nc0 m0 pre. unfold after. destruct (publish_loop _ _ _ _ _ _ _ _) as [[c2 ev']|] eqn:E; simpl; [|done].
    intros [= <- <-]. rewrite settlements_app. by rewrite (IH _ _ _ _ _ _ _ E). }
  destruct again.
  { intros ->%Hrec. rewrite Hs. destruct k, s, s'; simpl; try done; by specialize (Hs1 eq_refl). }
  destruct (pushKind MetricsKind _ m _) as [[[m' again'] mv]|w] eqn:Em; simpl; [|done].
  apply (pushKind_settles k) in Em as (Hm & Hm1 & Hm2).
  assert (Hboth : (settlements k (ev ++ mv) + Nat.b2n (if ofKind k Logs then s' else m') =
    Nat.b2n (if ofKind k Logs then s else m))%nat).
  { rewrite settlements_app, Hs, Hm. destruct k, s, s', m, m'; simpl; try done;
      first [by specialize (Hs1 eq_refl)|by specialize (Hm1 eq_refl)]. }
  destruct again'; [by intros ->%Hrec|].
  destruct (negb s' && negb m') eqn:En; [|by intros ->%Hrec]. intros [= <- <-].
  apply andb_true_iff in En as [->%negb_true_iff ->%negb_true_iff]. destruct k; simpl in Hboth |- *; lia.
Qed.

(** A tenant comes with its two remotes; otherwise building a client panics. *)
Definition hasRemotes (i : attempt) : Prop :=
  ∀ t, at_tenant i = Ok t → is_Some (t_MetricsRemote t) ∧ is_Some (t_EventsRemote t).

Lemma getClient_returns id nc i clients :
  hasRemotes i → ∃ cl r, getClient urlParse id nc (at_tenant i) clients = Ret (cl, r).
Proof.
  intros Hi. unfold getClient. destruct (if nc then None else _); [by eexists _, _|].
  destruct (at_tenant i) as [t|e] eqn:Et; [|by eexists _, _].
  destruct (Hi t Et) as [[rm Hm] [re He]]. unfold updateClient, ClientFromRemoteInfo. rewrite Hm, He.
  simpl. destruct (urlParse _); simpl; [|by eexists _, _]. destruct (urlParse _); simpl; by eexists _, _.
Qed.

(** The series to push have samples. *)
Definition hasSamples (i : attempt) : Prop := ∃ r, at_metrics i = Ret r.
Lemma pushKind_returns k c p r : ∃ p' again l, @pushKind url k c p (Ret r) = Ret (p', again, l).
Proof. unfold pushKind. destruct p, r; simpl; by eexists _, _, _. Qed.

Lemma publish_loop_returns retry id nc s m clients ins :
  Forall (λ i, hasRemotes i ∧ hasSamples i) ins → ∃ cl l, publish_loop urlParse retry id nc s m clients ins = Ret (cl, l).
Proof.
  intros H. revert retry nc s m clients. induction H as [|i ins [Hi [r Hr]] _ IH]; intros [|retry] nc s m clients; simpl;
    try by eexists _, _.
  destruct (getClient_returns id nc i clients Hi) as (cl & [c|e] & ->); simpl; [|by eexists _, _]. rewrite Hr.
  destruct (pushKind_returns Logs (rt_Events c) s (at_events i)) as (s' & a & ev & ->),
    (pushKind_returns MetricsKind (rt_Metrics c) m r) as (m' & a' & mv & ->). simpl.
  assert (Ha : ∀ nc m0 pre, ∃ cl' l, after pre (publish_loop urlParse retry id nc s' m0 cl ins) = Ret (cl', l)).
  { intros nc0 m0 pre. destruct (IH retry nc0 s' m0 cl) as (? & ? & ->). by eexists _, _. }
  destruct a; [apply Ha|]. destruct a'; [apply Ha|]. destruct (negb s' && negb m'); [by eexists _, _|apply Ha].
Qed.

(** C20: a payload is settled once.  Whatever the tenant provider and the servers answer
    in its two attempts, [publish] returns, and of the logs and of the metrics of the
    payload, each that is not empty is counted exactly once, as pushed or as failed;
    what is empty is not counted; provided the tenant has both its remotes and the series
    have samples (otherwise it panics). *)
Theorem payload_settled_once id streams metrics clients i1 i2 :
  hasRemotes i1 ∧ hasSamples i1 → hasRemotes i2 ∧ hasSamples i2 →
  ∃ clients' l, publish urlParse id streams metrics clients i1 i2 = Ret (clients', l) ∧
    settlements Logs l = Nat.b2n streams ∧ settlements MetricsKind l = Nat.b2n metrics.
Proof.
  intros H1 H2. destruct (publish_loop_returns 2 id false streams metrics clients [i1; i2]) as (cl & l & E).
  { apply Forall_cons; split; [done|]. by apply Forall_singleton. }
  exists cl, l. split; [done|]. split; [by apply (publish_loop_settles Logs) in E|by apply (publish_loop_settles MetricsKind) in E].
Qed.

(** After an answer 401 the client is evicted, and everything that is left goes through
    a client made from what the tenant provider answers then. *)
Definition usesClient (c : remoteTarget) (e : @effect url) : Prop :=
  match e with
  | Pushed Logs c' _ | Errored Logs c' _ => c' = rt_Events c
  | Pushed MetricsKind c' _ | Errored MetricsKind c' _ => c' = rt_Metrics c
  | Failed _ _ => True
  end.
Lemma unauthorized_gets_new_client id metrics clients i1 i2 c e t c2 :
  clients !! id = Some c → at_events i1 = Err e → GetHttpStatusCode e = Some 401 →
  at_tenant i2 = Ok t → hasSamples i2 → updateClient urlParse t = Ret (Ok c2) →
  ∃ l, publish urlParse id true metrics clients i1 i2 =
         Ret (<[t_Id t := c2]> (delete id clients), Errored Logs (rt_Events c) 401 :: l) ∧ Forall (usesClient c2) l.
Proof.
  intros Hc He Hs Ht [r2 Hr2] Hu.
  assert (G1 : getClient urlParse id false (at_tenant i1) clients = Ret (clients, Ok c)).
  { unfold getClient. simpl. by rewrite Hc. }
  assert (G2 : getClient urlParse id true (at_tenant i2) clients =
               Ret (<[t_Id t := c2]> (delete id clients), Ok c2)).
  { unfold getClient. simpl. by rewrite Ht, Hu. }
  assert (P1 : pushKind Logs (rt_Events c) true (Ret (at_events i1)) = Ret (true, true, [Errored Logs (rt_Events c) 401])).
  { unfold pushKind. simpl. by rewrite He, Hs. }
  unfold publish. cbn [publish_loop]. rewrite G1. cbn [mbind go_bind]. rewrite P1. cbn [mbind go_bind]. cbv beta iota.
  clear P1. rewrite G2, Hr2. cbn [mbind go_bind].
  assert (Hpk : ∀ k p res p' a l, pushKind k (match k with Logs => rt_Events c2 | MetricsKind => rt_Metrics c2 end) p (Ret res) = Ret (p', a, l) →
    Forall (usesClient c2) l).
  { intros k p res p' a l. unfold pushKind. destruct p, res; simpl; intros [= <- <- <-]; repeat constructor; by destruct k. }
  assert (Hf : ∀ p k why, Forall (usesClient c2) (failedIf p k why)) by (intros [] ? ?; repeat constructor).
  destruct (pushKind_returns Logs (rt_Events c2) true (at_events i2)) as (s' & a & ev & E1).
  destruct (pushKind_returns MetricsKind (rt_Metrics c2) metrics r2) as (m' & a' & mv & E2).
  rewrite E1. cbn [mbind go_bind]. rewrite E2. apply (Hpk Logs) in E1. apply (Hpk MetricsKind) in E2. unfold after. simpl.
  destruct a; simpl; [eexists; split; [done|]; by repeat apply Forall_app_2|].
  destruct a'; simpl; [eexists; split; [done|]; by repeat apply Forall_app_2|].
  destruct (negb s' && negb m'); simpl; eexists; (split; [done|]); by repeat apply Forall_app_2.
Qed.
End publish.

Definition sampleTenant : Tenant :=
  {| t_Id := 7; t_OrgId := 1;
     t_MetricsRemote := Some {| r_Name := "m"; r_Url := "https://m"; r_Username := "u"; r_Password := "p" |};
     t_EventsRemote := Some {| r_Name := "e"; r_Url := "https://e"; r_Username := ""; r_Password := "" |};
     t_StackId := 0; t_Status := 0; t_Reason := ""; t_Limits := None; t_CostAttributionLabels := [];
     t_LabelMode := 0; t_Created := SpecFloat.S754_zero false; t_Modified := SpecFloat.S754_zero false;
     t_SecretStore := None |}.
Lemma payload_settled_once_witness :
  ∃ clients' l, publish Some 7 true true ∅
    {| at_tenant := Ok sampleTenant; at_events := Err (HttpError 401 "401" (ErrText "no")); at_metrics := Ret (Ok 10) |}
    {| at_tenant := Ok sampleTenant; at_events := Ok 5; at_metrics := Ret (Err (ErrText "reset")) |} = Ret (clients', l) ∧
    settlements Logs l = 1%nat ∧ settlements MetricsKind l = 1%nat.
Proof.
  apply (payload_settled_once Some 7 true true ∅); (split; [intros t [= <-]; simpl; eauto|by eexists]).
Defined.

(** ** TLS configuration and its reloading *)

Record TLSConfig := {
  CAFile : string; CertFile : string; KeyFile : string; ServerName : string; InsecureSkipVerify : bool }.
(** [RootCAs] is the content of the CA file it was read from. *)
Record tlsConf := {
  tc_RootCAs : option (list ascii); tc_ServerName : string; tc_Insecure : bool; tc_ClientCert : bool }.

Section tls.
(** The files as they are read, whether a text has a certificate, and whether a pair of
    files is a certificate and its key. *)
Variable validPEM : list ascii → bool.
Variable validPair : string → string → bool.

Definition updateRootCA (b : list ascii) (c : tlsConf) : option tlsConf :=
  if validPEM b then Some {| tc_RootCAs := Some b; tc_ServerName := tc_ServerName c; tc_Insecure := tc_Insecure c;
                             tc_ClientCert := tc_ClientCert c |}
  else None.

Definition isSet (s : string) : bool := negb (String.eqb s "").
Definition NewTLSConfig (readFile : string → option (list ascii)) (cfg : TLSConfig) : option tlsConf :=
  let c := {| tc_RootCAs := None; tc_ServerName := ""; tc_Insecure := InsecureSkipVerify cfg; tc_ClientCert := false |} in
  c ← (if isSet (CAFile cfg) then b ← readFile (CAFile cfg); updateRootCA b c else Some c);
  let c := {| tc_RootCAs := tc_RootCAs c; tc_ServerName := ServerName cfg; tc_Insecure := tc_Insecure c;
              tc_ClientCert := false |} in
  match isSet (CertFile cfg), isSet (KeyFile cfg) with
  | true, false | false, true => None
  | true, true =>
      if validPair (CertFile cfg) (KeyFile cfg) then
        Some {| tc_RootCAs := tc_RootCAs c; tc_ServerName := tc_ServerName c; tc_Insecure := tc_Insecure c;
                tc_ClientCert := true |}
      else None
  | false, false => Some c
  end.

(** [tlsRoundTripper]: the configuration of its round tripper, and the hash of the CA
    file (here the content, since the hash is only compared). *)
Record tlsRoundTripper := { rt_conf : tlsConf; rt_hash : list ascii; rt_base : tlsConf }.

(** The two reads of the file, [b1] by [NewTLSConfig] and [b2] after it. *)
Definition newTLSRoundTripper (cfg : tlsConf) (b2 : option (list ascii)) : option tlsRoundTripper :=
  h ← b2; Some {| rt_conf := cfg; rt_hash := h; rt_base := cfg |}.

(** [RoundTrip]: the configuration the request is sent with. *)
Definition RoundTrip (file : option (list ascii)) (t : tlsRoundTripper) : tlsRoundTripper * option tlsConf :=
  match file with
  | None => (t, None)
  | Some b =>
      if bool_decide (b = rt_hash t) then (t, Some (rt_conf t))
      else
        match updateRootCA b (rt_base t) with
        | None => (t, None)
        | Some c => ({| rt_conf := c; rt_hash := b; rt_base := rt_base t |}, Some c)
        end
  end.

Fixpoint RoundTrips (files : list (option (list ascii))) (t : tlsRoundTripper) : tlsRoundTripper * list (option tlsConf) :=
  match files with
  | [] => (t, [])
  | f :: files => let '(t, c) := RoundTrip f t in let '(t, cs) := RoundTrips files t in (t, c :: cs)
  end.

(** Requests are sent with the authorities of the file at that time. *)
Definition inSync (t : tlsRoundTripper) : Prop := tc_RootCAs (rt_conf t) = Some (rt_hash t).

(** A changed CA file is taken up.  Over any sequence of requests, in which the
    file may change at any point, a request that is sent uses exactly the certificates
    the file has when it is sent; with a file that cannot be read or has no certificate
    the request fails, and a later one with a good file is sent.  It needs the two reads
    of the construction to see the same file. *)
Theorem ca_file_followed files t :
  inSync t →
  let '(t', cs) := RoundTrips files t in
  inSync t' ∧ Forall2 (λ f c, match c with Some c => ∃ b, f = Some b ∧ tc_RootCAs c = Some b
                              | None => ∀ b, f = Some b → validPEM b = false end) files cs.
Proof.
  revert t. induction files as [|f files IH]; intros t Ht; simpl; [by split|].
  destruct (RoundTrip f t) as [t1 c] eqn:E. unfold RoundTrip in E.
  assert (Hc : inSync t1 ∧ match c with Some c => ∃ b, f = Some b ∧ tc_RootCAs c = Some b
                | None => ∀ b, f = Some b → validPEM b = false end).
  { destruct f as [b|]; [|simplify_eq; done]. case_bool_decide as Hb; [simplify_eq; split; eauto|].
    unfold updateRootCA in E. destruct (validPEM b) eqn:Ev; simplify_eq/=; split; try done; eauto.
    intros b' [= <-]. done. }
  destruct Hc as [Ht1 Hc]. specialize (IH t1 Ht1). destruct (RoundTrips files t1) as [t' cs].
  destruct IH as [? ?]. split; [done|]. by constructor.
Qed.

(** When the file changes between the two reads, the first content stays in use. *)
Lemma ca_file_race cfg b1 b2 :
  tc_RootCAs cfg = Some b1 →
  ∃ t, newTLSRoundTripper cfg (Some b2) = Some t ∧ (RoundTrip (Some b2) t).2 = Some cfg.
Proof.
  intros H. eexists. split; [done|]. unfold RoundTrip. simpl. by rewrite bool_decide_eq_true_2.
Qed.
End tls.

Definition sampleConf : tlsConf :=
  {| tc_RootCAs := Some ["a"%char]; tc_ServerName := ""; tc_Insecure := false; tc_ClientCert := false |}.
Definition sampleRT : tlsRoundTripper := {| rt_conf := sampleConf; rt_hash := ["a"%char]; rt_base := sampleConf |}.
Lemma ca_file_followed_witness :
  inSync (RoundTrips (λ b, negb (bool_decide (b = [])))
    [Some ["a"%char]; Some ["b"%char]; Some []; None; Some ["a"%char]] sampleRT).1.
Proof.
  assert (H := ca_file_followed (λ b, negb (bool_decide (b = [])))
    [Some ["a"%char]; Some ["b"%char]; Some []; None; Some ["a"%char]] sampleRT eq_refl).
  destruct (RoundTrips _ _ sampleRT) as [t cs]. exact (proj1 H).
Defined.

(** ** The registry of publishers *)

Section registry.
Context {T : Type}.

Inductive registryErr :=
  | AlreadyRegisteredError (name : string)
  | NotFoundError (Requested : string) (Accepted : list string).

Definition registry : Type := gmap string T.
Definition Register (name : string) (handler : T) (r : registry) : registry * error registryErr :=
  match r !! name with
  | Some _ => (r, Some (AlreadyRegisteredError name))
  | None => (<[name := handler]> r, None)
  end.
Definition MustRegister (name : string) (handler : T) (r : registry) : go registry :=
  match Register name handler r with
  | (r, None) => Ret r
  | (_, Some _) => Panic "already registered"
  end.
(** [sortStrings] is [sort.Strings]. *)
Definition Lookup (sortStrings : list string → list string) (name : string) (r : registry) : result registryErr T :=
  match r !! name with
  | Some h => Ok h
  | None => Err (NotFoundError name (sortStrings (map fst (map_to_list r))))
  end.

(** The first registration of a name stays; a failed one changes nothing. *)
Lemma lookup_registered sortStrings name h r :
  match Register name h r with
  | (r', None) => Lookup sortStrings name r' = Ok h ∧
                  ∀ n, n ≠ name → r' !! n = r !! n
  | (r', Some e) => r' = r ∧ e = AlreadyRegisteredError name ∧ is_Some (r !! name)
  end.
Proof.
  unfold Register, Lookup. unfold registry in *. destruct (r !! name) eqn:E; [eauto|]. split.
  - by simplify_map_eq.
  - intros n Hn. by simplify_map_eq.
Qed.
End registry.
