(* ===== verification/PromClient.v ===== *)
(** * The remote-write client

    [internal/pkg/prom/prom.go] and [internal/pkg/loki/loki.go]: how a client is made of
    its configuration, the requests it sends, and the sending of samples and streams with
    back-off, up to the pushes of [pusher/v1/pusher.go].

    The files, the answers of the network, the order of maps, the protobuf codec and
    snappy are inputs.  [client.Do] is that of [net/http] for a client without a
    [CheckRedirect]: it adds the credentials of the URL, and follows redirects, so that one
    call may send several requests. *)
From S2P Require Import Prelude Strs Net Header PushErrors Tenants PushV1.

Open Scope Z_scope.

(** The basic authentication round tripper keeps an authorization that is there. *)
Definition basicAuthRoundTrip (username password : string) (h : Header) : Header :=
  if negb (String.eqb (Header_Get "Authorization" h) "") then h
  else Header_Set "Authorization" (basicAuth username (TrimSpace password)) h.

Section client.
Context {url : Type} (urlParse : string → option url).
(** The credentials in a URL. *)
Variable urlUser : url → option (string * string).
Variable validPEM : list ascii → bool.
Variable validPair : string → string → bool.
(** [URL.Parse] of a [Location], and the headers that [net/http] keeps of the first request
    for one that a redirect asks for: given the URLs requested so far, the new one, and
    whether the body was dropped. *)
Variable resolve : url → string → option url.
Variable redirectHeader : Header → list url → url → bool → Header.

(** ** Making a client *)

(** [ClientConfig]: what [PushV1] knows of it, and the rest. *)
Record ClientConf := { cf_ClientConfig : @ClientConfig url; cf_UserAgent : string; cf_TLSConfig : TLSConfig }.

Definition noTLS : TLSConfig :=
  {| CAFile := ""; CertFile := ""; KeyFile := ""; ServerName := ""; InsecureSkipVerify := false |}.

(** [pusher.ClientFromRemoteInfo]. *)
Definition confFromRemoteInfo (userAgent : string) (remote : option RemoteInfo) : go (result goerr ClientConf) :=
  c ← ClientFromRemoteInfo urlParse remote;
  Ret (c ← c; Ok {| cf_ClientConfig := c; cf_UserAgent := userAgent; cf_TLSConfig := noTLS |}).

(** A transport whose configuration is fixed, or follows the CA file; [newRT] wraps it
    to add the credentials. *)
Inductive transport := Fixed (c : tlsConf) | Reloading (t : tlsRoundTripper).
Record roundTripper := { tr_transport : transport; tr_BasicAuth : option BasicAuth }.

(** The CA file is read by [NewTLSConfig], and again by [newTLSRoundTripper]. *)
Definition newRoundTripperFromConfig (read1 read2 : string → option (list ascii)) (auth : option BasicAuth)
    (cfg : TLSConfig) : option roundTripper :=
  tlsConfig ← NewTLSConfig validPEM validPair read1 cfg;
  if negb (isSet (CAFile cfg)) then Some {| tr_transport := Fixed tlsConfig; tr_BasicAuth := auth |}
  else
    t ← newTLSRoundTripper tlsConfig (read2 (CAFile cfg));
    Some {| tr_transport := Reloading t; tr_BasicAuth := auth |}.

Record HttpClient := {
  c_remoteName : string; c_url : url; c_client : roundTripper; c_timeout : Z; c_headers : gmap string string }.

Definition NewClient (read1 read2 : string → option (list ascii)) (remoteName : string) (conf : ClientConf)
    : option HttpClient :=
  let cc := cf_ClientConfig conf in
  rt ← newRoundTripperFromConfig read1 read2 (cc_BasicAuth cc) (cf_TLSConfig conf);
  Some {| c_remoteName := remoteName; c_url := cc_URL cc; c_client := rt; c_timeout := cc_Timeout cc;
          c_headers := cc_Headers cc ∪ {["User-Agent"%string := cf_UserAgent conf]} |}.

(** ** A request *)

Record Request := {
  rq_Method : string; rq_URL : url; rq_Header : Header; rq_Body : list ascii; rq_timeout : Z; rq_tls : tlsConf }.

(** What a request meets: the CA file as it is then, and the answer, with its [Location]. *)
Notation answer := (result goerr (Z * string * string)).
Record hop := { h_file : option (list ascii); h_answer : answer; h_Location : string }.
(** What an attempt meets: the error of the context, the order in which the headers of
    the client are visited, whether the URL fails to parse again, and what its requests
    meet. *)
Record sendInput := {
  si_ctx : error goerr; si_order : list (string * string); si_newRequest : error goerr; si_hop : nat → hop }.

Definition setHeaders (order : list (string * string)) : Header :=
  fold_left (λ h kv, Header_Set kv.1 kv.2 h) order
    (Header_Set "Content-Type" "application/x-protobuf" (Header_Add "Content-Encoding" "snappy" ∅)).

(** [client.Do] adds the credentials of the URL when there is no authorization. *)
Definition urlAuth (u : url) (h : Header) : Header :=
  match urlUser u with
  | Some (username, password) =>
      if String.eqb (Header_Get "Authorization" h) "" then Header_Set "Authorization" (basicAuth username password) h else h
  | None => h
  end.

Definition transportConf (file : option (list ascii)) (t : transport) : transport * option tlsConf :=
  match t with
  | Fixed c => (t, Some c)
  | Reloading r => let '(r, c) := RoundTrip validPEM file r in (Reloading r, c)
  end.

Definition withAuth (auth : option BasicAuth) (h : Header) : Header :=
  match auth with Some a => basicAuthRoundTrip (ba_Username a) (ba_Password a) h | None => h end.

(** *** [client.Do] *)

Definition redirectCodes : list Z := [301; 302; 303; 307; 308].
Definition keepsBody (code : Z) : bool := (code =? 307) || (code =? 308).
Definition redirectMethod (method : string) (code : Z) : string :=
  if keepsBody code then method
  else if String.eqb method "GET" || String.eqb method "HEAD" then method else "GET"%string.
Definition maxRedirects : nat := 10.

(** A redirect that is followed: a response without a [Location] is the result. *)
Definition followed (h : hop) : option Z :=
  match h_answer h with
  | Ok (code, _, _) => if bool_decide (code ∈ redirectCodes) && negb (String.eqb (h_Location h) "") then Some code else None
  | Err _ => None
  end.

(** The requests from one on, with those before it ([via]), and the answer to the last; an
    error has no URL in its text here. *)
Fixpoint Do_loop (more : nat) (auth : option BasicAuth) (timeout : Z) (first : Header) (body : list ascii) (hops : nat → hop)
    (t : transport) (via : list url) (method : string) (u : url) (header : Header) (includeBody : bool)
    : transport * list Request * answer :=
  match more with
  | O => (t, [], Err (ErrText "stopped after 10 redirects"))
  | S more =>
      let h := hops (length via) in
      let '(t, conf) := transportConf (h_file h) t in
      match conf with
      | None => (t, [], Err (ErrText "CA file"))
      | Some conf =>
          let rq := {| rq_Method := method; rq_URL := u; rq_Header := withAuth auth (urlAuth u header);
                       rq_Body := if includeBody then body else []; rq_timeout := timeout; rq_tls := conf |} in
          match followed h with
          | None => (t, [rq], h_answer h)
          | Some code =>
              match resolve u (h_Location h) with
              | None => (t, [rq], Err (ErrText "failed to parse Location header"))
              | Some u' =>
                  let includeBody := includeBody && keepsBody code in
                  let '(t, rqs, r) :=
                    Do_loop more auth timeout first body hops t (via ++ [u]) (redirectMethod method code) u'
                      (redirectHeader first (via ++ [u]) u' (negb includeBody)) includeBody in
                  (t, rq :: rqs, r)
              end
          end
      end
  end.

(** [StoreBytes] and [StoreStream]: the requests that are sent. *)
Definition storeErr (r : answer) : error goerr :=
  StoreStream match r with Err e => DoFails e | Ok (code, status, line) => Response code status line end.
Definition StoreBytes (c : HttpClient) (body : list ascii) (i : sendInput)
    : HttpClient * list Request * error goerr :=
  match si_newRequest i with
  | Some e => (c, [], StoreStream (NewRequestFails e))
  | None =>
      let h := setHeaders (si_order i) in
      let '(t, rqs, r) :=
        Do_loop maxRedirects (tr_BasicAuth (c_client c)) (c_timeout c) h body (si_hop i) (tr_transport (c_client c)) []
          "POST" (c_url c) h true in
      ({| c_remoteName := c_remoteName c; c_url := c_url c;
          c_client := {| tr_transport := t; tr_BasicAuth := tr_BasicAuth (c_client c) |};
          c_timeout := c_timeout c; c_headers := c_headers c |}, rqs, storeErr r)
  end.

(** ** Sending *)

(** [SendBytesWithBackoff]: the loop of [withBackoff] around [StoreBytes], with the
    requests of every attempt in order; [None] when it needs more attempts than are
    given. *)
Fixpoint SendBytes_loop (body : list ascii) (retries : nat) (backoff : Z) (err : error goerr) (c : HttpClient)
    (ins : list sendInput) : option (HttpClient * list (list Request) * (error goerr * nat * list Z)) :=
  let done c rqs e := Some (c, rqs, (e, (maxRetries - retries)%nat, [])) in
  match retries with
  | O => done c [] err
  | S retries' =>
      match ins with
      | [] => None
      | i :: ins =>
          match si_ctx i with
          | Some e => done c [] (Some e)
          | None =>
              let '(c, rqs, err) := StoreBytes c body i in
              match err with
              | None => done c [rqs] None
              | Some e =>
                  if negb (recoverable e) then done c [rqs] (Some e)
                  else
                    '(c, rqs', (r, n, sl)) ←
                      SendBytes_loop body retries' (if (0 <? retries')%nat then clampBackoff (2 * backoff) else backoff)
                        (Some e) c ins;
                    Some (c, rqs :: rqs', (r, n, if (0 <? retries')%nat then backoff :: sl else sl))
              end
          end
      end
  end.
Definition SendBytesWithBackoff (body : list ascii) (c : HttpClient) (ins : list sendInput) :=
  SendBytes_loop body maxRetries minBackoff None c ins.

(** *** Samples and streams *)

Context {series stream : Type}.
Variable timestamps : series → list Z.
Variable marshalWriteRequest : list series → result goerr (list ascii).
Variable marshalPushRequest : list stream → result goerr (list ascii).
Variable snappyEncode : list ascii → list ascii.

(** The first sample of every series, which there must be. *)
Fixpoint highestTimestamp (highest : Z) (samples : list series) : go Z :=
  match samples with
  | [] => Ret highest
  | ts :: samples =>
      match timestamps ts with
      | [] => Panic "index out of range [0] with length 0"
      | t :: _ => highestTimestamp (if highest <? t then t else highest) samples
      end
  end.

(** The buffer is only used for its capacity. *)
Definition buildTimeSeriesWriteRequest (samples : list series) : go (option (list ascii) * Z * error goerr) :=
  highest ← highestTimestamp 0 samples;
  Ret match marshalWriteRequest samples with
      | Err e => (None, highest, Some e)
      | Ok data => (Some (snappyEncode data), highest, None)
      end.
Definition buildStreamsPushRequest (streams : list stream) : option (list ascii) * error goerr :=
  match marshalPushRequest streams with
  | Err e => (None, Some e)
  | Ok data => (Some (snappyEncode data), None)
  end.

Notation sent := (option (HttpClient * list (list Request) * (error goerr * nat * list Z))).

(** What is left in [*buf], and the sending, which a failed encoding skips. *)
Definition SendSamplesWithBackoff (samples : list series) (c : HttpClient) (ins : list sendInput)
    : go (option (list ascii) * sent) :=
  '(req, _, err) ← buildTimeSeriesWriteRequest samples;
  Ret (req, match err with
            | Some e => Some (c, [], (Some e, 0%nat, []))
            | None => SendBytesWithBackoff (default [] req) c ins
            end).
Definition SendStreamsWithBackoff (streams : list stream) (c : HttpClient) (ins : list sendInput)
    : option (list ascii) * sent :=
  let '(req, err) := buildStreamsPushRequest streams in
  (req, match err with
        | Some e => Some (c, [], (Some e, 0%nat, []))
        | None => SendBytesWithBackoff (default [] req) c ins
        end).

(** [pushMetrics] and [pushEvents]: the length of the buffer, or the error. *)
Definition pushResult (what : string) (buf : option (list ascii)) (s : sent) : option (HttpClient * list (list Request) * result goerr Z) :=
  '(c, rqs, (err, _, _)) ← s;
  Some (c, rqs, match err with Some e => Err (ErrWrap what e) | None => Ok (llen (default [] buf)) end).
Definition pushMetrics (samples : list series) (c : HttpClient) (ins : list sendInput) :=
  '(buf, s) ← SendSamplesWithBackoff samples c ins; Ret (pushResult "sending timeseries" buf s).
Definition pushEvents (streams : list stream) (c : HttpClient) (ins : list sendInput) :=
  let '(buf, s) := SendStreamsWithBackoff streams c ins in pushResult "sending events" buf s.

(** ** The attempts of a send *)

(** The rounds that [withBackoff] sees. *)
Fixpoint rounds (body : list ascii) (c : HttpClient) (ins : list sendInput) : list storeRound :=
  match ins with
  | [] => []
  | i :: ins =>
      let '(c, _, err) := StoreBytes c body i in {| sr_ctx := si_ctx i; sr_store := err |} :: rounds body c ins
  end.

(** The loop is the one of [PushV1], over what [StoreBytes] returns. *)
Lemma SendBytes_loop_rounds body n backoff err c ins :
  snd <$> SendBytes_loop body n backoff err c ins = withBackoff_loop n backoff err (rounds body c ins).
Proof.
  revert backoff err c ins. induction n as [|n IH]; intros backoff err c ins; [done|].
  destruct ins as [|i ins]; [done|]. cbn [SendBytes_loop rounds].
  destruct (StoreBytes c body i) as [[c' rq] err'] eqn:Es. cbn [withBackoff_loop sr_ctx sr_store].
  destruct (si_ctx i); [done|]. destruct err' as [e|]; [|done]. destruct (recoverable e); [|done]. cbn [negb].
  destruct (0 <? n)%nat; rewrite <-IH;
    destruct (SendBytes_loop _ _ _ _ _ _) as [[[c2 rqs] [[r m] sl]]|]; done.
Qed.

(** *** The requests of an attempt *)

(** A request that a redirect asks for: the same when the code keeps the method and the
    body, a GET without a body otherwise, at the [Location]; with the credentials of its
    URL, or else of the client. *)
Definition redirected (auth : option BasicAuth) (first : Header) (h : hop) (via : list url) (rq rq' : Request) : Prop :=
  ∃ code, followed h = Some code ∧ resolve (rq_URL rq) (h_Location h) = Some (rq_URL rq') ∧
    (if decide (code = 307 ∨ code = 308) then rq_Method rq' = rq_Method rq ∧ rq_Body rq' = rq_Body rq
     else rq_Method rq' = "GET"%string ∧ rq_Body rq' = []) ∧
    rq_Header rq' = withAuth auth (urlAuth (rq_URL rq')
      (redirectHeader first (via ++ [rq_URL rq]) (rq_URL rq') (String.eqb (rq_Method rq') "GET"))) ∧
    rq_timeout rq' = rq_timeout rq ∧ rq_tls rq' = rq_tls rq.

(** The requests from one on, and what the last one gives: its answer, unless that is a
    redirect that cannot be followed or the tenth. *)
Inductive exchange (auth : option BasicAuth) (first : Header) (hops : nat → hop)
    : list url → Request → list Request → answer → Prop :=
  | exchange_answered via rq :
      followed (hops (length via)) = None → exchange auth first hops via rq [rq] (h_answer (hops (length via)))
  | exchange_lost via rq code :
      followed (hops (length via)) = Some code → resolve (rq_URL rq) (h_Location (hops (length via))) = None →
      exchange auth first hops via rq [rq] (Err (ErrText "failed to parse Location header"))
  | exchange_stopped via rq rq' :
      redirected auth first (hops (length via)) via rq rq' → length via = 9%nat →
      exchange auth first hops via rq [rq] (Err (ErrText "stopped after 10 redirects"))
  | exchange_redirected via rq rq' rqs r :
      redirected auth first (hops (length via)) via rq rq' → exchange auth first hops (via ++ [rq_URL rq]) rq' rqs r →
      exchange auth first hops via rq (rq :: rqs) r.

Lemma Do_loop_exchange n auth timeout first body hops conf via method u header (includeBody : bool) :
  (length via + S n)%nat = maxRedirects → method = (if includeBody then "POST" else "GET"%string) →
  let rq := {| rq_Method := method; rq_URL := u; rq_Header := withAuth auth (urlAuth u header);
               rq_Body := if includeBody then body else []; rq_timeout := timeout; rq_tls := conf |} in
  ∃ rqs r, Do_loop (S n) auth timeout first body hops (Fixed conf) via method u header includeBody = (Fixed conf, rqs, r) ∧
    exchange auth first hops via rq rqs r ∧ (1 ≤ length rqs ≤ S n)%nat.
Proof.
  revert via method u header includeBody. induction n as [|n IH]; intros via method u header includeBody Hv Hm rq;
    [|remember (S n) as m eqn:Em]; cbn [Do_loop transportConf]; fold rq; (destruct (followed _) as [code|] eqn:Ef;
      [|eexists _, _; split; [done|]; split; [by constructor|simpl; lia]]);
    (destruct (resolve u _) as [u'|] eqn:Er; [|eexists _, _; split; [done|]; split; [by eapply exchange_lost|simpl; lia]]);
    set (inc := includeBody && keepsBody code);
    (assert (Hm' : redirectMethod method code = (if inc then "POST" else "GET"%string))
       by (subst method inc; unfold redirectMethod; by destruct includeBody, (keepsBody code)));
    set (hd := redirectHeader first (via ++ [u]) u' (negb inc));
    (assert (Hred : redirected auth first (hops (length via)) via rq
      {| rq_Method := redirectMethod method code; rq_URL := u'; rq_Header := withAuth auth (urlAuth u' hd);
         rq_Body := if inc then body else []; rq_timeout := timeout; rq_tls := conf |});
     [exists code; split_and!; try done; cbn;
      [subst method inc; unfold redirectMethod, keepsBody; case_decide as Hc;
         [replace ((code =? 307) || (code =? 308)) with true by lia|replace ((code =? 307) || (code =? 308)) with false by lia];
         by destruct includeBody
      |rewrite Hm'; unfold hd; by destruct inc]|]).
  - eexists _, _. split; [done|]. split; [eapply exchange_stopped; [done|]; unfold maxRedirects in Hv; lia|simpl; lia].
  - destruct (IH (via ++ [u]) (redirectMethod method code) u' hd inc) as (rqs & r & E & Hx & Hl);
      [rewrite length_app; simpl; lia|done|]. subst m. rewrite E.
    eexists _, _. split; [done|]. split; [by eapply exchange_redirected|simpl; lia].
Qed.

(** A client without a CA file, and inputs whose URL parses again. *)
Definition fixedConf (c : HttpClient) (conf : tlsConf) : Prop := tr_transport (c_client c) = Fixed conf.
Definition retried (a : answer) : Prop := ∃ e, storeErr a = Some e ∧ recoverable e = true.
Definition requestOf (c : HttpClient) (conf : tlsConf) (body : list ascii) (i : sendInput) : Request :=
  {| rq_Method := "POST"; rq_URL := c_url c;
     rq_Header := withAuth (tr_BasicAuth (c_client c)) (urlAuth (c_url c) (setHeaders (si_order i)));
     rq_Body := body; rq_timeout := c_timeout c; rq_tls := conf |}.
Definition attempted (c : HttpClient) (conf : tlsConf) (body : list ascii) (i : sendInput) (x : list Request * answer) : Prop :=
  exchange (tr_BasicAuth (c_client c)) (setHeaders (si_order i)) (si_hop i) [] (requestOf c conf body i) x.1 x.2 ∧
  (1 ≤ length x.1 ≤ 10)%nat.

Lemma StoreBytes_fixed c conf body i :
  fixedConf c conf → si_newRequest i = None →
  ∃ x, attempted c conf body i x ∧ StoreBytes c body i = (c, x.1, storeErr x.2).
Proof.
  unfold fixedConf, StoreBytes. intros Hf ->. destruct c as [name u [t auth] timeout hs]. simpl in Hf. subst.
  destruct (Do_loop_exchange 9 auth timeout (setHeaders (si_order i)) body (si_hop i) conf [] "POST" u
    (setHeaders (si_order i)) true eq_refl eq_refl) as (rqs & r & E & Hx & Hl).
  exists (rqs, r). split; [by split|]. cbn [c_client tr_BasicAuth tr_transport c_timeout c_url]. unfold maxRedirects.
  by rewrite E.
Qed.

(** After the attempts [xs], at most [n]: the last answer decides, unless the context ends
    the loop before another one. *)
Definition stops (n : nat) (ins : list sendInput) (xs : list (list Request * answer)) (err r : error goerr) : Prop :=
  let cancelled := ∃ j e, ins !! length xs = Some j ∧ si_ctx j = Some e ∧ r = Some e in
  match last xs with
  | None => (n = O ∧ r = err) ∨ ((0 < n)%nat ∧ cancelled)
  | Some x => (r = storeErr x.2 ∧ (retried x.2 → length xs = n)) ∨ (retried x.2 ∧ (length xs < n)%nat ∧ cancelled)
  end.

Lemma SendBytes_loop_spec body n backoff err c conf ins :
  fixedConf c conf → Forall (λ i, si_newRequest i = None) ins → (n ≤ length ins)%nat →
  ∃ xs r m sl, SendBytes_loop body n backoff err c ins = Some (c, xs.*1, (r, m, sl)) ∧ (length xs ≤ n)%nat ∧
    Forall2 (λ i x, attempted c conf body i x ∧ si_ctx i = None) (take (length xs) ins) xs ∧
    Forall (λ x, retried x.2) (take (length xs - 1) xs) ∧ stops n ins xs err r.
Proof.
  intros Hc. revert backoff err ins. induction n as [|n IH]; intros backoff err ins Hp Hl.
  { exists [], err, (maxRetries - 0)%nat, []. simpl. split_and!; auto. by left. }
  destruct ins as [|i ins]; simpl in Hl; [lia|]. apply Forall_cons in Hp as [Hi Hp]. cbn [SendBytes_loop].
  destruct (si_ctx i) as [e|] eqn:Ex.
  { exists [], (Some e), (maxRetries - S n)%nat, []. simpl. split_and!; auto; [lia|]. right. split; [lia|]. eauto. }
  destruct (StoreBytes_fixed c conf body i Hc Hi) as (x & Hx & ->).
  assert (Hstop : ∀ (r : error goerr) (m : nat) (sl : list Z), r = storeErr x.2 → ¬ retried x.2 →
    ∃ xs r' m' sl', Some (c, [x.1], (r, m, sl)) = Some (c, xs.*1, (r', m', sl')) ∧ (length xs ≤ S n)%nat ∧
      Forall2 (λ i x, attempted c conf body i x ∧ si_ctx i = None) (take (length xs) (i :: ins)) xs ∧
      Forall (λ x, retried x.2) (take (length xs - 1) xs) ∧ stops (S n) (i :: ins) xs err r').
  { intros r m sl Hr Hn. exists [x], r, m, sl. simpl.
    split_and!; [done|lia|apply Forall2_cons; split; [done|by rewrite take_0]|done|]. left. split; [done|]. intros ?; by destruct Hn. }
  destruct (storeErr x.2) as [e|] eqn:Ee; [|apply Hstop; [done|intros (e & He & _); congruence]].
  destruct (recoverable e) eqn:Er; cbn [negb]; [|apply Hstop; [done|intros (e' & He & Hr); congruence]].
  assert (Hret : retried x.2) by by exists e.
  destruct (IH (if (0 <? n)%nat then clampBackoff (2 * backoff) else backoff) (Some e) ins Hp ltac:(lia))
    as (xs & r & m & sl & E & Hk & Hq & Hf & Hs).
  rewrite E. eexists (x :: xs), r, m, _. split; [done|]. cbn [length take]. split_and!.
  - lia.
  - by constructor.
  - destruct xs; simpl in *; [done|]. rewrite Nat.sub_0_r in Hf. by constructor.
  - unfold stops in *. destruct xs as [|y xs].
    + simpl in *. destruct Hs as [[-> ->]|[Hn Hcan]]; [by left; rewrite Ee|right].
      split_and!; [done|lia|done].
    + rewrite last_cons_cons. destruct (last (y :: xs)) as [z|] eqn:El; [|by apply last_None in El].
      simpl in *. destruct Hs as [[-> H]|(? & ? & ?)]; [left|right]; split_and!; auto with lia.
Qed.

(** ** What a push to a tenant sends *)

(** The authorization of the requests of a remote. *)
Definition authorization (u : url) (remote : RemoteInfo) : option string :=
  match urlUser u with
  | Some (username, password) => Some (basicAuth username password)
  | None => if String.eqb (r_Username remote) "" then None
            else Some (basicAuth (r_Username remote) (TrimSpace (r_Password remote)))
  end.
Definition pushHeader (userAgent : string) (auth : option string) : Header :=
  let h := {["Content-Encoding" := ["snappy"]; "Content-Type" := ["application/x-protobuf"];
             "User-Agent" := [userAgent]; "X-Prometheus-Remote-Write-Version" := ["0.1.0"]]}%string in
  match auth with Some a => <["Authorization"%string := [a]]> h | None => h end.

Definition remoteAuth (remote : RemoteInfo) : option BasicAuth :=
  if String.eqb (r_Username remote) "" then None
  else Some {| ba_Username := r_Username remote; ba_Password := r_Password remote |}.

Definition fixedTLS : tlsConf := {| tc_RootCAs := None; tc_ServerName := ""; tc_Insecure := false; tc_ClientCert := false |}.

Lemma NewClient_remote userAgent remote u read1 read2 name conf :
  urlParse (r_Url remote +:+ "/push") = Some u →
  confFromRemoteInfo userAgent (Some remote) = Ret (Ok conf) →
  NewClient read1 read2 name conf = Some
    {| c_remoteName := name; c_url := u;
       c_client := {| tr_transport := Fixed fixedTLS;
                      tr_BasicAuth := remoteAuth remote |};
       c_timeout := 5 * 1000000000;
       c_headers := {["X-Prometheus-Remote-Write-Version" := "0.1.0"; "User-Agent" := userAgent]}%string |}.
Proof.
  intros Eu. unfold confFromRemoteInfo, ClientFromRemoteInfo. rewrite Eu. simpl. intros [= <-]. simpl.
  do 2 f_equal.
Qed.

Lemma setHeaders_remote userAgent order :
  order ≡ₚ map_to_list ({["X-Prometheus-Remote-Write-Version" := "0.1.0"; "User-Agent" := userAgent]}%string : gmap string string) →
  setHeaders order = pushHeader userAgent None.
Proof.
  intros Ho. assert (Ho' : order ≡ₚ [("X-Prometheus-Remote-Write-Version", "0.1.0"); ("User-Agent", userAgent)]%string).
  { rewrite Ho. rewrite map_to_list_insert by done. by rewrite map_to_list_singleton. }
  assert (E : order = [("X-Prometheus-Remote-Write-Version", "0.1.0"); ("User-Agent", userAgent)]%string ∨
              order = [("User-Agent", userAgent); ("X-Prometheus-Remote-Write-Version", "0.1.0")]%string).
  { apply Permutation_length_2_inv. by symmetry. }
  unfold pushHeader. destruct E as [-> | ->]; unfold setHeaders, Header_Set, Header_Add; cbn [fold_left fst snd];
    rewrite lookup_empty; cbn [default app];
    change (CanonicalHeaderKey "Content-Encoding") with "Content-Encoding"%string;
    change (CanonicalHeaderKey "Content-Type") with "Content-Type"%string;
    change (CanonicalHeaderKey "User-Agent") with "User-Agent"%string;
    change (CanonicalHeaderKey "X-Prometheus-Remote-Write-Version") with "X-Prometheus-Remote-Write-Version"%string;
    apply map_eq; intros k; rewrite ?lookup_insert, ?lookup_singleton, ?lookup_empty;
    repeat (case_decide; [by subst|]); done.
Qed.

Lemma withAuth_remote remote u userAgent :
  withAuth (remoteAuth remote) (urlAuth u (pushHeader userAgent None)) = pushHeader userAgent (authorization u remote).
Proof.
  assert (Hg : Header_Get "Authorization" (pushHeader userAgent None) = "") by reflexivity.
  unfold urlAuth, authorization, remoteAuth. rewrite Hg.
  change (String.eqb "" "") with true. cbv iota. destruct (urlUser u) as [[n p]|]; unfold withAuth.
  - destruct (String.eqb (r_Username remote) ""); [done|]. unfold basicAuthRoundTrip.
    rewrite Header_Get_Set. done.
  - destruct (String.eqb (r_Username remote) ""); [done|]. unfold basicAuthRoundTrip. by rewrite Hg.
Qed.

(** The pushes that the inputs allow: the URL of the client parses again, and its headers
    are visited in some order. *)
Definition pushInput (userAgent : string) (i : sendInput) : Prop :=
  si_newRequest i = None ∧
  si_order i ≡ₚ map_to_list ({["X-Prometheus-Remote-Write-Version" := "0.1.0"; "User-Agent" := userAgent]}%string : gmap string string).

Lemma answered_2xx (a : answer) : storeErr a = None ↔ ∃ code status line, a = Ok (code, status, line) ∧ Z.quot code 100 = 2.
Proof.
  unfold storeErr. destruct a as [[[code status] line]|e]; simpl; [|naive_solver].
  destruct (Z.eqb_spec (Z.quot code 100) 2) as [E|E]; simpl.
  - rewrite E. simpl. naive_solver.
  - destruct (Z.quot code 100 =? 5); naive_solver.
Qed.

Lemma highest_returns h samples :
  Forall (λ ts, timestamps ts ≠ []) samples → ∃ z, highestTimestamp h samples = Ret z.
Proof.
  intros H. revert h. induction H as [|ts l Ht _ IH]; intros h; [by eexists|]. cbn [highestTimestamp].
  destruct (timestamps ts); [done|]. apply IH.
Qed.

(** C21: what a push of metrics does. With a remote whose URL parses, samples in every
    series and an encoding that succeeds, the client is made without an error and the push
    returns after at most ten attempts, of at most ten requests each, as [net/http] hands
    them to its transport. The first request of an attempt is a POST to the push URL of the remote with the compressed body, a timeout
    of five seconds, the headers of remote write and the credentials of the URL or else of
    the remote, whatever the order in which the headers are visited; another one is sent
    only where a redirect (301, 302, 303, 307, 308 with a [Location]) points to, as the same
    POST after a 307 or 308 and as a GET without the body after the others. Every attempt
    but the last one ended in a failure that can be retried. The push succeeds exactly when
    the last request of the last attempt was answered with a 2xx, and then returns the
    length of the body; otherwise it ends at an answer that cannot be retried, at the tenth
    attempt, or when the context is done. *)
Theorem push_sends remote u userAgent name read1 read2 conf samples data ins :
  urlParse (r_Url remote +:+ "/push") = Some u →
  confFromRemoteInfo userAgent (Some remote) = Ret (Ok conf) →
  Forall (λ ts, timestamps ts ≠ []) samples → marshalWriteRequest samples = Ok data →
  Forall (pushInput userAgent) ins → (10 ≤ length ins)%nat →
  ∃ c xs r, NewClient read1 read2 name conf = Some c ∧ pushMetrics samples c ins = Ret (Some (c, xs.*1, r)) ∧
    (length xs ≤ 10)%nat ∧
    Forall2 (λ i x, si_ctx i = None ∧ (1 ≤ length x.1 ≤ 10)%nat ∧
        exchange (remoteAuth remote) (pushHeader userAgent None) (si_hop i) []
          {| rq_Method := "POST"; rq_URL := u; rq_Header := pushHeader userAgent (authorization u remote);
             rq_Body := snappyEncode data; rq_timeout := 5 * 1000000000; rq_tls := fixedTLS |} x.1 x.2)
      (take (length xs) ins) xs ∧
    Forall (λ x, retried x.2) (take (length xs - 1) xs) ∧
    (∀ n, r = Ok n ↔ n = llen (snappyEncode data) ∧
       ∃ rqs code status line, last xs = Some (rqs, Ok (code, status, line)) ∧ Z.quot code 100 = 2) ∧
    (∀ e, r = Err e → length xs = 10%nat ∨ (∃ x, last xs = Some x ∧ ¬ retried x.2) ∨
       ∃ i, ins !! length xs = Some i ∧ si_ctx i ≠ None).
Proof.
  intros Eu Hconf Hts Hm Hins Hl. rewrite (NewClient_remote _ _ _ read1 read2 name _ Eu Hconf).
  set (c := Build_HttpClient _ _ _ _ _). exists c.
  destruct (SendBytes_loop_spec (snappyEncode data) maxRetries minBackoff None c fixedTLS ins) as (xs & r & m & sl & E & Hk & Hq & Hf & Hs);
    [done|eapply Forall_impl; [exact Hins|]; by intros i []|done|].
  exists xs, (match r with Some e => Err (ErrWrap "sending timeseries" e) | None => Ok (llen (snappyEncode data)) end).
  split; [done|]. split.
  { unfold pushMetrics, SendSamplesWithBackoff, buildTimeSeriesWriteRequest. destruct (highest_returns 0 _ Hts) as [z ->].
    cbn [mbind go_bind]. rewrite Hm. unfold SendBytesWithBackoff.
    change (default [] (Some (snappyEncode data))) with (snappyEncode data). rewrite E. by destruct r. }
  split; [done|]. split.
  { apply (Forall_take _ (length xs)) in Hins. apply Forall2_same_length_lookup_2; [by eapply Forall2_length|].
    intros k i x Hi Hx. eapply Forall_lookup_1 in Hins as [_ Ho]; [|exact Hi].
    eapply Forall2_lookup_lr in Hq as [[Hx' Hlen] Hctx]; [|exact Hi|exact Hx].
    split; [done|]. split; [done|]. revert Hx'. unfold requestOf. simpl. by rewrite (setHeaders_remote _ _ Ho), withAuth_remote. }
  split; [done|]. unfold stops in Hs. destruct (last xs) as [[rqs a]|] eqn:El.
  - split.
    + intros n. transitivity (n = llen (snappyEncode data) ∧ storeErr a = None).
      * destruct Hs as [[-> _]|((e & He & _) & _ & j & e' & _ & _ & ->)]; [simpl; destruct (storeErr a)|simpl in He; rewrite He]; naive_solver.
      * rewrite answered_2xx. naive_solver.
    + intros e _. destruct Hs as [[_ H]|(_ & _ & j & e' & Hj & Hx & _)].
      * destruct (decide (length xs = 10%nat)) as [|Hne]; [by left|]. right; left. exists (rqs, a). split; [done|].
        intros Hr. by apply Hne, H.
      * right; right. exists j. by rewrite Hx.
  - destruct Hs as [[? _]|(_ & j & e & Hj & Hx & ->)]; [done|]. split; [naive_solver|].
    intros _ _. right; right. exists j. by rewrite Hx.
Qed.
End client.

(** A series without samples stops the agent before anything is sent. *)
Lemma empty_series_panics {url series : Type} validPEM urlUser resolve redirectHeader timestamps marshal snappy (ts : series)
    (c : @HttpClient url) ins :
  timestamps ts = [] →
  pushMetrics urlUser validPEM resolve redirectHeader timestamps marshal snappy [ts] c ins =
    Panic "index out of range [0] with length 0".
Proof. intros E. unfold pushMetrics, SendSamplesWithBackoff, buildTimeSeriesWriteRequest. simpl. by rewrite E. Qed.

(** *** An example: an answer 503, a connection that fails, and a redirect that keeps the
    body to an answer 200. *)
Definition sampleRemote : RemoteInfo :=
  {| r_Name := "m"; r_Url := "https://m/api/prom"; r_Username := "Aladdin"; r_Password := " open sesame" |}.
Definition sampleHop (a : result goerr (Z * string * string)) (location : string) : hop :=
  {| h_file := None; h_answer := a; h_Location := location |}.
Definition sampleInput (hops : nat → hop) : sendInput :=
  {| si_ctx := None; si_newRequest := None; si_hop := hops;
     si_order := [("User-Agent", "agent"); ("X-Prometheus-Remote-Write-Version", "0.1.0")]%string |}.
Definition sampleOk : hop := sampleHop (Ok (200, "200 OK", ""))%string "".
Definition sampleMoved (code : Z) (status : string) (k : nat) : hop :=
  match k with O => sampleHop (Ok (code, status, ""))%string "https://n/push" | _ => sampleOk end.
Definition sampleInputs : list sendInput :=
  [sampleInput (λ _, sampleHop (Ok (503, "503 Service Unavailable", ""))%string "");
   sampleInput (λ _, sampleHop (Err (ErrText "connection reset")) "");
   sampleInput (sampleMoved 307 "307 Temporary Redirect")] ++ repeat (sampleInput (λ _, sampleOk)) 7.
Definition sampleConf' : @ClientConf string :=
  {| cf_ClientConfig :=
       {| cc_URL := "https://m/api/prom/push"; cc_Timeout := 5 * 1000000000;
          cc_BasicAuth := Some {| ba_Username := "Aladdin"; ba_Password := " open sesame" |};
          cc_Headers := {["X-Prometheus-Remote-Write-Version" := "0.1.0"]} |};
     cf_UserAgent := "agent"; cf_TLSConfig := noTLS |}%string.
(** Locations are absolute, and all headers of the first request are kept. *)
Definition sampleResolve (_ location : string) : option string := Some location.
Definition sampleKeep (h : Header) (_ : list string) (_ : string) (_ : bool) : Header := h.

Lemma sampleInput_ok hops : pushInput "agent" (sampleInput hops).
Proof.
  split; [done|]. unfold sampleInput, si_order. rewrite map_to_list_insert by done. rewrite map_to_list_singleton.
  apply perm_swap.
Qed.

Lemma sampleInputs_ok : Forall (pushInput "agent") sampleInputs.
Proof.
  apply Forall_app. split.
  - repeat (apply Forall_cons_2; [apply sampleInput_ok|]). apply Forall_nil_2.
  - apply Forall_forall. intros i ->%list_elem_of_In%repeat_spec. apply sampleInput_ok.
Qed.

Notation samplePush := (pushMetrics (λ _, None) (λ _, true) sampleResolve sampleKeep (λ ts : list Z, ts) (λ _, Ok (chars "data")) (λ b, b) [[5]; [7]]).

Lemma push_sends_witness :
  ∃ c xs r, samplePush c sampleInputs = Ret (Some (c, xs.*1, r)) ∧ (length xs ≤ 10)%nat ∧
    Forall2 (λ i x, ∃ rq, rq_Header rq !! "Authorization"%string = Some ["Basic QWxhZGRpbjpvcGVuIHNlc2FtZQ=="%string] ∧
      exchange (λ _, None) sampleResolve sampleKeep (remoteAuth sampleRemote) (pushHeader "agent" None) (si_hop i) [] rq x.1 x.2)
      (take (length xs) sampleInputs) xs.
Proof.
  destruct (push_sends (url := string) Some (λ _, None) (λ _, true) (λ _ _, true) sampleResolve sampleKeep (λ ts : list Z, ts)
    (λ _, Ok (chars "data")) (λ b, b) sampleRemote "https://m/api/prom/push" "agent" "m" (λ _, None) (λ _, None) sampleConf'
    [[5]; [7]] (chars "data") sampleInputs) as (c & xs & r & _ & Ep & Hl & Hx & _).
  - reflexivity.
  - reflexivity.
  - repeat constructor; discriminate.
  - reflexivity.
  - apply sampleInputs_ok.
  - simpl. lia.
  - exists c, xs, r. split; [exact Ep|]. split; [exact Hl|].
    eapply Forall2_impl; [exact Hx|]. intros i x (_ & _ & He). eexists. split; [|exact He]. reflexivity.
Defined.

Definition samplePushed (ins : list sendInput) :=
  match NewClient (λ _, true) (λ _ _, true) (λ _, None) (λ _, None) "m" sampleConf' with
  | Some c =>
      match samplePush c ins with
      | Ret (Some (_, attempts, r)) =>
          Some (map (map (λ rq, (rq_Method rq, rq_URL rq, llen (rq_Body rq), isSet (Header_Get "Authorization" (rq_Header rq))))) attempts, r)
      | _ => None
      end
  | None => None
  end.
(** It takes four requests in three attempts. *)
Example push_example :
  samplePushed sampleInputs =
    Some ([[("POST", "https://m/api/prom/push", 4, true)]; [("POST", "https://m/api/prom/push", 4, true)];
           [("POST", "https://m/api/prom/push", 4, true); ("POST", "https://n/push", 4, true)]]%string, Ok 4).
Proof. by vm_compute. Qed.

(** A push that is redirected with a 302 succeeds without the data: they are not sent to the
    other host, whose 200 answers a GET.  The round tripper adds the credentials of the
    remote to that request too, although [net/http] drops them for another host. *)
Example redirected_push_is_lost :
  samplePushed (repeat (sampleInput (sampleMoved 302 "302 Found")) 10) =
    Some ([[("POST", "https://m/api/prom/push", 4, true); ("GET", "https://n/push", 0, true)]]%string, Ok 4).
Proof. by vm_compute. Qed.
