(* ===== verification/Secrets.v ===== *)
(** * Secrets

    [internal/secrets/tenant.go] and [gsm_client.go]: the provider that fetches the
    secrets of a tenant from its secret store and caches them, and the retriever of
    credentials of the k6 probers ([internal/prober/multihttp/multihttp.go]).

    The cache is a third-party one with expiration, given by the class [TTLCache]; the
    answers of the tenant provider and of the secret store are inputs. *)
From S2P Require Import Prelude Strs Tenants.

Open Scope Z_scope.

(** A cache of strings whose entries expire.  [c_get now], [c_set now ttl]. *)
Class TTLCache (C : Type) := {
  c_empty : C;
  c_get : Z → string → C → option string;
  c_set : Z → Z → string → string → C → C;
  c_delete : string → C → C;
  c_flush : C → C;
  c_get_empty now k : c_get now k c_empty = None;
  c_get_flush now k c : c_get now k (c_flush c) = None;
  c_get_set_eq now t ttl k v c : c_get now k (c_set t ttl k v c) = if bool_decide (now ≤ t + ttl) then Some v else None;
  c_get_set_ne now t ttl k k' v c : k ≠ k' → c_get now k (c_set t ttl k' v c) = c_get now k c;
  c_get_delete_eq now k c : c_get now k (c_delete k c) = None;
  c_get_delete_ne now k k' c : k ≠ k' → c_get now k (c_delete k' c) = c_get now k c;
  c_get_earlier now t k v c : t ≤ now → c_get now k c = Some v → c_get t k c = Some v;
}.

Section secrets.
Context {C : Type} `{TTLCache C} {E : Type}.

Inductive secretErr :=
  | ErrCredentials (e : E)        (** failed to get secret store credentials *)
  | ErrNoSecretStore
  | ErrEmptyURL | ErrEmptyToken   (** failed to create GSM client *)
  | ErrContact (e : E)            (** failed to contact GSM *)
  | ErrEmptyResponse
  | ErrNotFound | ErrUnauthorized
  | ErrStatus (code : Z).

Definition cacheKey (tenantID : Z) (secretKey : string) : string := itoa tenantID +:+ ":" +:+ secretKey.

(** [GetSecretCredentials], from the answer of the tenant provider. *)
Definition GetSecretCredentials (tenant : result E Tenant) : result E (option SecretStore) :=
  t ← tenant; Ok (t_SecretStore t).

Definition CreateClient (s : SecretStore) : option secretErr :=
  if String.eqb (s_Url s) "" then Some ErrEmptyURL
  else if String.eqb (s_Token s) "" then Some ErrEmptyToken
  else None.

(** The response of the secret store: its status, and the plain text when it parses. *)
Definition gsmReply : Type := result E (Z * option string).

(** The part of [GetSecretValue] after a cache miss, at time [now]. *)
Definition fetchSecret (now ttl : Z) (key : string) (tenant : result E Tenant) (reply : gsmReply) (c : C)
    : C * result secretErr string :=
  match GetSecretCredentials tenant with
  | Err e => (c, Err (ErrCredentials e))
  | Ok None => (c, Err ErrNoSecretStore)
  | Ok (Some store) =>
      match CreateClient store with
      | Some e => (c, Err e)
      | None =>
          match reply with
          | Err e => (c, Err (ErrContact e))
          | Ok (status, body) =>
              match status with
              | 200 => match body with
                       | None => (c, Err ErrEmptyResponse)
                       | Some v => (c_set now ttl key v c, Ok v)
                       end
              | 404 => (c_delete key c, Err ErrNotFound)
              | 401 => (c_delete key c, Err ErrUnauthorized)
              | code => (c, Err (ErrStatus code))
              end
          end
      end
  end.

Definition GetSecretValue (now ttl tenantID : Z) (secretKey : string) (tenant : result E Tenant) (reply : gsmReply)
    (c : C) : C * result secretErr string :=
  let key := cacheKey tenantID secretKey in
  match c_get now key c with
  | Some v => (c, Ok v)
  | None => fetchSecret now ttl key tenant reply c
  end.

(** *** Providers

    The two implementations of the interface [SecretProvider].  The capabilities of a
    probe are [Some enableProtocolSecrets], or nil. *)
Record secretProvider := {
  sp_cache : C; sp_ttl : Z; sp_cleanupInterval : Z; sp_enableProtocolSecrets : bool }.

Definition protocolSecrets (capabilities : option bool) : bool := default false capabilities.
Definition NewSecretProviderWithCapabilities (ttl : Z) (capabilities : option bool) : secretProvider :=
  let minute := 60 * 1000000000 in
  {| sp_cache := c_empty; sp_ttl := ttl;
     sp_cleanupInterval := if Z.quot ttl 10 <? minute then minute else Z.quot ttl 10;
     sp_enableProtocolSecrets := protocolSecrets capabilities |}.
Definition NewSecretProvider (ttl : Z) : secretProvider := NewSecretProviderWithCapabilities ttl None.
Definition set_cache (c : C) (p : secretProvider) : secretProvider :=
  {| sp_cache := c; sp_ttl := sp_ttl p; sp_cleanupInterval := sp_cleanupInterval p;
     sp_enableProtocolSecrets := sp_enableProtocolSecrets p |}.
Definition secretProvider_Close (p : secretProvider) : secretProvider := set_cache (c_flush (sp_cache p)) p.
Definition secretProvider_UpdateCapabilities (capabilities : option bool) (p : secretProvider) : secretProvider :=
  {| sp_cache := sp_cache p; sp_ttl := sp_ttl p; sp_cleanupInterval := sp_cleanupInterval p;
     sp_enableProtocolSecrets := protocolSecrets capabilities |}.

(** The older one, whose values are all empty. *)
Record TenantSecrets := { ts_enableProtocolSecrets : bool }.
Definition NewTenantSecrets : TenantSecrets := {| ts_enableProtocolSecrets := false |}.
Definition TenantSecrets_GetSecretValue (secretKey : string) : result secretErr string := Ok EmptyString.
Definition TenantSecrets_UpdateCapabilities (capabilities : option bool) (p : TenantSecrets) : TenantSecrets :=
  {| ts_enableProtocolSecrets := protocolSecrets capabilities |}.
Definition TenantSecrets_GetSecretCredentials (tenant : result E Tenant) : result E (option SecretStore) :=
  match tenant with Err e => Err e | Ok t => Ok (t_SecretStore t) end.

(** What users of a provider rely on: the credentials are those of the tenant, and only
    an update of the capabilities changes whether protocol secrets are enabled. *)
Class SecretProvider (P : Type) := {
  prov_credentials : result E Tenant → P → result E (option SecretStore);
  prov_value : Z → Z → string → result E Tenant → gsmReply → P → P * result secretErr string;
  prov_enabled : P → bool;
  prov_update : option bool → P → P;
  prov_credentials_tenant t p : prov_credentials (Ok t) p = Ok (t_SecretStore t);
  prov_credentials_error e p : prov_credentials (Err e) p = Err e;
  prov_update_enabled c p : prov_enabled (prov_update c p) = protocolSecrets c;
  prov_value_enabled now id k t r p : prov_enabled (prov_value now id k t r p).1 = prov_enabled p;
}.

#[export] Instance secretProvider_provider : SecretProvider secretProvider.
Proof.
  refine {| prov_credentials := λ t _, GetSecretCredentials t;
            prov_value := λ now id k t r p,
              let '(c, v) := GetSecretValue now (sp_ttl p) id k t r (sp_cache p) in (set_cache c p, v);
            prov_enabled := sp_enableProtocolSecrets; prov_update := secretProvider_UpdateCapabilities |}; try done.
  intros now id k t r p. by destruct (GetSecretValue _ _ _ _ _ _ _).
Defined.
#[export] Instance TenantSecrets_provider : SecretProvider TenantSecrets.
Proof.
  refine {| prov_credentials := λ t _, TenantSecrets_GetSecretCredentials t;
            prov_value := λ _ _ k _ _ p, (p, TenantSecrets_GetSecretValue k);
            prov_enabled := ts_enableProtocolSecrets; prov_update := TenantSecrets_UpdateCapabilities |}; done.
Defined.

(** Expired entries are removed at least every tenth of the time to live, but not more
    often than every minute. *)
Lemma cleanup_interval ttl c :
  let p := NewSecretProviderWithCapabilities ttl c in
  60 * 1000000000 ≤ sp_cleanupInterval p ∧ Z.quot ttl 10 ≤ sp_cleanupInterval p ∧
  (600 * 1000000000 ≤ ttl → sp_cleanupInterval p = Z.quot ttl 10).
Proof.
  simpl. destruct (Z.ltb_spec (Z.quot ttl 10) (60 * 1000000000)); split_and!; try lia.
  intros Ht. rewrite Z.quot_div_nonneg in * by lia. Z.div_mod_to_equations. lia.
Qed.

(** ** Keys do not collide *)

Definition noColon (s : string) : Prop := string_has ":"%char s = false.

Lemma pretty_N_go_noColon x s : noColon s → noColon (pretty_N_go x s).
Proof.
  revert s. induction (N.lt_wf_0 x) as [x _ IH]; intros s Hs.
  destruct (decide (0 < x)%N) as [Hx|Hx]; [|by assert (x = 0%N) as -> by lia; rewrite pretty_N_go_0].
  rewrite pretty_N_go_step by done. apply IH; [by apply N.div_lt|].
  unfold noColon, string_has in *. simpl. rewrite Hs, orb_false_r.
  assert (Hm : (x `mod` 10 < 10)%N) by (by apply N.mod_lt). revert Hm. generalize (x `mod` 10)%N. intros y Hy.
  assert (Hc : y ∈ (N.of_nat <$> seq 0 10)).
  { apply list_elem_of_fmap. exists (N.to_nat y). split; [lia|]. apply elem_of_seq. lia. }
  clear -Hc. revert y Hc. apply Forall_forall. repeat constructor.
Qed.
Lemma itoa_noColon z : noColon (itoa z).
Proof.
  unfold itoa. destruct z as [|p|p]; [done| |].
  - apply (pretty_N_go_noColon (N.pos p)). done.
  - assert (Hp := pretty_N_go_noColon (N.pos p) "" eq_refl). done.
Qed.

Lemma noColon_inj a b s t :
  noColon a → noColon b → a +:+ String ":" s = b +:+ String ":" t → a = b ∧ s = t.
Proof.
  revert b. induction a as [|x a IH]; intros [|y b] Ha Hb; simpl; intros [= ].
  - by subst.
  - subst. done.
  - subst. done.
  - subst. unfold noColon, string_has in *. simpl in *. apply orb_false_iff in Ha as [_ Ha], Hb as [_ Hb].
    destruct (IH b) as [-> ->]; done.
Qed.

Lemma secretKey_inj t s t' s' : cacheKey t s = cacheKey t' s' → t = t' ∧ s = s'.
Proof.
  unfold cacheKey. simpl. intros [Ht Hs]%noColon_inj; [|apply itoa_noColon..]. split; [|done].
  by apply (inj pretty) in Ht.
Qed.

(** ** Any interleaving of calls

    A call looks into the cache at one moment and, on a miss, handles the answer of the
    secret store at another.  [fetched] and [returned] are the history: tenant, secret,
    value and time. *)
Definition event : Type := Z * string * string * Z.
Record state := {
  cache : C; clock : Z; pending : list (Z * string); fetched : list event; returned : list event }.

Definition fetchedBy (t : Z) (k : string) (now : Z) (reply : gsmReply) : list event :=
  match reply with Ok (200, Some v) => [(t, k, v, now)] | _ => [] end.
Definition returnedBy (t : Z) (k : string) (now : Z) (r : result secretErr string) : list event :=
  match r with Ok v => [(t, k, v, now)] | Err _ => [] end.

Inductive step (ttl : Z) : state → state → Prop :=
  | step_tick s now' :
      clock s ≤ now' →
      step ttl s {| cache := cache s; clock := now'; pending := pending s; fetched := fetched s; returned := returned s |}
  | step_hit s t k v :
      c_get (clock s) (cacheKey t k) (cache s) = Some v →
      step ttl s {| cache := cache s; clock := clock s; pending := pending s; fetched := fetched s;
                    returned := (t, k, v, clock s) :: returned s |}
  | step_miss s t k :
      c_get (clock s) (cacheKey t k) (cache s) = None →
      step ttl s {| cache := cache s; clock := clock s; pending := (t, k) :: pending s; fetched := fetched s;
                    returned := returned s |}
  | step_answer s t k l1 l2 tenant reply :
      pending s = l1 ++ (t, k) :: l2 →
      step ttl s
        {| cache := (fetchSecret (clock s) ttl (cacheKey t k) tenant reply (cache s)).1; clock := clock s;
           pending := l1 ++ l2; fetched := fetchedBy t k (clock s) reply ++ fetched s;
           returned := returnedBy t k (clock s) (fetchSecret (clock s) ttl (cacheKey t k) tenant reply (cache s)).2
                       ++ returned s |}
  | step_close s :
      step ttl s {| cache := c_flush (cache s); clock := clock s; pending := pending s; fetched := fetched s;
                    returned := returned s |}.

Definition initial (now : Z) : state :=
  {| cache := c_empty; clock := now; pending := []; fetched := []; returned := [] |}.

(** What [fetchSecret] does to the cache, and when it returns a value. *)
Lemma fetchSecret_cases now ttl key tenant reply c :
  let '(c', r) := fetchSecret now ttl key tenant reply c in
  (∃ v, r = Ok v ∧ reply = Ok (200, Some v) ∧ c' = c_set now ttl key v c) ∨
  ((∃ e, r = Err e) ∧ (c' = c ∨ c' = c_delete key c)).
Proof. unfold fetchSecret. repeat case_match; simplify_eq; eauto 10. Qed.

Definition backed (ttl now : Z) (fetched : list event) (t : Z) (k v : string) (at_ : Z) : Prop :=
  ∃ t0, (t, k, v, t0) ∈ fetched ∧ t0 ≤ now ∧ t0 ≤ at_ ≤ t0 + ttl.

Lemma backed_more ttl now now' l l' t k v at_ :
  backed ttl now l t k v at_ → now ≤ now' → l ⊆ l' → backed ttl now' l' t k v at_.
Proof. intros (t0 & Hin & Hle & Hat) Hn Hl. exists t0. split; [by apply Hl|]. lia. Qed.

Record inv (ttl : Z) (s : state) : Prop := {
  inv_cache t k v at_ : clock s ≤ at_ → c_get at_ (cacheKey t k) (cache s) = Some v →
    backed ttl (clock s) (fetched s) t k v at_;
  inv_returned t k v at_ : (t, k, v, at_) ∈ returned s → backed ttl (clock s) (fetched s) t k v at_;
}.

Lemma inv_step ttl s s' : 0 ≤ ttl → inv ttl s → step ttl s s' → inv ttl s'.
Proof.
  intros Httl [Hc Hr] Hs. destruct Hs as [s now' Hn|s t k v Hg|s t k Hg|s t k l1 l2 tenant reply Hp|s];
    split; simpl in *; intros t' k' v' at_.
  - intros Ha Hv. eapply backed_more; [apply Hc; [lia|done]|done|done].
  - intros Hin. eapply backed_more; [by apply Hr|done|done].
  - intros Ha Hv. by apply Hc.
  - intros [[= -> -> -> ->]|Hin]%elem_of_cons; [by apply Hc|by apply Hr].
  - intros Ha Hv. by apply Hc.
  - intros Hin. by apply Hr.
  - intros Ha. assert (Hf := fetchSecret_cases (clock s) ttl (cacheKey t k) tenant reply (cache s)).
    destruct (fetchSecret _ _ _ _ _ _) as [c' r]. simpl. destruct Hf as [(v & -> & -> & ->)|[_ Hf]].
    + destruct (decide (cacheKey t' k' = cacheKey t k)) as [Heq|Hne].
      * apply secretKey_inj in Heq as [-> ->]. rewrite c_get_set_eq. case_bool_decide; [|done].
        intros [= ->]. exists (clock s). split; [left|]. lia.
      * rewrite c_get_set_ne by done. intros Hv. eapply backed_more; [by apply Hc|done|set_solver].
    + intros Hv. assert (Hold : c_get at_ (cacheKey t' k') (cache s) = Some v').
      { destruct Hf as [-> | ->]; [done|]. destruct (decide (cacheKey t' k' = cacheKey t k)) as [Heq|Hne].
        - rewrite Heq, c_get_delete_eq in Hv. done.
        - by rewrite c_get_delete_ne in Hv. }
      eapply backed_more; [by apply Hc|done|set_solver].
  - assert (Hf := fetchSecret_cases (clock s) ttl (cacheKey t k) tenant reply (cache s)).
    destruct (fetchSecret _ _ _ _ _ _) as [c' r]. simpl. destruct Hf as [(v & -> & -> & ->)|[[e ->] _]]; simpl.
    + intros [[= -> -> -> ->]|Hin]%elem_of_cons; [exists (clock s); split; [left|lia]|].
      eapply backed_more; [by apply Hr|done|set_solver].
    + intros Hin. eapply backed_more; [by apply Hr|done|set_solver].
  - intros _. by rewrite c_get_flush.
  - intros Hin. by apply Hr.
Qed.

(** C22: a tenant only gets its own secrets, and fresh ones.  However the calls of
    [GetSecretValue] interleave, every value returned for a secret of a tenant was
    answered with status 200 to a request for that secret, made with the credentials the
    tenant provider gave for that tenant, at most the time to live of the cache before. *)
Theorem secrets_isolated_and_fresh ttl now s t k v at_ :
  0 ≤ ttl → rtc (step ttl) (initial now) s → (t, k, v, at_) ∈ returned s →
  ∃ t0, (t, k, v, t0) ∈ fetched s ∧ t0 ≤ at_ ≤ t0 + ttl.
Proof.
  intros Httl Hs. assert (Hi : inv ttl s).
  { revert s Hs. apply rtc_ind_r; [|intros; by eapply inv_step].
    split; simpl; intros; [by rewrite c_get_empty in *|by apply elem_of_nil in H0]. }
  intros Hin. apply (inv_returned _ _ Hi) in Hin as (t0 & ? & _ & ?). eauto.
Qed.

(** Without other calls in between, the removals on 404 and 401 remove nothing: they
    only happen when the cache had no value. *)
Lemma removal_is_idle now ttl tenantID key tenant reply c c' e at_ k :
  c_get now (cacheKey tenantID key) c = None → now ≤ at_ →
  GetSecretValue now ttl tenantID key tenant reply c = (c', Err e) → c_get at_ k c' = c_get at_ k c.
Proof.
  intros Hn Ha. unfold GetSecretValue. rewrite Hn.
  assert (Hf := fetchSecret_cases now ttl (cacheKey tenantID key) tenant reply c).
  destruct (fetchSecret _ _ _ _ _ _) as [c1 r]. intros [= -> ->].
  destruct Hf as [(v & [=] & _)|[_ [-> | ->]]]; [done|].
  destruct (decide (k = cacheKey tenantID key)) as [->|Hne]; [|by rewrite c_get_delete_ne].
  rewrite c_get_delete_eq. symmetry. destruct (c_get at_ _ c) eqn:Eg; [|done].
  apply (c_get_earlier _ now) in Eg; [congruence|done].
Qed.

(** For the time to live after a fetch, the secret store is not asked. *)
Lemma secret_served_from_cache now ttl tenantID key tenant v c at_ tenant' reply' :
  c_get now (cacheKey tenantID key) c = None →
  (GetSecretValue now ttl tenantID key tenant (Ok (200, Some v)) c).2 = Ok v → now ≤ at_ ≤ now + ttl →
  let c' := (GetSecretValue now ttl tenantID key tenant (Ok (200, Some v)) c).1 in
  GetSecretValue at_ ttl tenantID key tenant' reply' c' = (c', Ok v).
Proof.
  intros Hn Hok Ha. unfold GetSecretValue in *. rewrite Hn in *.
  assert (Hf := fetchSecret_cases now ttl (cacheKey tenantID key) tenant (Ok (200, Some v)) c).
  destruct (fetchSecret _ _ _ _ _ _) as [c1 r]. simpl in *. subst r.
  destruct Hf as [(v' & [= <-] & _ & ->)|[[e [=]] _]].
  rewrite c_get_set_eq, bool_decide_eq_true_2 by lia. done.
Qed.
End secrets.

(** ** Instances *)

(** A map with the times of expiration. *)
Definition mapCache : Type := gmap string (string * Z).
Definition mc_get (now : Z) (k : string) (c : mapCache) : option string :=
  match c !! k with Some (v, e) => if bool_decide (now ≤ e) then Some v else None | None => None end.
#[global] Program Instance TTLCache_map : TTLCache mapCache := {|
  c_empty := ∅; c_get := mc_get; c_set t ttl k v c := <[k := (v, t + ttl)]> c;
  c_delete k c := delete k c; c_flush _ := ∅ |}.
Next Obligation. intros. unfold mc_get. by simplify_map_eq. Qed.
Next Obligation. intros. unfold mc_get. by simplify_map_eq. Qed.
Next Obligation. intros. unfold mc_get, mapCache in *. by simplify_map_eq. Qed.
Next Obligation. intros. unfold mc_get, mapCache in *. by simplify_map_eq. Qed.
Next Obligation. intros. unfold mc_get, mapCache in *. by simplify_map_eq. Qed.
Next Obligation. intros. unfold mc_get, mapCache in *. by simplify_map_eq. Qed.
Next Obligation.
  intros now t k v c Ht. unfold mc_get, mapCache in *. destruct (c !! k) as [[w e]|]; [|done].
  repeat case_bool_decide; try done. lia.
Qed.

Definition storeTenant : Tenant :=
  {| t_Id := 7; t_OrgId := 1; t_MetricsRemote := None; t_EventsRemote := None; t_StackId := 0; t_Status := 0;
     t_Reason := ""; t_Limits := None; t_CostAttributionLabels := []; t_LabelMode := 0;
     t_Created := SpecFloat.S754_zero false; t_Modified := SpecFloat.S754_zero false;
     t_SecretStore := Some {| s_Url := "https://s"; s_Token := "t"; s_Expiry := SpecFloat.S754_zero false |} |}.

(** A miss, its answer, and a hit ten seconds later. *)
Lemma secrets_isolated_and_fresh_witness :
  ∃ s : @state mapCache, (7, "db", "hunter2", 10)%string ∈ returned s ∧
    ∃ t0, (7, "db", "hunter2", t0)%string ∈ fetched s ∧ t0 ≤ 10 ≤ t0 + 60.
Proof.
  eexists. split; cycle 1.
  - eapply (secrets_isolated_and_fresh (C := mapCache) (E := unit) 60 0); [lia| |].
    + eapply rtc_l; [apply (step_miss _ _ 7 "db"); reflexivity|].
      eapply rtc_l; [apply (step_answer _ _ 7 "db" [] [] (Ok storeTenant) (Ok (200, Some "hunter2"%string))); reflexivity|].
      eapply rtc_l; [apply (step_tick _ _ 10); simpl; lia|].
      eapply rtc_l; [apply (step_hit _ _ 7 "db" "hunter2"); vm_compute; reflexivity|]. apply rtc_refl.
    + left.
  - left.
Defined.
