(* ===== verification/Features.v ===== *)
(** * Feature flags and accounting classes

    [internal/feature/feature.go]: a set of flags with a textual form.
    [pkg/accounting/accounting.go] and [data.go]: the number of active series of a
    check by its accounting class. *)
From stdpp Require Import sorting.
From S2P Require Import Prelude Strs Net Checks.

Open Scope Z_scope.

(** ** Feature flags *)

Inductive featureErr := ErrInvalidCollection.

(** A nil map is [None]. *)
Definition Collection : Type := option (gset string).
Definition NewCollection : Collection := Some ∅.

Definition addFeature (c : gset string) (elem : string) : gset string :=
  let feature := TrimSpace elem in if String.eqb feature "" then c else {[feature]} ∪ c.
Definition Set_ (s : string) (c : Collection) : Collection * error featureErr :=
  match c with
  | None => (None, Some ErrInvalidCollection)
  | Some c => (Some (fold_left addFeature (split ","%char s) c), None)
  end.

Definition String_ (c : Collection) : string :=
  match c with None => "" | Some c => join "," (sortStrings (elements c)) end.
Definition IsSet (name : string) (c : Collection) : bool :=
  match c with None => false | Some c => bool_decide (name ∈ c) end.

(** ** Trimming twice *)

Lemma stripCodes_Some p l r : stripCodes p l = Some r → ∃ x, l = x ++ r ∧ length x = length p ∧ ∀ k, stripCodes p (x ++ k) = Some k.
Proof.
  revert l. induction p as [|c p IH]; intros l; simpl.
  - intros [= ->]. by exists [].
  - destruct l as [|a l]; [done|]. destruct (code a =? c)%N eqn:E; [|done].
    intros (x & -> & Hx & Hk)%IH. exists (a :: x). simpl. rewrite E. split; [done|]. split; [by f_equal|done].
Qed.
Lemma stripOne_Some es l r :
  stripOne es l = Some r → ∃ p x, p ∈ es ∧ l = x ++ r ∧ length x = length p ∧ ∀ k, stripCodes p (x ++ k) = Some k.
Proof.
  induction es as [|p es IH]; simpl; [done|]. destruct (stripCodes p l) as [l'|] eqn:E.
  - intros [= <-]. apply stripCodes_Some in E as (x & ? & ? & ?). exists p, x. split; [left|done].
  - intros (q & x & ? & ?)%IH. exists q, x. split; [by right|done].
Qed.
Lemma stripOne_None es l : stripOne es l = None ↔ ∀ p, p ∈ es → stripCodes p l = None.
Proof.
  induction es as [|p es IH]; simpl; [split; [intros _ p Hp; by apply elem_of_nil in Hp|done]|].
  destruct (stripCodes p l) as [l'|] eqn:E.
  - split; [done|]. intros H. rewrite (H p) in E by left. done.
  - rewrite IH. split; [intros H q [->|Hq]%elem_of_cons; auto|]. intros H q Hq. apply H. by right.
Qed.

(** Encodings of at least one byte. *)
Definition nonEmpty (es : list (list N)) : Prop := Forall (λ p, p ≠ []) es.

Lemma trimWith_spec es f l :
  nonEmpty es → (length l ≤ f)%nat →
  stripOne es (trimWith f es l) = None ∧ ∃ x, l = x ++ trimWith f es l.
Proof.
  intros Hes. revert l. induction f as [|f IH]; intros l Hl; simpl.
  - destruct l; simpl in Hl; [|lia]. split; [|by exists []]. apply stripOne_None. intros p Hp.
    eapply Forall_forall in Hes; [|exact Hp]. by destruct p.
  - destruct (stripOne es l) as [l'|] eqn:E; [|split; [done|by exists []]].
    apply stripOne_Some in E as (p & x & Hp & -> & Hx & _). eapply Forall_forall in Hes; [|exact Hp].
    destruct (IH l') as [H1 [y Hy]]; [rewrite length_app in Hl; destruct p; simpl in *; [done|lia]|].
    split; [done|]. exists (x ++ y). rewrite <-(assoc_L (++)), <-Hy. done.
Qed.
Lemma trimWith_none es f l : stripOne es l = None → trimWith f es l = l.
Proof. intros H. destruct f; simpl; [done|]. by rewrite H. Qed.

Lemma stripOne_prefix es l k : stripOne es (l ++ k) = None → stripOne es l = None.
Proof.
  rewrite !stripOne_None. intros H p Hp. destruct (stripCodes p l) as [r|] eqn:E; [|done].
  apply stripCodes_Some in E as (x & -> & _ & Hk). specialize (H p Hp).
  by rewrite <-(assoc_L (++)), Hk in H.
Qed.

Lemma spaces_nonEmpty : nonEmpty spaces ∧ nonEmpty (map reverse spaces).
Proof. split; repeat constructor; done. Qed.

(** What is left is a part of the text, and nothing more can be trimmed of it. *)
Lemma TrimSpace_parts s : ∃ x y, chars s = x ++ chars (TrimSpace s) ++ y ∧
  stripOne spaces (chars (TrimSpace s)) = None ∧ stripOne (map reverse spaces) (reverse (chars (TrimSpace s))) = None.
Proof.
  unfold TrimSpace. destruct spaces_nonEmpty as [H1 H2].
  destruct (trimWith_spec spaces (String.length s) (chars s) H1) as [Hn [x Hx]]; [by rewrite length_chars|].
  set (l := trimWith _ spaces _) in *.
  destruct (trimWith_spec (map reverse spaces) (length l) (reverse l) H2) as [Hn' [y Hy]]; [by rewrite length_reverse|].
  set (r := trimWith _ _ (reverse l)) in *. rewrite chars_of_chars, reverse_involutive.
  assert (Hl : l = reverse r ++ reverse y) by (by rewrite <-reverse_app, <-Hy, reverse_involutive).
  exists x, (reverse y). rewrite Hx, Hl at 1. split; [done|]. split; [|done].
  rewrite Hl in Hn. by apply stripOne_prefix in Hn.
Qed.

Lemma TrimSpace_idem s : TrimSpace (TrimSpace s) = TrimSpace s.
Proof.
  destruct (TrimSpace_parts s) as (_ & _ & _ & H1 & H2). set (t := TrimSpace s) in *.
  unfold TrimSpace. rewrite (trimWith_none spaces) by done. rewrite trimWith_none by done.
  by rewrite reverse_involutive, of_chars_chars.
Qed.
Lemma TrimSpace_has a s : string_has a s = false → string_has a (TrimSpace s) = false.
Proof.
  destruct (TrimSpace_parts s) as (x & y & Hs & _). unfold string_has. rewrite Hs, !existsb_app.
  by intros [_ [? _]%orb_false_iff]%orb_false_iff.
Qed.

(** ** The textual form *)

Definition flag (s : string) : Prop := s ≠ ""%string ∧ TrimSpace s = s ∧ string_has ","%char s = false.

Lemma fold_addFeature l c n :
  n ∈ fold_left addFeature l c ↔ n ∈ c ∨ n ≠ ""%string ∧ ∃ e, e ∈ l ∧ n = TrimSpace e.
Proof.
  revert c. induction l as [|e l IH]; intros c; simpl.
  - split; [by left|]. intros [?|(_ & e & He & _)]; [done|by apply elem_of_nil in He].
  - rewrite IH. unfold addFeature. destruct (String.eqb_spec (TrimSpace e) "") as [E|E].
    + split; [intros [?|(? & e' & ? & ?)]; [by left|right; split; [done|exists e'; split; [by right|done]]]|].
      intros [?|(Hn & e' & [->|He]%elem_of_cons & ->)]; [by left|done|right; eauto].
    + split.
      * intros [[->%elem_of_singleton|?]%elem_of_union|(? & e' & ? & ?)]; [right|by left|right].
        -- split; [done|]. exists e. split; [left|done].
        -- split; [done|]. exists e'. split; [by right|done].
      * intros [?|(Hn & e' & [->|He]%elem_of_cons & ->)]; [left; set_solver|left; set_solver|right; eauto].
Qed.

Lemma Set_flags s c c' : set_Forall flag c → Set_ s (Some c) = (Some c', None) → set_Forall flag c'.
Proof.
  intros Hc. simpl. intros [= <-] n Hn. apply fold_addFeature in Hn as [?|(Hn & e & He & ->)]; [by apply Hc|].
  split; [done|]. split; [apply TrimSpace_idem|]. apply TrimSpace_has.
  by eapply Forall_forall in He; [|apply split_clean].
Qed.

Lemma String_Set c : set_Forall flag c → Set_ (String_ (Some c)) NewCollection = (Some c, None).
Proof.
  intros Hc. unfold Set_, NewCollection, String_. do 2 f_equal. apply set_eq. intros n.
  rewrite fold_addFeature. destruct (sortStrings (elements c)) as [|x l] eqn:E.
  - assert (Hn : ∀ n, n ∉ c). { intros m Hm. apply elem_of_elements, sortStrings_elem in Hm. rewrite E in Hm. by apply elem_of_nil in Hm. }
    split; [|by intros ?%Hn]. intros [?|(Hne & e & He & ->)]; [set_solver|].
    apply elem_of_cons in He as [->|He]; [done|by apply elem_of_nil in He].
  - rewrite <-E. rewrite split_join.
    + split.
      * intros [?|(Hne & e & He & ->)]; [set_solver|]. apply sortStrings_elem, elem_of_elements in He.
        destruct (Hc e He) as (_ & -> & _). done.
      * intros Hn. right. destruct (Hc n Hn) as (Hne & Ht & _). split; [done|]. exists n.
        split; [by apply sortStrings_elem, elem_of_elements|done].
    + by rewrite E.
    + apply Forall_forall. intros m Hm. apply sortStrings_elem, elem_of_elements in Hm. by apply Hc.
Qed.

(** The collection after the flags of the command line, from the empty one. *)
Definition setAll (ts : list string) : Collection := fold_left (λ c t, (Set_ t c).1) ts NewCollection.

Lemma setAll_flags ts : ∃ c, setAll ts = Some c ∧ set_Forall flag c.
Proof.
  unfold setAll. assert (Hg : ∀ l c, set_Forall flag c → ∃ c', fold_left (λ c t, (Set_ t c).1) l (Some c) = Some c' ∧ set_Forall flag c').
  { induction l as [|t l IH]; intros c Hc; [by exists c|]. cbn [fold_left].
    destruct (Set_ t (Some c)) as [[c1|] [e|]] eqn:E; try done. simpl. apply IH. by eapply Set_flags. }
  apply Hg. by intros n Hn%elem_of_empty.
Qed.

(** Flags round trip.  Whatever texts were set, a flag is in the collection exactly
    when it is one of their comma separated parts, trimmed and not empty; and the text
    of the collection sets the same collection again. *)
Theorem features_roundtrip ts :
  Set_ (String_ (setAll ts)) NewCollection = (setAll ts, None) ∧
  ∀ n, IsSet n (setAll ts) = true ↔
    n ≠ ""%string ∧ ∃ t e, t ∈ ts ∧ e ∈ split ","%char t ∧ n = TrimSpace e.
Proof.
  split; [destruct (setAll_flags ts) as (c & -> & Hc); by apply String_Set|]. intros n.
  unfold setAll, NewCollection. assert (Hg : ∀ l c,
    IsSet n (fold_left (λ c t, (Set_ t c).1) l (Some c)) = true ↔
    n ∈ c ∨ n ≠ ""%string ∧ ∃ t e, t ∈ l ∧ e ∈ split ","%char t ∧ n = TrimSpace e).
  { induction l as [|t l IH]; intros c; cbn [fold_left].
    - simpl. rewrite bool_decide_eq_true. set_solver.
    - simpl (Set_ t (Some c)).1. rewrite IH, fold_addFeature. split.
      + intros [[?|(? & e & ? & ?)]|(? & t' & e & ? & ? & ?)]; [by left|right..]; (split; [done|]).
        * exists t, e. split; [left|done].
        * exists t', e. split; [by right|done].
      + intros [?|(? & t' & e & [->|Ht]%elem_of_cons & ? & ?)]; [by left; left|left; right; eauto|right; eauto 10]. }
  rewrite Hg. split; [intros [Hn%elem_of_empty|?]; done|by right].
Qed.

(** ** Accounting classes *)

Inductive accountingErr := ErrUnhandledCheck.

Definition activeSeriesByCheckType : list (string * Z) :=
  [("browser", 36); ("browser_basic", 22); ("dns", 86); ("dns_basic", 30); ("grpc", 72);
   ("grpc_basic", 30); ("grpc_ssl", 75); ("grpc_ssl_basic", 33); ("http", 118); ("http_basic", 34);
   ("http_ssl", 124); ("http_ssl_basic", 40); ("multihttp", 117); ("multihttp_basic", 33);
   ("ping", 87); ("ping_basic", 31); ("scripted", 36); ("scripted_basic", 22); ("tcp", 37);
   ("tcp_basic", 23); ("tcp_ssl", 41); ("tcp_ssl_basic", 27); ("traceroute", 22);
   ("traceroute_basic", 22)]%string.

(** A nil pointer where the type says there are settings would panic. *)
Definition GetCheckAccountingClass (c : Check) : go (result accountingErr string) :=
  checkType ← Type_ c;
  let key := CheckType_String checkType in
  ssl ← match checkType with
        | CheckTypeHttp => Ret (hasPrefix "https://" (Target c))
        | CheckTypeTcp => match Tcp (Settings c) with Some t => Ret (tcp_Tls t) | None => Panic "nil" end
        | CheckTypeGrpc => match Grpc (Settings c) with Some g => Ret (grpc_Tls g) | None => Panic "nil" end
        | _ => Ret false
        end;
  let key := if (ssl : bool) then key +:+ "_ssl" else key in
  Ret (Ok (if BasicMetricsOnly c then key +:+ "_basic" else key)).

Definition seriesOf (class : string) : option Z :=
  match list_find (λ p, p.1 = class) activeSeriesByCheckType with Some (_, (_, n)) => Some n | None => None end.
Definition GetActiveSeriesForCheck (c : Check) : go (result accountingErr Z) :=
  class ← GetCheckAccountingClass c;
  Ret match class with
      | Err e => Err e
      | Ok class => match seriesOf class with Some n => Ok n | None => Err ErrUnhandledCheck end
      end.

(** [strings.SplitN(class, "_", 2)[0]]. *)
Definition getTypeFromClass (class : string) : go CheckType :=
  match CheckTypeFromString (match cut "_"%char class with Some (x, _) => x | None => class end) with
  | (ct, true) => Ret ct
  | (_, false) => Panic "unhandled check type string"
  end.

Record ClassInfo := { ci_CheckType : CheckType; ci_CheckClass : CheckClass; ci_Series : Z }.
Definition classInfo (p : string * Z) : go (string * ClassInfo) :=
  ct ← getTypeFromClass p.1;
  Ret (p.1, {| ci_CheckType := ct; ci_CheckClass := Class_ ct; ci_Series := p.2 |}).
Fixpoint collectInfo (l : list (string * Z)) : go (list (string * ClassInfo)) :=
  match l with
  | [] => Ret []
  | p :: l => i ← classInfo p; is_ ← collectInfo l; Ret (i :: is_)
  end.
Definition GetAccountingClassInfo : go (list (string * ClassInfo)) := collectInfo activeSeriesByCheckType.

(** The classes of a type. *)
Definition hasSSL (ct : CheckType) : bool :=
  match ct with CheckTypeHttp | CheckTypeTcp | CheckTypeGrpc => true | _ => false end.
Definition classesOf (ct : CheckType) : list string :=
  let key := CheckType_String ct in
  [key; key +:+ "_basic"] ++ (if hasSSL ct then [key +:+ "_ssl"; (key +:+ "_ssl") +:+ "_basic"] else []).

Lemma Settings_Type_tls s :
  (Settings_Type s = Ret CheckTypeTcp → is_Some (Tcp s)) ∧ (Settings_Type s = Ret CheckTypeGrpc → is_Some (Grpc s)).
Proof.
  unfold Settings_Type. destruct s. repeat case_match; split; intros; simplify_eq/=; eauto.
Qed.

Lemma accounting_class c ct :
  Type_ c = Ret ct → ∃ class, GetCheckAccountingClass c = Ret (Ok class) ∧ class ∈ classesOf ct.
Proof.
  intros Ht. unfold GetCheckAccountingClass. rewrite Ht. cbn [mbind go_bind].
  destruct (Settings_Type_tls (Settings c)) as [Htcp Hgrpc].
  assert (Hssl : ∃ ssl, match ct with
        | CheckTypeHttp => Ret (hasPrefix "https://" (Target c))
        | CheckTypeTcp => match Tcp (Settings c) with Some t => Ret (tcp_Tls t) | None => Panic "nil" end
        | CheckTypeGrpc => match Grpc (Settings c) with Some g => Ret (grpc_Tls g) | None => Panic "nil" end
        | _ => Ret false
        end = Ret ssl ∧ (ssl = true → hasSSL ct = true)).
  { destruct ct; try (eexists; split; [reflexivity|]; done).
    - destruct (Htcp Ht) as [t ->]. by eexists.
    - destruct (Hgrpc Ht) as [g ->]. by eexists. }
  destruct Hssl as (ssl & -> & Hs). cbn [mbind go_bind]. eexists. split; [done|]. unfold classesOf.
  destruct ssl; [rewrite Hs by done|]; destruct (BasicMetricsOnly c); simpl; set_solver.
Qed.

Lemma table_complete ct class :
  class ∈ classesOf ct →
  ∃ n info, seriesOf class = Some n ∧ getTypeFromClass class = Ret ct ∧ GetAccountingClassInfo = Ret info ∧
    (class, {| ci_CheckType := ct; ci_CheckClass := Class_ ct; ci_Series := n |}) ∈ info.
Proof.
  intros Hc. destruct ct; vm_compute in Hc;
    repeat (apply elem_of_cons in Hc as [->|Hc]; [eexists _, _; do 3 (split; [vm_compute; reflexivity|]);
      repeat first [apply list_elem_of_here|apply list_elem_of_further]|]); by apply elem_of_nil in Hc.
Qed.

(** Every check is accounted for.  For a check with settings, the accounting class
    is in the table, so the number of active series is found, and its type can be read
    back from the class; the table of class information is built without a panic and
    agrees with it. *)
Theorem check_accounted c ct :
  Type_ c = Ret ct →
  ∃ class n info, GetCheckAccountingClass c = Ret (Ok class) ∧ GetActiveSeriesForCheck c = Ret (Ok n) ∧
    getTypeFromClass class = Ret ct ∧ GetAccountingClassInfo = Ret info ∧
    (class, {| ci_CheckType := ct; ci_CheckClass := Class_ ct; ci_Series := n |}) ∈ info.
Proof.
  intros (class & Hc & Hin)%accounting_class. destruct (table_complete ct class Hin) as (n & info & Hn & Ht & Hi & Hin').
  exists class, n, info. unfold GetActiveSeriesForCheck. rewrite Hc. simpl. by rewrite Hn.
Qed.

Lemma check_accounted_witness :
  let c := {| Id := 1; TenantId := 1; Frequency := 60000; Offset := 0; Timeout := 3000; Enabled := true; Labels := [];
              Settings := {| Ping := None; Http := None; Dns := None; Tcp := None; Traceroute := None;
                Scripted := None; Multihttp := None;
                Grpc := Some {| grpc_IpVersion := 0; grpc_Service := ""; grpc_Tls := true |}; Browser := None |};
              Probes := []; Target := "a:1"; Job := "j"; BasicMetricsOnly := true; AlertSensitivity := "";
              Created := SpecFloat.S754_zero false; Modified := SpecFloat.S754_zero false |}%string in
  GetActiveSeriesForCheck c = Ret (Ok 33).
Proof.
  intros c. destruct (check_accounted c CheckTypeGrpc eq_refl) as (class & n & info & H1 & H2 & _).
  rewrite H2. vm_compute in H2. congruence.
Defined.
