(* ===== verification/Probers.v ===== *)
(** * Probers and their configuration

    [internal/prober/]: the factory of probers ([prober.go]), the headers and the
    configuration of HTTP checks ([http/http.go]), the conversion of TLS settings
    ([internal/tls/tls.go]), the configuration of the other protocol probers, the
    resolution of addresses for ping ([icmp/utils.go]) and the time budget of the
    experimental DNS prober ([dns/dns.go]).

    The probes themselves (sockets, HTTP, TCP) are library code; what the agent adds to
    DNS probes and to traceroute is in [DnsProbe] and [Traceroute]. *)
From Stdlib Require Import SpecFloat.
From S2P Require Import Prelude Strs Net Header Checks Validate Interpolation Tenants Features.

Open Scope Z_scope.

(** ** Headers of HTTP checks *)

(** [strings.TrimLeft(s, " ")]. *)
Fixpoint trimLeftSpaces (s : string) : string :=
  match s with
  | String a s' => if Ascii.eqb a " " then trimLeftSpaces s' else s
  | EmptyString => EmptyString
  end.
Definition strToHeaderNameValue (s : string) : string * string :=
  match cut ":"%char s with Some (n, v) => (n, trimLeftSpaces v) | None => (s, EmptyString) end.

Section headers.
(** [version.UserAgent()]. *)
Variable userAgent : string.

(** The reserved headers, in the order of the iteration. *)
Definition reservedHeaders : Type := list (string * list string).
Definition isReserved (reserved : reservedHeaders) (name : string) : bool :=
  existsb (λ kv, String.eqb kv.1 (CanonicalHeaderKey name)) reserved.
Definition reservedLines (kv : string * list string) : list string :=
  map (λ v, kv.1 +:+ String ":" v) kv.2.
Definition augmentHttpHeaders (reserved : reservedHeaders) (headers : list string) : list string :=
  List.filter (λ h, negb (isReserved reserved (strToHeaderNameValue h).1)) headers ++
  concat (map reservedLines reserved).

Definition userAgentHeader : string := "user-agent".
Definition addHeader (h : gmap string string) (header : string) : gmap string string :=
  let '(name, value) := strToHeaderNameValue header in
  let h := if String.eqb (ToLower name) userAgentHeader then delete userAgentHeader h else h in
  <[name := value]> h.
Definition buildHttpHeaders (headers : list string) : gmap string string :=
  fold_left addHeader headers {[userAgentHeader := userAgent]}.

(** [getReservedHeaders]: the id of the check and of the probe. *)
Definition getReservedHeaders (probeId checkGlobalID : Z) : reservedHeaders :=
  if probeId =? 0 then []
  else [(CanonicalHeaderKey "x-sm-id"%string, [itoa checkGlobalID +:+ "-" +:+ itoa probeId])].

(** ** Reserved headers cannot be overridden *)

Definition noSep (s : string) : Prop := string_has ":"%char s = false.

Lemma cut_app n v : noSep n → cut ":"%char (n +:+ String ":" v) = Some (n, v).
Proof.
  induction n as [|a n IH]; intros H; [done|]. unfold noSep, string_has in H. cbn [chars existsb] in H.
  apply orb_false_iff in H as [Ha H]. change (cut ":"%char (String a n +:+ String ":" v)) with
    (if Ascii.eqb a ":" then Some (EmptyString, n +:+ String ":" v)
     else '(x, y) ← cut ":"%char (n +:+ String ":" v); Some (String a x, y)).
  rewrite Ascii.eqb_sym, Ha. by rewrite IH.
Qed.
Lemma headerLine_parse n v : noSep n → strToHeaderNameValue (n +:+ String ":" v) = (n, trimLeftSpaces v).
Proof. intros H. unfold strToHeaderNameValue. by rewrite cut_app. Qed.

(** Where the names of the map come from. *)
Lemma fold_addHeader_name l h n v :
  fold_left addHeader l h !! n = Some v → is_Some (h !! n) ∨ ∃ x, x ∈ l ∧ (strToHeaderNameValue x).1 = n.
Proof.
  revert h. induction l as [|x l IH]; intros h; simpl; [eauto|]. intros [Hs|(y & Hy & Hn)]%IH.
  - unfold addHeader in Hs. destruct (strToHeaderNameValue x) as [n' v'] eqn:Ex.
    destruct (decide (n' = n)) as [->|Hne]; [right; exists x; split; [left|by rewrite Ex]|].
    rewrite lookup_insert_ne in Hs by done. left. destruct (String.eqb _ _); [|done].
    destruct (decide (userAgentHeader = n)) as [<-|]; [by rewrite lookup_delete_eq in Hs; destruct Hs|].
    by rewrite lookup_delete_ne in Hs.
  - right. exists y. split; [by right|done].
Qed.

(** A name that no later line sets or clears keeps its value. *)
Lemma fold_addHeader_keep l h n :
  n ≠ userAgentHeader → Forall (λ x, (strToHeaderNameValue x).1 ≠ n) l → fold_left addHeader l h !! n = h !! n.
Proof.
  intros Hn. revert h. induction l as [|x l IH]; intros h Hl; simpl; [done|].
  apply Forall_cons in Hl as [Hx Hl]. rewrite IH by done. unfold addHeader.
  destruct (strToHeaderNameValue x) as [n' v']. simpl in Hx. rewrite lookup_insert_ne by done.
  destruct (String.eqb _ _); [by rewrite lookup_delete_ne|done].
Qed.
Lemma addHeader_line h n v : noSep n → addHeader h (n +:+ String ":" v) !! n = Some (trimLeftSpaces v).
Proof. intros H. unfold addHeader. rewrite headerLine_parse by done. by rewrite lookup_insert_eq. Qed.

(** Canonical names, with a value each. *)
Definition wellFormed (reserved : reservedHeaders) : Prop :=
  NoDup (map fst reserved) ∧
  Forall (λ kv, noSep kv.1 ∧ CanonicalHeaderKey kv.1 = kv.1 ∧ kv.1 ≠ userAgentHeader ∧ kv.2 ≠ []) reserved.

Lemma reserved_values reserved h k vs :
  wellFormed reserved → (k, vs) ∈ reserved →
  ∃ v, last vs = Some v ∧ fold_left addHeader (concat (map reservedLines reserved)) h !! k = Some (trimLeftSpaces v).
Proof.
  intros [Hnd Hwf] Hin. revert h. induction reserved as [|[k' vs'] reserved IH]; intros h; [by apply elem_of_nil in Hin|].
  apply Forall_cons in Hwf as [(Hs & _ & Hua & Hne) Hwf]. apply NoDup_cons in Hnd as [Hnin Hnd].
  simpl in *. rewrite fold_left_app.
  apply elem_of_cons in Hin as [[= -> ->]|Hin]; [|by apply IH].
  destruct (last vs') as [v|] eqn:El; [|by apply last_None in El]. exists v. split; [done|].
  rewrite fold_addHeader_keep; [|done|].
  - apply last_Some in El as [pre ->]. unfold reservedLines. simpl. rewrite map_app, fold_left_app. simpl.
    by apply addHeader_line.
  - apply Forall_concat, Forall_map, Forall_forall. intros [k2 vs2] Hin2. simpl. apply Forall_map, Forall_forall.
    intros v2 _. eapply Forall_forall in Hwf as (Hs2 & _); [|exact Hin2]. simpl in Hs2.
    rewrite headerLine_parse by done. simpl. intros ->. apply Hnin. apply list_elem_of_fmap. by exists (k', vs2).
Qed.

(** Reserved headers are the agent's.  After the reserved headers are added to those
    of an HTTP check, each reserved name has the agent's (last) value in the request,
    and no header of the user with the same canonical name is sent, in any spelling. *)
Theorem reserved_headers_win reserved headers :
  wellFormed reserved → CanonicalHeaderKey userAgentHeader ∉ map fst reserved →
  let sent := buildHttpHeaders (augmentHttpHeaders reserved headers) in
  (∀ k vs, (k, vs) ∈ reserved → ∃ v, last vs = Some v ∧ sent !! k = Some (trimLeftSpaces v)) ∧
  (∀ n v, sent !! n = Some v → CanonicalHeaderKey n ∈ map fst reserved → n ∈ map fst reserved).
Proof.
  intros Hwf Hua sent. unfold sent, buildHttpHeaders, augmentHttpHeaders. rewrite fold_left_app. split.
  - intros k vs Hin. by apply reserved_values.
  - intros n v Hn Hc. rewrite <-fold_left_app in Hn.
    apply fold_addHeader_name in Hn as [Hs|(x & Hx & <-)].
    { destruct (decide (n = userAgentHeader)) as [->|Hne]; [done|]. rewrite lookup_singleton_ne in Hs by done.
      by destruct Hs. }
    apply elem_of_app in Hx as [Hx|Hx].
    + apply list_elem_of_In, filter_In in Hx as [_ Hx]. apply negb_true_iff in Hx.
      unfold isReserved in Hx. exfalso. apply list_elem_of_fmap in Hc as ([k vs] & Ek & Hin).
      assert (Ht : existsb (λ kv, String.eqb kv.1 (CanonicalHeaderKey (strToHeaderNameValue x).1)) reserved = true); [|congruence].
      apply existsb_exists. exists (k, vs). split; [by apply list_elem_of_In|]. simpl in *. by apply String.eqb_eq.
    + apply list_elem_of_In, in_concat in Hx as (l & Hl & Hx). apply in_map_iff in Hl as ([k vs] & <- & Hin).
      apply in_map_iff in Hx as (w & <- & _). apply list_elem_of_In in Hin.
      destruct Hwf as [_ Hwf]. eapply Forall_forall in Hwf as (Hs & _); [|exact Hin]. simpl in *.
      rewrite headerLine_parse by done. simpl. apply list_elem_of_fmap. by exists (k, vs).
Qed.
End headers.

Lemma reserved_headers_win_witness :
  buildHttpHeaders "agent" (augmentHttpHeaders [("X-Sm-Id", ["12-3"])]
    ["x-SM-id: forged"; "User-Agent: mine"; "A:  b"])%string !! "X-Sm-Id"%string = Some "12-3"%string.
Proof.
  destruct (reserved_headers_win "agent" [("X-Sm-Id", ["12-3"])]
    ["x-SM-id: forged"; "User-Agent: mine"; "A:  b"])%string as [H _].
  - split; [apply NoDup_singleton|]. repeat constructor; done.
  - vm_compute. intros H. apply elem_of_cons in H as [H|H]; [done|by apply elem_of_nil in H].
  - destruct (H "X-Sm-Id" ["12-3"])%string as (v & Hv & ->); [left|]. injection Hv as <-. reflexivity.
Defined.

(** ** TLS settings

    The texts that go to temporary files are kept as they are: [None] for no file. *)
Record TLSSettings := {
  tls_InsecureSkipVerify : bool; tls_CACert : list ascii; tls_ClientCert : list ascii;
  tls_ClientKey : list ascii; tls_ServerName : string }.
Record promTLSConfig := {
  pt_InsecureSkipVerify : bool; pt_ServerName : string; pt_CA : option (list ascii);
  pt_Cert : option (list ascii); pt_Key : option (list ascii) }.

(** [newDataProvider] may fail; [writable] says for which of the three. *)
Definition provide (ok : bool) (data : list ascii) : option (option (list ascii)) :=
  match data with [] => Some None | _ => if ok then Some (Some data) else None end.
Definition SMtoProm (okCA okCert okKey : bool) (t : TLSSettings) : option promTLSConfig :=
  ca ← provide okCA (tls_CACert t); cert ← provide okCert (tls_ClientCert t); key ← provide okKey (tls_ClientKey t);
  Some {| pt_InsecureSkipVerify := tls_InsecureSkipVerify t; pt_ServerName := tls_ServerName t;
          pt_CA := ca; pt_Cert := cert; pt_Key := key |}.

(** ** The client configuration of HTTP checks, with its secrets *)

Section httpClient.
Context {E url : Type} (urlParse : string → option url).
(** [secretStore.GetSecretValue] for the tenant of the check. *)
Variable getSecret : list ascii → result E (list ascii).

Inductive clientErr :=
  | ErrResolve (e : @resolveErr E)
  | ErrTLSFiles
  | ErrProxyURL.

Definition secretResolver : Resolver :=
  {| GetVariable := None; GetSecretValue := getSecret; secretEnabled := true |}.
Definition resolveSecretValue (enabled : bool) (value : list ascii) : result clientErr (list ascii) :=
  match value with
  | [] => Ok []
  | _ =>
      if negb enabled then Ok value
      else match Resolve secretResolver value with Ok v => Ok v | Err e => Err (ErrResolve e) end
  end.

(** The settings the client configuration is made of. *)
Record BasicAuthSettings := { bs_Username : string; bs_Password : list ascii }.
Record OAuth2Settings := {
  oa_ClientId : string; oa_ClientSecret : string; oa_TokenURL : string; oa_Scopes : list string;
  oa_EndpointParams : list Label; oa_TlsConfig : option TLSSettings; oa_ProxyURL : string }.
Record clientSettings := {
  cs_NoFollowRedirects : bool; cs_TlsConfig : option TLSSettings; cs_BearerToken : list ascii;
  cs_BasicAuth : option BasicAuthSettings; cs_ProxyURL : string; cs_ProxyConnectHeaders : list string;
  cs_SecretManagerEnabled : bool; cs_Oauth2Config : option OAuth2Settings }.

Record OAuth2 := {
  o_ClientID : string; o_ClientSecret : string; o_TokenURL : string; o_Scopes : list string;
  o_EndpointParams : gmap string string; o_ProxyURL : option url; o_TLSConfig : option promTLSConfig }.
Record HTTPClientConfig := {
  hc_EnableHTTP2 : bool; hc_FollowRedirects : bool; hc_TLSConfig : option promTLSConfig;
  hc_BearerToken : list ascii; hc_BasicAuth : option (string * list ascii);
  hc_ProxyURL : option url; hc_ProxyConnectHeader : gmap string string; hc_OAuth2 : option OAuth2 }.

(** [buildTLSConfig]; the temporary files can be written. *)
Definition buildTLSConfig (enabled : bool) (t : TLSSettings) : result clientErr promTLSConfig :=
  ca ← resolveSecretValue enabled (tls_CACert t);
  cert ← resolveSecretValue enabled (tls_ClientCert t);
  key ← resolveSecretValue enabled (tls_ClientKey t);
  match SMtoProm true true true
    {| tls_InsecureSkipVerify := tls_InsecureSkipVerify t; tls_CACert := ca; tls_ClientCert := cert;
       tls_ClientKey := key; tls_ServerName := tls_ServerName t |} with
  | Some c => Ok c
  | None => Err ErrTLSFiles
  end.

Definition proxyHeaders (l : list string) : gmap string string :=
  fold_left (λ h x, <[(strToHeaderNameValue x).1 := (strToHeaderNameValue x).2]> h) l ∅.

Definition buildPrometheusHTTPClientConfig (s : clientSettings) : result clientErr HTTPClientConfig :=
  let en := cs_SecretManagerEnabled s in
  t ← match cs_TlsConfig s with
      | None => Ok None
      | Some t => c ← buildTLSConfig en t; Ok (Some c)
      end;
  bearer ← resolveSecretValue en (cs_BearerToken s);
  basic ← match cs_BasicAuth s with
          | None => Ok None
          | Some b => p ← resolveSecretValue en (bs_Password b); Ok (Some (bs_Username b, p))
          end;
  proxy ← (if String.eqb (cs_ProxyURL s) "" then Ok (None, ∅)
           else match urlParse (cs_ProxyURL s) with
                | None => Err ErrProxyURL
                | Some u => Ok (Some u, proxyHeaders (cs_ProxyConnectHeaders s))
                end);
  Ok {| hc_EnableHTTP2 := true; hc_FollowRedirects := negb (cs_NoFollowRedirects s); hc_TLSConfig := t;
        hc_BearerToken := bearer; hc_BasicAuth := basic; hc_ProxyURL := proxy.1;
        hc_ProxyConnectHeader := proxy.2; hc_OAuth2 := None |}.

Definition convertOAuth2Config (o : OAuth2Settings) : result clientErr OAuth2 :=
  proxy ← (if String.eqb (oa_ProxyURL o) "" then Ok None
           else match urlParse (oa_ProxyURL o) with None => Err ErrProxyURL | Some u => Ok (Some u) end);
  t ← match oa_TlsConfig o with
      | None => Ok None
      | Some t => match SMtoProm true true true t with Some c => Ok (Some c) | None => Err ErrTLSFiles end
      end;
  Ok {| o_ClientID := oa_ClientId o; o_ClientSecret := oa_ClientSecret o; o_TokenURL := oa_TokenURL o;
        o_Scopes := oa_Scopes o;
        o_EndpointParams := fold_left (λ m l, <[l_Name l := l_Value l]> m) (oa_EndpointParams o) ∅;
        o_ProxyURL := proxy; o_TLSConfig := t |}.

(** [buildProbeConfig]: the client configuration, and whether the resolve phase is
    skipped for the proxy. *)
Definition buildProbeConfig (s : clientSettings) : result clientErr (HTTPClientConfig * bool) :=
  c ← buildPrometheusHTTPClientConfig s;
  let skip := bool_decide (is_Some (hc_ProxyURL c)) in
  match cs_Oauth2Config s with
  | Some o =>
      if String.eqb (oa_ClientId o) "" then Ok (c, skip)
      else
        o ← convertOAuth2Config o;
        Ok ({| hc_EnableHTTP2 := hc_EnableHTTP2 c; hc_FollowRedirects := hc_FollowRedirects c;
               hc_TLSConfig := hc_TLSConfig c; hc_BearerToken := hc_BearerToken c; hc_BasicAuth := hc_BasicAuth c;
               hc_ProxyURL := hc_ProxyURL c; hc_ProxyConnectHeader := hc_ProxyConnectHeader c;
               hc_OAuth2 := Some o |}, skip)
  | None => Ok (c, skip)
  end.
End httpClient.

(** The texts of the settings that may name secrets, in the order they are resolved. *)
Definition secretTexts (s : clientSettings) : list (list ascii) :=
  match cs_TlsConfig s with Some t => [tls_CACert t; tls_ClientCert t; tls_ClientKey t] | None => [] end ++
  [cs_BearerToken s] ++ match cs_BasicAuth s with Some b => [bs_Password b] | None => [] end.
(** The same texts in a configuration. *)
Definition fileText (o : option (list ascii)) : list ascii := default [] o.
Arguments fileText o : simpl never.
Definition configTexts {url} (c : @HTTPClientConfig url) : list (list ascii) :=
  match hc_TLSConfig c with Some t => [fileText (pt_CA t); fileText (pt_Cert t); fileText (pt_Key t)] | None => [] end ++
  [hc_BearerToken c] ++ match hc_BasicAuth c with Some b => [b.2] | None => [] end.

Section secretResolution.
Context {E url : Type} (urlParse : string → option url) (getSecret : list ascii → result E (list ascii)).

(** What a text becomes. *)
Definition resolvesTo (enabled : bool) (t t' : list ascii) : Prop :=
  resolveSecretValue getSecret enabled t = Ok t'.

Lemma provide_text data : provide true data = Some (match data with [] => None | _ => Some data end).
Proof. by destruct data. Qed.

Lemma clientConfig_texts s c :
  buildPrometheusHTTPClientConfig urlParse getSecret s = Ok c →
  Forall2 (resolvesTo (cs_SecretManagerEnabled s)) (secretTexts s) (configTexts c).
Proof.
  unfold buildPrometheusHTTPClientConfig, secretTexts, configTexts, resolvesTo. intros H.
  destruct (cs_TlsConfig s) as [t|].
  - unfold buildTLSConfig, SMtoProm in H.
    destruct (resolveSecretValue _ _ (tls_CACert t)) as [ca|] eqn:Eca; [|done].
    destruct (resolveSecretValue _ _ (tls_ClientCert t)) as [cc|] eqn:Ecc; [|done].
    destruct (resolveSecretValue _ _ (tls_ClientKey t)) as [ck|] eqn:Eck; [|done].
    cbn in H. rewrite !provide_text in H. cbn in H.
    destruct (resolveSecretValue _ _ (cs_BearerToken s)) as [b|] eqn:Eb; [|done]. cbn in H.
    destruct (cs_BasicAuth s) as [[u p]|]; cbn in H |- *;
      [destruct (resolveSecretValue _ _ p) as [p'|] eqn:Ep; [|done]; cbn in H|];
      repeat case_match; simplify_eq/=; repeat constructor; done.
  - cbn in H. destruct (resolveSecretValue _ _ (cs_BearerToken s)) as [b|] eqn:Eb; [|done]. cbn in H.
    destruct (cs_BasicAuth s) as [[u p]|]; cbn in H |- *;
      [destruct (resolveSecretValue _ _ p) as [p'|] eqn:Ep; [|done]; cbn in H|];
      repeat case_match; simplify_eq/=; repeat constructor; done.
Qed.

(** Secrets of HTTP checks.  The configuration a probe runs with has, in place of
    the certificates, the bearer token and the password of the settings, exactly what
    resolving their ${secrets.name} gives; without the secret manager they are the texts
    of the settings, and the secret store has no influence on the result. *)
Theorem http_secrets_resolved s c skip :
  buildProbeConfig urlParse getSecret s = Ok (c, skip) →
  Forall2 (λ t t', if cs_SecretManagerEnabled s
                   then t = [] ∧ t' = [] ∨ Resolve (secretResolver getSecret) t = Ok t'
                   else t' = t) (secretTexts s) (configTexts c) ∧
  (cs_SecretManagerEnabled s = false →
   ∀ getSecret' : list ascii → result E (list ascii), buildProbeConfig urlParse getSecret' s = Ok (c, skip)).
Proof.
  intros H. split.
  - assert (Hc : ∃ c0, buildPrometheusHTTPClientConfig urlParse getSecret s = Ok c0 ∧ configTexts c0 = configTexts c).
    { unfold buildProbeConfig in H. destruct (buildPrometheusHTTPClientConfig _ _ s) as [c0|]; [|done].
      exists c0. split; [done|]. cbn in H. repeat case_match; simplify_eq/=; try done.
      destruct (convertOAuth2Config urlParse o); [|done]. cbn in H. by simplify_eq. }
    destruct Hc as (c0 & Hc & <-). apply clientConfig_texts in Hc. eapply Forall2_impl; [exact Hc|].
    intros t t' Ht. unfold resolvesTo, resolveSecretValue in Ht.
    destruct (cs_SecretManagerEnabled s); destruct t as [|a t]; cbn [negb] in Ht; try (injection Ht as <-; auto).
    right. destruct (Resolve (secretResolver getSecret) (a :: t)); congruence.
  - intros Hen g. rewrite <-H. unfold buildProbeConfig.
    assert (Hr : ∀ t, resolveSecretValue g false t = resolveSecretValue getSecret false t) by (by intros []).
    assert (Hb : buildPrometheusHTTPClientConfig urlParse g s = buildPrometheusHTTPClientConfig urlParse getSecret s).
    { unfold buildPrometheusHTTPClientConfig, buildTLSConfig. rewrite Hen, !Hr.
      destruct (cs_TlsConfig s), (cs_BasicAuth s); by rewrite ?Hr. }
    by rewrite Hb.
Qed.
End secretResolution.

(** The client secret of OAuth2 is not resolved. *)
Lemma oauth_secret_is_literal {E url} (urlParse : string → option url) o r :
  convertOAuth2Config (E := E) urlParse o = Ok r → o_ClientSecret r = oa_ClientSecret o.
Proof. unfold convertOAuth2Config. repeat case_match; simpl; intros; simplify_eq; done. Qed.

Definition sampleClient : clientSettings :=
  {| cs_NoFollowRedirects := false; cs_TlsConfig := None; cs_BearerToken := chars "Bearer-${secrets.tok}";
     cs_BasicAuth := None; cs_ProxyURL := ""; cs_ProxyConnectHeaders := []; cs_SecretManagerEnabled := true;
     cs_Oauth2Config := None |}.
Lemma http_secrets_resolved_witness :
  match buildProbeConfig (E := unit) (url := string) Some (λ _, Ok (chars "s3cret")) sampleClient with
  | Ok (c, _) => Resolve (secretResolver (E := unit) (λ _, Ok (chars "s3cret"))) (chars "Bearer-${secrets.tok}") = Ok (hc_BearerToken c)
  | Err _ => False
  end.
Proof.
  destruct (buildProbeConfig (E := unit) (url := string) Some (λ _, Ok (chars "s3cret")) sampleClient) as [[c skip]|] eqn:Ec;
    [|vm_compute in Ec; discriminate].
  destruct (http_secrets_resolved Some (λ _, Ok (chars "s3cret")) sampleClient c skip Ec) as [H _].
  simpl in H. clear Ec. unfold configTexts in H. destruct (hc_TLSConfig c); simpl in H; [by inversion H; simplify_eq; inversion H5|].
  inversion H as [|? ? ? ? [[? ?]|Hr]]; [discriminate|exact Hr].
Defined.

(** ** Modules of the protocol probers *)

Definition enumString (name : list (Z * string)) (v : Z) : string :=
  match list_find (λ p, p.1 = v) name with Some (_, (_, n)) => n | None => itoa v end.
Definition durationMs (ms : Z) : Z := wrap64 (ms * 1000000).

(** [icmp]. *)
Record icmpModule := {
  ic_Timeout : Z; ic_PacketCount : Z; ic_ReqSuccessCount : Z; ic_MaxResolveRetries : Z;
  ic_IPProtocol : string; ic_Fallback : bool; ic_SourceIPAddress : string; ic_PayloadSize : Z;
  ic_DontFragment : bool; ic_Privileged : bool }.
Definition icmp_NewProber (privileged : bool) (c : Check) : option icmpModule :=
  s ← Ping (Settings c);
  let '(p, f) := ToIpProtocol (ping_IpVersion s) in
  Some {| ic_Timeout := durationMs (Timeout c);
          ic_PacketCount := if ping_PacketCount s =? 0 then 3 else ping_PacketCount s;
          ic_ReqSuccessCount := if ping_PacketCount s =? 0 then 1 else ping_PacketCount s;
          ic_MaxResolveRetries := 3; ic_IPProtocol := p; ic_Fallback := f;
          ic_SourceIPAddress := ping_SourceIpAddress s; ic_PayloadSize := ping_PayloadSize s;
          ic_DontFragment := ping_DontFragment s; ic_Privileged := privileged |}.

(** [isPrivilegedRequired]: the result of the first probe without privileges is kept. *)
Definition isPrivilegedRequired (known : option bool) (success : bool) : option bool * bool :=
  match known with Some b => (known, b) | None => (Some (negb success), negb success) end.

(** [tcp]: the expressions are compiled with [regexpCompile]. *)
Record queryResponse := { qr_Expect : string; qr_Send : string }.
Record tcpModule := {
  tm_Timeout : Z; tm_IPProtocol : string; tm_Fallback : bool; tm_SourceIPAddress : string; tm_TLS : bool;
  tm_QueryResponse : list queryResponse; tm_TLSConfig : option promTLSConfig }.
Definition emptyQuery : queryResponse := {| qr_Expect := ""; qr_Send := "" |}.
(** [make([]T, len(l))] and then [append]: the list starts with as many empty entries. *)
Definition tcp_queries (regexpCompile : string → bool) (l : list queryResponse) : option (list queryResponse) :=
  if forallb (λ q, regexpCompile (qr_Expect q)) l then Some (replicate (length l) emptyQuery ++ l) else None.
Definition tcp_NewProber (regexpCompile : string → bool) (queries : list queryResponse) (t : option TLSSettings)
    (c : Check) : option tcpModule :=
  s ← Tcp (Settings c);
  let '(p, f) := ToIpProtocol (tcp_IpVersion s) in
  qs ← tcp_queries regexpCompile queries;
  tc ← match t with None => Some None | Some t => r ← SMtoProm true true true t; Some (Some r) end;
  Some {| tm_Timeout := durationMs (Timeout c); tm_IPProtocol := p; tm_Fallback := f;
          tm_SourceIPAddress := tcp_SourceIpAddress s; tm_TLS := tcp_Tls s; tm_QueryResponse := qs; tm_TLSConfig := tc |}.

(** [grpc]. *)
Record grpcModule := {
  gm_Timeout : Z; gm_IPProtocol : string; gm_Fallback : bool; gm_Service : string; gm_TLS : bool;
  gm_TLSConfig : option promTLSConfig }.
Definition grpc_NewProber (t : option TLSSettings) (c : Check) : option grpcModule :=
  s ← Grpc (Settings c);
  let '(p, f) := ToIpProtocol (grpc_IpVersion s) in
  tc ← match t with None => Some None | Some t => r ← SMtoProm true true true t; Some (Some r) end;
  Some {| gm_Timeout := durationMs (Timeout c); gm_IPProtocol := p; gm_Fallback := f; gm_Service := grpc_Service s;
          gm_TLS := grpc_Tls s; gm_TLSConfig := tc |}.

(** [dns]. *)
Record rrValidator := { rr_FailIf : list string; rr_FailIfNot : list string }.
Record dnsModule := {
  dm_Timeout : Z; dm_IPProtocol : string; dm_Fallback : bool; dm_QueryName : string; dm_QueryType : string;
  dm_SourceIPAddress : string; dm_TransportProtocol : string; dm_Recursion : bool; dm_ValidRcodes : list string;
  dm_Answer : rrValidator; dm_Authority : rrValidator; dm_Additional : rrValidator;
  dm_Retries : Z; dm_RetryTimeout : Z }.
Record dnsProber := { dp_target : string; dp_config : dnsModule; dp_experimental : bool }.
Definition validatorOf (v : option rrValidator) : rrValidator := default {| rr_FailIf := []; rr_FailIfNot := [] |} v.
Definition dns_NewProber (experimental : bool) (answer authority additional : option rrValidator) (c : Check)
    : option dnsProber :=
  s ← Dns (Settings c);
  let '(p, f) := ToIpProtocol (dns_IpVersion s) in
  Some {| dp_target := dns_Server s; dp_experimental := experimental;
          dp_config := {| dm_Timeout := durationMs (Timeout c); dm_IPProtocol := p; dm_Fallback := f;
            dm_QueryName := Target c; dm_QueryType := enumString DnsRecordType_name (dns_RecordType s);
            dm_SourceIPAddress := dns_SourceIpAddress s;
            dm_TransportProtocol := ToLower (enumString DnsProtocol_name (dns_Protocol s)); dm_Recursion := true;
            dm_ValidRcodes := dns_ValidRCodes s; dm_Answer := validatorOf answer; dm_Authority := validatorOf authority;
            dm_Additional := validatorOf additional; dm_Retries := 0; dm_RetryTimeout := 0 |} |}.

(** The retries of the experimental DNS prober, from the time until the deadline. *)
Definition dnsCutoff : Z := 15 * 1000000000.
Definition dnsRetries : Z := 3.
Definition dns_retries (experimental : bool) (budget : option Z) : Z * Z :=
  match experimental, budget with
  | true, Some budget =>
      if dnsCutoff <=? budget then (dnsRetries, Z.quot (wrap64 (budget * 99)) (dnsRetries * 100)) else (0, 0)
  | _, _ => (0, 0)
  end.

(** [traceroute]: both settings of hops set [maxUnknownHops]. *)
Record tracerouteModule := {
  trm_count : Z; trm_timeout : Z; trm_hopTimeout : Z; trm_interval : Z; trm_hopSleep : Z;
  trm_maxHops : Z; trm_maxUnknownHops : Z; trm_ptrLookup : bool; trm_srcAddr : string; trm_ringBufferSize : Z }.
Definition traceroute_module (s : TracerouteSettings) : tracerouteModule :=
  let unknown := 15 in
  let unknown := if 0 <? tr_MaxHops s then tr_MaxHops s else unknown in
  let unknown := if 1 <? tr_MaxUnknownHops s then tr_MaxUnknownHops s else unknown in
  {| trm_count := 5; trm_timeout := 30 * 1000000000;
     trm_hopTimeout := if 0 <? tr_HopTimeout s then tr_HopTimeout s else 500 * 1000000;
     trm_interval := 1; trm_hopSleep := 1; trm_maxHops := 64; trm_maxUnknownHops := unknown;
     trm_ptrLookup := tr_PtrLookup s; trm_srcAddr := ""; trm_ringBufferSize := 50 |}.

(** The maximum of hops of the settings never reaches the prober. *)
Lemma max_hops_ignored s : trm_maxHops (traceroute_module s) = 64.
Proof. done. Qed.

(** The three attempts together take 99% of the budget, up to rounding: of a budget of
    15 seconds, 150 milliseconds are left for all three. *)
Lemma dns_retries_fit budget n t :
  0 ≤ budget → budget * 99 ≤ maxInt64 → dns_retries true (Some budget) = (n, t) → n ≠ 0 →
  n * t ≤ budget * 99 / 100 ∧ budget * 99 / 100 - n * t ≤ 3.
Proof.
  intros H0 Hmax. unfold dns_retries, dnsRetries. destruct (dnsCutoff <=? budget); [|intros [= <- <-]; done].
  rewrite wrap64_id by (unfold int64, minInt64; lia). intros [= <- <-] _.
  rewrite Z.quot_div_nonneg by lia. Z.div_mod_to_equations. lia.
Qed.

(** ** Addresses for ping: [chooseProtocol] *)

(** An address, its family, and what a lookup returns; the error is retryable or not. *)
Inductive family := IP4 | IP6.
Record address := { ip_bytes : list Z; ip_family : family }.
Definition lookupAnswer : Type := result bool (list address).

Definition sameFamily (a b : family) : bool := match a, b with IP4, IP4 | IP6, IP6 => true | _, _ => false end.
Definition preferred (ipProtocol : string) : family :=
  if String.eqb ipProtocol "ip6" || String.eqb ipProtocol "" then IP6 else IP4.
Definition otherFamily (f : family) : family := match f with IP4 => IP6 | IP6 => IP4 end.

(** The loop over the addresses: the first one of the family, or the last one. *)
Fixpoint pickAddress (f : family) (fallback : option address) (ips : list address) : option (address * bool) :=
  match ips with
  | [] => a ← fallback; Some (a, false)
  | a :: ips => if sameFamily (ip_family a) f then Some (a, true) else pickAddress f (Some a) ips
  end.

(** What an answer without error gives: the address and the family the gauge shows.
    Without fallback the resolver was asked for one family. *)
Definition pickAnswer (f : family) (fallback : bool) (ips : list address) : option (address * family) :=
  if negb fallback then match ips with a :: _ => Some (a, f) | [] => None end
  else
    match pickAddress f None ips with
    | Some (a, true) => Some (a, f)
    | Some (a, false) => Some (a, otherFamily f)
    | None => None
    end.

(** Each attempt asks the resolver once; [answers] are what it says, an error with
    whether it can be retried.  An answer without an address ends the loop. *)
Fixpoint chooseProtocol (retries : nat) (f : family) (fallback : bool) (answers : list lookupAnswer)
    {struct answers} : option (address * family) :=
  match answers with
  | [] => None
  | Ok ips :: _ => pickAnswer f fallback ips
  | Err false :: _ => None
  | Err true :: answers =>
      match retries with O => None | S retries => chooseProtocol retries f fallback answers end
  end.

Lemma pickAddress_spec f fb ips :
  match pickAddress f fb ips with
  | Some (a, true) => ∃ l1 l2, ips = l1 ++ a :: l2 ∧ ip_family a = f ∧ Forall (λ b, ip_family b = otherFamily f) l1
  | Some (a, false) => Forall (λ b, ip_family b = otherFamily f) ips ∧ (last ips = Some a ∨ ips = [] ∧ fb = Some a)
  | None => ips = [] ∧ fb = None
  end.
Proof.
  revert fb. induction ips as [|b ips IH]; intros fb; simpl; [destruct fb; simpl; auto|].
  destruct (sameFamily (ip_family b) f) eqn:Eb.
  - exists [], ips. split; [done|]. split; [|constructor]. by destruct (ip_family b), f.
  - assert (Hb : ip_family b = otherFamily f) by (by destruct (ip_family b), f).
    specialize (IH (Some b)). destruct (pickAddress f (Some b) ips) as [[a []]|].
    + destruct IH as (l1 & l2 & -> & Ha & Hl). exists (b :: l1), l2.
      split; [done|]. split; [done|]. by constructor.
    + destruct IH as [Hf [Hl|[-> [= ->]]]]; (split; [by constructor|]); left; [|done].
      by rewrite last_cons, Hl.
    + destruct IH as [_ [=]].
Qed.

(** The resolver answers for one family with addresses of it. *)
Definition answersFor (f : family) (fallback : bool) (answer : lookupAnswer) : Prop :=
  fallback = false → ∀ ips, answer = Ok ips → Forall (λ a, ip_family a = f) ips.

Definition chosen (f : family) (fallback : bool) (ips : list address) (a : address) : Prop :=
  (∃ l1 l2, ips = l1 ++ a :: l2 ∧ ip_family a = f ∧ Forall (λ b, ip_family b = otherFamily f) l1) ∨
  (fallback = true ∧ Forall (λ b, ip_family b = otherFamily f) ips ∧ last ips = Some a).

Lemma pickAnswer_chosen f fallback ips a g :
  answersFor f fallback (Ok ips) → pickAnswer f fallback ips = Some (a, g) → g = ip_family a ∧ chosen f fallback ips a.
Proof.
  intros Hr. unfold pickAnswer, chosen. destruct fallback; simpl.
  - assert (Hp := pickAddress_spec f None ips). destruct (pickAddress f None ips) as [[b []]|]; [..|done]; intros [= <- <-].
    + destruct Hp as (l1 & l2 & -> & Hb & Hl). split; [done|]. left. eauto 10.
    + destruct Hp as [Hf [Hl|[_ [=]]]]. split; [|by right].
      apply last_Some_elem_of in Hl. eapply Forall_forall in Hf; [|exact Hl]. congruence.
  - destruct ips as [|b ips]; [done|]. intros [= <- <-]. specialize (Hr eq_refl _ eq_refl).
    apply Forall_cons in Hr as [Hb _]. split; [congruence|]. left. exists [], ips. split; [done|]. split; [done|constructor].
Qed.

(** The address that is pinged.  At most [retries]+1 lookups are made, and only after
    errors that can be retried; the address comes from the first answer, it is the first
    one of the preferred family, or when falling back is allowed and there is none of it,
    the last one of the other; the gauge shows the family of that address. *)
Theorem ping_address_choice retries f fallback answers a g :
  Forall (answersFor f fallback) answers →
  chooseProtocol retries f fallback answers = Some (a, g) →
  ∃ k ips, (k ≤ retries)%nat ∧ Forall (λ r, r = Err true) (take k answers) ∧ answers !! k = Some (Ok ips) ∧
    g = ip_family a ∧ chosen f fallback ips a.
Proof.
  revert retries. induction answers as [|r answers IH]; intros retries Hfor H; [done|].
  apply Forall_cons in Hfor as [Hr Hfor]. destruct r as [ips|[]]; simpl in H; [| |done].
  - apply pickAnswer_chosen in H as [Hg Hc]; [|done]. exists 0%nat, ips. split; [lia|]. by repeat split.
  - destruct retries as [|retries]; [done|]. destruct (IH retries Hfor H) as (k & ips & Hk & Hf & Ha & Hrest).
    exists (S k), ips. split; [lia|]. split; [by constructor|]. by split.
Qed.

Lemma ping_address_choice_witness :
  let v4 := {| ip_bytes := [127; 0; 0; 1]; ip_family := IP4 |} in
  let v4' := {| ip_bytes := [127; 0; 0; 2]; ip_family := IP4 |} in
  ∃ k ips, (k ≤ 3)%nat ∧ [Err true; Ok [v4; v4']] !! k = Some (Ok ips : lookupAnswer) ∧ chosen IP6 true ips v4'.
Proof.
  intros v4 v4'. destruct (ping_address_choice 3 IP6 true [Err true; Ok [v4; v4']] v4' IP4) as (k & ips & Hk & _ & Ha & _ & Hc).
  - apply Forall_cons; split; [|apply Forall_singleton]; intros [=].
  - reflexivity.
  - exists k, ips. split; [exact Hk|]. split; [exact Ha|exact Hc].
Defined.

(** ** The factory of probers *)

(** The k6 probers: what the runner is given. *)
Record CheckInfo := {
  ci_Type : string; ci_id : Z; ci_tenantID : Z; ci_regionID : Z; ci_created : spec_float; ci_modified : spec_float }.
Definition CheckInfoFromSM (regionId : Z) (c : Check) : go CheckInfo :=
  ct ← Type_ c;
  Ret {| ci_Type := CheckType_String ct; ci_id := Id c; ci_tenantID := TenantId c; ci_regionID := regionId;
         ci_created := Created c; ci_modified := Modified c |}.
Record k6Script := {
  k6_Info : CheckInfo; k6_Script : list ascii; k6_Timeout : Z; k6_Manifest : string }.
(** [None] is [errUnsupportedCheck]; the manifest is that of the channel, if any. *)
Definition scripted_NewProber (manifest : option string) (regionId : Z) (c : Check) : go (option k6Script) :=
  match Scripted (Settings c) with
  | None => Ret None
  | Some s =>
      info ← CheckInfoFromSM regionId c;
      Ret (Some {| k6_Info := info; k6_Script := sc_Script s; k6_Timeout := Timeout c;
                   k6_Manifest := default EmptyString manifest |})
  end.
Definition browser_NewProber (manifest : option string) (regionId : Z) (c : Check) : go (option k6Script) :=
  match Browser (Settings c) with
  | None => Ret None
  | Some s =>
      info ← CheckInfoFromSM regionId c;
      Ret (Some {| k6_Info := info; k6_Script := br_Script s; k6_Timeout := Timeout c;
                   k6_Manifest := default EmptyString manifest |})
  end.

Inductive factoryErr := ErrK6NotEnabled | ErrUnsupportedCheckType | ErrProber.

(** [proberFactory.New]: the type of prober made (the experimental DNS prober has its
    own) and the target; a constructor's success is an input. *)
Inductive proberKind := KindOf (ct : CheckType) | KindExperimentalDns.
Definition factory_New (hasRunner : bool) (features : Collection) (built : bool) (c : Check)
    : go (result factoryErr (proberKind * string)) :=
  ct ← Type_ c;
  let make (k : proberKind) (target : string) := if built then Ok (k, target) else Err ErrProber in
  let k6 := if hasRunner then make (KindOf ct) (Target c) else Err ErrK6NotEnabled in
  match ct with
  | CheckTypeDns =>
      match Dns (Settings c) with
      | None => Panic "nil pointer dereference"
      | Some d => Ret (make (if IsSet "experimental-dns-prober" features then KindExperimentalDns else KindOf ct)
                        (dns_Server d))
      end
  | CheckTypeScripted | CheckTypeBrowser | CheckTypeMultiHttp => Ret k6
  | _ => Ret (make (KindOf ct) (Target c))
  end.

(** ** The static configuration of HTTP checks *)

Record httpModule := {
  hm_IPProtocol : string; hm_Fallback : bool; hm_Body : string; hm_Method : string;
  hm_FailIfSSL : bool; hm_FailIfNotSSL : bool; hm_Headers : gmap string string; hm_Compression : string;
  hm_ValidStatusCodes : list Z; hm_ValidHTTPVersions : list string;
  hm_BodyMatches : list string; hm_BodyNotMatches : list string;
  hm_HeaderMatches : list HeaderMatch; hm_HeaderNotMatches : list HeaderMatch; hm_Timeout : Z }.

Section static.
Variables (regexpCompile : string → bool) (userAgent : string).

Definition compileAll (l : list string) : option (list string) := if forallb regexpCompile l then Some l else None.
Definition compileMatches (l : list HeaderMatch) : option (list HeaderMatch) :=
  if forallb (λ m, regexpCompile (hm_Regexp m)) l then Some l else None.

(** [None] is the error of an expression that does not compile. *)
Definition buildStaticConfig (s : HttpSettings) (headers : list string) (timeout : Z) : option httpModule :=
  let '(p, f) := ToIpProtocol (http_IpVersion s) in
  b1 ← compileAll (http_FailIfBodyMatchesRegexp s);
  b2 ← compileAll (http_FailIfBodyNotMatchesRegexp s);
  h1 ← compileMatches (http_FailIfHeaderMatchesRegexp s);
  h2 ← compileMatches (http_FailIfHeaderNotMatchesRegexp s);
  Some {| hm_IPProtocol := p; hm_Fallback := f; hm_Body := http_Body s;
          hm_Method := enumString HttpMethod_name (http_Method s);
          hm_FailIfSSL := http_FailIfSSL s; hm_FailIfNotSSL := http_FailIfNotSSL s;
          hm_Headers := buildHttpHeaders userAgent headers;
          hm_Compression := if http_Compression s =? 0 then EmptyString
                            else enumString CompressionAlgorithm_name (http_Compression s);
          hm_ValidStatusCodes := http_ValidStatusCodes s; hm_ValidHTTPVersions := http_ValidHTTPVersions s;
          hm_BodyMatches := b1; hm_BodyNotMatches := b2; hm_HeaderMatches := h1; hm_HeaderNotMatches := h2;
          hm_Timeout := timeout |}.

(** [http.NewProber]; the headers are augmented only when there are reserved ones. *)
Definition http_NewProber (reserved : reservedHeaders) (c : Check) : option httpModule :=
  s ← Http (Settings c);
  let headers := match reserved with [] => http_Headers s | _ => augmentHttpHeaders reserved (http_Headers s) end in
  buildStaticConfig s headers (durationMs (Timeout c)).

Lemma forEach_nil {A} (f : A → error verr) l : forEach f l = None ↔ Forall (λ x, f x = None) l.
Proof.
  unfold forEach. induction l as [|x l IH]; simpl; [split; [constructor|done]|].
  by rewrite orElse_nil, IH, Forall_cons.
Qed.
Lemma forEach_forallb {A} (p : A → bool) e l :
  forEach (λ x, failIf (negb (p x)) e) l = None → forallb p l = true.
Proof.
  rewrite forEach_nil. intros H. apply forallb_forall. intros x Hx%list_elem_of_In.
  eapply Forall_forall in H; [|exact Hx]. by apply failIf_nil, negb_false_iff in H.
Qed.

(** Settings that pass validation make a prober, whatever headers are reserved. *)
Lemma valid_http_makes_prober urlParse vn vv reserved c s :
  Http (Settings c) = Some s → HttpSettings_Validate urlParse regexpCompile vn vv s = None →
  is_Some (http_NewProber reserved c).
Proof.
  intros Hs Hv. unfold http_NewProber. rewrite Hs. simpl. unfold HttpSettings_Validate in Hv.
  rewrite !orElse_nil in Hv. destruct Hv as (_ & _ & _ & _ & H1 & H2 & H3 & H4).
  unfold buildStaticConfig, compileAll, compileMatches. destruct (ToIpProtocol (http_IpVersion s)).
  apply (forEach_forallb regexpCompile) in H1, H2.
  apply (forEach_forallb (λ m, regexpCompile (hm_Regexp m))) in H3, H4. rewrite H1, H2, H3, H4. simpl. eauto.
Qed.
End static.
