(* ===== verification/HttpProbe.v ===== *)
(** * The probe of HTTP checks

    [internal/prober/http/http.go]: [Probe], with the cache-busting parameter that it adds
    to the query of the target.  Queries are parsed, escaped and encoded as [net/url] does;
    the split of a URL around its query, the probe of blackbox_exporter and the clock are
    inputs. *)
From stdpp Require Import sorting.
From S2P Require Import Prelude Strs Hash Net Checks Interpolation Features Probers.

Open Scope Z_scope.

(** ** Escaping *)

Definition unreserved (a : ascii) : bool := isLetter a || isDigit a || existsb (Ascii.eqb a) (chars "-_.~").
Definition upperHex (n : N) : ascii := ascii_of_N (if (n <? 10)%N then 48 + n else 55 + n).
Definition escapeByte (a : ascii) : list ascii :=
  if unreserved a then [a]
  else if Ascii.eqb a " " then ["+"%char]
  else ["%"%char; upperHex (code a / 16); upperHex (code a mod 16)].
(** [url.QueryEscape] and [url.QueryUnescape]. *)
Definition QueryEscape (l : list ascii) : list ascii := concat (map escapeByte l).

Definition unhex (a : ascii) : option N :=
  let c := code a in
  if (48 <=? c)%N && (c <=? 57)%N then Some (c - 48)%N
  else if (97 <=? c)%N && (c <=? 102)%N then Some (c - 87)%N
  else if (65 <=? c)%N && (c <=? 70)%N then Some (c - 55)%N
  else None.
Fixpoint QueryUnescape (l : list ascii) : option (list ascii) :=
  match l with
  | [] => Some []
  | a :: l =>
      if Ascii.eqb a "%" then
        match l with
        | h1 :: h2 :: l => n1 ← unhex h1; n2 ← unhex h2; cons (ascii_of_N (n1 * 16 + n2)) <$> QueryUnescape l
        | _ => None
        end
      else cons (if Ascii.eqb a "+" then " "%char else a) <$> QueryUnescape l
  end.

(** ** Queries *)

(** [url.Values]. *)
Notation values := (gmap string (list string)).
Definition addValue (m : values) (kv : string * string) : values := <[kv.1 := default [] (m !! kv.1) ++ [kv.2]]> m.

(** A piece between ampersands; those with a semicolon or a bad escape are dropped. *)
Definition parsePiece (piece : string) : option (string * string) :=
  if string_has ";"%char piece || String.eqb piece "" then None
  else
    let '(k, v) := default (piece, EmptyString) (cut "="%char piece) in
    k ← QueryUnescape (chars k); v ← QueryUnescape (chars v); Some (of_chars k, of_chars v).
Definition parseQuery (query : string) : values := fold_left addValue (omap parsePiece (split "&"%char query)) ∅.

Definition encodePair (kv : string * string) : string :=
  of_chars (QueryEscape (chars kv.1)) +:+ "=" +:+ of_chars (QueryEscape (chars kv.2)).
Definition pairsOf (m : values) : list (string * string) :=
  concat (map (λ k, map (pair k) (default [] (m !! k))) (sortStrings (map fst (map_to_list m)))).
(** [Values.Encode]. *)
Definition Encode (m : values) : string := Strs.join "&" (map encodePair (pairsOf m)).

(** ** Logging

    [prober/logger/adapter.go]: a record of [slog] for a logger of key and value pairs. *)
Record slogRecord := { sr_Level : string; sr_Message : string; sr_Time : string; sr_Attrs : list (string * string) }.
Inductive slogHandler := SlogHandler (Log : list (string * string) → bool).
Definition ToSlog (Log : list (string * string) → bool) : slogHandler := SlogHandler Log.
Definition slog_Enabled (h : slogHandler) (level : Z) : bool := true.
Definition slog_Handle (h : slogHandler) (r : slogRecord) : bool :=
  let '(SlogHandler Log) := h in
  Log ([("level", sr_Level r); ("msg", sr_Message r); ("time", sr_Time r)]%string ++ sr_Attrs r).
(** Attributes and groups of a derived handler are dropped. *)
Definition slog_WithAttrs (h : slogHandler) (attrs : list (string * string)) : slogHandler := h.
Definition slog_WithGroup (h : slogHandler) (name : string) : slogHandler := h.

(** ** The probe *)

(** [strconv.FormatUint(n, 16)]: no leading zeros. *)
Definition lowerHex (n : N) : ascii := ascii_of_N (if (n <? 10)%N then 48 + n else 87 + n).
Fixpoint hexDigits (fuel : nat) (n : Z) : list ascii :=
  match fuel with
  | O => []
  | S fuel => (if n <? 16 then [] else hexDigits fuel (n / 16)) ++ [lowerHex (Z.to_N (n mod 16))]
  end.
Definition FormatHex (n : Z) : string := of_chars (hexDigits 16 n).

Definition hashString (salt str : string) : string :=
  FormatHex (New64a (map byteOf (chars salt ++ chars str))).

(** A URL around its query: what [url.Parse] finds before and after it, and what [String]
    makes of the parts. *)
Record splitURL := { su_before : string; su_RawQuery : string; su_after : string }.

Section probe.
Variable parseURL : string → splitURL.
Variable urlString : splitURL → string.

Definition addCacheBustParam (now : Z) (target paramName salt : string) : string :=
  let u := parseURL target in
  let q := parseQuery (su_RawQuery u) in
  let value := hashString salt (itoa now) in
  let q := <[paramName := [value]]> q in
  urlString {| su_before := su_before u; su_RawQuery := Encode q; su_after := su_after u |}.

(** [Probe]: without a configuration nothing is probed; the duration is always zero. *)
Definition Probe {E C : Type} (paramName : string) (now : Z) (build : result E C) (ProbeHTTP : string → C → bool)
    (target : string) : bool :=
  let target := if String.eqb paramName "" then target else addCacheBustParam now target paramName target in
  match build with
  | Err _ => false
  | Ok cfg => ProbeHTTP target cfg
  end.
End probe.

(** ** Escaping is undone *)

Lemma QueryUnescape_escape a l : QueryUnescape (escapeByte a ++ l) = cons a <$> QueryUnescape l.
Proof. destruct a as [[] [] [] [] [] [] [] []]; reflexivity. Qed.

Lemma QueryUnescape_Escape l : QueryUnescape (QueryEscape l) = Some l.
Proof.
  induction l as [|a l IH]; [done|]. unfold QueryEscape. cbn [map concat].
  rewrite QueryUnescape_escape. fold (QueryEscape l). by rewrite IH.
Qed.

Definition plainByte (a : ascii) : bool := negb (existsb (Ascii.eqb a) (chars "&;=")).
Lemma QueryEscape_plain l : forallb plainByte (QueryEscape l) = true.
Proof.
  induction l as [|a l IH]; [done|]. unfold QueryEscape. cbn [map concat]. rewrite forallb_app. fold (QueryEscape l).
  rewrite IH, andb_true_r. destruct a as [[] [] [] [] [] [] [] []]; reflexivity.
Qed.

Lemma plain_string_has c l : existsb (Ascii.eqb c) (chars "&;=") = true → forallb plainByte l = true →
  string_has c (of_chars l) = false.
Proof.
  intros Hc Hl. unfold string_has. rewrite chars_of_chars. apply not_true_iff_false. rewrite existsb_exists.
  intros (a & Ha & ->%Ascii.eqb_eq). rewrite forallb_forall in Hl. apply Hl in Ha. unfold plainByte in Ha. by rewrite Hc in Ha.
Qed.

Lemma cut_first sep x y : string_has sep x = false → cut sep (x +:+ String sep y) = Some (x, y).
Proof.
  induction x as [|a x IH]; intros H.
  - simpl. by rewrite Ascii.eqb_refl.
  - unfold string_has in H. simpl in H. apply orb_false_iff in H as [Ha Hx]. change ((String a x) +:+ String sep y) with (String a (x +:+ String sep y)).
    cbn [cut]. rewrite Ascii.eqb_sym in Ha. rewrite Ha. by rewrite IH.
Qed.

Lemma parsePiece_encode kv : parsePiece (encodePair kv) = Some kv.
Proof.
  destruct kv as [k v]. unfold parsePiece, encodePair. cbn [fst snd].
  set (ke := of_chars (QueryEscape (chars k))). set (ve := of_chars (QueryEscape (chars v))).
  assert (Hk : ∀ c, existsb (Ascii.eqb c) (chars "&;=") = true → string_has c ke = false).
  { intros c Hc. apply plain_string_has; [done|apply QueryEscape_plain]. }
  assert (Hv : ∀ c, existsb (Ascii.eqb c) (chars "&;=") = true → string_has c ve = false).
  { intros c Hc. apply plain_string_has; [done|apply QueryEscape_plain]. }
  assert (Es : string_has ";"%char (ke +:+ "=" +:+ ve) = false).
  { unfold string_has. rewrite !chars_app, !existsb_app. change (existsb (Ascii.eqb ";") (chars ke)) with (string_has ";"%char ke).
    change (existsb (Ascii.eqb ";") (chars ve)) with (string_has ";"%char ve). by rewrite Hk, Hv. }
  rewrite Es. assert (En : String.eqb (ke +:+ "=" +:+ ve) "" = false) by by destruct ke.
  rewrite En. change (ke +:+ "=" +:+ ve) with (ke +:+ String "=" ve).
  rewrite (cut_first "="%char ke ve) by by apply Hk.
  cbn [orb]. cbv iota. change (default _ (Some (ke, ve))) with (ke, ve). cbv iota beta. unfold ke, ve. rewrite !chars_of_chars, !QueryUnescape_Escape.
  cbn [mbind option_bind]. by rewrite !of_chars_chars.
Qed.

(** ** Encoding is undone *)

(** A query with a list of values for every key, as the parser makes it. *)
Definition valuesOk (m : values) : Prop := map_Forall (λ _ vs, vs ≠ []) m.

Lemma valuesOf_fold l m k :
  fold_left addValue l m !! k =
  match omap (λ kv, if String.eqb kv.1 k then Some kv.2 else None) l with
  | [] => m !! k
  | vs => Some (default [] (m !! k) ++ vs)
  end.
Proof.
  revert m. induction l as [|[k' v] l IH]; intros m; [done|]. cbn [fold_left]. rewrite IH. unfold addValue. cbn [fst snd].
  cbn [omap list_omap fst snd]. destruct (String.eqb_spec k' k) as [->|Hne].
  - rewrite lookup_insert_eq. destruct (omap _ l) as [|w ws]; [done|]. f_equal.
    change (default [] (Some ?x)) with x. by rewrite <-app_assoc.
  - by rewrite lookup_insert_ne.
Qed.

Lemma pairs_of_key k l (m : values) :
  NoDup l → omap (λ kv, if String.eqb kv.1 k then Some kv.2 else None) (concat (map (λ k', map (pair k') (default [] (m !! k'))) l)) =
  if decide (k ∈ l) then default [] (m !! k) else [].
Proof.
  assert (Hone : ∀ k' vs, omap (λ kv : string * string, if String.eqb kv.1 k then Some kv.2 else None) (map (pair k') vs) =
    if String.eqb k' k then vs else []).
  { intros k' vs. induction vs as [|v vs IH]; [by destruct (String.eqb k' k)|]. cbn [map omap list_omap fst snd].
    rewrite IH. by destruct (String.eqb k' k). }
  induction 1 as [|k' l Hn _ IH]; [done|]. cbn [map concat]. rewrite omap_app, Hone, IH.
  destruct (String.eqb_spec k' k) as [->|Hne].
  - rewrite decide_False, decide_True by set_solver. by rewrite app_nil_r.
  - simpl. by apply decide_ext; set_solver.
Qed.

Lemma pairsOf_fold m : valuesOk m → fold_left addValue (pairsOf m) ∅ = m.
Proof.
  intros Hm. apply map_eq. intros k. rewrite valuesOf_fold, lookup_empty. unfold pairsOf.
  assert (Hp : sortStrings (map fst (map_to_list m)) ≡ₚ map fst (map_to_list m)) by (unfold sortStrings; apply merge_sort_Permutation).
  rewrite pairs_of_key by (rewrite Hp; apply NoDup_fst_map_to_list).
  destruct (m !! k) as [vs|] eqn:E.
  - rewrite decide_True.
    + specialize (Hm _ _ E). simpl. by destruct vs.
    + rewrite sortStrings_elem. apply elem_of_map_to_list in E. apply list_elem_of_fmap. by exists (k, vs).
  - rewrite decide_False; [done|]. rewrite sortStrings_elem. intros ([k' vs] & -> & Hin%elem_of_map_to_list)%list_elem_of_fmap.
    simpl in E. congruence.
Qed.

Lemma encodePair_clean kv : string_has "&"%char (encodePair kv) = false.
Proof.
  unfold encodePair. rewrite !string_has_app. rewrite !plain_string_has by (done || apply QueryEscape_plain). done.
Qed.

Lemma parseQuery_Encode m : valuesOk m → parseQuery (Encode m) = m.
Proof.
  intros Hm. unfold parseQuery, Encode. destruct (pairsOf m) as [|kv l] eqn:E.
  - simpl. rewrite <-(pairsOf_fold m Hm), E. done.
  - change "&"%string with (String "&" EmptyString). rewrite split_join.
    + rewrite <-(pairsOf_fold m Hm), E. f_equal. generalize (kv :: l) as l'. clear. induction l' as [|kv l IH]; [done|].
      cbn [map omap list_omap]. rewrite parsePiece_encode. by f_equal.
    + done.
    + apply Forall_map, Forall_true. apply encodePair_clean.
Qed.

Lemma parseQuery_ok s : valuesOk (parseQuery s).
Proof.
  unfold parseQuery. assert (H0 : valuesOk ∅) by apply map_Forall_empty. revert H0. generalize (∅ : values) as m.
  induction (omap parsePiece (split "&"%char s)) as [|kv l IH]; intros m Hm; [done|]. cbn [fold_left]. apply IH.
  unfold addValue. apply map_Forall_insert_2; [|done]. by destruct (default [] (m !! kv.1)).
Qed.

(** ** The target that is probed *)

Section spec.
Variable parseURL : string → splitURL.
Variable urlString : splitURL → string.

(** Cache busting changes one parameter. The URL that is probed has the parts of
    the target before and after the query; parsed back, its query has the hash as the only value of the
    cache-busting parameter, and for every other parameter the values that the target has
    for it, in their order. *)
Theorem cache_bust_query now target paramName salt :
  let u := parseURL target in
  ∃ query, addCacheBustParam parseURL urlString now target paramName salt =
      urlString {| su_before := su_before u; su_RawQuery := query; su_after := su_after u |} ∧
    parseQuery query !! paramName = Some [hashString salt (itoa now)] ∧
    (∀ k, k ≠ paramName → parseQuery query !! k = parseQuery (su_RawQuery u) !! k) ∧
    string_has "#"%char query = false.
Proof.
  intros u. eexists. split; [done|]. rewrite parseQuery_Encode.
  2: { apply map_Forall_insert_2; [done|apply parseQuery_ok]. }
  split; [by rewrite lookup_insert_eq|]. split; [intros k Hk; by rewrite lookup_insert_ne|].
  unfold Encode. set (m := <[_ := _]> _). clearbody m. assert (Hp : ∀ l, string_has "#"%char (of_chars (QueryEscape l)) = false).
  { intros l. unfold string_has. rewrite chars_of_chars. induction l as [|a l IH]; [done|]. unfold QueryEscape. cbn [map concat].
    rewrite existsb_app. fold (QueryEscape l). rewrite IH. by destruct a as [[] [] [] [] [] [] [] []]. }
  assert (Hkv : ∀ kv, string_has "#"%char (encodePair kv) = false).
  { intros kv. unfold encodePair. by rewrite !string_has_app, !Hp. }
  induction (pairsOf m) as [|kv l IH]; [done|]. destruct l as [|kv' l]; [apply Hkv|].
  change (Strs.join "&" (map encodePair (kv :: kv' :: l))) with
    (encodePair kv +:+ "&" +:+ Strs.join "&" (map encodePair (kv' :: l))).
  by rewrite !string_has_app, Hkv, IH.
Qed.

(** What the parser drops is not sent: parameters with a semicolon or a bad escape. *)
Lemma cache_bust_drops :
  parseQuery "a=1;b=2&c=100%&d=5&d" = {["d"%string := ["5"; ""]%string]}.
Proof. by vm_compute. Qed.

(** The hash is written in hexadecimal without leading zeros. *)
Example hash_example : hashString "foo" "bar" = "85944171f73967e8"%string.
Proof. by vm_compute. Qed.
End spec.
