(* ===== verification/Testserver.v ===== *)
(** * The HTTP server of the tests

    [src/internal/prober/http/testserver/testserver.go]: the server that the tests of the
    HTTP prober probe. The URL of a request says what to answer: [URL] writes it and the
    handler, [generator], reads it back.

    The form of a request is what [ParseForm] makes of its query and body; the base64
    decoder and [ParseInt] are written out.  The host of a URL is a parameter. *)
From stdpp Require Import gmap.
From S2P Require Import Prelude Strs Net Header HttpProbe.

Open Scope Z_scope.

Definition MaxBodySize : nat := 1024.
Definition MaxHeaderValueLen : Z := 256.
Definition allowedHeaders : list string :=
  ["age"; "allow"; "date"; "content-encoding"; "content-type"; "expires"; "last-modified"; "location"]%string.

(** ** Base64 without padding, as a stream *)

Definition b64value (a : ascii) : option N :=
  let c := code a in
  if (65 <=? c)%N && (c <=? 90)%N then Some (c - 65)%N
  else if (97 <=? c)%N && (c <=? 122)%N then Some (c - 71)%N
  else if (48 <=? c)%N && (c <=? 57)%N then Some (c + 4)%N
  else if (c =? 43)%N then Some 62%N else if (c =? 47)%N then Some 63%N else None.

(** What [base64.NewDecoder(base64.RawStdEncoding, r)] gives before it fails: whole groups,
    up to one with another character, and the bytes of a last group of two or three. *)
Fixpoint decodeGroups (l : list ascii) : list ascii :=
  match l with
  | a :: b :: c :: d :: l =>
      match b64value a, b64value b, b64value c, b64value d with
      | Some a, Some b, Some c, Some d =>
          [ascii_of_N (a * 4 + b / 16); ascii_of_N (b mod 16 * 16 + c / 4); ascii_of_N (c mod 4 * 64 + d)] ++ decodeGroups l
      | _, _, _, _ => []
      end
  | [a; b; c] =>
      match b64value a, b64value b, b64value c with
      | Some a, Some b, Some c => [ascii_of_N (a * 4 + b / 16); ascii_of_N (b mod 16 * 16 + c / 4)]
      | _, _, _ => []
      end
  | [a; b] =>
      match b64value a, b64value b with Some a, Some b => [ascii_of_N (a * 4 + b / 16)] | _, _ => [] end
  | _ => []
  end%N.
Definition rawDecode (l : list ascii) : list ascii :=
  decodeGroups (List.filter (λ a, negb (bool_decide (code a = 10%N) || bool_decide (code a = 13%N))) l).

(** ** [URL] *)

(** [Headers] in the order in which the map is visited. *)
Record Settings := {
  se_Scheme : string; se_Method : string; se_Status : Z; se_Headers : list (string * string); se_Body : list ascii }.

Definition methodOf (s : Settings) : string := if String.eqb (se_Method s) "" then "GET" else se_Method s.

Definition queryOf (s : Settings) : values :=
  let v : values := <["status"%string := [itoa (se_Status s)]]> {["method"%string := [methodOf s]]} in
  let v := fold_left (λ v h, addValue v ("headers", h.1 +:+ ":" +:+ h.2)%string) (se_Headers s) v in
  match se_Body s with [] => v | l => addValue v ("body"%string, of_chars (base64Std l)) end.

Definition URL (s : Settings) (addr : string) : string :=
  ((if String.eqb (se_Scheme s) "" then "http" else se_Scheme s) +:+ "://" +:+ addr +:+ "/?" +:+ Encode (queryOf s))%string.

(** ** The handler *)

Definition makeSet (l : list string) : gset string := list_to_set (filter (λ s, s ≠ EmptyString) l).
Definition New (AllowedDomains : string) : gset string * gset string :=
  (makeSet (split "," AllowedDomains), makeSet allowedHeaders).

(** [None] is a nil error. *)
Definition processMethod (method : list string) (actual : string) : bool :=
  match method with [] => true | [m] => String.eqb m actual | _ => false end.

(** [strconv.ParseInt(s, 10, 16)]. *)
Definition ParseInt16 (s : string) : option Z :=
  match chars s with
  | [] => None
  | a :: l =>
      if Ascii.eqb a "-" then match l with [] => None | _ => Z.opp <$> parseDigits 32768 0 l end
      else let l := if Ascii.eqb a "+" then l else a :: l in
           match l with [] => None | _ => parseDigits 32767 0 l end
  end.

Definition processStatus (status : list string) : Z :=
  match status with
  | [] => 400
  | [s] => default 400 (ParseInt16 s)
  | _ => 200
  end.

Definition splitHeader (header : string) : string * string :=
  match cut ":" header with
  | Some (k, v) => (TrimSpace k, TrimSpace v)
  | None => (TrimSpace header, EmptyString)
  end.

Section handler.
(** [url.Parse]: the host of a URL. *)
Variable parseHost : string → option string.

Definition sanitizeLocation (loc : string) (allowedDomains : gset string) : bool :=
  if bool_decide (allowedDomains = ∅) then false
  else match parseHost loc with
       | None => false
       | Some host =>
           existsb (λ d, hasSuffix d (ToLower host) && (String.eqb (ToLower host) d || hasSuffix ("." +:+ d) (ToLower host)))
             (elements allowedDomains)
       end.

(** The headers that are set, and whether all are accepted. *)
Fixpoint processHeaders (headers : list string) (domains allowed : gset string) (w : Header) : Header * bool :=
  match headers with
  | [] => (w, true)
  | h :: headers =>
      let '(key, val) := splitHeader h in
      let lcKey := ToLower key in
      if string_has "013"%char val || string_has "010"%char val then (w, false)
      else if bool_decide (lcKey ∈ allowed) then (w, false)
      else if MaxHeaderValueLen <? Z.of_nat (String.length val) then (w, false)
      else if String.eqb lcKey "location" && negb (sanitizeLocation val domains) then (w, false)
      else processHeaders headers domains allowed (Header_Set key val w)
  end.

Inductive refusal := CannotParse | InvalidMethod | CannotProcess | InvalidStatus.
Record response := { rs_StatusCode : Z; rs_Header : Header; rs_Refused : option refusal; rs_Body : list ascii }.

Definition securityHeaders : list (string * string) :=
  [("Alt-Svc", "clear"); ("Cache-Control", "no-cache"); ("Content-Security-Policy", "default-src 'none'");
   ("Cross-Origin-Embedder-Policy", "unsafe-none"); ("Cross-Origin-Opener-Policy", "unsafe-none");
   ("Cross-Origin-Resource-Policy", "same-site"); ("X-Content-Type-Options", "nosniff"); ("X-Frame-Options", "deny")]%string.
Definition setAll (l : list (string * string)) (w : Header) : Header := fold_left (λ w h, Header_Set h.1 h.2 w) l w.

(** The deferred function: [WriteHeader] panics for a code that has not three digits. *)
Definition respond (r : response) : go response :=
  if (rs_StatusCode r <? 100) || (999 <? rs_StatusCode r) then Panic "invalid WriteHeader code" else Ret r.
Definition refuse (w : Header) (why : refusal) : go response :=
  respond {| rs_StatusCode := 400; rs_Header := Header_Set "Content-Type" "application/json" w; rs_Refused := Some why; rs_Body := [] |}.

(** [ParseForm] of a request without a body. *)
Definition ParseForm (query : string) : option values :=
  if forallb (λ piece, String.eqb piece "" || bool_decide (is_Some (parsePiece piece))) (split "&" query)
  then Some (parseQuery query) else None.

(** [generator]: the form is [None] when it does not parse; the text of a refusal is left
    out. *)
Definition generator (domains allowed : gset string) (method : string) (form : option values) : go response :=
  let w := setAll securityHeaders ∅ in
  match form with
  | None => refuse w CannotParse
  | Some form =>
      if negb (processMethod (default [] (form !! "method"%string)) method) then refuse w InvalidMethod
      else
        let '(w, ok) := processHeaders (default [] (form !! "headers"%string)) domains allowed w in
        if negb ok then refuse w CannotProcess
        else
          let code := match form !! "status"%string with Some l => processStatus l | None => 200 end in
          if (code ÷ 100 =? 3) && bool_decide (domains = ∅) && bool_decide (is_Some (form !! "status"%string))
          then refuse w InvalidStatus
          else
            let body := match form !! "body"%string with
                        | Some (b :: _) => take MaxBodySize (rawDecode (chars b))
                        | _ => []
                        end in
            respond {| rs_StatusCode := code; rs_Header := w; rs_Refused := None; rs_Body := body |}
  end.
End handler.

(** ** Base64 *)

#[local] Ltac Zify.zify_post_hook ::= Z.to_euclidean_division_equations.

Lemma b64value_digit n : (n < 64)%N → b64value (base64Digit n) = Some n.
Proof.
  intros Hn. assert (H : forallb (λ k, bool_decide (b64value (base64Digit (N.of_nat k)) = Some (N.of_nat k))) (seq 0 64) = true)
    by (vm_compute; reflexivity).
  rewrite forallb_forall in H. specialize (H (N.to_nat n)). rewrite N2Nat.id in H.
  apply bool_decide_eq_true in H; [done|]. apply in_seq. lia.
Qed.

Lemma base64Digit_not_newline n : (n < 64)%N →
  (bool_decide (code (base64Digit n) = 10%N) || bool_decide (code (base64Digit n) = 13%N)) = false.
Proof.
  intros Hn. assert (H : forallb (λ k, negb (bool_decide (code (base64Digit (N.of_nat k)) = 10%N) ||
    bool_decide (code (base64Digit (N.of_nat k)) = 13%N))) (seq 0 64) = true) by (vm_compute; reflexivity).
  rewrite forallb_forall in H. specialize (H (N.to_nat n)). rewrite N2Nat.id in H.
  apply negb_true_iff. apply H, in_seq. lia.
Qed.

(** Three bytes make four digits, and come back. *)
Lemma digits_bound a b c :
  (code a / 4 < 64 ∧ code a mod 4 * 16 + code b / 16 < 64 ∧ code b mod 16 * 4 + code c / 64 < 64 ∧ code c mod 64 < 64 ∧
   code a mod 4 * 16 < 64 ∧ code b mod 16 * 4 < 64)%N.
Proof. pose proof (code_bound a). pose proof (code_bound b). pose proof (code_bound c). split_and!; lia. Qed.

Lemma group_back a b c :
  ascii_of_N (code a / 4 * 4 + (code a mod 4 * 16 + code b / 16) / 16) = a ∧
  ascii_of_N ((code a mod 4 * 16 + code b / 16) mod 16 * 16 + (code b mod 16 * 4 + code c / 64) / 4) = b ∧
  ascii_of_N ((code b mod 16 * 4 + code c / 64) mod 4 * 64 + code c mod 64) = c ∧
  ascii_of_N (code a / 4 * 4 + (code a mod 4 * 16) / 16) = a ∧
  ascii_of_N ((code a mod 4 * 16 + code b / 16) mod 16 * 16 + (code b mod 16 * 4) / 4) = b.
Proof.
  pose proof (code_bound a). pose proof (code_bound b). pose proof (code_bound c).
  assert (Hc : ∀ n x, n = code x → ascii_of_N n = x) by (intros n x ->; apply Ascii.ascii_N_embedding).
  split_and!; apply Hc; lia.
Qed.

(** A list of bytes is taken three at a time. *)
Lemma triples_ind (P : list ascii → Prop) :
  P [] → (∀ a, P [a]) → (∀ a b, P [a; b]) → (∀ a b c l, P l → P (a :: b :: c :: l)) → ∀ l, P l.
Proof.
  intros H0 H1 H2 H3. fix IH 1. intros [|a [|b [|c l]]]; [done|apply H1|apply H2|apply H3, IH].
Qed.

Lemma decode_triple a b c l :
  decodeGroups (base64 (a :: b :: c :: l)) = a :: b :: c :: decodeGroups (base64 l).
Proof.
  cbn [base64 app]. destruct (digits_bound a b c) as (H1 & H2 & H3 & H4 & _).
  cbn [decodeGroups]. rewrite !b64value_digit by done. destruct (group_back a b c) as (-> & -> & -> & _). done.
Qed.

Lemma base64Std_triple a b c l :
  base64Std (a :: b :: c :: l) =
  [base64Digit (code a / 4); base64Digit (code a mod 4 * 16 + code b / 16);
   base64Digit (code b mod 16 * 4 + code c / 64); base64Digit (code c mod 64)]%N ++ base64Std l.
Proof.
  unfold base64Std. cbn [base64]. rewrite <- app_assoc. do 2 f_equal.
  assert (length (a :: b :: c :: l) mod 3 = length l mod 3)%nat as ->; [|done].
  cbn [length]. replace (S (S (S (length l)))) with (length l + 1 * 3)%nat by lia. apply Nat.Div0.mod_add.
Qed.

(** What is written with padding is read up to its last whole group. *)
Lemma rawDecode_std l : rawDecode (base64Std l) = take (3 * (length l / 3)) l.
Proof.
  assert (Hf : List.filter (λ a, negb (bool_decide (code a = 10%N) || bool_decide (code a = 13%N))) (base64Std l) = base64Std l).
  { induction l as [|a|a b|a b c l IH] using triples_ind; [done|..].
    - destruct (digits_bound a a a) as (H1 & _ & _ & _ & H5 & _). cbn.
      by rewrite !base64Digit_not_newline by done.
    - destruct (digits_bound a b b) as (H1 & H2 & _ & _ & _ & H6). cbn.
      by rewrite !base64Digit_not_newline by done.
    - destruct (digits_bound a b c) as (H1 & H2 & H3 & H4 & _). rewrite base64Std_triple. cbn [app List.filter].
      rewrite !base64Digit_not_newline by done. cbn [negb]. by rewrite IH. }
  unfold rawDecode. rewrite Hf. clear Hf.
  induction l as [|a|a b|a b c l IH] using triples_ind; [done|..].
  - change (base64Std [a]) with [base64Digit (code a / 4); base64Digit (code a mod 4 * 16); "="; "="]%N%char.
    cbn [decodeGroups]. by repeat case_match.
  - change (base64Std [a; b]) with
      [base64Digit (code a / 4); base64Digit (code a mod 4 * 16 + code b / 16); base64Digit (code b mod 16 * 4); "="]%N%char.
    cbn [decodeGroups]. by repeat case_match.
  - rewrite base64Std_triple. cbn [app decodeGroups]. destruct (digits_bound a b c) as (H1 & H2 & H3 & H4 & _).
    rewrite !b64value_digit by done. destruct (group_back a b c) as (-> & -> & -> & _). rewrite IH. cbn [length].
    replace (S (S (S (length l)))) with (length l + 1 * 3)%nat by lia. rewrite Nat.div_add by done.
    replace (3 * (length l / 3 + 1))%nat with (3 + 3 * (length l / 3))%nat by lia. done.
Qed.

(** ** The query *)

Lemma ParseInt16_itoa n : 100 ≤ n ≤ 999 → ParseInt16 (itoa n) = Some n.
Proof.
  intros Hn. assert (H : forallb (λ k, bool_decide (ParseInt16 (itoa (Z.of_nat k)) = Some (Z.of_nat k))) (seq 100 900) = true)
    by (vm_compute; reflexivity).
  rewrite forallb_forall in H. specialize (H (Z.to_nat n)). rewrite Z2Nat.id in H by lia.
  apply bool_decide_eq_true in H; [done|]. apply in_seq. lia.
Qed.

Definition headerLines (s : Settings) : list string := map (λ h, h.1 +:+ ":" +:+ h.2)%string (se_Headers s).

(** The values of one key among pairs of another, or the same. *)
Lemma omap_pairs k k' (vs : list string) :
  omap (λ kv : string * string, if String.eqb kv.1 k then Some kv.2 else None) (map (pair k') vs) =
  if String.eqb k' k then vs else [].
Proof.
  induction vs as [|v vs IH]; [by destruct (String.eqb k' k)|]. cbn [map omap list_omap fst snd].
  rewrite IH. by destruct (String.eqb k' k).
Qed.

Lemma addHeaders s v :
  fold_left (λ v h, addValue v ("headers", h.1 +:+ ":" +:+ h.2)%string) (se_Headers s) v =
  fold_left addValue (map (pair "headers"%string) (headerLines s)) v.
Proof.
  unfold headerLines. revert v. induction (se_Headers s) as [|h l IH]; intros v; [done|]. apply IH.
Qed.

Lemma queryOf_lookup s :
  queryOf s !! "method"%string = Some [methodOf s] ∧ queryOf s !! "status"%string = Some [itoa (se_Status s)] ∧
  default [] (queryOf s !! "headers"%string) = headerLines s ∧
  queryOf s !! "body"%string = match se_Body s with [] => None | l => Some [of_chars (base64Std l)] end.
Proof.
  unfold queryOf. set (v0 := <["status"%string := _]> _). rewrite addHeaders. set (v1 := fold_left addValue _ v0).
  assert (Hone : ∀ k, k ≠ "headers"%string → v1 !! k = v0 !! k).
  { intros k Hk. unfold v1. rewrite valuesOf_fold, omap_pairs. by destruct (String.eqb_spec "headers" k). }
  assert (Hh : default [] (v1 !! "headers"%string) = headerLines s).
  { unfold v1. rewrite valuesOf_fold, omap_pairs, String.eqb_refl. by destruct (headerLines s). }
  assert (H0 : v0 !! "method"%string = Some [methodOf s] ∧ v0 !! "status"%string = Some [itoa (se_Status s)] ∧
    v0 !! "body"%string = None).
  { unfold v0. rewrite lookup_insert_ne, lookup_singleton_eq, lookup_insert_eq by done. by split_and!. }
  destruct H0 as (H1 & H2 & H3). destruct (se_Body s) as [|a l]; [rewrite Hh, !Hone by done; by rewrite H1, H2, H3|].
  unfold addValue. cbn [fst snd]. rewrite !lookup_insert_ne by done. rewrite lookup_insert_eq, Hh, !Hone by done. by rewrite H1, H2, H3.
Qed.

Lemma addValue_ok m kv : valuesOk m → valuesOk (addValue m kv).
Proof. intros Hm. unfold addValue. apply map_Forall_insert_2; [|done]. by destruct (default [] (m !! kv.1)). Qed.

Lemma queryOf_ok s : valuesOk (queryOf s).
Proof.
  assert (H0 : valuesOk (<["status"%string := [itoa (se_Status s)]]> {["method"%string := [methodOf s]]})).
  { apply map_Forall_insert_2; [done|]. by apply map_Forall_singleton. }
  assert (H1 : ∀ l m, valuesOk m →
    valuesOk (fold_left (λ v (h : string * string), addValue v ("headers", h.1 +:+ ":" +:+ h.2)%string) l m)).
  { induction l as [|h l IH]; intros m Hm; [done|]. by apply IH, addValue_ok. }
  unfold queryOf. destruct (se_Body s); [by apply H1|]. by apply addValue_ok, H1.
Qed.

Lemma ParseForm_Encode m : valuesOk m → ParseForm (Encode m) = Some (parseQuery (Encode m)).
Proof.
  intros Hm. unfold ParseForm. assert (forallb (λ piece, String.eqb piece "" || bool_decide (is_Some (parsePiece piece)))
    (split "&" (Encode m)) = true) as ->; [|done].
  unfold Encode. destruct (pairsOf m) as [|kv l]; [done|]. change "&"%string with (String "&" EmptyString).
  rewrite split_join; [|done|apply Forall_map, Forall_true, encodePair_clean].
  apply forallb_forall. intros x (kv' & <- & _)%in_map_iff. rewrite parsePiece_encode.
  by rewrite bool_decide_eq_true_2, orb_true_r.
Qed.

(** ** Headers *)

(** A header that the handler sets as it is written. *)
Definition plainHeader (h : string * string) : Prop :=
  string_has ":" h.1 = false ∧ TrimSpace h.1 = h.1 ∧ TrimSpace h.2 = h.2 ∧
  string_has "013"%char h.2 = false ∧ string_has "010"%char h.2 = false ∧
  ToLower h.1 ∉ allowedHeaders ∧ Z.of_nat (String.length h.2) ≤ MaxHeaderValueLen.

Lemma makeSet_elem l x : x ∈ makeSet l ↔ x ∈ l ∧ x ≠ EmptyString.
Proof. unfold makeSet. rewrite elem_of_list_to_set, list_elem_of_filter. tauto. Qed.

Lemma processHeaders_plain parseHost domains w l :
  Forall plainHeader l →
  processHeaders parseHost (map (λ h, h.1 +:+ ":" +:+ h.2)%string l) domains (makeSet allowedHeaders) w = (setAll l w, true).
Proof.
  intros Hl. revert w. induction Hl as [|[k v] l (Hc & Hk & Hv & Hcr & Hlf & Ha & Hlen) _ IH]; intros w; [done|].
  cbn [map processHeaders fst snd]. unfold splitHeader. change (k +:+ ":" +:+ v)%string with (k +:+ String ":" v)%string.
  rewrite cut_first by done. simpl in *. rewrite Hk, Hv, Hcr, Hlf. cbn [orb].
  rewrite bool_decide_eq_false_2 by (rewrite makeSet_elem; tauto).
  rewrite (proj2 (Z.ltb_ge _ _)) by done.
  destruct (String.eqb_spec (ToLower k) "location") as [E|_]; [|by apply IH].
  destruct Ha. rewrite E. by repeat (apply elem_of_cons; first [left; reflexivity|right]).
Qed.

(** The server answers what the URL asks for.  For settings with a status of three digits
    and headers the handler takes, a request for the URL with their method is answered with
    this status, these headers after the fixed ones, and the body up to the last group of
    three bytes within its first 1024: [URL] pads the body, and the handler reads it
    without padding.  A redirect is only answered when domains are allowed. *)
Theorem settings_served parseHost domains s :
  100 ≤ se_Status s ≤ 999 → Forall plainHeader (se_Headers s) →
  (se_Status s ÷ 100 = 3 → (New domains).1 ≠ ∅) →
  generator parseHost (New domains).1 (New domains).2 (methodOf s) (ParseForm (Encode (queryOf s))) =
  Ret {| rs_StatusCode := se_Status s; rs_Header := setAll (se_Headers s) (setAll securityHeaders ∅); rs_Refused := None;
         rs_Body := take MaxBodySize (take (3 * (length (se_Body s) / 3)) (se_Body s)) |}.
Proof.
  intros Hst Hh Hred. rewrite (ParseForm_Encode _ (queryOf_ok s)), (parseQuery_Encode _ (queryOf_ok s)).
  destruct (queryOf_lookup s) as (Em & Es & Eh & Eb). unfold generator. rewrite Em, Es, Eh, Eb.
  change (default [] (Some [methodOf s])) with [methodOf s]. unfold processMethod. rewrite String.eqb_refl. cbn [negb].
  unfold headerLines, New. cbn [fst snd]. rewrite processHeaders_plain by done. cbn [negb processStatus].
  rewrite ParseInt16_itoa by done. change (default 400 (Some (se_Status s))) with (se_Status s).
  assert ((se_Status s ÷ 100 =? 3) && bool_decide (makeSet (split "," domains) = ∅) = false) as ->.
  { destruct (Z.eqb_spec (se_Status s ÷ 100) 3) as [E|]; [|done]. apply bool_decide_eq_false. by apply Hred. }
  cbn [andb]. unfold respond. cbn [rs_StatusCode].
  rewrite (proj2 (Z.ltb_ge _ _)), (proj2 (Z.ltb_ge _ _)) by lia. cbn [orb]. do 2 f_equal.
  destruct (se_Body s) as [|a l]; [done|]. by rewrite chars_of_chars, rawDecode_std.
Qed.

(** ** Instances *)

Definition example_settings : Settings :=
  {| se_Scheme := ""; se_Method := ""; se_Status := 200; se_Headers := [("X-Test", "a b")]%string; se_Body := chars "four" |}.

(** The last byte of a body of four is lost. *)
Lemma settings_served_witness :
  ∃ r, generator (λ _, None) (New "").1 (New "").2 "GET" (ParseForm (Encode (queryOf example_settings))) = Ret r ∧
    rs_StatusCode r = 200 ∧ rs_Body r = chars "fou".
Proof.
  eexists. split; [apply (settings_served (λ _, None) "" example_settings)|split; reflexivity].
  - split; vm_compute; discriminate.
  - constructor; [|constructor]. split_and!; try reflexivity; [|vm_compute; discriminate].
    apply (bool_decide_unpack _). vm_compute. exact I.
  - vm_compute. discriminate.
Defined.

(** Exactly the headers of the list of allowed ones are refused, so [sanitizeLocation] is
    never called. *)
Lemma allowed_headers_refused parseHost domains h w :
  ToLower (splitHeader h).1 ∈ allowedHeaders → ToLower (splitHeader h).1 ≠ EmptyString →
  (processHeaders parseHost [h] (New domains).1 (New domains).2 w).2 = false.
Proof.
  intros Ha Hne. cbn [processHeaders]. destruct (splitHeader h) as [key val]. simpl in *.
  destruct (_ || _); [done|]. by rewrite bool_decide_eq_true_2 by by apply makeSet_elem.
Qed.

(** Settings without a status make the handler panic. *)
Lemma default_status_panics parseHost domains :
  generator parseHost (New domains).1 (New domains).2 "GET"
    (Some (queryOf {| se_Scheme := ""; se_Method := ""; se_Status := 0; se_Headers := []; se_Body := [] |})) =
  Panic "invalid WriteHeader code".
Proof. unfold generator. simpl. done. Qed.
