(* ===== verification/DnsProbe.v ===== *)
(** * Probing a DNS server

    The prober of DNS checks, [internal/prober/dns/internal/bbe/prober/dns.go] and
    [utils.go] (a copy of blackbox_exporter's, changed to retry), and its use in
    [internal/prober/dns/dns.go]: the query that is made of the configuration, the
    attempts, and the validation of the response.

    The tables of the DNS library, the resolver and the answers of the server are
    inputs; the regular expressions of Go's [regexp] are a parameter. *)
From S2P Require Import Prelude Strs Net Checks Validate Features Probers.

Open Scope Z_scope.

(** ** Resource records *)

(** A record as [String] shows it, and the serial of a SOA record. *)
Record RR := { rr_String : string; rr_Serial : option Z }.

Record DNSRRValidator := {
  FailIfMatchesRegexp : list string; FailIfAllMatchRegexp : list string;
  FailIfNotMatchesRegexp : list string; FailIfNoneMatchesRegexp : list string }.

Section dns.
(** [regexp.MatchString]: [None] is an error. *)
Variable MatchString : string → string → option bool.
(** [dns.StringToRcode], [StringToClass], [StringToType], and constants of the library. *)
Variables StringToRcode StringToClass StringToType : string → option Z.
Variables ClassINET TypeANY TypeSOA : Z.

(** One of the four loops over expressions: an error ends the validation, and so does
    an outcome that [stop] picks; otherwise the outcomes are given. *)
Fixpoint regexps (stop : bool → bool) (res : list string) (s : string) : option (list bool) :=
  match res with
  | [] => Some []
  | re :: res =>
      m ← MatchString re s;
      if stop m then None else ms ← regexps stop res s; Some (m :: ms)
  end.

Definition never (m : bool) : bool := false.

(** The loop over the records, with [allMatch] and [anyMatch]. *)
Fixpoint validRRs_loop (v : DNSRRValidator) (rrs : list RR) (allMatch anyMatch : bool) : option (bool * bool) :=
  match rrs with
  | [] => Some (allMatch, anyMatch)
  | rr :: rrs =>
      let s := rr_String rr in
      _ ← regexps id (FailIfMatchesRegexp v) s;
      all ← regexps never (FailIfAllMatchRegexp v) s;
      _ ← regexps negb (FailIfNotMatchesRegexp v) s;
      any ← regexps never (FailIfNoneMatchesRegexp v) s;
      validRRs_loop v rrs (allMatch && forallb id all) (anyMatch || existsb id any)
  end.

Definition nonEmpty {A} (l : list A) : bool := match l with [] => false | _ => true end.

Definition validRRs (rrs : list RR) (v : DNSRRValidator) : bool :=
  if negb (nonEmpty rrs) && nonEmpty (FailIfNotMatchesRegexp v) then false
  else if negb (nonEmpty rrs) && nonEmpty (FailIfNoneMatchesRegexp v) then false
  else match validRRs_loop v rrs true false with
       | None => false
       | Some (allMatch, anyMatch) =>
           if nonEmpty (FailIfAllMatchRegexp v) && negb allMatch then false
           else if nonEmpty (FailIfNoneMatchesRegexp v) && negb anyMatch then false
           else true
       end.

(** [validRcode]: [None] is the nil list. *)
Definition validRcode (rcode : Z) (valid : option (list string)) : bool :=
  match valid with
  | None => bool_decide (rcode = default 0 (StringToRcode "NOERROR"))
  | Some names =>
      match mapM StringToRcode names with
      | None => false
      | Some codes => bool_decide (rcode ∈ codes)
      end
  end.

(** ** The query *)

(** [config.DNSProbe], without its TLS configuration, which is library data. *)
Record DNSProbe := {
  IPProtocol : string; IPProtocolFallback : bool; DNSOverTLS : bool; SourceIPAddress : string;
  TransportProtocol : string; QueryClass : string; QueryName : string; QueryType : string;
  Recursion : bool; ValidRcodes : option (list string);
  ValidateAnswer : DNSRRValidator; ValidateAuthority : DNSRRValidator; ValidateAdditional : DNSRRValidator;
  Retries : Z; RetryTimeout : Z }.

Inductive probeErr :=
  | ErrQueryClass | ErrQueryType | ErrTransport | ErrResolve | ErrTLSConfig | ErrSourceIP
  | ErrDeadline | ErrQuery | ErrRcode | ErrAnswer | ErrAuthority | ErrAdditional | ErrRetries.

(** What the attempts use: the address, the protocol and the question, whose name the
    library makes fully qualified. *)
Record query := {
  q_ip : address; q_port : string; q_dialProtocol : string; q_name : string; q_type : Z; q_class : Z;
  q_recursion : bool;
  q_serverName : option string  (** the default name for TLS *) }.

(** [chooseProtocol] of [utils.go]: the address of the server and the family that the
    gauge shows. Without fallback, an answer without addresses gives no address and no
    error. *)
Definition chooseServer (m : DNSProbe) (answer : lookupAnswer) : result probeErr (option (address * family)) :=
  match answer with
  | Err _ => Err ErrResolve
  | Ok ips =>
      match pickAnswer (preferred (IPProtocol m)) (IPProtocolFallback m) ips with
      | Some r => Ok (Some r)
      | None => if IPProtocolFallback m then Err ErrResolve else Ok None
      end
  end.

Definition defaultPort (m : DNSProbe) : string := if DNSOverTLS m then "853" else "53".

(** The part before the attempts: [tlsOk] is whether the TLS configuration can be made. *)
Definition makeQuery (m : DNSProbe) (target : string) (answer : lookupAnswer) (tlsOk : bool)
    : go (result probeErr query) :=
  let qc := if String.eqb (QueryClass m) "" then Some ClassINET else StringToClass (QueryClass m) in
  let qt := if String.eqb (QueryType m) "" then Some TypeANY else StringToType (QueryType m) in
  match qc, qt with
  | None, _ => Ret (Err ErrQueryClass)
  | _, None => Ret (Err ErrQueryType)
  | Some qc, Some qt =>
      let transport := if String.eqb (TransportProtocol m) "" then "udp" else TransportProtocol m in
      if negb (String.eqb transport "udp" || String.eqb transport "tcp") then Ret (Err ErrTransport)
      else
        let '(targetAddr, port) := default (target, defaultPort m) (SplitHostPort target) in
        match chooseServer m answer with
        | Err e => Ret (Err e)
        | Ok None => Panic "invalid memory address or nil pointer dereference"
        | Ok (Some (ip, _)) =>
            let dial := transport +:+ (match ip_family ip with IP4 => "4" | IP6 => "6" end) in
            if DNSOverTLS m && negb (String.eqb transport "tcp") then Ret (Err ErrTransport)
            else if DNSOverTLS m && negb tlsOk then Ret (Err ErrTLSConfig)
            else if negb (String.eqb (SourceIPAddress m) "") && negb (ParseIP (SourceIPAddress m))
            then Ret (Err ErrSourceIP)
            else Ret (Ok {| q_ip := ip; q_port := port;
                            q_dialProtocol := if DNSOverTLS m then dial +:+ "-tls" else dial;
                            q_name := QueryName m; q_type := qt; q_class := qc;
                            q_recursion := Recursion m;
                            q_serverName := if DNSOverTLS m then Some targetAddr else None |})
        end
  end%string.

(** ** The attempts *)

Record response := { Rcode : Z; Answer : list RR; Ns : list RR; Extra : list RR }.

(** How an exchange with the server ends: with a response, with an error that is the
    deadline of the context, with another timeout, or with another error. *)
Inductive exchange := Response (r : response) | DeadlineExceeded | TimedOut | Failed.

(** The gauges of the probe. *)
Record gauges := {
  answer_rrs : Z; authority_rrs : Z; additional_rrs : Z; query_succeeded : bool; dns_serial : option Z }.
Definition noGauges : gauges :=
  {| answer_rrs := 0; authority_rrs := 0; additional_rrs := 0; query_succeeded := false; dns_serial := None |}.

(** A registered serial gauge shows 0 until a SOA record sets it. *)
Definition serialOf (answer : list RR) : Z := default 0 (last (omap rr_Serial answer)).

Definition gaugesOf (qt : Z) (r : response) : gauges :=
  {| answer_rrs := Z.of_nat (length (Answer r)); authority_rrs := Z.of_nat (length (Ns r));
     additional_rrs := Z.of_nat (length (Extra r)); query_succeeded := true;
     dns_serial := if qt =? TypeSOA then Some (serialOf (Answer r)) else None |}.

(** The validation of a response. *)
Definition validate_response (m : DNSProbe) (r : response) : option probeErr :=
  if negb (validRcode (Rcode r) (ValidRcodes m)) then Some ErrRcode
  else if negb (validRRs (Answer r) (ValidateAnswer m)) then Some ErrAnswer
  else if negb (validRRs (Ns r) (ValidateAuthority m)) then Some ErrAuthority
  else if negb (validRRs (Extra r) (ValidateAdditional m)) then Some ErrAdditional
  else None.

(** The loop of retries, [n] attempts to go: [exchanges] are how they end. The result is
    [None] when it needs more of them. *)
Fixpoint attempts (m : DNSProbe) (qt : Z) (n : nat) (exchanges : list exchange) : option (option probeErr * gauges) :=
  match n, exchanges with
  | O, _ => Some (Some ErrRetries, noGauges)
  | S _, [] => None
  | S n, x :: exchanges =>
      match x with
      | DeadlineExceeded => Some (Some ErrDeadline, noGauges)
      | TimedOut => attempts m qt n exchanges
      | Failed => Some (Some ErrQuery, noGauges)
      | Response r => Some (validate_response m r, gaugesOf qt r)
      end
  end.

(** [ProbeDNSWithError]: no error is success. *)
Definition ProbeDNSWithError (m : DNSProbe) (target : string) (answer : lookupAnswer) (tlsOk : bool)
    (exchanges : list exchange) : go (option (option probeErr * gauges)) :=
  q ← makeQuery m target answer tlsOk;
  Ret match q with
      | Err e => Some (Some e, noGauges)
      | Ok q => attempts m (q_type q) (Z.to_nat (Retries m + 1)) exchanges
      end.

(** ** DNS checks *)

(** The module the agent makes of a check, in the terms of the prober. *)
Definition validatorFrom (v : rrValidator) : DNSRRValidator :=
  {| FailIfMatchesRegexp := rr_FailIf v; FailIfAllMatchRegexp := [];
     FailIfNotMatchesRegexp := rr_FailIfNot v; FailIfNoneMatchesRegexp := [] |}.
Definition moduleFrom (m : dnsModule) (budget : Z * Z) : DNSProbe :=
  {| IPProtocol := dm_IPProtocol m; IPProtocolFallback := dm_Fallback m; DNSOverTLS := false;
     SourceIPAddress := dm_SourceIPAddress m; TransportProtocol := dm_TransportProtocol m;
     QueryClass := ""; QueryName := dm_QueryName m; QueryType := dm_QueryType m; Recursion := dm_Recursion m;
     ValidRcodes := match dm_ValidRcodes m with [] => None | l => Some l end;
     ValidateAnswer := validatorFrom (dm_Answer m); ValidateAuthority := validatorFrom (dm_Authority m);
     ValidateAdditional := validatorFrom (dm_Additional m);
     Retries := budget.1; RetryTimeout := budget.2 |}.

(** [Prober.Probe], with the time until the deadline of its context. *)
Definition Probe (p : dnsProber) (budget : option Z) (answer : lookupAnswer) (exchanges : list exchange)
    : go (option (option probeErr * gauges)) :=
  ProbeDNSWithError (moduleFrom (dp_config p) (dns_retries (dp_experimental p) budget)) (dp_target p) answer
    true exchanges.

(** ** What the validation accepts *)

(** All expressions of a list can be matched against a record, with the outcome [b]. *)
Definition allAre (b : bool) (res : list string) (rr : RR) : Prop :=
  Forall (λ re, MatchString re (rr_String rr) = Some b) res.
Definition compiles (res : list string) (rr : RR) : Prop :=
  Forall (λ re, is_Some (MatchString re (rr_String rr))) res.

(** What a section of a response must satisfy. *)
Record validSection (v : DNSRRValidator) (rrs : list RR) : Prop := {
  vs_required : rrs = [] → FailIfNotMatchesRegexp v = [] ∧ FailIfNoneMatchesRegexp v = [];
  vs_matches : Forall (allAre false (FailIfMatchesRegexp v)) rrs;
  vs_not_matches : Forall (allAre true (FailIfNotMatchesRegexp v)) rrs;
  vs_all : Forall (allAre true (FailIfAllMatchRegexp v)) rrs;
  vs_none : Forall (compiles (FailIfNoneMatchesRegexp v)) rrs ∧
    (FailIfNoneMatchesRegexp v ≠ [] →
     ∃ rr re, rr ∈ rrs ∧ re ∈ FailIfNoneMatchesRegexp v ∧ MatchString re (rr_String rr) = Some true);
}.

Lemma regexps_stop (b : bool) res s :
  is_Some (regexps (λ m, if b then negb m else m) res s) ↔ Forall (λ re, MatchString re s = Some b) res.
Proof.
  induction res as [|re res IH]; [split; [constructor|by eexists]|]. rewrite Forall_cons, <-IH. simpl.
  destruct (MatchString re s) as [m|]; simpl; [|split; [by intros [? ?]|naive_solver]].
  destruct b, m; simpl; try (split; [by intros [? ?]|naive_solver]).
  all: destruct (regexps _ res s); simpl; split; naive_solver.
Qed.

Lemma regexps_never res s ms :
  regexps never res s = Some ms ↔ Forall2 (λ re m, MatchString re s = Some m) res ms.
Proof.
  revert ms. induction res as [|re res IH]; intros ms; simpl.
  { split; [intros [= <-]; constructor|]. by inversion 1. }
  destruct (MatchString re s) as [m|] eqn:E; simpl.
  - destruct (regexps never res s) as [ms'|] eqn:Er; simpl.
    + split.
      * intros [= <-]. constructor; [done|by apply IH].
      * inversion 1 as [|? m' ? ms'' Hm Hms]; subst. apply IH in Hms. congruence.
    + split; [done|]. inversion 1 as [|? m' ? ms'' Hm Hms]; subst. apply IH in Hms. congruence.
  - split; [done|]. inversion 1; congruence.
Qed.

Lemma forallb_outcomes res s ms :
  Forall2 (λ re m, MatchString re s = Some m) res ms →
  (forallb id ms = true ↔ Forall (λ re, MatchString re s = Some true) res) ∧
  (existsb id ms = true ↔ ∃ re, re ∈ res ∧ MatchString re s = Some true).
Proof.
  induction 1 as [|re m res ms Hm _ [IH1 IH2]]; [split; [done|set_solver]|]. simpl.
  rewrite andb_true_iff, orb_true_iff, Forall_cons, IH1, IH2, Hm. unfold id. split.
  - naive_solver.
  - split.
    + intros [->|(re' & Hin & E)]; [exists re|exists re']; split; set_solver.
    + intros (re' & [->|Hin]%elem_of_cons & E); [left; congruence|right; eauto].
Qed.

(** The loop ends with the flags exactly when nothing stopped it. *)
Lemma validRRs_loop_spec v rrs all any r :
  validRRs_loop v rrs all any = Some r ↔
  Forall (allAre false (FailIfMatchesRegexp v)) rrs ∧ Forall (allAre true (FailIfNotMatchesRegexp v)) rrs ∧
  Forall (compiles (FailIfAllMatchRegexp v)) rrs ∧ Forall (compiles (FailIfNoneMatchesRegexp v)) rrs ∧
  (r.1 = true ↔ all = true ∧ Forall (allAre true (FailIfAllMatchRegexp v)) rrs) ∧
  (r.2 = true ↔ any = true ∨
     ∃ rr re, rr ∈ rrs ∧ re ∈ FailIfNoneMatchesRegexp v ∧ MatchString re (rr_String rr) = Some true).
Proof.
  revert all any. induction rrs as [|rr rrs IH]; intros all any; simpl.
  { split.
    - intros [= <-]. simpl. split_and!; try constructor; try tauto; set_solver.
    - intros (_ & _ & _ & _ & H1 & H2). destruct r as [a b]. simpl in *. f_equal. f_equal.
      + apply eq_true_iff_eq. rewrite H1. split; [by split|by intros [? _]].
      + apply eq_true_iff_eq. rewrite H2. split; [by left|].
        intros [?|(rr & re & Hin & _)]; [done|by apply not_elem_of_nil in Hin]. }
  rewrite !Forall_cons.
  pose proof (regexps_stop false (FailIfMatchesRegexp v) (rr_String rr)) as Hf.
  pose proof (regexps_stop true (FailIfNotMatchesRegexp v) (rr_String rr)) as Ht. simpl in Hf, Ht.
  change (λ m : bool, m) with (@id bool) in Hf. change (λ m : bool, negb m) with negb in Ht.
  assert (Hc : ∀ res, is_Some (regexps never res (rr_String rr)) ↔ compiles res rr).
  { intros res. unfold compiles. split.
    - intros [ms Hms%regexps_never]. induction Hms; constructor; eauto.
    - induction 1 as [|re res [m Hm] _ [ms IHm]]; simpl; [eauto|]. rewrite Hm. simpl. rewrite IHm. simpl. eauto. }
  destruct (regexps id (FailIfMatchesRegexp v) (rr_String rr)) as [ms1|]; simpl.
  2: { split; [done|]. intros ((H1 & _) & _). by apply Hf in H1 as [? ?]. }
  pose proof (Hc (FailIfAllMatchRegexp v)) as Hc1. pose proof (Hc (FailIfNoneMatchesRegexp v)) as Hc2.
  destruct (regexps never (FailIfAllMatchRegexp v) (rr_String rr)) as [ms2|] eqn:E2; simpl.
  2: { split; [done|]. intros (_ & _ & (H1 & _) & _). by apply Hc1 in H1 as [? ?]. }
  destruct (regexps negb (FailIfNotMatchesRegexp v) (rr_String rr)) as [ms3|]; simpl.
  2: { split; [done|]. intros (_ & (H1 & _) & _). by apply Ht in H1 as [? ?]. }
  destruct (regexps never (FailIfNoneMatchesRegexp v) (rr_String rr)) as [ms4|] eqn:E4; simpl.
  2: { split; [done|]. intros (_ & _ & _ & (H1 & _) & _). by apply Hc2 in H1 as [? ?]. }
  apply regexps_never, forallb_outcomes in E2 as [E2 _]. apply regexps_never, forallb_outcomes in E4 as [_ E4].
  rewrite IH, andb_true_iff, orb_true_iff, E2, E4.
  assert (H1 : allAre false (FailIfMatchesRegexp v) rr) by (apply Hf; eauto).
  assert (H3 : allAre true (FailIfNotMatchesRegexp v) rr) by (apply Ht; eauto).
  assert (H2 : compiles (FailIfAllMatchRegexp v) rr) by (apply Hc1; eauto).
  assert (H4 : compiles (FailIfNoneMatchesRegexp v) rr) by (apply Hc2; eauto).
  assert (Hex : (∃ rr' re, rr' ∈ rr :: rrs ∧ re ∈ FailIfNoneMatchesRegexp v ∧ MatchString re (rr_String rr') = Some true) ↔
    (∃ re, re ∈ FailIfNoneMatchesRegexp v ∧ MatchString re (rr_String rr) = Some true) ∨
    (∃ rr' re, rr' ∈ rrs ∧ re ∈ FailIfNoneMatchesRegexp v ∧ MatchString re (rr_String rr') = Some true)).
  { split.
    - intros (rr' & re & [->|Hin]%elem_of_cons & ? & ?); [left|right]; eauto.
    - intros [(re & ? & ?)|(rr' & re & ? & ? & ?)]; [exists rr, re|exists rr', re]; set_solver. }
  rewrite Hex. unfold allAre in *. tauto.
Qed.

(** A list of records is valid when no record matches the first list, all match the
    third, some match the last - and all match the second, whose name says the contrary. *)
Lemma validRRs_spec rrs v : validRRs rrs v = true ↔ validSection v rrs.
Proof.
  unfold validRRs. destruct (negb (nonEmpty rrs) && nonEmpty (FailIfNotMatchesRegexp v)) eqn:E1.
  { apply andb_true_iff in E1 as [Hr Hn]. split; [done|]. intros [H1 _ _ _ _]. destruct rrs; [|done].
    destruct (H1 eq_refl) as [E _]. by rewrite E in Hn. }
  destruct (negb (nonEmpty rrs) && nonEmpty (FailIfNoneMatchesRegexp v)) eqn:E2.
  { apply andb_true_iff in E2 as [Hr Hn]. split; [done|]. intros [H1 _ _ _ _]. destruct rrs; [|done].
    destruct (H1 eq_refl) as [_ E]. by rewrite E in Hn. }
  assert (Hreq : rrs = [] → FailIfNotMatchesRegexp v = [] ∧ FailIfNoneMatchesRegexp v = []).
  { intros ->. by destruct (FailIfNotMatchesRegexp v), (FailIfNoneMatchesRegexp v). }
  assert (Hall : Forall (allAre true (FailIfAllMatchRegexp v)) rrs → Forall (compiles (FailIfAllMatchRegexp v)) rrs).
  { intros H. eapply Forall_impl; [exact H|]. intros rr Hrr. eapply Forall_impl; [exact Hrr|]. intros re ->. eauto. }
  assert (Hnil : FailIfAllMatchRegexp v = [] → Forall (allAre true (FailIfAllMatchRegexp v)) rrs).
  { intros ->. apply Forall_forall. intros. constructor. }
  destruct (validRRs_loop v rrs true false) as [[all any]|] eqn:El.
  - apply validRRs_loop_spec in El as (H1 & H2 & H3 & H4 & Ha & Hy). simpl in Ha, Hy. split.
    + intros Hok. split; try done.
      * apply Ha. destruct (FailIfAllMatchRegexp v) eqn:E; simpl in Hok; [|by destruct all].
        apply Ha. split; [done|]. by apply Hnil.
      * split; [done|]. intros Hne. assert (Hany : any = true).
        { destruct (FailIfNoneMatchesRegexp v); [done|]. by destruct (_ && negb all), any. }
        apply Hy in Hany as [?|?]; done.
    + intros [_ _ _ V4 [_ V5]]. rewrite (proj2 Ha) by done. rewrite andb_false_r.
      destruct (FailIfNoneMatchesRegexp v) eqn:E; [done|].
      by rewrite (proj2 Hy) by (right; apply V5; done).
  - split; [done|]. intros [V1 V2 V3 V4 [V5 V6]]. exfalso.
    assert (Hs : ∃ r, validRRs_loop v rrs true false = Some r); [|naive_solver].
    pose (hit rr re := match MatchString re (rr_String rr) with Some m => m | None => false end).
    assert (Hb : existsb (λ rr, existsb (hit rr) (FailIfNoneMatchesRegexp v)) rrs = true ↔
      ∃ rr re, rr ∈ rrs ∧ re ∈ FailIfNoneMatchesRegexp v ∧ MatchString re (rr_String rr) = Some true).
    { rewrite existsb_exists. setoid_rewrite existsb_exists. unfold hit. split.
      - intros (rr & Hin & re & Hre & E). exists rr, re. rewrite !list_elem_of_In. by destruct (MatchString re _) as [[]|].
      - intros (rr & re & Hin & Hre & E). exists rr. rewrite list_elem_of_In in Hin. split; [done|].
        exists re. rewrite list_elem_of_In in Hre. by rewrite E. }
    eexists (true, _). apply validRRs_loop_spec. simpl. split_and!; auto; [tauto|].
    rewrite <-Hb. split; [by right|]. by intros [?|?].
Qed.

(** ** Successful probes *)

(** The codes that are accepted: NOERROR when none are named, otherwise the named ones,
    all of which must be known. *)
Definition rcodeAccepted (rcode : Z) (valid : option (list string)) : Prop :=
  match valid with
  | None => rcode = default 0 (StringToRcode "NOERROR")
  | Some names => ∃ codes, Forall2 (λ n c, StringToRcode n = Some c) names codes ∧ rcode ∈ codes
  end.

Lemma validRcode_spec rcode valid : validRcode rcode valid = true ↔ rcodeAccepted rcode valid.
Proof.
  destruct valid as [names|]; simpl; [|by rewrite bool_decide_eq_true].
  destruct (mapM StringToRcode names) as [codes|] eqn:E.
  - rewrite bool_decide_eq_true. apply mapM_Some in E. split; [eauto|]. intros (codes' & Hc & Hin).
    apply mapM_Some in E. apply mapM_Some in Hc. congruence.
  - split; [done|]. intros (codes & Hc & _). apply mapM_Some in Hc. congruence.
Qed.

Record validResponse (m : DNSProbe) (r : response) : Prop := {
  vr_rcode : rcodeAccepted (Rcode r) (ValidRcodes m);
  vr_answer : validSection (ValidateAnswer m) (Answer r);
  vr_authority : validSection (ValidateAuthority m) (Ns r);
  vr_additional : validSection (ValidateAdditional m) (Extra r);
}.

Lemma validate_response_spec m r : validate_response m r = None ↔ validResponse m r.
Proof.
  unfold validate_response. pose proof (validRcode_spec (Rcode r) (ValidRcodes m)) as H1.
  pose proof (validRRs_spec (Answer r) (ValidateAnswer m)) as H2.
  pose proof (validRRs_spec (Ns r) (ValidateAuthority m)) as H3.
  pose proof (validRRs_spec (Extra r) (ValidateAdditional m)) as H4.
  destruct (validRcode _ _), (validRRs (Answer r) _), (validRRs (Ns r) _), (validRRs (Extra r) _); simpl;
    (split; [intros E|intros []]); try done; try (split; tauto); naive_solver.
Qed.

(** An attempt ends the probe unless it times out. *)
Lemma attempts_success m qt n xs g :
  attempts m qt n xs = Some (None, g) ↔
  ∃ k r, (k < n)%nat ∧ Forall (λ x, x = TimedOut) (take k xs) ∧ xs !! k = Some (Response r) ∧
    validResponse m r ∧ g = gaugesOf qt r.
Proof.
  revert n. induction xs as [|x xs IH]; intros [|n]; simpl.
  - split; [done|]. intros (k & r & ? & _). lia.
  - split; [done|]. intros (k & r & _ & _ & ? & _). done.
  - split; [done|]. intros (k & r & ? & _). lia.
  - assert (Hlater : x ≠ TimedOut → (∃ k r, (k < S n)%nat ∧ Forall (λ x, x = TimedOut) (take k (x :: xs)) ∧
      (x :: xs) !! k = Some (Response r) ∧ validResponse m r ∧ g = gaugesOf qt r) →
      ∃ r, x = Response r ∧ validResponse m r ∧ g = gaugesOf qt r).
    { intros Hx ([|k] & r & _ & Ht & Hk & Hv & Hg); [injection Hk as ->; eauto|].
      by apply Forall_cons in Ht as [? _]. }
    destruct x as [r| | |].
    + split.
      * intros [= Hv <-]. exists 0%nat, r. split_and!; [lia|constructor|done|by apply validate_response_spec|done].
      * intros (r' & [= <-] & Hv%validate_response_spec & ->)%Hlater; [|done]. by rewrite Hv.
    + split; [done|]. by intros (r' & ? & _)%Hlater.
    + rewrite IH. split.
      * intros (k & r & Hk & Ht & Hr & Hv & Hg). exists (S k), r. split_and!; [lia|by constructor|done..].
      * intros ([|k] & r & Hk & Ht & Hr & Hv & Hg); [done|]. apply Forall_cons in Ht as [_ Ht].
        exists k, r. split_and!; [lia|done..].
    + split; [done|]. by intros (r' & ? & _)%Hlater.
Qed.

(** Every attempt that ends the loop, or the last one, gives a result. *)
Lemma attempts_result m qt n xs : (n ≤ length xs)%nat → is_Some (attempts m qt n xs).
Proof.
  revert n. induction xs as [|x xs IH]; intros [|n]; simpl; intros Hn; [by eexists|lia|by eexists|].
  destruct x; eauto. apply IH. lia.
Qed.

(** Without fallback, the resolver never answers without an address. *)
Definition resolves (m : DNSProbe) (answer : lookupAnswer) : Prop :=
  IPProtocolFallback m = false → answer ≠ Ok [].

Lemma makeQuery_returns m target answer tlsOk :
  resolves m answer → ∃ q, makeQuery m target answer tlsOk = Ret q.
Proof.
  intros Hr. unfold makeQuery.
  destruct (if String.eqb (QueryClass m) "" then _ else _) as [qc|]; [|eauto].
  destruct (if String.eqb (QueryType m) "" then _ else _) as [qt|]; [|eauto].
  destruct (negb _); [eauto|]. destruct (default _ _) as [targetAddr port].
  assert (Hn : chooseServer m answer ≠ Ok None).
  { unfold chooseServer. destruct answer as [ips|]; [|done].
    destruct (pickAnswer _ _ _) eqn:E; [done|]. destruct (IPProtocolFallback m) eqn:Ef; [done|].
    unfold pickAnswer in E. simpl in E. destruct ips; [|done]. by destruct (Hr Ef). }
  destruct (chooseServer m answer) as [[[ip f]|]|e]; [|done|eauto].
  repeat (destruct (_ && _); [eauto|]). eauto.
Qed.

(** C25: what a successful DNS probe means. When the resolver answers as documented, the
    probe never panics, makes at most [Retries]+1 exchanges, and succeeds exactly when the
    query can be made, some exchange gets a response while all before it timed out, the
    code of the response is accepted, and each of its three sections satisfies the
    expressions set for it; its gauges are then those of that response. *)
Theorem dns_probe_success m target answer tlsOk xs :
  resolves m answer →
  ∃ res, ProbeDNSWithError m target answer tlsOk xs = Ret res ∧
    (Retries m < Z.of_nat (length xs) → is_Some res) ∧
    ∀ g, res = Some (None, g) ↔
      ∃ q k r, makeQuery m target answer tlsOk = Ret (Ok q) ∧ Z.of_nat k ≤ Retries m ∧
        Forall (λ x, x = TimedOut) (take k xs) ∧ xs !! k = Some (Response r) ∧
        validResponse m r ∧ g = gaugesOf (q_type q) r.
Proof.
  intros Hr. unfold ProbeDNSWithError.
  destruct (makeQuery_returns m target answer tlsOk Hr) as [[q|e] ->]; cbn [mbind go_bind].
  - eexists. split; [done|]. split.
    + intros Hl. apply attempts_result. lia.
    + intros g. rewrite attempts_success. split.
      * intros (k & r & Hk & Ht & Hx & Hv & Hg). exists q, k, r. split_and!; [done|lia|done..].
      * intros (q' & k & r & [= <-] & Hk & Ht & Hx & Hv & Hg). exists k, r. split_and!; [lia|done..].
  - eexists. split; [done|]. split; [by eexists|]. intros g. split; [done|]. by intros (q & k & r & ? & _).
Qed.

(** "Fail if all match" fails unless all match: with the expression matching every
    record the section is valid, with it matching none it is not. *)
Lemma fail_if_all_match_inverted re rr :
  is_Some (MatchString re (rr_String rr)) →
  validRRs [rr] {| FailIfMatchesRegexp := []; FailIfAllMatchRegexp := [re];
                   FailIfNotMatchesRegexp := []; FailIfNoneMatchesRegexp := [] |} =
  default false (MatchString re (rr_String rr)).
Proof. intros [m E]. unfold validRRs. simpl. rewrite E. by destruct m. Qed.

End dns.

(** ** Examples *)

(** The port of the settings is validated, and does not reach the prober. *)
Lemma dns_port_ignored experimental v1 v2 v3 c c' s port :
  Dns (Settings c) = Some s → Timeout c' = Timeout c → Target c' = Target c →
  Dns (Settings c') = Some {| dns_IpVersion := dns_IpVersion s; dns_SourceIpAddress := dns_SourceIpAddress s;
    dns_Server := dns_Server s; dns_Port := port; dns_RecordType := dns_RecordType s;
    dns_Protocol := dns_Protocol s; dns_ValidRCodes := dns_ValidRCodes s |} →
  dns_NewProber experimental v1 v2 v3 c' = dns_NewProber experimental v1 v2 v3 c.
Proof. intros Hs Ht Hg Hs'. unfold dns_NewProber. by rewrite Hs, Hs', Ht, Hg. Qed.

Section examples.
Definition example_rcode (s : string) : option Z := if String.eqb s "NOERROR" then Some 0 else None.
Definition example_type (s : string) : option Z := if String.eqb s "A" then Some 1 else None.
Definition example_match (re s : string) : option bool := Some (contains re s).
Definition example_module : DNSProbe :=
  {| IPProtocol := "ip4"; IPProtocolFallback := false; DNSOverTLS := false; SourceIPAddress := EmptyString;
     TransportProtocol := "udp"; QueryClass := EmptyString; QueryName := "www"; QueryType := "A"; Recursion := true; ValidRcodes := None;
     ValidateAnswer := {| FailIfMatchesRegexp := ["10."%string]; FailIfAllMatchRegexp := [];
                          FailIfNotMatchesRegexp := ["192."%string]; FailIfNoneMatchesRegexp := [] |};
     ValidateAuthority := validatorFrom (validatorOf None); ValidateAdditional := validatorFrom (validatorOf None);
     Retries := 3; RetryTimeout := 5 |}.
Definition example_exchanges : list exchange :=
  [TimedOut; Response {| Rcode := 0; Answer := [{| rr_String := "a. 60 IN A 192.0.2.1"; rr_Serial := None |}];
                         Ns := []; Extra := [] |}; Failed; Failed].

Lemma dns_probe_success_witness :
  let server : lookupAnswer := Ok [{| ip_bytes := [192; 0; 2; 53]; ip_family := IP4 |}] in
  ∃ q k r, makeQuery (λ _, None) example_type 1 255 example_module "ns.example.com" server true = Ret (Ok q) ∧
    q_dialProtocol q = "udp4"%string ∧ q_port q = "53"%string ∧
    example_exchanges !! k = Some (Response r) ∧
    validResponse example_match example_rcode example_module r.
Proof.
  intros server.
  destruct (dns_probe_success example_match example_rcode (λ _, None) example_type 1 255 6 example_module
    "ns.example.com" server true example_exchanges) as (res & E & _ & H); [intros _ [=]|].
  vm_compute in E. injection E as E. symmetry in E. destruct (proj1 (H _) E) as (q & k & r & Eq & _ & _ & Hk & Hv & _).
  exists q, k, r. split; [exact Eq|]. vm_compute in Eq. injection Eq as <-.
  split; [reflexivity|]. split; [reflexivity|]. split; [exact Hk|exact Hv].
Defined.
End examples.
