(* ===== verification/BbeConfig.v ===== *)
(** * The configuration of the forked DNS prober

    [internal/prober/dns/internal/bbe/config/config.go]: modules with their defaults,
    what unmarshalling accepts, regular expressions that keep their text, the reload of
    a configuration file, and the test that an Accept-Encoding header allows a
    compression.  YAML decoding, the configuration of HTTP clients and [regexp] are
    library code: unmarshalling takes the function that decodes over a value. *)
From Stdlib Require Import SpecFloat.
From S2P Require Import Prelude Strs Net Header Checks Validate Probers DnsProbe.

Open Scope Z_scope.

(** ** Accept-Encoding *)

(** [math.Round] rounds half away from zero. *)
Definition math_Round (f : spec_float) : spec_float :=
  match f with
  | S754_finite s m e =>
      if 0 <=? e then f
      else
        let d := 2 ^ (- e) in
        let z := (2 * Zpos m + d) / (2 * d) in
        match z with
        | 0 => S754_zero s
        | _ => binary_normalize 53 1024 (if s then - z else z) 0 s
        end
  | _ => f
  end.

(** The conversion to [float32]. *)
Definition to_f32 (f : spec_float) : spec_float :=
  match f with
  | S754_finite s m e => binary_normalize 24 128 (if s then Zneg m else Zpos m) e s
  | _ => f
  end.

Definition f64_1000 : spec_float := f64_of 1000.
Definition one32 : spec_float := binary_normalize 24 128 1 0 false.
Definition zero32 : spec_float := S754_zero false.

Record encodingQuality := { eq_encoding : string; eq_quality : spec_float }.

Definition trimPrefix (p s : string) : string :=
  if hasPrefix p s then String.substring (String.length p) (String.length s - String.length p) s else s.

Section encodings.
(** [strconv.ParseFloat(s, 32)]: [None] is an error. *)
Variable ParseFloat32 : string → option spec_float.

Definition parseQuality (str : string) : spec_float :=
  match ParseFloat32 str with
  | None => zero32
  | Some q => to_f32 (SFdiv 53 1024 (math_Round (SFmul 53 1024 q f64_1000)) f64_1000)
  end.

Definition parseEncoding (parts : string) : encodingQuality :=
  match cutLast ";"%char parts with
  | None => {| eq_encoding := TrimSpace parts; eq_quality := one32 |}
  | Some (before, after) =>
      {| eq_encoding := TrimSpace before;
         eq_quality := parseQuality (trimPrefix "q=" (TrimSpace after)) |}
  end.

(** [sort.SliceStable]: an element moves left while it is of better quality; the lists
    here are in reverse order. *)
Definition better (a b : encodingQuality) : bool := SFltb (eq_quality b) (eq_quality a).
Fixpoint moveLeft (x : encodingQuality) (sorted : list encodingQuality) : list encodingQuality :=
  match sorted with
  | [] => [x]
  | y :: ys => if better x y then y :: moveLeft x ys else x :: sorted
  end.
Definition sortStable (l : list encodingQuality) : list encodingQuality :=
  rev (fold_left (λ acc x, moveLeft x acc) l []).

Definition isCompressionAcceptEncodingValid (encoding acceptEncoding : string) : bool :=
  if String.eqb encoding EmptyString || String.eqb acceptEncoding EmptyString then true
  else
    let encodings := sortStable (map parseEncoding (split ","%char acceptEncoding)) in
    match List.find (λ e, String.eqb encoding (eq_encoding e) || String.eqb (eq_encoding e) "*") encodings with
    | Some e => SFltb zero32 (eq_quality e)
    | None => false
    end.
End encodings.

(** ** Regular expressions *)

(** A compiled expression, absent from the zero value, and its text. *)
Record Regexp (R : Type) := { re_Regexp : option R; re_original : string }.
Arguments re_Regexp {R} r.
Arguments re_original {R} r.
Arguments Build_Regexp {R} re_Regexp re_original.

Inductive configErr :=
  | ErrYAML | ErrRegexp (s : string) | ErrHeaderName | ErrHeaderRegexp | ErrClient | ErrBodyAndFile
  | ErrEncoding (key value compression : string) | ErrQueryName | ErrQueryClass_ (s : string) | ErrQueryType_ (s : string)
  | ErrDontFragment | ErrNegativeTTL | ErrTTL | ErrOpen.

Section config.
Context {R : Type}.
(** [regexp.Compile] and [Regexp.String]. *)
Variable compile : string → option R.
Variable source : R → string.

Definition NewRegexp (s : string) : Regexp R * error configErr :=
  ({| re_Regexp := compile s; re_original := s |},
   match compile s with Some _ => None | None => Some (ErrRegexp s) end).

Definition MustNewRegexp (s : string) : go (Regexp R) :=
  match NewRegexp s with
  | (re, None) => Ret re
  | (_, Some _) => Panic "error parsing regexp"
  end.

(** [UnmarshalYAML]: the text that the decoder gives; [MarshalYAML]: [None] is nil. *)
Definition Regexp_UnmarshalYAML (plain : result configErr string) : result configErr (Regexp R) :=
  s ← plain;
  match NewRegexp s with
  | (re, None) => Ok re
  | (_, Some e) => Err e
  end.
Definition Regexp_MarshalYAML (re : Regexp R) : option string :=
  if String.eqb (re_original re) EmptyString then None else Some (re_original re).

(** ** Probes *)

(** [config.HTTPClientConfig] of the library: its default, its validation and its field
    [FollowRedirects]. *)
Context {Client TLS : Type}.
Variable DefaultHTTPClientConfig : Client.
Variable Client_Validate : Client → bool.
Variable setFollowRedirects : bool → Client → Client.
Variable zeroTLS : TLS.

Record headerMatch := { hmc_Header : string; hmc_Regexp : Regexp R; hmc_AllowMissing : bool }.
Record queryResponse := { qr_Expect : Regexp R; qr_Send : string; qr_StartTLS : bool }.

Record HTTPProbe := {
  hp_ValidStatusCodes : list Z; hp_ValidHTTPVersions : list string; hp_IPProtocol : string;
  hp_IPProtocolFallback : bool; hp_SkipResolvePhaseWithProxy : bool; hp_NoFollowRedirects : option bool;
  hp_FailIfSSL : bool; hp_FailIfNotSSL : bool; hp_Method : string; hp_Headers : gmap string string;
  hp_FailIfBodyMatchesRegexp : list (Regexp R); hp_FailIfBodyNotMatchesRegexp : list (Regexp R);
  hp_FailIfHeaderMatchesRegexp : list headerMatch; hp_FailIfHeaderNotMatchesRegexp : list headerMatch;
  hp_Body : string; hp_BodyFile : string; hp_HTTPClientConfig : Client; hp_Compression : string;
  hp_BodySizeLimit : Z }.
Record GRPCProbe := {
  gp_Service : string; gp_TLS : bool; gp_TLSConfig : TLS; gp_IPProtocolFallback : bool; gp_PreferredIPProtocol : string }.
Record TCPProbe := {
  tp_IPProtocol : string; tp_IPProtocolFallback : bool; tp_SourceIPAddress : string;
  tp_QueryResponse : list queryResponse; tp_TLS : bool; tp_TLSConfig : TLS }.
Record ICMPProbe := {
  ip_IPProtocol : string; ip_IPProtocolFallback : bool; ip_SourceIPAddress : string; ip_PayloadSize : Z;
  ip_DontFragment : bool; ip_TTL : Z }.
Record Module_ := {
  md_Prober : string; md_Timeout : Z; md_HTTP : HTTPProbe; md_TCP : TCPProbe; md_ICMP : ICMPProbe;
  md_DNS : DNSProbe; md_GRPC : GRPCProbe }.

(** The defaults. *)
Definition DefaultHTTPProbe : HTTPProbe :=
  {| hp_ValidStatusCodes := []; hp_ValidHTTPVersions := []; hp_IPProtocol := EmptyString;
     hp_IPProtocolFallback := true; hp_SkipResolvePhaseWithProxy := false; hp_NoFollowRedirects := None;
     hp_FailIfSSL := false; hp_FailIfNotSSL := false; hp_Method := EmptyString; hp_Headers := ∅;
     hp_FailIfBodyMatchesRegexp := []; hp_FailIfBodyNotMatchesRegexp := []; hp_FailIfHeaderMatchesRegexp := [];
     hp_FailIfHeaderNotMatchesRegexp := []; hp_Body := EmptyString; hp_BodyFile := EmptyString;
     hp_HTTPClientConfig := DefaultHTTPClientConfig; hp_Compression := EmptyString; hp_BodySizeLimit := 0 |}.
Definition DefaultGRPCProbe : GRPCProbe :=
  {| gp_Service := EmptyString; gp_TLS := false; gp_TLSConfig := zeroTLS; gp_IPProtocolFallback := true;
     gp_PreferredIPProtocol := EmptyString |}.
Definition DefaultTCPProbe : TCPProbe :=
  {| tp_IPProtocol := EmptyString; tp_IPProtocolFallback := true; tp_SourceIPAddress := EmptyString;
     tp_QueryResponse := []; tp_TLS := false; tp_TLSConfig := zeroTLS |}.
Definition DefaultICMPTTL : Z := 64.
Definition DefaultICMPProbe : ICMPProbe :=
  {| ip_IPProtocol := EmptyString; ip_IPProtocolFallback := true; ip_SourceIPAddress := EmptyString;
     ip_PayloadSize := 0; ip_DontFragment := false; ip_TTL := DefaultICMPTTL |}.
Definition noValidator : DNSRRValidator :=
  {| FailIfMatchesRegexp := []; FailIfAllMatchRegexp := []; FailIfNotMatchesRegexp := []; FailIfNoneMatchesRegexp := [] |}.
Definition DefaultDNSProbe : DNSProbe :=
  {| IPProtocol := EmptyString; IPProtocolFallback := true; DNSOverTLS := false; SourceIPAddress := EmptyString;
     TransportProtocol := EmptyString; QueryClass := EmptyString; QueryName := EmptyString; QueryType := EmptyString;
     Recursion := true; ValidRcodes := None; ValidateAnswer := noValidator; ValidateAuthority := noValidator;
     ValidateAdditional := noValidator; Retries := 0; RetryTimeout := 0 |}.
(** Its [GRPC] is the zero value. *)
Definition DefaultModule : Module_ :=
  {| md_Prober := EmptyString; md_Timeout := 0; md_HTTP := DefaultHTTPProbe; md_TCP := DefaultTCPProbe;
     md_ICMP := DefaultICMPProbe; md_DNS := DefaultDNSProbe;
     md_GRPC := {| gp_Service := EmptyString; gp_TLS := false; gp_TLSConfig := zeroTLS;
                   gp_IPProtocolFallback := false; gp_PreferredIPProtocol := EmptyString |} |}.

(** Decoding over a value. *)
Notation decoder A := (A → result configErr A).

Definition Module_UnmarshalYAML (plain : decoder Module_) : result configErr Module_ := plain DefaultModule.
Definition GRPCProbe_UnmarshalYAML (plain : decoder GRPCProbe) : result configErr GRPCProbe := plain DefaultGRPCProbe.
Definition TCPProbe_UnmarshalYAML (plain : decoder TCPProbe) : result configErr TCPProbe := plain DefaultTCPProbe.

Definition ICMPProbe_UnmarshalYAML (windows : bool) (plain : decoder ICMPProbe) : result configErr ICMPProbe :=
  s ← plain DefaultICMPProbe;
  if windows && ip_DontFragment s then Err ErrDontFragment
  else if ip_TTL s <? 0 then Err ErrNegativeTTL
  else if 255 <? ip_TTL s then Err ErrTTL
  else Ok s.

Definition HeaderMatch_UnmarshalYAML (plain : result configErr headerMatch) : result configErr headerMatch :=
  s ← plain;
  if String.eqb (hmc_Header s) EmptyString then Err ErrHeaderName
  else match re_Regexp (hmc_Regexp s) with
       | None => Err ErrHeaderRegexp
       | Some r => if String.eqb (source r) EmptyString then Err ErrHeaderRegexp else Ok s
       end.

(** [dns.StringToClass] and [dns.StringToType]. *)
Variables StringToClass StringToType : string → option Z.

Definition DNSProbe_UnmarshalYAML (plain : decoder DNSProbe) : result configErr DNSProbe :=
  s ← plain DefaultDNSProbe;
  if String.eqb (QueryName s) EmptyString then Err ErrQueryName
  else if negb (String.eqb (QueryClass s) EmptyString) && bool_decide (StringToClass (QueryClass s) = None)
  then Err (ErrQueryClass_ (QueryClass s))
  else if negb (String.eqb (QueryType s) EmptyString) && bool_decide (StringToType (QueryType s) = None)
  then Err (ErrQueryType_ (QueryType s))
  else Ok s.

(** The test of encodings. *)
Variable ParseFloat32 : string → option spec_float.

Definition set_limits (client : Client) (limit : Z) (s : HTTPProbe) : HTTPProbe :=
  {| hp_ValidStatusCodes := hp_ValidStatusCodes s; hp_ValidHTTPVersions := hp_ValidHTTPVersions s;
     hp_IPProtocol := hp_IPProtocol s; hp_IPProtocolFallback := hp_IPProtocolFallback s;
     hp_SkipResolvePhaseWithProxy := hp_SkipResolvePhaseWithProxy s; hp_NoFollowRedirects := hp_NoFollowRedirects s;
     hp_FailIfSSL := hp_FailIfSSL s; hp_FailIfNotSSL := hp_FailIfNotSSL s; hp_Method := hp_Method s;
     hp_Headers := hp_Headers s; hp_FailIfBodyMatchesRegexp := hp_FailIfBodyMatchesRegexp s;
     hp_FailIfBodyNotMatchesRegexp := hp_FailIfBodyNotMatchesRegexp s;
     hp_FailIfHeaderMatchesRegexp := hp_FailIfHeaderMatchesRegexp s;
     hp_FailIfHeaderNotMatchesRegexp := hp_FailIfHeaderNotMatchesRegexp s; hp_Body := hp_Body s;
     hp_BodyFile := hp_BodyFile s; hp_HTTPClientConfig := client; hp_Compression := hp_Compression s;
     hp_BodySizeLimit := limit |}.

(** The loop over the headers, in an order of the map. *)
Fixpoint checkEncodings (compression : string) (headers : list (string * string)) : error configErr :=
  match headers with
  | [] => None
  | (key, value) :: headers =>
      if String.eqb (CanonicalHeaderKey key) "Accept-Encoding" &&
         negb (isCompressionAcceptEncodingValid ParseFloat32 compression value)
      then Some (ErrEncoding key value compression)
      else checkEncodings compression headers
  end.

Definition HTTPProbe_UnmarshalYAML (plain : decoder HTTPProbe) : result configErr HTTPProbe :=
  s ← plain DefaultHTTPProbe;
  let limit := if (hp_BodySizeLimit s <? 0) || (hp_BodySizeLimit s =? maxInt64) then maxInt64 - 1
               else hp_BodySizeLimit s in
  if negb (Client_Validate (hp_HTTPClientConfig s)) then Err ErrClient
  else
    let client := match hp_NoFollowRedirects s with
                  | Some no => setFollowRedirects (negb no) (hp_HTTPClientConfig s)
                  | None => hp_HTTPClientConfig s
                  end in
    if negb (String.eqb (hp_Body s) EmptyString) && negb (String.eqb (hp_BodyFile s) EmptyString)
    then Err ErrBodyAndFile
    else match checkEncodings (hp_Compression s) (map_to_list (hp_Headers s)) with
         | Some e => Err e
         | None => Ok (set_limits client limit s)
         end.

(** ** The file *)

Definition modules := gmap string Module_.

Record SafeConfig := { sc_C : modules; sc_success : Z; sc_seconds : option Z }.

Definition hideFlag (m : Module_) : Module_ :=
  match hp_NoFollowRedirects (md_HTTP m) with
  | None => m
  | Some _ =>
      let h := md_HTTP m in
      {| md_Prober := md_Prober m; md_Timeout := md_Timeout m;
         md_HTTP :=
           {| hp_ValidStatusCodes := hp_ValidStatusCodes h; hp_ValidHTTPVersions := hp_ValidHTTPVersions h;
              hp_IPProtocol := hp_IPProtocol h; hp_IPProtocolFallback := hp_IPProtocolFallback h;
              hp_SkipResolvePhaseWithProxy := hp_SkipResolvePhaseWithProxy h; hp_NoFollowRedirects := None;
              hp_FailIfSSL := hp_FailIfSSL h; hp_FailIfNotSSL := hp_FailIfNotSSL h; hp_Method := hp_Method h;
              hp_Headers := hp_Headers h; hp_FailIfBodyMatchesRegexp := hp_FailIfBodyMatchesRegexp h;
              hp_FailIfBodyNotMatchesRegexp := hp_FailIfBodyNotMatchesRegexp h;
              hp_FailIfHeaderMatchesRegexp := hp_FailIfHeaderMatchesRegexp h;
              hp_FailIfHeaderNotMatchesRegexp := hp_FailIfHeaderNotMatchesRegexp h; hp_Body := hp_Body h;
              hp_BodyFile := hp_BodyFile h; hp_HTTPClientConfig := hp_HTTPClientConfig h;
              hp_Compression := hp_Compression h; hp_BodySizeLimit := hp_BodySizeLimit h |};
         md_TCP := md_TCP m; md_ICMP := md_ICMP m; md_DNS := md_DNS m; md_GRPC := md_GRPC m |}
  end.

(** [ReloadConfig]: the file as it is read and decoded, at a time. *)
Definition ReloadConfig (now : Z) (file : result configErr modules) (sc : SafeConfig) : SafeConfig * error configErr :=
  match file with
  | Err e => ({| sc_C := sc_C sc; sc_success := 0; sc_seconds := sc_seconds sc |}, Some e)
  | Ok c => ({| sc_C := hideFlag <$> c; sc_success := 1; sc_seconds := Some now |}, None)
  end.

End config.

(** ** Which encodings are accepted *)

Section encodings_spec.
Variable ParseFloat32 : string → option spec_float.
Notation sorted := sortStable.

Definition positive (e : encodingQuality) : bool := SFltb zero32 (eq_quality e).
Definition number (e : encodingQuality) : Prop := eq_quality e ≠ S754_nan.

Lemma better_positive x y : number x → number y → positive x = true → positive y = false → better x y = true.
Proof.
  unfold number, positive, better, SFltb, zero32.
  destruct (eq_quality x) as [sx|sx| |sx mx ex], (eq_quality y) as [sy|sy| |sy my ey]; simpl; try done;
    destruct sx; try done; destruct sy; done.
Qed.

Lemma worse_positive x y : positive x = false → positive y = true → better x y = false.
Proof.
  unfold positive, better, SFltb, zero32.
  destruct (eq_quality x) as [sx|sx| |sx mx ex], (eq_quality y) as [sy|sy| |sy my ey]; simpl; try done;
    destruct sx; try done; destruct sy; done.
Qed.

(** The elements of positive quality come first (here last, the list is reversed). *)
Definition positives_last (l : list encodingQuality) : Prop :=
  ∃ N P, l = N ++ P ∧ Forall (λ e, positive e = false) N ∧ Forall (λ e, positive e = true) P.

Lemma moveLeft_perm x l : moveLeft x l ≡ₚ x :: l.
Proof.
  induction l as [|y l IH]; [done|]. simpl. destruct (better x y); [|done]. rewrite IH. constructor.
Qed.

Lemma moveLeft_elem x l : ∃ l1 l2, l = l1 ++ l2 ∧ moveLeft x l = l1 ++ x :: l2 ∧ Forall (λ y, better x y = true) l1 ∧
  match l2 with [] => True | y :: _ => better x y = false end.
Proof.
  induction l as [|y l (l1 & l2 & -> & E & H1 & H2)]; [by exists [], []|]. simpl. destruct (better x y) eqn:Eb.
  - exists (y :: l1), l2. rewrite E. split_and!; [done|done|by constructor|done].
  - exists [], (y :: l1 ++ l2). done.
Qed.

Lemma moveLeft_positives x l : number x → Forall number l → positives_last l → positives_last (moveLeft x l).
Proof.
  intros Hx Hl (N & P & -> & HN & HP). destruct (moveLeft_elem x (N ++ P)) as (l1 & l2 & E & -> & H1 & H2).
  destruct (positive x) eqn:Ex.
  - assert (Hin : ∃ P1, l1 = N ++ P1 ∧ P = P1 ++ l2).
    { apply app_eq_inv in E as [(k & -> & ->)|(k & -> & ->)]; [|by exists k].
      destruct k as [|y k]; [exists []; by rewrite !app_nil_r|]. exfalso. simpl in H2.
      apply Forall_app in HN as [_ [Hy _]%Forall_cons]. apply Forall_app in Hl as [[_ [Hny _]%Forall_cons]%Forall_app _].
      by rewrite (better_positive x y) in H2. }
    destruct Hin as (P1 & -> & ->). apply Forall_app in HP as [HP1 HP2].
    exists N, (P1 ++ x :: l2). rewrite <-app_assoc. split_and!; [done|done|]. apply Forall_app. by split; [|constructor].
  - assert (Hin : ∃ N2, N = l1 ++ N2 ∧ l2 = N2 ++ P).
    { apply app_eq_inv in E as [(k & -> & ->)|(k & -> & E)]; [by exists k|].
      destruct k as [|y k]; [exists []; by rewrite !app_nil_r|]. exfalso. subst P.
      apply Forall_app in H1 as [_ [Hy _]%Forall_cons]. apply Forall_cons in HP as [Hp _].
      by rewrite (worse_positive x y) in Hy. }
    destruct Hin as (N2 & -> & ->). apply Forall_app in HN as [HN1 HN2].
    exists (l1 ++ x :: N2), P. rewrite <-app_assoc. split_and!; [done| |done]. apply Forall_app. by split; [|constructor].
Qed.

Lemma sort_spec l :
  Forall number l → sorted l ≡ₚ l ∧
  ∃ P N, sorted l = P ++ N ∧ Forall (λ e, positive e = true) P ∧ Forall (λ e, positive e = false) N.
Proof.
  intros Hl. unfold sorted.
  assert (Hall : ∀ acc, Forall number acc → positives_last acc →
    fold_left (λ acc x, moveLeft x acc) l acc ≡ₚ rev l ++ acc ∧ positives_last (fold_left (λ acc x, moveLeft x acc) l acc)).
  { induction Hl as [|x l Hx _ IH]; intros acc Ha Hp; [done|]. cbn [fold_left rev].
    destruct (IH (moveLeft x acc)) as [Hperm Hpos]; [rewrite moveLeft_perm; by constructor|by apply moveLeft_positives|].
    split; [|done]. by rewrite Hperm, moveLeft_perm, <-app_assoc. }
  destruct (Hall [] (Forall_nil_2 _)) as [Hperm (N & P & E & HN & HP)]; [by exists [], []|].
  rewrite app_nil_r, E in Hperm. rewrite E. split.
  - by rewrite <-Permutation_rev, Hperm, <-Permutation_rev.
  - exists (rev P), (rev N). rewrite rev_app_distr. split_and!; [done| |]; by apply Forall_rev.
Qed.

(** The encodings of a header with a number for every quality. *)
Definition numeric (acceptEncoding : string) : Prop :=
  Forall number (map (parseEncoding ParseFloat32) (split ","%char acceptEncoding)).

(** A compression and an Accept-Encoding header go together exactly when one of them is
    empty, or some entry of the header, the encoding itself or a star, has a positive
    quality; sorting the entries by quality, as the code does, gives the same answer. *)
Lemma accept_encoding_spec encoding acceptEncoding :
  numeric acceptEncoding →
  isCompressionAcceptEncodingValid ParseFloat32 encoding acceptEncoding =
  String.eqb encoding EmptyString || String.eqb acceptEncoding EmptyString ||
  existsb (λ e, (String.eqb encoding (eq_encoding e) || String.eqb (eq_encoding e) "*") && positive e)
    (map (parseEncoding ParseFloat32) (split ","%char acceptEncoding)).
Proof.
  intros Hn. unfold isCompressionAcceptEncodingValid. destruct (_ || _); [done|]. cbn [orb].
  set (l := map _ _) in *. set (f := λ e, _ || _).
  destruct (sort_spec l Hn) as (Hperm & P & N & E & HP & HN). rewrite E.
  assert (El : existsb (λ e, f e && positive e) l = existsb (λ e, f e && positive e) (P ++ N)).
  { rewrite E in Hperm. apply eq_true_iff_eq. rewrite !existsb_exists.
    split; intros (e & Hin & He); exists e; (split; [|done]); apply list_elem_of_In; apply list_elem_of_In in Hin;
      by rewrite ?Hperm in *; rewrite <-?Hperm in *. }
  change (existsb _ l) with (existsb (λ e, f e && positive e) l). rewrite El, existsb_app.
  assert (EN : existsb (λ e, f e && positive e) N = false).
  { apply not_true_iff_false. rewrite existsb_exists. intros (e & Hin & He).
    rewrite Forall_forall in HN. apply list_elem_of_In, HN in Hin. by rewrite Hin, andb_false_r in He. }
  rewrite EN, orb_false_r. clear -HP HN. induction HP as [|e P He _ IH]; simpl.
  - assert (Hf : ∀ e, List.find f N = Some e → positive e = false).
    { intros e [Hin _]%find_some. rewrite Forall_forall in HN. by apply HN, list_elem_of_In. }
    destruct (List.find f N) as [e|]; [by apply Hf|done].
  - destruct (f e); simpl; [|exact IH]. by rewrite He.
Qed.

End encodings_spec.

(** ** What is accepted *)

Section spec.
Context {R Client TLS : Type}.
Variable compile : string → option R.
Variable source : R → string.
Hypothesis source_compile : ∀ s r, compile s = Some r → source r = s.

(** A regular expression keeps its text, and is only made of a text that compiles. *)
Lemma Regexp_roundtrip s re :
  Regexp_UnmarshalYAML compile (Ok s) = Ok re →
  is_Some (re_Regexp re) ∧ Regexp_MarshalYAML re = (if String.eqb s EmptyString then None else Some s).
Proof.
  unfold Regexp_UnmarshalYAML, NewRegexp. cbn. destruct (compile s) as [r|] eqn:E; [|done]. intros [= <-].
  split; [by eexists|done].
Qed.

Lemma MustNewRegexp_panics s : compile s = None ↔ MustNewRegexp compile s = Panic "error parsing regexp".
Proof. unfold MustNewRegexp, NewRegexp. by destruct (compile s). Qed.

(** A header matcher has a name and an expression with a text. *)
Lemma HeaderMatch_accepted m m' :
  HeaderMatch_UnmarshalYAML source (Ok m) = Ok m' ↔
  m' = m ∧ hmc_Header m ≠ EmptyString ∧ ∃ r, re_Regexp (hmc_Regexp m) = Some r ∧ source r ≠ EmptyString.
Proof.
  unfold HeaderMatch_UnmarshalYAML. cbn.
  destruct (String.eqb_spec (hmc_Header m) EmptyString) as [E|Hh]; [naive_solver|].
  destruct (re_Regexp (hmc_Regexp m)) as [r|]; [|naive_solver].
  destruct (String.eqb_spec (source r) EmptyString); naive_solver.
Qed.

Variable StringToClass StringToType : string → option Z.

Lemma DNSProbe_accepted (plain : DNSProbe → result configErr DNSProbe) s :
  plain DefaultDNSProbe = Ok s →
  DNSProbe_UnmarshalYAML StringToClass StringToType plain = Ok s ↔
  QueryName s ≠ EmptyString ∧ (QueryClass s ≠ EmptyString → is_Some (StringToClass (QueryClass s))) ∧
  (QueryType s ≠ EmptyString → is_Some (StringToType (QueryType s))).
Proof.
  intros E. unfold DNSProbe_UnmarshalYAML. rewrite E. cbn [mbind result_bind].
  assert (Hopt : ∀ name (f : string → option Z), (negb (String.eqb name EmptyString) && bool_decide (f name = None)) = false ↔
    (name ≠ EmptyString → is_Some (f name))).
  { intros name f. rewrite andb_false_iff, negb_false_iff, String.eqb_eq, bool_decide_eq_false, not_eq_None_Some.
    destruct (decide (name = EmptyString)); tauto. }
  rewrite <-!Hopt. destruct (String.eqb_spec (QueryName s) EmptyString) as [|Hn]; [split; [done|tauto]|].
  destruct (negb _ && _); [split; [done|by intros (_ & ? & _)]|].
  destruct (negb _ && _); [split; [done|by intros (_ & _ & ?)]|]. tauto.
Qed.

Variable setFollowRedirects : bool → Client → Client.
Variable DefaultHTTPClientConfig : Client.
Variable Client_Validate : Client → bool.
Variable ParseFloat32 : string → option spec_float.

(** An accepted HTTP probe has a size limit to which one can be added, at most one of
    body and body file, a valid client that the old flag overrides, and encodings that
    go with its compression. *)
Lemma HTTPProbe_accepted (plain : HTTPProbe → result configErr HTTPProbe) s0 s :
  plain (DefaultHTTPProbe (R := R) DefaultHTTPClientConfig) = Ok s0 → int64 (hp_BodySizeLimit s0) →
  HTTPProbe_UnmarshalYAML DefaultHTTPClientConfig Client_Validate setFollowRedirects ParseFloat32 plain = Ok s →
  0 ≤ hp_BodySizeLimit s < maxInt64 ∧ (hp_Body s = EmptyString ∨ hp_BodyFile s = EmptyString) ∧
  Client_Validate (hp_HTTPClientConfig s0) = true ∧
  (∀ no, hp_NoFollowRedirects s = Some no → hp_HTTPClientConfig s = setFollowRedirects (negb no) (hp_HTTPClientConfig s0)) ∧
  (∀ key value, hp_Headers s !! key = Some value → CanonicalHeaderKey key = "Accept-Encoding"%string →
     isCompressionAcceptEncodingValid ParseFloat32 (hp_Compression s) value = true).
Proof.
  intros E Hi. unfold HTTPProbe_UnmarshalYAML. rewrite E. cbn [mbind result_bind].
  destruct (Client_Validate _) eqn:Ec; cbn [negb]; [|done].
  destruct (_ && _) eqn:Eb; [done|]. destruct (checkEncodings _ _ _) eqn:Ee; [done|]. intros [= <-]. simpl.
  split_and!.
  - destruct (_ || _) eqn:El; [unfold maxInt64; lia|]. apply orb_false_iff in El as [H0%Z.ltb_ge _]. exact H0.
  - destruct (_ || _) eqn:El; [unfold maxInt64; lia|]. apply orb_false_iff in El as [_ H1%Z.eqb_neq].
    unfold int64 in Hi. lia.
  - apply andb_false_iff in Eb as [Hb|Hb]; apply negb_false_iff, String.eqb_eq in Hb; auto.
  - done.
  - by intros no ->.
  - intros key value Hk Hc. apply elem_of_map_to_list in Hk. revert Ee Hk.
    induction (map_to_list (hp_Headers s0)) as [|[k v] l IH]; [by intros _ ?%elem_of_nil|]. cbn [checkEncodings].
    destruct (String.eqb (CanonicalHeaderKey k) "Accept-Encoding" && _) eqn:Ea; [done|]. intros Hr [[= -> ->]|Hin]%elem_of_cons; [|exact (IH Hr Hin)].
    rewrite Hc in Ea. simpl in Ea. by apply negb_false_iff in Ea.
Qed.

(** A file that cannot be read leaves the configuration that was loaded. *)
Lemma failed_reload_keeps (now : Z) e (sc : SafeConfig (R := R) (Client := Client) (TLS := TLS)) :
  sc_C (ReloadConfig now (Err e) sc).1 = sc_C sc ∧ sc_success (ReloadConfig now (Err e) sc).1 = 0 ∧
  sc_seconds (ReloadConfig now (Err e) sc).1 = sc_seconds sc.
Proof. done. Qed.

End spec.

Example encodings_example :
  let parse s := if String.eqb s "0.5" then Some (SFdiv 53 1024 (f64_of 1) (f64_of 2)) else if String.eqb s "0" then Some (S754_zero false) else None in
  map (λ p, isCompressionAcceptEncodingValid parse p.1 p.2)
    [("gzip", "br;q=0.5, gzip"); ("gzip", "br, gzip;q=0"); ("gzip", "identity, *;q=0.5"); ("gzip", "br");
     ("gzip", "gzip;q=0, *"); ("gzip", "gzip;q=zero")]%string = [true; false; true; false; true; false].
Proof. by vm_compute. Qed.

(** An encoding that the header refuses by name is accepted when a star comes first in the
    order of qualities, against RFC 9110 (12.5.3), where a star stands for the encodings
    that the header does not name. *)
Lemma refused_encoding_accepted :
  isCompressionAcceptEncodingValid (λ s, if String.eqb s "0" then Some (S754_zero false) else None)
    "gzip" "gzip;q=0, *" = true.
Proof. by vm_compute. Qed.
