(* ===== verification/Ping.v ===== *)
(** * Ping

    [internal/prober/icmp/icmp_impl.go], and the start of a probe in [icmp.go]: how a
    pinger is set up, what its callbacks do to the metrics and the duration, and when a
    ping succeeds.  The resolver ([Probers.chooseProtocol]), the clock and the runs of the
    ping library are inputs. *)
From Stdlib Require Import Floats.SpecFloat.
From S2P Require Import Prelude Strs Hash Checks Validate Probers.

Open Scope Z_scope.

Definition fadd : spec_float → spec_float → spec_float := SFadd 53 1024.
Definition fzero : spec_float := S754_zero false.

(** ** Metrics *)

(** The gauges; [hop_limit] is registered by a reply. *)
Record gauges := {
  resolve_seconds : spec_float; setup_seconds : spec_float; rtt_seconds : spec_float;
  rtt_max : spec_float; rtt_min : spec_float; rtt_stddev : spec_float;
  packets_sent : spec_float; packets_received : spec_float; hop_limit : option spec_float;
  dns_lookup_time : spec_float; ip_protocol : spec_float; ip_addr_hash : spec_float }.
Definition noGauges : gauges :=
  {| resolve_seconds := fzero; setup_seconds := fzero; rtt_seconds := fzero; rtt_max := fzero; rtt_min := fzero;
     rtt_stddev := fzero; packets_sent := fzero; packets_received := fzero; hop_limit := None;
     dns_lookup_time := fzero; ip_protocol := fzero; ip_addr_hash := fzero |}.

(** [ipHash]. *)
Definition ipHash (a : address) : spec_float := f64_of (New32a (ip_bytes a)).
Definition protocolToGauge (f : family) : spec_float := f64_of (match f with IP4 => 4 | IP6 => 6 end).

(** What [chooseProtocol] does to the gauges, in [lookup] nanoseconds. *)
Definition lookupGauges (lookup : Z) (r : option (address * family)) (g : gauges) : gauges :=
  {| resolve_seconds := resolve_seconds g; setup_seconds := setup_seconds g; rtt_seconds := rtt_seconds g;
     rtt_max := rtt_max g; rtt_min := rtt_min g; rtt_stddev := rtt_stddev g; packets_sent := packets_sent g;
     packets_received := packets_received g; hop_limit := hop_limit g;
     dns_lookup_time := fadd (dns_lookup_time g) (seconds lookup);
     ip_protocol := match r with Some (_, f) => protocolToGauge f | None => ip_protocol g end;
     ip_addr_hash := match r with Some (a, _) => ipHash a | None => ip_addr_hash g end |}.

Definition setResolve (d : spec_float) (g : gauges) : gauges :=
  {| resolve_seconds := fadd (resolve_seconds g) d; setup_seconds := setup_seconds g; rtt_seconds := rtt_seconds g;
     rtt_max := rtt_max g; rtt_min := rtt_min g; rtt_stddev := rtt_stddev g; packets_sent := packets_sent g;
     packets_received := packets_received g; hop_limit := hop_limit g; dns_lookup_time := dns_lookup_time g;
     ip_protocol := ip_protocol g; ip_addr_hash := ip_addr_hash g |}.
Definition setSetup (d : spec_float) (g : gauges) : gauges :=
  {| resolve_seconds := resolve_seconds g; setup_seconds := fadd (setup_seconds g) d; rtt_seconds := rtt_seconds g;
     rtt_max := rtt_max g; rtt_min := rtt_min g; rtt_stddev := rtt_stddev g; packets_sent := packets_sent g;
     packets_received := packets_received g; hop_limit := hop_limit g; dns_lookup_time := dns_lookup_time g;
     ip_protocol := ip_protocol g; ip_addr_hash := ip_addr_hash g |}.
Definition setHop (ttl : Z) (g : gauges) : gauges :=
  {| resolve_seconds := resolve_seconds g; setup_seconds := setup_seconds g; rtt_seconds := rtt_seconds g;
     rtt_max := rtt_max g; rtt_min := rtt_min g; rtt_stddev := rtt_stddev g; packets_sent := packets_sent g;
     packets_received := packets_received g; hop_limit := Some (f64_of ttl); dns_lookup_time := dns_lookup_time g;
     ip_protocol := ip_protocol g; ip_addr_hash := ip_addr_hash g |}.

(** ** The callbacks *)

Record Statistics := {
  AvgRtt : Z; MaxRtt : Z; MinRtt : Z; StdDevRtt : Z; PacketsSent : Z; PacketsRecv : Z }.
Definition setStatistics (s : Statistics) (g : gauges) : gauges :=
  {| resolve_seconds := resolve_seconds g; setup_seconds := setup_seconds g; rtt_seconds := seconds (AvgRtt s);
     rtt_max := seconds (MaxRtt s); rtt_min := seconds (MinRtt s); rtt_stddev := seconds (StdDevRtt s);
     packets_sent := f64_of (PacketsSent s); packets_received := f64_of (PacketsRecv s); hop_limit := hop_limit g;
     dns_lookup_time := dns_lookup_time g; ip_protocol := ip_protocol g; ip_addr_hash := ip_addr_hash g |}.

(** What the library calls during a run; [OnSetup] with the time since the start. *)
Inductive event :=
  | OnSetup (elapsed : Z)
  | OnSend (seq : Z)
  | OnRecv (seq ttl : Z)
  | OnDuplicateRecv (seq : Z)
  | OnFinish (s : Statistics).

Record pingState := { ps_gauges : gauges; ps_setupDone : bool; ps_duration : spec_float }.

(** A gauge that is registered twice is a panic of [MustRegister]. *)
Definition callback (e : event) (s : pingState) : go pingState :=
  match e with
  | OnSetup elapsed =>
      Ret (if ps_setupDone s then s
           else {| ps_gauges := setSetup (seconds elapsed) (ps_gauges s); ps_setupDone := true;
                   ps_duration := fadd (ps_duration s) (seconds elapsed) |})
  | OnSend _ | OnDuplicateRecv _ => Ret s
  | OnRecv seq ttl =>
      if (seq =? 0) && (0 <=? ttl) then
        match hop_limit (ps_gauges s) with
        | Some _ => Panic "duplicate metrics collector registration attempted"
        | None => Ret {| ps_gauges := setHop ttl (ps_gauges s); ps_setupDone := ps_setupDone s;
                         ps_duration := ps_duration s |}
        end
      else Ret s
  | OnFinish st =>
      Ret {| ps_gauges := setStatistics st (ps_gauges s); ps_setupDone := ps_setupDone s;
             ps_duration := fadd (ps_duration s) (seconds (AvgRtt st)) |}
  end.
Fixpoint callbacks (l : list event) (s : pingState) : go pingState :=
  match l with
  | [] => Ret s
  | e :: l => s ← callback e s; callbacks l s
  end.

(** ** The probe *)

Record pinger := {
  pg_addr : address; pg_privileged : bool; pg_Timeout : Z; pg_DoNotFragment : bool; pg_Size : Z;
  pg_Count : Z; pg_Interval : Z; pg_RecordRtts : bool; pg_Source : string }.

(** A run: the callbacks in order, whether it ends with an error, and the counts of the
    pinger after it. *)
Record pingRun := { pr_events : list event; pr_err : bool; pr_sent : Z; pr_recv : Z }.

Section probe.
(** The size of packets in the library. *)
Variable defaultSize : Z.

Definition newPinger (m : icmpModule) (a : address) : pinger :=
  {| pg_addr := a; pg_privileged := ic_Privileged m; pg_Timeout := ic_Timeout m;
     pg_DoNotFragment := ic_DontFragment m;
     pg_Size := if ic_PayloadSize m =? 0 then defaultSize else ic_PayloadSize m;
     pg_Count := ic_PacketCount m; pg_Interval := 50 * 1000000; pg_RecordRtts := false;
     pg_Source := ic_SourceIPAddress m |}.

(** A negative number of retries makes no lookup. *)
Definition resolveTarget (m : icmpModule) (answers : list lookupAnswer) : option (address * family) :=
  if ic_MaxResolveRetries m <? 0 then None
  else chooseProtocol (Z.to_nat (ic_MaxResolveRetries m)) (preferred (ic_IPProtocol m)) (ic_Fallback m) answers.

Definition probeICMP (m : icmpModule) (answers : list lookupAnswer) (lookup : Z) (resolves : bool)
    (run : pinger → pingRun) : go (gauges * bool * spec_float) :=
  let r := resolveTarget m answers in
  let g := lookupGauges lookup r noGauges in
  match r with
  | None => Ret (g, false, fzero)
  | Some (a, _) =>
      let g := setResolve (seconds lookup) g in
      if negb resolves then Ret (g, false, fzero)
      else
        let out := run (newPinger m a) in
        s ← callbacks (pr_events out)
              {| ps_gauges := g; ps_setupDone := false; ps_duration := fadd fzero (seconds lookup) |};
        if pr_err out then Ret (ps_gauges s, false, fzero)
        else Ret (ps_gauges s,
                  (ic_ReqSuccessCount m <=? pr_sent out) && (ic_ReqSuccessCount m <=? pr_recv out), ps_duration s)
  end.

(** [isPrivilegedRequired]: an unprivileged ping of the local host, once. *)
Definition privilegeModule : icmpModule :=
  {| ic_Timeout := 1000000000; ic_PacketCount := 1; ic_ReqSuccessCount := 0; ic_MaxResolveRetries := 0;
     ic_IPProtocol := "ip4"; ic_Fallback := false; ic_SourceIPAddress := ""; ic_PayloadSize := 0;
     ic_DontFragment := false; ic_Privileged := false |}.
Definition privilegedRequired (known : option bool) (answers : list lookupAnswer) (lookup : Z) (resolves : bool)
    (run : pinger → pingRun) : go (option bool * bool) :=
  match known with
  | Some b => Ret (known, b)
  | None =>
      '(_, success, _) ← probeICMP privilegeModule answers lookup resolves run;
      Ret (isPrivilegedRequired known success)
  end.

(** ** What a probe does *)

Definition firstReply (e : event) : bool :=
  match e with OnRecv seq ttl => (seq =? 0) && (0 <=? ttl) | _ => false end.
Definition statistics (l : list event) : list Statistics :=
  omap (λ e, match e with OnFinish s => Some s | _ => None end) l.

Lemma callbacks_spec l s :
  (length (List.filter firstReply l) + match hop_limit (ps_gauges s) with Some _ => 1 | None => 0 end ≤ 1)%nat →
  ∃ s', callbacks l s = Ret s' ∧
    packets_sent (ps_gauges s') = from_option (λ st, f64_of (PacketsSent st)) (packets_sent (ps_gauges s)) (last (statistics l)) ∧
    packets_received (ps_gauges s') =
      from_option (λ st, f64_of (PacketsRecv st)) (packets_received (ps_gauges s)) (last (statistics l)) ∧
    ip_protocol (ps_gauges s') = ip_protocol (ps_gauges s) ∧ ip_addr_hash (ps_gauges s') = ip_addr_hash (ps_gauges s) ∧
    (is_Some (hop_limit (ps_gauges s')) ↔ is_Some (hop_limit (ps_gauges s)) ∨ existsb firstReply l = true).
Proof.
  revert s. induction l as [|e l IH]; intros s Hn.
  { exists s. split_and!; try done. split; [by left|by intros [?|?]]. }
  cbn [callbacks]. destruct e as [d|q|q t|q|st]; cbn [callback mbind go_bind firstReply List.filter] in *.
  - destruct (ps_setupDone s); [by apply IH|].
    match goal with |- ∃ s', callbacks l ?s1 = _ ∧ _ => exact (IH s1 Hn) end.
  - by apply IH.
  - cbn [existsb firstReply]. destruct ((q =? 0) && (0 <=? t)) eqn:E; [|by apply IH].
    destruct (hop_limit (ps_gauges s)) as [h|] eqn:Eh; [simpl in Hn; lia|].
    set (s1 := {| ps_gauges := setHop t _; ps_setupDone := _; ps_duration := _ |}).
    destruct (IH s1) as (s' & Es & ? & ? & ? & ? & Hh); [subst s1; simpl in *; lia|]. cbn [mbind go_bind]. rewrite Es.
    exists s'. split_and!; try done. rewrite Hh. subst s1. simpl. split; [by right|]. intros _. left. by eexists.
  - by apply IH.
  - set (s1 := {| ps_gauges := setStatistics st _; ps_setupDone := _; ps_duration := _ |}).
    destruct (IH s1) as (s' & Es & E1 & E2 & ? & ? & Hh); [exact Hn|]. exists s'. split_and!; try done.
    + rewrite E1. cbn [statistics omap list_omap]. fold (statistics l). rewrite last_cons. by destruct (last (statistics l)).
    + rewrite E2. cbn [statistics omap list_omap]. fold (statistics l). rewrite last_cons. by destruct (last (statistics l)).
Qed.

(** How the library behaves: it reports at most one reply that is not a duplicate to
    the first packet, and a run without an error ends with the statistics of the pinger. *)
Definition documented (out : pingRun) : Prop :=
  (length (List.filter firstReply (pr_events out)) ≤ 1)%nat ∧
  (pr_err out = false → ∃ st, last (statistics (pr_events out)) = Some st ∧ PacketsSent st = pr_sent out ∧ PacketsRecv st = pr_recv out).

Lemma two_first_replies_panic t u s :
  0 ≤ t → 0 ≤ u → ∃ w, callbacks [OnRecv 0 t; OnRecv 0 u] s = Panic w.
Proof.
  intros Ht Hu. cbn. rewrite (proj2 (Z.leb_le 0 t) Ht), (proj2 (Z.leb_le 0 u) Hu).
  destruct (hop_limit (ps_gauges s)); eexists; reflexivity.
Qed.

(** The replies a check asks for. *)
Definition needed (s : PingSettings) : Z := if ping_PacketCount s =? 0 then 1 else ping_PacketCount s.

(** C26: what a successful ping means. When the resolver and the ping library behave as
    documented, the probe of a ping check never panics. It succeeds exactly when an address
    was chosen, within four lookups and among those of the first answer as
    the settings prefer, the pinger accepts it, its run ends without an error, and enough
    packets were sent and received: all those the check asks for, or one of three when it
    leaves the number open. A successful probe shows the counts, the family and the hash of
    that address, a hop limit exactly when the first packet was replied to, and it pinged that
    address with the timeout, size, number of packets and source of the check. A probe that
    does not get to the end of a run takes no time. *)
Theorem ping_probe privileged c settings m answers lookup resolves run :
  Ping (Settings c) = Some settings → icmp_NewProber privileged c = Some m →
  Forall (answersFor (preferred (ic_IPProtocol m)) (ic_Fallback m)) answers → (∀ p, documented (run p)) →
  ∃ g ok d, probeICMP m answers lookup resolves run = Ret (g, ok, d) ∧
    (ok = true ↔ ∃ a f, resolveTarget m answers = Some (a, f) ∧ resolves = true ∧
       let out := run (newPinger m a) in
       pr_err out = false ∧ needed settings ≤ pr_sent out ∧ needed settings ≤ pr_recv out) ∧
    (ok = true → ∃ a k ips, (k ≤ 3)%nat ∧ Forall (λ r, r = Err true) (take k answers) ∧ answers !! k = Some (Ok ips) ∧
       chosen (preferred (ic_IPProtocol m)) (ic_Fallback m) ips a ∧
       ip_protocol g = protocolToGauge (ip_family a) ∧ ip_addr_hash g = ipHash a ∧
       let p := newPinger m a in
       packets_sent g = f64_of (pr_sent (run p)) ∧ packets_received g = f64_of (pr_recv (run p)) ∧
       (is_Some (hop_limit g) ↔ existsb firstReply (pr_events (run p)) = true) ∧
       pg_Count p = (if ping_PacketCount settings =? 0 then 3 else ping_PacketCount settings) ∧
       pg_Timeout p = durationMs (Timeout c) ∧ pg_Source p = ping_SourceIpAddress settings) ∧
    (resolveTarget m answers = None ∨ resolves = false → d = fzero).
Proof.
  intros Hs Hm Hfor Hrun. unfold icmp_NewProber in Hm. rewrite Hs in Hm. cbn [mbind option_bind] in Hm.
  destruct (ToIpProtocol (ping_IpVersion settings)) as [proto fallback] eqn:Ep. injection Hm as Hm.
  assert (Hneed : ic_ReqSuccessCount m = needed settings) by by subst m.
  assert (Hrt : resolveTarget m answers = chooseProtocol 3 (preferred (ic_IPProtocol m)) (ic_Fallback m) answers) by by subst m.
  assert (Hcfg : pg_Count (newPinger m {| ip_bytes := []; ip_family := IP4 |}) =
    (if ping_PacketCount settings =? 0 then 3 else ping_PacketCount settings) ∧ ic_Timeout m = durationMs (Timeout c) ∧
    ic_SourceIPAddress m = ping_SourceIpAddress settings) by by subst m.
  clear Hm. unfold probeICMP. destruct (resolveTarget m answers) as [[a f]|] eqn:Er.
  2: { eexists _, _, _. split; [done|]. split; [split; [done|by intros (? & ? & ? & _)]|]. by split. }
  destruct resolves; cbn [negb].
  2: { eexists _, _, _. split; [done|]. split; [split; [done|by intros (? & ? & _ & ? & _)]|]. by split. }
  set (g0 := setResolve _ _). set (out := run (newPinger m a)). destruct (Hrun (newPinger m a)) as [Hone Hend]. fold out in Hone, Hend.
  destruct (callbacks_spec (pr_events out) {| ps_gauges := g0; ps_setupDone := false; ps_duration := fadd fzero (seconds lookup) |})
    as (s & Es & E1 & E2 & E3 & E4 & E5); [simpl; lia|]. rewrite Es. cbn [mbind go_bind].
  destruct (pr_err out) eqn:Ee.
  { eexists _, _, _. split; [done|]. split; [|split; [done|by intros [?|?]]]. split; [done|].
    intros (a' & f' & [= <- <-] & _ & He & _). fold out in He. congruence. }
  eexists _, _, _. split; [done|]. split; [|split; [|by intros [?|?]]].
  - rewrite Hneed, andb_true_iff, !Z.leb_le. split; [intros [? ?]; by exists a, f|].
    intros (a' & f' & [= <- <-] & _ & _ & ?). done.
  - intros _. symmetry in Hrt. apply ping_address_choice in Hrt as (k & ips & Hk & Hf & Ha & -> & Hc); [|done].
    destruct (Hend eq_refl) as (st & Hst & Hsent & Hrecv). rewrite Hst in E1, E2. simpl in E1, E2.
    rewrite Hsent in E1. rewrite Hrecv in E2. destruct Hcfg as (? & ? & ?).
    exists a, k, ips. split_and!; try done. rewrite E5. simpl. split; [intros [[? ?]|?]; done|by right].
Qed.

(** The test for privileges only asks whether a ping can run: one that gets no reply passes. *)
Lemma privileges_need_no_reply answers lookup resolves run :
  (∀ p, documented (run p)) → (∀ p, 0 ≤ pr_sent (run p) ∧ 0 ≤ pr_recv (run p)) →
  ∃ b, privilegedRequired None answers lookup resolves run = Ret (Some b, b) ∧
    (b = false ↔ ∃ a f, resolveTarget privilegeModule answers = Some (a, f) ∧ resolves = true ∧
       pr_err (run (newPinger privilegeModule a)) = false).
Proof.
  intros Hrun Hpos. unfold privilegedRequired, probeICMP, isPrivilegedRequired.
  destruct (resolveTarget privilegeModule answers) as [[a f]|] eqn:Er.
  2: { exists true. split; [done|]. split; [done|by intros (? & ? & ? & _)]. }
  destruct resolves; cbn [negb].
  2: { exists true. split; [done|]. split; [done|by intros (? & ? & _ & ? & _)]. }
  set (out := run (newPinger privilegeModule a)). destruct (Hrun (newPinger privilegeModule a)) as [Hone _]. fold out in Hone.
  destruct (callbacks_spec (pr_events out) {| ps_gauges := setResolve (seconds lookup) (lookupGauges lookup (Some (a, f)) noGauges);
    ps_setupDone := false; ps_duration := fadd fzero (seconds lookup) |}) as (s & -> & _); [simpl; lia|].
  cbn [mbind go_bind]. destruct (pr_err out) eqn:Ee.
  - exists true. split; [done|]. split; [done|]. intros (a' & f' & [= <- <-] & _ & He). fold out in He. congruence.
  - destruct (Hpos (newPinger privilegeModule a)) as [H0 H1]. fold out in H0, H1.
    change (ic_ReqSuccessCount privilegeModule) with 0.
    rewrite (proj2 (Z.leb_le 0 _) H0), (proj2 (Z.leb_le 0 _) H1). exists false. split; [done|]. split; [|done]. intros _. by exists a, f.
Qed.
End probe.

(** Three packets to an address of the other family, of which the second is lost: a check
    that leaves the number open succeeds. *)
Definition samplePing (count : Z) : Check :=
  {| Id := 1; TenantId := 1; Frequency := 60000; Offset := 0; Timeout := 3000; Enabled := true; Labels := [];
     Settings := {| Ping := Some {| ping_IpVersion := 0; ping_SourceIpAddress := ""; ping_PacketCount := count;
                                    ping_PayloadSize := 0; ping_DontFragment := false |};
                    Http := None; Dns := None; Tcp := None; Traceroute := None; Scripted := None;
                    Multihttp := None; Grpc := None; Browser := None |};
     Probes := [1]; Target := "grafana.com"; Job := "j"; BasicMetricsOnly := true; AlertSensitivity := "";
     Created := S754_zero false; Modified := S754_zero false |}.
Definition sampleRun (p : pinger) : pingRun :=
  {| pr_events := [OnSetup 1000; OnSend 0; OnRecv 0 57; OnSend 1; OnSend 2; OnRecv 2 57; OnDuplicateRecv 0;
                   OnFinish {| AvgRtt := 20; MaxRtt := 30; MinRtt := 10; StdDevRtt := 10; PacketsSent := 3; PacketsRecv := 2 |}];
     pr_err := false; pr_sent := 3; pr_recv := 2 |}.

Lemma ping_probe_witness :
  let v4 := {| ip_bytes := [1; 2; 3; 4]; ip_family := IP4 |} in
  ∃ g d, probeICMP 24 {| ic_Timeout := 3000000000; ic_PacketCount := 3; ic_ReqSuccessCount := 1;
      ic_MaxResolveRetries := 3; ic_IPProtocol := "ip6"; ic_Fallback := true; ic_SourceIPAddress := "";
      ic_PayloadSize := 0; ic_DontFragment := false; ic_Privileged := false |} [Err true; Ok [v4]] 5 true sampleRun
    = Ret (g, true, d) ∧ ip_protocol g = f64_of 4 ∧ packets_received g = f64_of 2.
Proof.
  intros v4. destruct (ping_probe 24 false (samplePing 0) _ _ [Err true; Ok [v4]] 5 true sampleRun eq_refl eq_refl)
    as (g & ok & d & E & Hok & Hg & _).
  - apply Forall_cons; split; [|apply Forall_singleton]; intros [=].
  - intros p. split; [simpl; lia|]. intros _. eexists. split; [reflexivity|]. split; reflexivity.
  - assert (Ht : ok = true).
    { apply Hok. exists v4, IP4. split; [reflexivity|]. split; [reflexivity|]. simpl. split; [reflexivity|].
      unfold needed. simpl. lia. }
    destruct (Hg Ht) as (a & k & ips & _ & _ & Ha & Hc & Hp & _ & _ & Hr & _). subst ok. exists g, d. split; [exact E|].
    assert (Ea : a = v4).
    { destruct k as [|[|k]]; simpl in Ha; [discriminate| |discriminate]. injection Ha as <-.
      destruct Hc as [(l1 & l2 & El & Hf & Hl)|(_ & _ & El)]; [|injection El; auto].
      destruct l1 as [|b l1]; [injection El; auto|]. destruct l1; discriminate. }
    rewrite Ea in *. split; [exact Hp|exact Hr].
Defined.
