(* ===== verification/Traceroute.v ===== *)
(** * Traceroute

    [internal/prober/traceroute/traceroute.go]: the metrics a probe makes of the hops
    that the mtr library reports. *)
From S2P Require Import Prelude Strs Checks Hash Probers.
From Stdlib Require Import Floats.SpecFloat.
From stdpp Require Import sorting.

Open Scope Z_scope.

(** A hop as the library counts it: [AvgMs] is [hop.Avg()] as an integer, [Loss] is [hop.Loss()]. *)
Record hop := { TTL : Z; Lost : Z; Sent : Z; Targets : list string; AvgMs : Z; Loss : spec_float }.

(** [m.Statistic], by TTL. *)
Notation statistic := (gmap Z hop).

(** A trace that could be started: how [RunWithContext] ended and what it counted. *)
Record trace := { Address : string; ran : option string; Statistic : statistic }.

Inductive entry :=
  | LogNotStarted (err : string)
  | LogError (msg : string)
  | LogHop (Destination Hosts : string) (ttl ElapsedTime : Z) (LossPercent : spec_float) (sent : Z).

Record metrics := { route_hash : Z; total_hops : Z; packet_loss : spec_float }.
Record outcome := { success : bool; entries : list entry; registered : option metrics }.

(** The TTLs in order. *)
Definition ttls (m : statistic) : list Z := merge_sort Z.le (map fst (map_to_list m)).
Definition hopsOf (m : statistic) : list hop := omap (λ t, m !! t) (ttls m).

(** [float64(x)] added up, and divided. *)
Definition total (f : hop → Z) (hs : list hop) : spec_float :=
  fold_left (λ t h, SFadd 53 1024 t (f64_of (f h))) hs (S754_zero false).

Section probe.
(** The library: [NewMTR] with [RunWithContext] for a target and settings, and [LookupAddr], the
    name of the target with an index of a hop. *)
Context (NewMTR : string → tracerouteModule → result string trace)
  (LookupAddr : bool → list string → nat → string).

(** The targets are sorted in place before they are looked up. *)
Definition hopHosts (ptrLookup : bool) (h : hop) : string :=
  let targets := sortStrings (Targets h) in
  Strs.join "," (map (LookupAddr ptrLookup targets) (seq 0 (length targets))).
Definition hostsString (ptrLookup : bool) (m : statistic) : string :=
  Strs.join "" (map (hopHosts ptrLookup) (hopsOf m)).

Definition logHop (ptrLookup : bool) (address : string) (h : hop) : entry :=
  LogHop address (hopHosts ptrLookup h) (TTL h) (wrap64 (AvgMs h * 1000000)) (Loss h) (Sent h).

Definition metricsOf (ptrLookup : bool) (m : statistic) : metrics :=
  {| route_hash := New32 (map byteOf (chars (hostsString ptrLookup m)));
     total_hops := Z.of_nat (size m);
     packet_loss := SFdiv 53 1024 (total Lost (hopsOf m)) (total Sent (hopsOf m)) |}.

Definition Probe (config : tracerouteModule) (target : string) : outcome :=
  match NewMTR target config with
  | Err e => {| success := false; entries := [LogNotStarted e]; registered := None |}
  | Ok m =>
      {| success := match ran m with None => true | Some _ => false end;
         entries := match ran m with None => [] | Some msg => [LogError msg] end ++
           map (logHop (trm_ptrLookup config) (Address m)) (hopsOf (Statistic m));
         registered := Some (metricsOf (trm_ptrLookup config) (Statistic m)) |}
  end.

(** ** The route *)

Lemma hopsOf_perm m : hopsOf m ≡ₚ map snd (map_to_list m).
Proof.
  unfold hopsOf, ttls. rewrite merge_sort_Permutation.
  assert (Hl : ∀ l, (∀ p, p ∈ l → m !! p.1 = Some p.2) → omap (λ t, m !! t) (map fst l) = map snd l).
  { induction l as [|[t h] l IH]; intros Hl; [done|]. assert (Ht := Hl (t, h)). simpl in *. rewrite Ht by left. f_equal.
    apply IH. intros p Hp. apply Hl. by right. }
  rewrite Hl; [done|]. intros [t h] Hp. by apply elem_of_map_to_list.
Qed.

Definition isHop (e : entry) : bool := match e with LogHop _ _ _ _ _ _ => true | _ => false end.

Lemma logHop_isHop ptr address l : filter isHop (map (logHop ptr address) l) = map (logHop ptr address) l.
Proof. induction l as [|h l IH]; [done|]. simpl. rewrite filter_cons_True by done. by rewrite IH. Qed.

(** A trace that was started has one entry for each hop, by increasing TTL; the number of hops
    is the metric's; the hash is a 32-bit word and, with it, a function of the names on
    the path in that order. *)
Lemma route_in_order config target m :
  NewMTR target config = Ok m →
  let ptr := trm_ptrLookup config in
  ∃ x, registered (Probe config target) = Some x ∧
  (success (Probe config target) = true ↔ ran m = None) ∧
  StronglySorted Z.le (ttls (Statistic m)) ∧ hopsOf (Statistic m) ≡ₚ map snd (map_to_list (Statistic m)) ∧
  filter isHop (entries (Probe config target)) = map (logHop ptr (Address m)) (hopsOf (Statistic m)) ∧
  total_hops x = Z.of_nat (length (hopsOf (Statistic m))) ∧
  0 ≤ route_hash x < two32 ∧
  ∀ m', map (hopHosts ptr) (hopsOf m') = map (hopHosts ptr) (hopsOf (Statistic m)) →
    route_hash (metricsOf ptr m') = route_hash x.
Proof.
  intros E ptr. unfold Probe. rewrite E. eexists. split; [done|].
  assert (Hb : ∀ s, Forall isByte (map byteOf (chars s))).
  { intros s. apply Forall_forall. intros b (a & -> & _)%list_elem_of_fmap. apply byteOf_isByte. }
  split_and!.
  - simpl. by destruct (ran m).
  - apply (StronglySorted_merge_sort Z.le _).
  - apply hopsOf_perm.
  - cbn [entries]. rewrite filter_app, logHop_isHop. by destruct (ran m).
  - simpl. by rewrite (Permutation_length (hopsOf_perm _)), length_map, length_map_to_list.
  - by apply New32_bound.
  - by apply New32_bound.
  - intros m' E'. simpl. unfold hostsString. by rewrite E'.
Qed.

End probe.

(** ** Examples *)

Definition example_hop (n : string) : hop :=
  {| TTL := 1; Lost := 1; Sent := 1; Targets := [n]; AvgMs := 3; Loss := f64_of 100 |}.
(** A library without names. *)
Definition plainLookup (ptrLookup : bool) (targets : list string) (k : nat) : string := nth k targets EmptyString.
Definition example_trace (m : statistic) (target : string) (config : tracerouteModule) : result string trace :=
  Ok {| Address := target; ran := None; Statistic := m |}.
Definition example_metrics (m : statistic) : option metrics :=
  registered (Probe (example_trace m) plainLookup
    (traceroute_module {| tr_MaxHops := 0; tr_MaxUnknownHops := 0; tr_PtrLookup := false; tr_HopTimeout := 0 |}) "t").

(** Nothing separates the hops: different routes have the same hash. *)
Lemma route_hash_ambiguous :
  route_hash <$> example_metrics {[1 := example_hop "a"; 2 := example_hop "bc"]} =
  route_hash <$> example_metrics {[1 := example_hop "ab"; 2 := example_hop "c"]}.
Proof. by vm_compute. Qed.

(** The percentage is a ratio: when every packet is lost it is 1. *)
Lemma packet_loss_is_ratio :
  packet_loss <$> example_metrics {[1 := example_hop "a"; 2 := example_hop "b"]} = Some (f64_of 1).
Proof. by vm_compute. Qed.

(** Without a hop it is not a number. *)
Lemma no_hop_no_loss : packet_loss <$> example_metrics ∅ = Some S754_nan.
Proof. by vm_compute. Qed.
