(* ===== verification/Runner.v ===== *)
(** * The k6 probers from end to end

    The multihttp, scripted and browser probers
    ([internal/prober/{multihttp,scripted,browser}]) with the runner they share:
    [k6runner.New], the whole of [Local.Run] ([k6runner/local.go]), the versions both
    runners report, [version.NewRepository], and the retriever of credentials.  The
    pieces are those of [Script], [K6], [Secrets] and [Probers]. *)
From Stdlib Require Import SpecFloat.
From S2P Require Import Prelude Strs Header Checks Validate Interpolation Tenants Features Probers Script K6 Secrets.

Open Scope Z_scope.

(** ** The choice of a runner *)

Section runners.
(** [url.Parse] as far as the path is concerned: the path, and the URL with another. *)
Variable parsePath : string → option (string * (string → string)).

Definition trimRunSuffix (rawUrl : string) : string :=
  match parsePath rawUrl with
  | None => rawUrl
  | Some (path, withPath) => withPath (trimSuffix "/run" (trimSuffix "/run/" path))
  end.

(** What [os.Stat] and [exec.LookPath] say. *)
Record fileStat := { st_IsDir : bool; st_Mode : Z }.
Variables (stat : string → option fileStat) (lookPath : string → option string) (isAbs : string → bool).

Inductive repositoryErr :=
  | ErrNoRootNorOverride | ErrStatRoot | ErrRootNotDir | ErrLookPath | ErrStatOverride | ErrOverrideNotExecutable.

Definition checkRoot (root : string) : option repositoryErr :=
  if String.eqb root "" then None
  else match stat root with
       | None => Some ErrStatRoot
       | Some st => if st_IsDir st then None else Some ErrRootNotDir
       end.
Definition resolveOverride (override : string) : result repositoryErr string :=
  if String.eqb override "" then Ok override
  else
    match (if isAbs override then Some override else lookPath override) with
    | None => Err ErrLookPath
    | Some override =>
        match stat override with
        | None => Err ErrStatOverride
        | Some st =>
            if st_IsDir st || (Z.land (st_Mode st) 64 =? 0) then Err ErrOverrideNotExecutable else Ok override
        end
    end.
Definition NewRepository {V} (root override : string) : result repositoryErr (@Repository V) :=
  if String.eqb root "" && String.eqb override "" then Err ErrNoRootNorOverride
  else match checkRoot root with
       | Some e => Err e
       | None => override ← resolveOverride override;
                 Ok {| Root := root; Override := override; entries := [] |}
       end.

Inductive runner {V} :=
  | RemoteRunner (url : string) (r : HttpRunner) (versionPollInterval : Z)
  | LocalRunner (blacklistedIP : string) (repo : @Repository V).

Definition New {V} (uri repository blacklistedIP : string) : result repositoryErr (@runner V) :=
  if hasPrefix "http" uri then
    Ok (RemoteRunner (trimRunSuffix uri) {| backoff := defaultBackoff; graceTime := defaultGraceTime |} (30 * second))
  else repo ← NewRepository repository uri; Ok (LocalRunner blacklistedIP repo).
End runners.

(** ** The versions of k6 a runner reports *)

(** A tick of the poll: what the remote runner answered, and what the [select] that
    follows chose; or the end of the context. *)
Inductive pollSelect := PollCancelled | PollUnconsumed | PollConsumed.
Inductive pollEvent :=
  | PollDone
  | PollTick (answer : result string (Z * option (list (string * string)))) (sel : pollSelect).

(** One request: the error it logs, or the versions. *)
Definition pollVersions (answer : result string (Z * option (list (string * string)))) : result string (list string) :=
  '(status, body) ← answer;
  if negb (status =? 200) then Err ("unexpected status " +:+ itoa status)
  else match body with
       | None => Err "decoding response"%string
       | Some l => Ok (map fst l)
       end.

(** The lists sent on the channel, and whether it was closed. *)
Fixpoint Versions_loop (evs : list pollEvent) : list (list string) * bool :=
  match evs with
  | [] => ([], false)
  | PollDone :: _ => ([], true)
  | PollTick answer sel :: evs =>
      let '(sent, closed) := Versions_loop evs in
      (match pollVersions answer, sel with Ok vs, PollConsumed => vs :: sent | _, _ => sent end, closed)
  end.
Definition HttpRunner_Versions (versionPollInterval : Z) (evs : list pollEvent) : go (list (list string) * bool) :=
  if versionPollInterval =? 0 then Panic "zero versionPollInterval, runner is misconfigured"
  else Ret (Versions_loop evs).

(** The local runner reports once, unless the repository cannot be read or the context
    ends first. *)
Definition Local_Versions {V} `{Semver V} (join : string → string → string) (versionString : V → string) files version
    (cancelled : bool) (r : Repository) : Repository * list (list string) :=
  let '(r, es) := Entries join files version r in
  (r, match es with
      | None => []
      | Some es => if cancelled then [] else [map (versionString ∘ e_Version) es]
      end).

(** ** [Local.Run] *)

(** What the file system answers to the local runner. *)
Record localFs := {
  fs_workdir : option string; fs_metricsFn : option string; fs_logsFn : option string;
  fs_scriptFn : option string; fs_writeScript : bool; fs_secretConfig : option string }.
(** What a run of k6 leaves. *)
Record k6Outcome := {
  ko_cmdErr : err; ko_ctxErr : err; ko_logs : result err (list ascii); ko_metrics : result err (list ascii) }.

Definition orErr {A} (o : option A) (what : string) : result err A :=
  match o with Some a => Ok a | None => Err [OtherError what] end.

Section local.
Context {V : Type} `{Semver V}.
Variables (filepathJoin : string → string → string) (files : option (list dirFile)) (version : string → option V).
Variable blacklistedIP : string.
Variable fs : localFs.

Definition manifestOf (s : k6Script) : string :=
  if String.eqb (k6_Manifest s) "" then "*"%string else k6_Manifest s.

(** The secrets file: its name, empty when the store is not configured. *)
Definition secretConfigOf (store : K6.SecretStore) : result err string :=
  if IsConfigured store then orErr (fs_secretConfig fs) "cannot create secret config file" else Ok EmptyString.

(** Everything before [cmd.Run]: the binary and its arguments. *)
Definition Local_command (s : k6Script) (store : K6.SecretStore) (executionID : string) (entry : Entry)
    : result err (@Entry V * list string) :=
  if wrap64 (k6_Timeout s * millisecond) =? 0 then Err [ErrNoTimeout]
  else
    _ ← orErr (fs_workdir fs) "cannot create temporary directory";
    metricsFn ← orErr (fs_metricsFn fs) "cannot obtain temporary metrics filename";
    logsFn ← orErr (fs_logsFn fs) "cannot obtain temporary logs filename";
    scriptFn ← orErr (fs_scriptFn fs) "cannot obtain temporary script filename";
    if negb (fs_writeScript fs) then Err [OtherError "cannot write temporary script file"]
    else
      configFile ← secretConfigOf store;
      Ok (entry, buildK6Args blacklistedIP (ci_Type (k6_Info s)) metricsFn logsFn scriptFn configFile executionID).

Definition Local_start (s : k6Script) (store : K6.SecretStore) (executionID : string) (r : Repository)
    : Repository * result err (@Entry V * list string) :=
  let '(r, entry) := Resolve filepathJoin (manifestOf s) files version r in
  (r, match entry with
      | Err _ => Err [OtherError "cannot resolve k6 version"]
      | Ok entry => Local_command s store executionID entry
      end).

(** [exec] runs a command; [versionLine] is the first line of the logs. *)
Variables (logfmt : list ascii → list record * option (option record)) (errorText : err → string).
Variables (versionLine : string → @Entry V → list ascii) (notice : Z → list ascii).
Variable exec : @Entry V → list string → k6Outcome.

Definition Local_Run (s : k6Script) (store : K6.SecretStore) (executionID : string) (r : Repository)
    : Repository * result err RunResponse :=
  let '(r, command) := Local_start s store executionID r in
  (r, '(entry, args) ← command;
      let o := exec entry args in
      Local_finish logfmt errorText (versionLine (manifestOf s) entry) notice
        (ko_cmdErr o) (ko_ctxErr o) (ko_logs o) (ko_metrics o)).
End local.

(** ** The probers *)

(** [newCredentialsRetriever], the same in the three packages. *)
Definition credentials {E} (tenant : result E Tenant) : result E K6.SecretStore :=
  store ← GetSecretCredentials tenant;
  Ok match store with
     | Some c => {| ss_Url := s_Url c; ss_Token := s_Token c |}
     | None => {| ss_Url := ""; ss_Token := "" |}
     end.

(** [Probe], the same in the three packages; [run] is the processor with its runner. *)
Definition Probe {E} (store : result E K6.SecretStore) (run : K6.SecretStore → probeResult) : bool * spec_float :=
  match store with
  | Err _ => (false, S754_zero false)
  | Ok store =>
      let p := run store in
      match p_err p with
      | [] => (p_success p, seconds (p_duration p))
      | _ => (false, S754_zero false)
      end
  end.

(** The credentials and the probe of each package. *)
Definition scripted_Probe {E} (tenant : result E Tenant) (run : K6.SecretStore → probeResult) : bool * spec_float :=
  Probe (credentials tenant) run.
Definition browser_Probe {E} (tenant : result E Tenant) (run : K6.SecretStore → probeResult) : bool * spec_float :=
  Probe (credentials tenant) run.
Definition multihttp_Probe {E} (tenant : result E Tenant) (run : K6.SecretStore → probeResult) : bool * spec_float :=
  Probe (credentials tenant) run.

(** [multihttp.NewProber]. *)
Section multihttp.
Variables (isPrint : N → bool) (urlParse : string → option url) (ParseMediaType vn vv : string → bool).

Definition headersOf (e : option MultiHttpEntry) : option (list HttpHeader) :=
  e ← e; r ← e_Request e; mapM id (Checks.r_Headers r).
Definition setHeaders (e : option MultiHttpEntry) (hs : list HttpHeader) : option MultiHttpEntry :=
  e ← e; r ← e_Request e;
  Some {| e_Request := Some {| Checks.r_Method := Checks.r_Method r; Checks.r_Url := Checks.r_Url r; Checks.r_Headers := map Some hs;
                               Checks.r_QueryFields := Checks.r_QueryFields r; Checks.r_Body := Checks.r_Body r |};
          e_Assertions := e_Assertions e; e_Variables := e_Variables e |}.
Definition augmentSettings (reserved : list (string * list string)) (s : MultiHttpSettings) : go MultiHttpSettings :=
  match mapM headersOf (mh_Entries s) with
  | None => Panic "nil pointer dereference"
  | Some hss =>
      Ret {| mh_Entries := zip_with setHeaders (mh_Entries s) (Script.augmentHttpHeaders reserved hss);
             mh_LogResponses := mh_LogResponses s |}
  end.

Inductive multihttpErr := errUnsupportedCheck | InvalidSettings (e : verr) | ErrTemplate.

Definition multihttp_NewProber (reserved : list (string * list string)) (regionId : Z) (c : Check)
    : go (result multihttpErr k6Script) :=
  match Multihttp (Settings c) with
  | None => Ret (Err errUnsupportedCheck)
  | Some s =>
      v ← MultiHttpSettings_Validate urlParse ParseMediaType vn vv s;
      match v with
      | Some e => Ret (Err (InvalidSettings e))
      | None =>
          s ← (match reserved with [] => Ret s | _ => augmentSettings reserved s end : go MultiHttpSettings);
          match settingsToScript isPrint s with
          | None => Ret (Err ErrTemplate)
          | Some script =>
              info ← CheckInfoFromSM regionId c;
              Ret (Ok {| k6_Info := info; k6_Script := script; k6_Timeout := Timeout c; k6_Manifest := "*" |})
          end
      end
  end.

Definition withHeaders (l : liveEntry) (hs : list HttpHeader) : liveEntry :=
  {| le_Request := {| lr_Method := lr_Method (le_Request l); lr_Url := lr_Url (le_Request l); lr_Headers := hs;
                      lr_QueryFields := lr_QueryFields (le_Request l); lr_Body := lr_Body (le_Request l) |};
     le_Assertions := le_Assertions l; le_Variables := le_Variables l |}.

Lemma mapM_id_Some {A} (l : list A) : mapM id (map Some l) = Some l.
Proof. induction l as [|x l IH]; [done|]. simpl. change (id (Some x)) with (Some x). simpl. by rewrite IH. Qed.

Lemma live_parts e l :
  liveOf e = Some l →
  headersOf e = Some (lr_Headers (le_Request l)) ∧ ∀ hs, liveOf (setHeaders e hs) = Some (withHeaders l hs).
Proof.
  destruct e as [e|]; [|done]. unfold liveOf, headersOf, setHeaders. cbn [mbind option_bind].
  destruct (e_Request e) as [r|]; [|done]. cbn [mbind option_bind].
  destruct (mapM id (Checks.r_Headers r)) as [hs|], (mapM id (r_QueryFields r)) as [qs|] eqn:Eq,
    (mapM id (e_Assertions e)) as [als|] eqn:Ea, (mapM id (e_Variables e)) as [vs|] eqn:Ev; try done.
  cbn [mbind option_bind]. intros [= <-]. split; [done|]. intros hs'. cbn. by rewrite mapM_id_Some, Eq, Ea, Ev.
Qed.

Lemma live_headersOf es ls :
  mapM liveOf es = Some ls → mapM headersOf es = Some (map (lr_Headers ∘ le_Request) ls).
Proof.
  rewrite !mapM_Some. induction 1 as [|e l es ls He _ IH]; simpl; constructor; [|done]. by apply live_parts.
Qed.
Lemma live_setHeaders es ls hss :
  mapM liveOf es = Some ls → mapM liveOf (zip_with setHeaders es hss) = Some (zip_with withHeaders ls hss).
Proof.
  rewrite !mapM_Some. intros H. revert hss. induction H as [|e l es ls He _ IH]; intros [|hs hss]; simpl;
    constructor; [by apply live_parts|done].
Qed.
Lemma withHeaders_Forall (P : liveEntry → Prop) ls hss :
  (∀ l hs, P l → P (withHeaders l hs)) → Forall P ls → Forall P (zip_with withHeaders ls hss).
Proof. intros HP H. revert hss. induction H; intros [|hs hss]; simpl; constructor; auto. Qed.

Lemma multihttp_type c s : Multihttp (Settings c) = Some s → ∃ ct, Type_ c = Ret ct.
Proof.
  unfold Type_, Settings_Type. destruct (Settings c) as [[] [] [] [] [] [] [] [] []]; simpl; intros [= ]; eauto.
Qed.

(** C12: a valid multihttp check runs a well formed script.  For validated settings the
    prober is always made, with or without reserved headers, for the check's timeout and
    any version of k6; whatever the names, values, expressions, headers, payloads and
    content types are, every literal of its script is closed on its line, every bracket
    is matched, and the script ends outside literals and comments; provided the URLs have
    no quotes, backslashes or line breaks (they are copied into literals as they are) and
    no assertion is nil (validation accepts one). *)
Theorem multihttp_prober_well_formed reserved regionId c s :
  Multihttp (Settings c) = Some s →
  MultiHttpSettings_Validate urlParse ParseMediaType vn vv s = Ret None →
  plainUrls s → noNilAssertion s →
  ∃ p, multihttp_NewProber reserved regionId c = Ret (Ok p) ∧ is_Some (lex (k6_Script p)) ∧
    k6_Timeout p = Timeout c ∧ k6_Manifest p = "*"%string.
Proof.
  intros Hs Hv Hu Hn. unfold multihttp_NewProber. rewrite Hs. cbn [mbind go_bind]. rewrite Hv. cbn [mbind go_bind].
  destruct (valid_settings_live _ _ _ _ _ Hv Hu Hn) as (ls & Hl & Hk & Hp).
  assert (Hx : ∃ s' ls', (match reserved with [] => Ret s | _ => augmentSettings reserved s end : go _) = Ret s' ∧
    mapM liveOf (mh_Entries s') = Some ls' ∧ Forall knownEntry ls' ∧ Forall plainUrl ls').
  { destruct reserved as [|kv reserved]; [by exists s, ls|]. unfold augmentSettings.
    rewrite (live_headersOf _ _ Hl). eexists _, _. split; [done|]. split; [by apply live_setHeaders|].
    split; by apply withHeaders_Forall. }
  destruct Hx as (s' & ls' & -> & Hl' & Hk' & Hp'). cbn [mbind go_bind]. unfold settingsToScript. rewrite Hl'.
  cbn [mbind option_bind]. unfold CheckInfoFromSM. destruct (multihttp_type c s Hs) as [ct ->]. cbn.
  eexists. split; [done|]. split; [|done]. by apply scriptText_lex.
Qed.
End multihttp.

(** ** A probe with the local runner *)

Section probe.
Context {V : Type} `{Semver V} {E : Type}.
Variables (filepathJoin : string → string → string) (files : option (list dirFile)) (version : string → option V).
Variables (blacklistedIP : string) (fs : localFs).
Variables (logfmt : list ascii → list record * option (option record)) (errorText : err → string).
Variables (versionLine : string → @Entry V → list ascii) (notice : Z → list ascii).
Variable exec : @Entry V → list string → k6Outcome.
Variables (decode : list ascii → list sample * bool) (constMetric : string → gmap string string → bool)
  (register : list sample → bool).

Definition local_Probe (tenant : result E Tenant) (s : k6Script) (executionID : string) (r : Repository)
    : bool * spec_float :=
  Probe (credentials tenant) (λ store,
    Processor_Run logfmt decode constMetric register
      (Local_Run filepathJoin files version blacklistedIP fs logfmt errorText versionLine notice exec
         s store executionID r).2).

(** The arguments of k6: those of every run, the secrets file exactly when there is a
    store, those of the type of the check, and the script. *)
Definition secretArgs (configFile : string) : list string :=
  ["--secret-source"; "grafanasecrets=config=" +:+ configFile]%string.
Definition modeArgs (checkType executionID : string) : list string :=
  (if decide (checkType = "browser") then
     if decide (executionID = "") then [] else ["-e"; "K6_CLOUD_PUSH_REF_ID=sm:" +:+ executionID]
   else ["--vus"; "1"; "--iterations"; "1"])%string.
Definition argsOf (s : k6Script) (store : K6.SecretStore) (executionID : string) (args : list string) : Prop :=
  ∃ metricsFn logsFn scriptFn secrets,
    fs_metricsFn fs = Some metricsFn ∧ fs_logsFn fs = Some logsFn ∧ fs_scriptFn fs = Some scriptFn ∧
    (if IsConfigured store then ∃ f, fs_secretConfig fs = Some f ∧ secrets = secretArgs f else secrets = []) ∧
    args = commonArgs blacklistedIP metricsFn logsFn ++ secrets ++ modeArgs (ci_Type (k6_Info s)) executionID ++ [scriptFn].

Lemma buildK6Args_parts checkType m l sf configFile executionID :
  buildK6Args blacklistedIP checkType m l sf configFile executionID =
  commonArgs blacklistedIP m l ++ (if decide (configFile = EmptyString) then [] else secretArgs configFile) ++
  modeArgs checkType executionID ++ [sf].
Proof.
  unfold buildK6Args, modeArgs, buildK6RefID. change (CheckType_String CheckTypeBrowser) with "browser"%string.
  f_equal. f_equal; [by destruct (String.eqb_spec configFile ""); case_decide|]. f_equal.
  destruct (String.eqb_spec checkType "browser"); case_decide; try done.
  by destruct (String.eqb_spec executionID ""); case_decide.
Qed.

#[local] Arguments buildK6Args : simpl never.
Lemma command_args s store executionID (entry entry' : @Entry V) args :
  Local_command blacklistedIP fs s store executionID entry = Ok (entry', args) →
  (∀ f, fs_secretConfig fs = Some f → f ≠ EmptyString) →
  entry' = entry ∧ wrap64 (k6_Timeout s * millisecond) ≠ 0 ∧ argsOf s store executionID args.
Proof.
  unfold Local_command. destruct (Z.eqb_spec (wrap64 (k6_Timeout s * millisecond)) 0) as [|Ht]; [done|].
  destruct (fs_workdir fs) as [w|]; [|done]. unfold argsOf.
  destruct (fs_metricsFn fs) as [m|]; [|done].
  destruct (fs_logsFn fs) as [l|]; [|done]. destruct (fs_scriptFn fs) as [sf|]; [|done]. cbn.
  destruct (fs_writeScript fs); [|done]. cbn. unfold secretConfigOf. intros Hr Hf.
  destruct (IsConfigured store) eqn:Ec.
  - destruct (fs_secretConfig fs) as [f|] eqn:Ef; [|done]. injection Hr as <- <-.
    rewrite buildK6Args_parts, decide_False by (by apply Hf). do 2 (split; [done|]).
    exists m, l, sf, (secretArgs f). split_and!; eauto.
  - injection Hr as <- <-. rewrite buildK6Args_parts, decide_True by done.
    do 2 (split; [done|]). exists m, l, sf, []. split_and!; eauto.
Qed.

(** The response of a finished run has no error exactly when nothing went wrong. *)
Lemma finish_clean line o resp :
  (∀ e, e ≠ [] → errorText e ≠ EmptyString) →
  Local_finish logfmt errorText line notice (ko_cmdErr o) (ko_ctxErr o) (ko_logs o) (ko_metrics o) = Ok resp →
  rr_Error resp = EmptyString →
  ko_cmdErr o = [] ∧ ko_ctxErr o = [] ∧ errorFromLogs logfmt (rr_Logs resp) = [].
Proof.
  intros Ht. unfold Local_finish. set (e := ko_cmdErr o ++ ko_ctxErr o).
  destruct (_ && _); [done|]. destruct (ko_logs o) as [lf|]; [|done]. destruct (readFileLimit lf _ _) as [lb lt].
  destruct (ko_metrics o) as [mf|]; [|done]. destruct (readFileLimit mf _ _) as [mb mt].
  set (lg := if mt then _ else _). intros [= <-]. destruct (e ++ errorFromLogs logfmt lg) as [|x l] eqn:Ee.
  - intros _. cbn. apply app_eq_nil in Ee as [Ee ->]. by apply app_eq_nil in Ee as [-> ->].
  - cbn. intros He. by destruct (Ht (x :: l)).
Qed.

(** C15: what a successful k6 probe means.  When a probe through the local runner reports
    success, on a repository of which no scan failed: the credentials of the tenant were
    obtained; the binary that ran is one that a scan of the repository found, satisfies the
    check's channel (any version when it has none), and no other of that scan that does is
    newer; its arguments are those of every run, the secrets file exactly when the tenant's
    store has a URL and a token, those of the type of the check, and the script; k6 exited
    with status zero before the check's timeout, which is not zero; the logs of its response
    have no fatal error or uncaught exception; all its output could be used; and the
    duration reported is the one its metrics have.  (A scan that failed leaves its binaries
    unsorted, [failed_scan_is_kept], and the next probe may run an old one.) *)
Theorem successful_probe tenant s executionID r0 h r :
  (∀ e, e ≠ [] → errorText e ≠ EmptyString) → (∀ f, fs_secretConfig fs = Some f → f ≠ EmptyString) →
  scans filepathJoin r0 h r →
  (local_Probe tenant s executionID r).1 = true →
  ∃ store check scanned bins entry args resp,
    credentials tenant = Ok store ∧
    NewConstraint (manifestOf s) = Some check ∧
    scanned ∈ (files, version) :: h ∧ binaries filepathJoin r0 scanned.1 = Some bins ∧
    e_Path entry ∈ bins ∧ scanned.2 (e_Path entry) = Some (e_Version entry) ∧ check (e_Version entry) = true ∧
    (∀ b v, b ∈ bins → scanned.2 b = Some v → check v = true → Compare v (e_Version entry) ≤ 0) ∧
    argsOf s store executionID args ∧ wrap64 (k6_Timeout s * millisecond) ≠ 0 ∧
    (let o := exec entry args in
     ko_cmdErr o = [] ∧ ko_ctxErr o = [] ∧
     Local_finish logfmt errorText (versionLine (manifestOf s) entry) notice [] [] (ko_logs o) (ko_metrics o) =
       Ok resp) ∧
    errorFromLogs logfmt (rr_Logs resp) = [] ∧ usable logfmt decode constMetric register resp ∧
    (local_Probe tenant s executionID r).2 = seconds (scriptDuration decode resp).
Proof.
  intros Ht Hf Hr Hok. unfold local_Probe, Probe in *.
  destruct (credentials tenant) as [store|]; [|done]. unfold Local_Run, Local_start in *.
  destruct (Resolve filepathJoin (manifestOf s) files version r) as [r' [entry|e]] eqn:Eres; [|done].
  apply (resolve_newest filepathJoin _ _ _ _ _ _ _ _ Hr) in Eres
    as (check & scanned & bins & Hc & Hin & Hb & _ & Hp & Hver & Hck & Hnew). cbn [snd] in *.
  destruct (Local_command _ _ _ _ _ _) as [[entry' args]|e] eqn:Ecmd; [|by destruct e]. cbn in *.
  destruct (command_args _ _ _ _ _ _ Ecmd Hf) as (-> & Htm & Hargs).
  destruct (Local_finish _ _ _ _ _ _ _ _) as [resp|e] eqn:Efin; [|by destruct e].
  assert (Hs : p_success (Processor_Run logfmt decode constMetric register (Ok resp)) = true)
    by (by destruct (p_err _)).
  apply processor_success in Hs as (He & Hcode & Hu).
  destruct (processor_known_code logfmt decode constMetric register resp Hu) as (Hperr & _ & Hdur);
    [by rewrite He, Hcode|by left|].
  destruct (finish_clean _ _ _ Ht Efin He) as (H1 & H2 & H3). rewrite H1, H2 in Efin.
  exists store, check, scanned, bins, entry, args, resp. rewrite Hperr, Hdur. by split_and!.
Qed.
End probe.

(** ** Instances *)

Definition sampleInfo : CheckInfo :=
  {| ci_Type := "scripted"; ci_id := 1; ci_tenantID := 2; ci_regionID := 0; ci_created := S754_zero false;
     ci_modified := S754_zero false |}.
Definition sampleScript : k6Script :=
  {| k6_Info := sampleInfo; k6_Script := chars "export default function() {}"; k6_Timeout := 1000;
     k6_Manifest := "1" |}.
Definition sampleFs : localFs :=
  {| fs_workdir := Some "/tmp/k6"; fs_metricsFn := Some "/tmp/k6/m"; fs_logsFn := Some "/tmp/k6/l";
     fs_scriptFn := Some "/tmp/k6/s"; fs_writeScript := true; fs_secretConfig := Some "/tmp/secrets" |}%string.
Definition sampleOutcome : k6Outcome := {| ko_cmdErr := []; ko_ctxErr := []; ko_logs := Ok []; ko_metrics := Ok [] |}.

(** The tenant has a complete store, and the directory was scanned by an earlier probe and
    cannot be read any more. *)
Lemma successful_probe_witness :
  ∃ store check scanned bins entry args resp,
    credentials (Ok (example_tenant 0 f64_1e9) : result unit Tenant) = Ok store ∧
    NewConstraint "1" = Some check ∧
    scanned ∈ [(None, λ _, None); (sampleFiles, sampleVersion)] ∧
    binaries joinSlash sampleRepository scanned.1 = Some bins ∧
    e_Path entry ∈ bins ∧ scanned.2 (e_Path entry) = Some (e_Version entry) ∧ check (e_Version entry) = true ∧
    argsOf "10.0.0.0/8" sampleFs sampleScript store "id" args ∧
    errorFromLogs (λ _, ([], None)) (rr_Logs resp) = [].
Proof.
  destruct (successful_probe joinSlash None (λ _, None) "10.0.0.0/8" sampleFs (λ _, ([], None))
    (λ _, "error"%string) (λ _ _, []) (λ _, []) (λ _ _, sampleOutcome) (λ _, ([], false)) (λ _ _, true) (λ _, true)
    (Ok (example_tenant 0 f64_1e9) : result unit Tenant) sampleScript "id" sampleRepository
    [(sampleFiles, sampleVersion)] scannedRepository)
    as (store & check & scanned & bins & entry & args & resp & H1 & H2 & H3 & H4 & H5 & H6 & H7 & _ & H8 & _ & _ & H9 & _).
  - intros e _. discriminate.
  - intros f [= <-]. discriminate.
  - exact sample_scans.
  - vm_compute. reflexivity.
  - exists store, check, scanned, bins, entry, args, resp. repeat split; assumption.
Defined.

Definition multihttpCheck (s : MultiHttpSettings) : Check :=
  {| Id := 1; TenantId := 1; Frequency := 60000; Offset := 0; Timeout := 5000; Enabled := true; Labels := [];
     Settings := {| Ping := None; Http := None; Dns := None; Tcp := None; Traceroute := None; Scripted := None;
                    Multihttp := Some s; Grpc := None; Browser := None |};
     Probes := [1]; Target := "http://a.b/"; Job := "j"; BasicMetricsOnly := true; AlertSensitivity := "";
     Created := S754_zero false; Modified := S754_zero false |}.

Lemma multihttp_prober_well_formed_witness :
  ∃ p, multihttp_NewProber (λ _, false) (λ _, None) (λ _, true) (λ _, true) (λ _, true)
         [("X-Sm-Id", ["1-2"])]%string 0
         (multihttpCheck (Script.sample "http://a.b/${x}" "'+evil()+'" "\'); evil(); ('")) = Ret (Ok p) ∧
    is_Some (lex (k6_Script p)).
Proof.
  destruct (multihttp_prober_well_formed (λ _, false) (λ _, None) (λ _, true) (λ _, true) (λ _, true)
    [("X-Sm-Id", ["1-2"])]%string 0
    (multihttpCheck (Script.sample "http://a.b/${x}" "'+evil()+'" "\'); evil(); ('")) _ eq_refl)
    as (p & Hp & Hl & _).
  - reflexivity.
  - intros e r Hin%list_elem_of_singleton. injection Hin as ->. simpl. intros [= <-]. repeat constructor.
  - intros e Hin%list_elem_of_singleton. injection Hin as ->. simpl. set_solver.
  - exists p. split; [exact Hp|exact Hl].
Defined.
