(* ===== verification/LocalRun.v ===== *)
(** * A run of the local k6 runner and its files

    [Local.Run] of [src/internal/k6runner/local.go] as a whole: the version it resolves,
    the temporary directory and files it makes, the file with the token of the secret
    store ([createSecretConfigFile]), the command, and what its [defer]s remove.  The
    repository, the arguments and what becomes of the output are those of [K6]; [Runner]
    has the same run over the answers of the file system alone, and the run over files is
    shown to implement it.

    The code runs over a small monad: the files, the commands run so far, and a result.
    Names of temporary files, failures of the file system and the behaviour of the
    command are inputs.  [json.Marshal] of the configuration, which has two strings, is
    one too. *)
From stdpp Require Import gmap.
From S2P Require Import Prelude Strs Checks K6 Probers Runner.

Open Scope Z_scope.

(** ** Files *)

Record fileSystem := { fs_files : gmap string (list ascii); fs_dirs : gset string }.

(** A call of [exec.Command]: the binary, its arguments, environment and directory, and
    the files it finds. *)
Record invocation := {
  iv_path : string; iv_args : list string; iv_env : list string; iv_dir : string; iv_files : fileSystem }.

(** The files, the commands run, and the result. *)
Definition io (A : Type) : Type := fileSystem * list invocation → (fileSystem * list invocation) * result err A.
#[export] Instance io_ret : MRet io := λ A a s, (s, Ok a).
#[export] Instance io_bind : MBind io := λ A B k m s,
  let '(s, r) := m s in match r with Ok a => k a s | Err e => (s, Err e) end.
Definition throw {A} (e : err) : io A := λ s, (s, Err e).
(** [fmt.Errorf("what: %w", err)], with [what] alone. *)
Definition context {A} (what : string) (m : io A) : io A := λ s,
  let '(s, r) := m s in (s, match r with Ok a => Ok a | Err _ => Err [OtherError what] end).

(** [defer f()]: [f] runs whatever the result. *)
Definition deferred {A} (f : fileSystem → fileSystem) (m : io A) : io A := λ s,
  let '((fs, l), r) := m s in ((f fs, l), r).

Definition modify (f : fileSystem → fileSystem) : io unit := λ '(fs, l), ((f fs, l), Ok tt).

Definition write (name : string) (content : list ascii) (fs : fileSystem) : fileSystem :=
  {| fs_files := <[name := content]> (fs_files fs); fs_dirs := fs_dirs fs |}.
Definition mkdir (name : string) (fs : fileSystem) : fileSystem :=
  {| fs_files := fs_files fs; fs_dirs := {[name]} ∪ fs_dirs fs |}.

(** A directory and what is below it. *)
Definition within (dir path : string) : bool := String.eqb path dir || hasPrefix (dir +:+ "/") path.

(** [os.Remove] and [RemoveAll], which may fail; nobody looks at the first error, and the
    second is logged.  [RemoveAll] that fails ([Some]) may have removed a part already. *)
Definition remove (ok : bool) (name : string) (fs : fileSystem) : fileSystem :=
  if ok then {| fs_files := delete name (fs_files fs); fs_dirs := fs_dirs fs |} else fs.
Definition removeAll (stays : option (string → bool)) (dir : string) (fs : fileSystem) : fileSystem :=
  let gone p := within dir p && match stays with Some keep => negb (keep p) | None => true end in
  {| fs_files := filter (λ p, gone p.1 = false) (fs_files fs);
     fs_dirs := filter (λ p, gone p = false) (fs_dirs fs) |}.

#[global] Arguments write : simpl never.
#[global] Arguments remove : simpl never.
#[global] Arguments removeAll : simpl never.

(** ** Temporary files *)

(** What [afero.TempFile] and [Close] do. *)
Inductive tempFile := NotMade | NotClosed (name : string) | Made (name : string).

Definition mktemp (t : tempFile) : io string :=
  match t with
  | NotMade => throw [OtherError "cannot create temporary file"]
  | NotClosed name => _ ← modify (write name []); throw [OtherError "cannot close temporary file"]
  | Made name => _ ← modify (write name []); mret name
  end.

(** What the calls of [createSecretConfigFile] do: the file that is made, whether
    [Chmod], [Marshal], [Write] (or after how many bytes it fails), [Close] and a removal
    succeed. *)
Record secretFile := {
  sf_removed : bool;
  sf_made : option string; sf_chmod : bool; sf_marshal : option (list ascii);
  sf_written : option nat; sf_closed : bool }.

(** [createSecretConfigFile]: the name of the file, whose removal is the cleanup that it
    returns. *)
Definition createSecretConfigFile (sf : secretFile) : io string :=
  match sf_made sf with
  | None => throw [OtherError "creating temp file"]
  | Some name =>
      _ ← modify (write name []);
      if negb (sf_chmod sf) then _ ← modify (remove (sf_removed sf) name); throw [OtherError "setting file permissions"]
      else
        match sf_marshal sf with
        | None => _ ← modify (remove (sf_removed sf) name); throw [OtherError "marshaling config to JSON"]
        | Some data =>
            match sf_written sf with
            | Some n =>
                _ ← modify (write name (take n data));
                _ ← modify (remove (sf_removed sf) name); throw [OtherError "writing config file"]
            | None =>
                _ ← modify (write name data);
                if negb (sf_closed sf) then _ ← modify (remove (sf_removed sf) name); throw [OtherError "closing config file"]
                else mret name
            end
        end
  end.

(** ** [Run] *)

Section run.
Context {V : Type} `{Semver V}.
Variable filepathJoin : string → string → string.
Variable logfmt : list ascii → list record * option (option record).
Variable errorText : err → string.
Variable versionLine : string → @Entry V → list ascii.
Variable notice : Z → list ascii.

(** The environment of a run: the repository's directory and what its binaries print,
    the environment variables, the names and failures of files ([w_written]: after how many
    bytes writing the script fails, if it does; [w_kept]: what stays of the directory when
    it cannot be removed), and the command: the files it leaves, anywhere, and its
    errors. *)
Record world := {
  w_binaries : option (list dirFile); w_version : string → option V;
  w_environ : list string; w_envOrder : list (string * string);
  w_workdir : option string;
  w_metrics : tempFile; w_logs : tempFile; w_script : tempFile;
  w_written : option nat;
  w_secret : string → string → secretFile;
  w_k6 : invocation → fileSystem * err * err;
  w_readable : string → bool;
  w_kept : option (string → bool);
}.

(** [readFileLimit] can open and read the file. *)
Definition readable (w : world) (name : string) (fs : fileSystem) : result err (list ascii) :=
  if w_readable w name then match fs_files fs !! name with Some l => Ok l | None => Err [OtherError "opening file"] end
  else Err [OtherError "reading file"].

(** [cmd.Run]: what k6 leaves, as [Runner] has it. *)
Definition k6OutcomeOf (w : world) (iv : invocation) (metricsFn logsFn : string) : k6Outcome :=
  let '(fs, cmdErr, ctxErr) := w_k6 w iv in
  {| ko_cmdErr := cmdErr; ko_ctxErr := ctxErr; ko_logs := readable w logsFn fs; ko_metrics := readable w metricsFn fs |}.

(** [cmd.Run] and what follows. *)
Definition runCommand (w : world) (s : k6Script) (entry : @Entry V) (args : list string) (dir metricsFn logsFn : string)
    : io RunResponse := λ '(fs, l),
  let iv := {| iv_path := e_Path entry; iv_args := args; iv_env := k6Env (w_envOrder w) (w_environ w); iv_dir := dir;
               iv_files := fs |} in
  let o := k6OutcomeOf w iv metricsFn logsFn in
  (((w_k6 w iv).1.1, l ++ [iv]),
   Local_finish logfmt errorText (versionLine (manifestOf s) entry) notice
     (ko_cmdErr o) (ko_ctxErr o) (ko_logs o) (ko_metrics o)).

(** From the temporary files on, with the directory. *)
Definition runIn (w : world) (blacklistedIP : string) (entry : @Entry V) (s : k6Script) (store : K6.SecretStore)
    (executionID workdir : string) : io RunResponse :=
  metricsFn ← context "cannot obtain temporary metrics filename" (mktemp (w_metrics w));
  logsFn ← context "cannot obtain temporary logs filename" (mktemp (w_logs w));
  scriptFn ← context "cannot obtain temporary script filename" (mktemp (w_script w));
  _ ← match w_written w with
      | None => modify (write scriptFn (k6_Script s))
      | Some n => _ ← modify (write scriptFn (take n (k6_Script s)));
                  throw [OtherError "cannot write temporary script file"]
      end;
  let command configFile :=
    runCommand w s entry (buildK6Args blacklistedIP (ci_Type (k6_Info s)) metricsFn logsFn scriptFn configFile executionID)
      workdir metricsFn logsFn in
  if IsConfigured store then
    let sf := w_secret w (ss_Url store) (ss_Token store) in
    configFile ← context "cannot create secret config file" (createSecretConfigFile sf);
    deferred (remove (sf_removed sf) configFile) (command configFile)
  else command "".

(** [Local.Run]: the repository is shared by the runs. *)
Definition Local_RunFiles (w : world) (blacklistedIP : string) (script : k6Script) (store : K6.SecretStore)
    (executionID : string) (repo : Repository) (s : fileSystem * list invocation)
    : Repository * ((fileSystem * list invocation) * result err RunResponse) :=
  let '(repo, k6Version) := Resolve filepathJoin (manifestOf script) (w_binaries w) (w_version w) repo in
  (repo,
   match k6Version with
   | Err _ => throw [OtherError "cannot resolve k6 version"] s
   | Ok k6Version =>
       if wrap64 (k6_Timeout script * millisecond) =? 0 then throw [ErrNoTimeout] s
       else match w_workdir w with
            | None => throw [OtherError "cannot create temporary directory"] s
            | Some workdir =>
                (_ ← modify (mkdir workdir);
                 deferred (removeAll (w_kept w) workdir)
                   (runIn w blacklistedIP k6Version script store executionID workdir)) s
            end
   end).

(** ** [Runner.Local_Run] *)

(** What the file system answers, for [Runner]. *)
Definition madeName (t : tempFile) : option string := match t with Made n => Some n | _ => None end.
Definition secretName (sf : secretFile) : option string :=
  match sf_marshal sf, sf_written sf with
  | Some _, None => if sf_chmod sf && sf_closed sf then sf_made sf else None
  | _, _ => None
  end.
Definition answers (w : world) (store : K6.SecretStore) : localFs :=
  {| fs_workdir := w_workdir w; fs_metricsFn := madeName (w_metrics w); fs_logsFn := madeName (w_logs w);
     fs_scriptFn := madeName (w_script w); fs_writeScript := bool_decide (w_written w = None);
     fs_secretConfig := secretName (w_secret w (ss_Url store) (ss_Token store)) |}.

(** The files the command finds, when all are made. *)
Definition atCommand (w : world) (s : k6Script) (store : K6.SecretStore) (fs : fileSystem) : fileSystem :=
  let put t l fs := match madeName t with Some n => write n l fs | None => fs end in
  let fs := put (w_script w) (k6_Script s) (put (w_script w) [] (put (w_logs w) [] (put (w_metrics w) []
              (match w_workdir w with Some d => mkdir d fs | None => fs end)))) in
  if IsConfigured store then
    let sf := w_secret w (ss_Url store) (ss_Token store) in
    match secretName sf, sf_marshal sf with Some n, Some data => write n data (write n [] fs) | _, _ => fs end
  else fs.

(** The command as [Runner] calls it. *)
Definition execOf (w : world) (s : k6Script) (store : K6.SecretStore) (fs : fileSystem) (entry : @Entry V)
    (args : list string) : k6Outcome :=
  k6OutcomeOf w {| iv_path := e_Path entry; iv_args := args; iv_env := k6Env (w_envOrder w) (w_environ w);
                 iv_dir := default "" (w_workdir w); iv_files := atCommand w s store fs |}
    (default "" (madeName (w_metrics w))) (default "" (madeName (w_logs w))).

(** The run over files gives the result of the run over answers. *)
Lemma run_implements w ip s store id repo fs l :
  let '(repo', (_, r)) := Local_RunFiles w ip s store id repo (fs, l) in
  (repo', r) = Local_Run filepathJoin (w_binaries w) (w_version w) ip (answers w store) logfmt errorText versionLine
                 notice (execOf w s store fs) s store id repo.
Proof.
  unfold Local_RunFiles, Local_Run, Local_start.
  destruct (Resolve _ _ _ _ repo) as [repo' [entry|e]]; [|done]. unfold Local_command.
  destruct (_ =? 0); [done|]. cbn [answers fs_workdir]. unfold execOf, atCommand.
  destruct (w_workdir w) as [d|] eqn:Ed; [|done].
  unfold runIn, mktemp, createSecretConfigFile, secretConfigOf, secretName, answers, context, deferred, throw, modify, mbind,
    io_bind, result_bind. simpl.
  destruct (w_metrics w) as [| |m]; [done..|]. simpl. destruct (w_logs w) as [| |lg]; [done..|]. simpl.
  destruct (w_script w) as [| |sc]; [done..|]. simpl. destruct (w_written w) as [n|]; [done|]. simpl.
  destruct (IsConfigured store); [|done]. set (sf := w_secret w _ _).
  destruct (sf_made sf) as [n|] eqn:En, (sf_marshal sf) as [data|] eqn:Ema, (sf_written sf) as [k|] eqn:Ew,
    (sf_chmod sf) eqn:Ech, (sf_closed sf) eqn:Ecl; unfold secretName; rewrite ?Ema, ?Ew, ?Ech, ?Ecl, ?En; simpl; rewrite ?En; done.
Qed.

(** ** Reasoning about runs *)

Definition wp {A} (m : io A) (Q : result err A → fileSystem → list invocation → Prop) (fs : fileSystem)
    (l : list invocation) : Prop :=
  let '((fs, l), r) := m (fs, l) in Q r fs l.

Lemma wp_bind {A B} (m : io A) (k : A → io B) Q fs l :
  wp m (λ r fs l, match r with Ok a => wp (k a) Q fs l | Err e => Q (Err e) fs l end) fs l →
  wp (a ← m; k a) Q fs l.
Proof. unfold wp. simpl. unfold mbind, io_bind. destruct (m (fs, l)) as [[fs' l'] [a|e]]; done. Qed.

Lemma wp_deferred {A} f (m : io A) Q fs l :
  wp m (λ r fs l, Q r (f fs) l) fs l → wp (deferred f m) Q fs l.
Proof. unfold wp, deferred. by destruct (m (fs, l)) as [[fs' l'] r]. Qed.

Lemma wp_context {A} what (m : io A) Q fs l :
  wp m (λ r fs l, Q match r with Ok a => Ok a | Err _ => Err [OtherError what] end fs l) fs l →
  wp (context what m) Q fs l.
Proof. unfold wp, context. by destruct (m (fs, l)) as [[fs' l'] r]. Qed.

Lemma wp_mono {A} (m : io A) (Q Q' : result err A → fileSystem → list invocation → Prop) fs l :
  (∀ r fs l, Q r fs l → Q' r fs l) → wp m Q fs l → wp m Q' fs l.
Proof. unfold wp. destruct (m (fs, l)) as [[fs' l'] r]. auto. Qed.

(** The file systems differ only in [dir], and in the file [name] if there is one. *)
Record near (dir : string) (name : option string) (fs0 fs : fileSystem) : Prop := {
  near_files p : within dir p = false → Some p ≠ name → fs_files fs !! p = fs_files fs0 !! p;
  near_dirs p : within dir p = false → p ∈ fs_dirs fs ↔ p ∈ fs_dirs fs0;
}.

Lemma near_refl d name fs : near d name fs fs.
Proof. done. Qed.
Lemma near_trans d name fs0 fs1 fs2 : near d name fs0 fs1 → near d name fs1 fs2 → near d name fs0 fs2.
Proof.
  intros [F1 D1] [F2 D2]. split.
  - intros p Hp Hn. by rewrite F2, F1.
  - intros p Hp. by rewrite D2, D1.
Qed.
Lemma near_weaken d n fs0 fs : near d None fs0 fs → near d n fs0 fs.
Proof. intros [Hf Hd]. split; [|done]. intros p Hp _. by apply Hf. Qed.

Lemma near_write dir name fs0 fs p l :
  within dir p = true ∨ Some p = name → near dir name fs0 fs → near dir name fs0 (write p l fs).
Proof.
  intros Hp [Hf Hd]. split; [|done]. intros q Hu Hn. unfold write. simpl. rewrite lookup_insert_ne; [by apply Hf|].
  intros ->. destruct Hp; congruence.
Qed.
Lemma near_remove d ok n fs0 fs : near d (Some n) fs0 fs → near d (Some n) fs0 (remove ok n fs).
Proof.
  intros [Hf Hd]. unfold remove. destruct ok; [|done]. split; [|done]. intros p Hp Hn. simpl.
  rewrite lookup_delete_ne by congruence. by apply Hf.
Qed.
Lemma removed n fs : fs_files (remove true n fs) !! n = None.
Proof. apply lookup_delete_eq. Qed.

Lemma near_removeAll d stays name fs0 fs : near d name fs0 fs → near d name fs0 (removeAll stays d fs).
Proof.
  intros [Hf Hd]. split.
  - intros p Hp Hn. rewrite <-Hf by done. unfold removeAll. simpl. apply option_eq. intros x.
    rewrite map_lookup_filter_Some. simpl. rewrite Hp. naive_solver.
  - intros p Hp. rewrite <-Hd by done. unfold removeAll. simpl. rewrite elem_of_filter, Hp. naive_solver.
Qed.
Lemma removeAll_none d stays p fs : fs_files fs !! p = None → fs_files (removeAll stays d fs) !! p = None.
Proof. intros Hp. unfold removeAll. simpl. apply map_lookup_filter_None. by left. Qed.
Lemma removeAll_all d p fs :
  within d p = true → fs_files (removeAll None d fs) !! p = None ∧ p ∉ fs_dirs (removeAll None d fs).
Proof.
  intros Hp. unfold removeAll. simpl. split.
  - apply map_lookup_filter_None. right. intros x _. simpl. by rewrite Hp.
  - rewrite elem_of_filter, Hp. naive_solver.
Qed.

(** What [TempDir] and [TempFile] document: the directory and the file of secrets are
    new, and the other files are in the directory. *)
Definition namedBy (t : tempFile) : option string :=
  match t with NotMade => None | NotClosed n | Made n => Some n end.
Record fresh (w : world) (fs : fileSystem) : Prop := {
  fresh_dir d p : w_workdir w = Some d → within d p = true → fs_files fs !! p = None ∧ p ∉ fs_dirs fs;
  fresh_temp d t n : w_workdir w = Some d → t ∈ [w_metrics w; w_logs w; w_script w] → namedBy t = Some n → within d n = true;
  fresh_secret url token n : sf_made (w_secret w url token) = Some n →
    fs_files fs !! n = None ∧ ∀ d, w_workdir w = Some d → within d n = false;
}.

(** What a run makes itself: its directory and what is below it, and the file of secrets
    when the store is configured. *)
Definition secretMade (w : world) (store : K6.SecretStore) : option string :=
  if IsConfigured store then sf_made (w_secret w (ss_Url store) (ss_Token store)) else None.
Definition secretRemoved (w : world) (store : K6.SecretStore) : bool :=
  sf_removed (w_secret w (ss_Url store) (ss_Token store)).

(** The run leaves [fs'], where [base] is what there would be without its own files: each
    is gone when it can be removed, and no other file or directory differs. *)
Record swept (w : world) (store : K6.SecretStore) (base fs' : fileSystem) : Prop := {
  swept_files p : (∀ d, w_workdir w = Some d → within d p = false) → secretMade w store ≠ Some p →
    fs_files fs' !! p = fs_files base !! p;
  swept_dirs p : (∀ d, w_workdir w = Some d → within d p = false) → p ∈ fs_dirs fs' ↔ p ∈ fs_dirs base;
  swept_dir d p : w_kept w = None → w_workdir w = Some d → within d p = true →
    fs_files fs' !! p = None ∧ p ∉ fs_dirs fs';
  swept_secret n : secretRemoved w store = true → secretMade w store = Some n → fs_files fs' !! n = None;
}.

Lemma secret_fresh w store n fs : fresh w fs → secretMade w store = Some n → fs_files fs !! n = None.
Proof. intros Hf. unfold secretMade. destruct (IsConfigured store); [|done]. intros Hn. by eapply fresh_secret. Qed.

Lemma swept_refl w store fs : fresh w fs → swept w store fs fs.
Proof.
  intros Hf. split; [done..| |].
  - intros d p _. by apply fresh_dir.
  - intros n _. by apply secret_fresh.
Qed.

(** With the directory removed last. *)
Lemma swept_removeAll w store d base fs :
  w_workdir w = Some d → near d (secretMade w store) base fs →
  (∀ n, secretRemoved w store = true → secretMade w store = Some n → fs_files fs !! n = None) →
  swept w store base (removeAll (w_kept w) d fs).
Proof.
  intros Hd Hn Hs. apply (near_removeAll _ (w_kept w)) in Hn as [Hf Hdirs]. split.
  - intros p Hp Hne. apply Hf; [by apply Hp|congruence].
  - intros p Hp. apply Hdirs. by apply Hp.
  - intros d' p Hk Hd' Hw. rewrite Hk. simplify_eq. by apply removeAll_all.
  - intros n Hr Hm. apply removeAll_none. by apply Hs.
Qed.

(** When all could be removed and nothing else changed, all is as before. *)
Lemma swept_all w store base fs fs' :
  fresh w fs → w_kept w = None → secretRemoved w store = true → swept w store base fs' →
  (∀ p, (∀ d, w_workdir w = Some d → within d p = false) → secretMade w store ≠ Some p →
     fs_files base !! p = fs_files fs !! p) →
  (∀ p, (∀ d, w_workdir w = Some d → within d p = false) → p ∈ fs_dirs base ↔ p ∈ fs_dirs fs) →
  fs' = fs.
Proof.
  intros Hf Hk Hr [S1 S2 S3 S4] B1 B2. destruct fs as [f0 d0], fs' as [f1 d1]. simpl in *.
  assert (Hcase : ∀ p, (∀ d, w_workdir w = Some d → within d p = false) ∨ ∃ d, w_workdir w = Some d ∧ within d p = true).
  { intros p. destruct (w_workdir w) as [d|]; [|by left]. destruct (within d p) eqn:Ep; [right; eauto|left].
    by intros d' [= <-]. }
  f_equal.
  - apply map_eq. intros p. destruct (Hcase p) as [Hp|(d & Hd & Hp)].
    + destruct (decide (secretMade w store = Some p)) as [Hm|Hm]; [|by rewrite S1, B1].
      rewrite (S4 p Hr Hm). symmetry. by apply (secret_fresh _ _ _ _ Hf Hm).
    + rewrite (proj1 (S3 d p Hk Hd Hp)). symmetry. by apply (fresh_dir _ _ Hf d p).
  - apply leibniz_equiv. intros p. destruct (Hcase p) as [Hp|(d & Hd & Hp)]; [by rewrite S2, B2|].
    destruct (S3 d p Hk Hd Hp), (fresh_dir _ _ Hf d p Hd Hp). naive_solver.
Qed.

Lemma mktemp_spec d name fs0 t fs l :
  near d name fs0 fs → (∀ n, namedBy t = Some n → within d n = true) →
  wp (mktemp t) (λ r fs' l', l' = l ∧ near d name fs0 fs' ∧ match r with Ok n => t = Made n | Err _ => True end) fs l.
Proof.
  intros Hn Hu. unfold wp. destruct t as [|n|n]; simpl; [done| |];
    (split_and!; [done|apply near_write; [left; by apply Hu|done]|done]).
Qed.

(** The file of secrets is whole, or it is removed. *)
Lemma secret_spec d fs0 sf fs l :
  near d None fs0 fs →
  wp (createSecretConfigFile sf) (λ r fs' l', l' = l ∧ near d (sf_made sf) fs0 fs' ∧
    match r with
    | Ok n => sf_made sf = Some n ∧
        (∃ data, sf_marshal sf = Some data ∧ fs_files fs' !! n = Some data) ∧
        ∀ p, p ≠ n → fs_files fs' !! p = fs_files fs !! p
    | Err _ => ∀ n, sf_removed sf = true → sf_made sf = Some n → fs_files fs' !! n = None
    end) fs l.
Proof.
  intros Hn. unfold wp, createSecretConfigFile. destruct (sf_made sf) as [n|]; [|done].
  assert (Hw : ∀ k fs', near d (Some n) fs0 fs' → near d (Some n) fs0 (write n k fs')) by (intros; apply near_write; auto).
  apply (near_weaken d (Some n)) in Hn.
  assert (Hr : ∀ fs', near d (Some n) fs0 fs' → near d (Some n) fs0 (remove (sf_removed sf) n fs') ∧
    ∀ n', sf_removed sf = true → Some n = Some n' → fs_files (remove (sf_removed sf) n fs') !! n' = None).
  { intros fs' H'. split; [by apply near_remove|]. intros n' -> [= <-]. apply removed. }
  destruct (sf_chmod sf); simpl; [|split; auto].
  destruct (sf_marshal sf) as [data|]; simpl; [|split; auto].
  destruct (sf_written sf) as [k|]; simpl; [split; auto|].
  destruct (sf_closed sf); simpl; [|split; auto].
  split_and!; [done|auto|done|exists data; split; [done|unfold write; simpl; by rewrite lookup_insert_eq]|].
  intros p Hp. unfold write. simpl. by rewrite !lookup_insert_ne.
Qed.

(** What the command finds: the script, and the secrets if there are any, in files that are
    named in its arguments. *)
Definition prepared (w : world) (blacklistedIP path : string) (script : k6Script) (store : K6.SecretStore)
    (executionID : string) (fs0 : fileSystem) (iv : invocation) : Prop :=
  ∃ metricsFn logsFn scriptFn configFile,
    iv_path iv = path ∧ w_workdir w = Some (iv_dir iv) ∧
    iv_args iv = buildK6Args blacklistedIP (ci_Type (k6_Info script)) metricsFn logsFn scriptFn configFile executionID ∧
    iv_env iv = k6Env (w_envOrder w) (w_environ w) ∧
    fs_files (iv_files iv) !! scriptFn = Some (k6_Script script) ∧
    (if IsConfigured store
     then sf_made (w_secret w (ss_Url store) (ss_Token store)) = Some configFile ∧
       ∃ data, sf_marshal (w_secret w (ss_Url store) (ss_Token store)) = Some data ∧
         fs_files (iv_files iv) !! configFile = Some data
     else configFile = EmptyString) ∧
    near (iv_dir iv) (secretMade w store) fs0 (iv_files iv).

(** The files without those of the run: what the command left, if there was one. *)
Definition without (w : world) (fs0 : fileSystem) (l : list invocation) : fileSystem :=
  match l with [] => fs0 | iv :: _ => (w_k6 w iv).1.1 end.

(** A part of a run, with the directory: what it leaves, but for its own files, is what the
    command left, the file of secrets is gone, and the command was as it should be. *)
Record ran (w : world) (ip path : string) (script : k6Script) (store : K6.SecretStore) (id d : string)
    (fs0 : fileSystem) (r : result err RunResponse) (fs' : fileSystem) (l : list invocation) : Prop := {
  ran_near : near d (secretMade w store) (without w fs0 l) fs';
  ran_secret n : secretRemoved w store = true → secretMade w store = Some n → fs_files fs' !! n = None;
  ran_command : match l with
    | [] => ∃ e, r = Err e
    | [iv] => prepared w ip path script store id fs0 iv
    | _ => False
    end;
}.

(** A failure before the file of secrets is made. *)
Lemma ran_failed w ip path script store id d fs0 e fs' :
  fresh w fs0 → w_workdir w = Some d → near d None fs0 fs' → ran w ip path script store id d fs0 (Err e) fs' [].
Proof.
  intros Hf Hd Hn. split; [by apply near_weaken| |by eexists]. intros n _ Hm. destruct Hn as [Hn _].
  rewrite Hn; [by apply (secret_fresh _ _ _ _ Hf Hm)| |done]. revert Hm. unfold secretMade.
  destruct (IsConfigured store); [|done]. intros Hm. by eapply fresh_secret.
Qed.

Lemma near_mkdir d fs : within d d = true → near d None fs (mkdir d fs).
Proof.
  intros Hd. split; [done|]. intros p Hp. unfold mkdir. simpl. assert (p ≠ d) by congruence. set_solver.
Qed.
Lemma within_refl d : within d d = true.
Proof. unfold within. by rewrite String.eqb_refl. Qed.

(** The command, with the file of secrets around it. *)
Lemma commanded_spec w ip entry script store id d metricsFn logsFn scriptFn fs0 fs :
  fresh w fs0 → w_workdir w = Some d → near d None fs0 fs →
  fs_files fs !! scriptFn = Some (k6_Script script) → within d scriptFn = true →
  let command configFile :=
    runCommand w script entry (buildK6Args ip (ci_Type (k6_Info script)) metricsFn logsFn scriptFn configFile id) d metricsFn logsFn in
  wp (if IsConfigured store then
        let sf := w_secret w (ss_Url store) (ss_Token store) in
        configFile ← context "cannot create secret config file" (createSecretConfigFile sf);
        deferred (remove (sf_removed sf) configFile) (command configFile)
      else command "")
    (ran w ip (e_Path entry) script store id d fs0) fs [].
Proof.
  intros Ht Hd Hn Hc Hu. cbn zeta. set (sf := w_secret w (ss_Url store) (ss_Token store)).
  destruct (IsConfigured store) eqn:Ec.
  - assert (Hmade : secretMade w store = sf_made sf) by (unfold secretMade; by rewrite Ec).
    apply wp_bind, wp_context. eapply wp_mono, (secret_spec d fs0); [|done].
    intros [configFile|e] fs1 l1 (-> & N1 & Hr); [|by split; [rewrite Hmade| |eexists]; [|rewrite Hmade; intros n; apply Hr|]].
    destruct Hr as (Hm & Hdata & Hsame). apply wp_deferred. unfold wp, runCommand. cbv zeta.
    split.
    + rewrite Hmade, Hm. apply near_remove, near_refl.
    + rewrite Hmade, Hm. unfold secretRemoved. intros n Hr [= <-]. fold sf in Hr |- *. rewrite Hr. apply removed.
    + simpl. exists metricsFn, logsFn, scriptFn, configFile. simpl. rewrite Ec, Hmade. split_and!; try done.
      rewrite Hsame; [done|]. intros ->. destruct (fresh_secret _ _ Ht _ _ _ Hm) as [_ Hout]. by rewrite (Hout d Hd) in Hu.
  - assert (Hmade : secretMade w store = None) by (unfold secretMade; by rewrite Ec).
    unfold wp, runCommand. cbv zeta. split; [apply near_refl|by rewrite Hmade|].
    simpl. exists metricsFn, logsFn, scriptFn, EmptyString. simpl. by rewrite Ec, Hmade.
Qed.

Lemma runIn_spec w ip entry script store id d fs0 fs :
  fresh w fs0 → w_workdir w = Some d → near d None fs0 fs →
  wp (runIn w ip entry script store id d) (ran w ip (e_Path entry) script store id d fs0) fs [].
Proof.
  intros Ht Hd Hn. unfold runIn.
  assert (Hu : ∀ t n, t ∈ [w_metrics w; w_logs w; w_script w] → namedBy t = Some n → within d n = true)
    by (intros; by eapply fresh_temp).
  apply wp_bind, wp_context. eapply wp_mono, (mktemp_spec d None fs0); [|done|intros; apply (Hu (w_metrics w)); set_solver].
  intros [metricsFn|e] fs1 l1 (-> & N1 & _); [|by apply ran_failed].
  apply wp_bind, wp_context. eapply wp_mono, (mktemp_spec d None fs0); [|done|intros; apply (Hu (w_logs w)); set_solver].
  intros [logsFn|e] fs2 l2 (-> & N2 & _); [|by apply ran_failed].
  apply wp_bind, wp_context. eapply wp_mono, (mktemp_spec d None fs0); [|done|intros; apply (Hu (w_script w)); set_solver].
  intros [scriptFn|e] fs3 l3 (-> & N3 & Hs); [|by apply ran_failed].
  assert (Hsu : within d scriptFn = true) by (apply (Hu (w_script w)); [set_solver|by rewrite Hs]).
  apply wp_bind. destruct (w_written w) as [n|]; cbn [wp modify throw mbind io_bind];
    [apply ran_failed; [done..|]; by apply near_write; [left|]|].
  apply (near_write d None fs0 fs3 scriptFn (k6_Script script)) in N3; [|by left].
  set (fs4 := write scriptFn (k6_Script script) fs3) in *. change (wp ?m ?Q fs4 []) with (wp m Q fs4 []).
  assert (Hc : fs_files fs4 !! scriptFn = Some (k6_Script script)) by (unfold fs4, write; simpl; by rewrite lookup_insert_eq).
  apply (commanded_spec w ip entry script store id d metricsFn logsFn scriptFn fs0 fs4 Ht Hd N3 Hc Hsu).
Qed.

(** k6 changed only its directory and the file of secrets. *)
Definition confined (w : world) (store : K6.SecretStore) (iv : invocation) : Prop :=
  near (iv_dir iv) (secretMade w store) (iv_files iv) (w_k6 w iv).1.1.

(** C19: A run of the local runner cleans up what it made.  On every path, failures to make
    a file, to write it, to run k6 and to remove files included: its directory with the
    script and the outputs is gone unless [RemoveAll] failed, and the file with the token of
    the secret store unless [Remove] did, whatever k6 did; no other file differs from the
    one that k6 left, or from the one before when k6 was not run.  So the files are those
    before when all removals succeed and k6 writes nowhere else.  At most one command is
    run: the binary that was resolved for the script's channel, with the script in the file
    its arguments name, and with the whole configuration of the secret store in another
    exactly when the store is configured; it finds every other file as it was.  The result
    is that of [Runner.Local_Run], an error when no command was run. *)
Theorem local_run_leaves_nothing w ip script store id repo fs :
  fresh w fs →
  let '(repo', ((fs', ivs), r)) := Local_RunFiles w ip script store id repo (fs, []) in
  swept w store (without w fs ivs) fs' ∧
  (w_kept w = None → secretRemoved w store = true → Forall (confined w store) ivs → fs' = fs) ∧
  (repo', r) = Local_Run filepathJoin (w_binaries w) (w_version w) ip (answers w store) logfmt errorText versionLine
                 notice (execOf w script store fs) script store id repo ∧
  match ivs with
  | [] => ∃ e, r = Err e
  | [iv] => ∃ entry, (Resolve filepathJoin (manifestOf script) (w_binaries w) (w_version w) repo).2 = Ok entry ∧
      prepared w ip (e_Path entry) script store id fs iv
  | _ => False
  end.
Proof.
  intros Ht. pose proof (run_implements w ip script store id repo fs []) as Hi.
  destruct (Local_RunFiles w ip script store id repo (fs, [])) as [repo' [[fs' ivs] r]] eqn:E. rewrite Hi.
  unfold Local_RunFiles, throw in E.
  destruct (Resolve _ _ _ _ repo) as [repo1 [entry|e]]; apply pair_equal_spec in E as [<- E];
    [|injection E as <- <- <-; split_and!; eauto using swept_refl].
  destruct (_ =? 0); [injection E as <- <- <-; split_and!; eauto using swept_refl|].
  destruct (w_workdir w) as [d|] eqn:Ed; [|injection E as <- <- <-; split_and!; eauto using swept_refl].
  pose proof (runIn_spec w ip entry script store id d fs (mkdir d fs) Ht Ed (near_mkdir d fs (within_refl d))) as H1.
  unfold wp in H1. unfold mbind, io_bind, modify, deferred in E.
  destruct (runIn _ _ _ _ _ _ _ (mkdir d fs, [])) as [[fs1 ivs1] r1]. injection E as <- <- <-.
  destruct H1 as [Hn Hs Ho]. assert (Hsw := swept_removeAll w store d _ _ Ed Hn Hs).
  split; [done|]. split; [|split; [done|]; destruct ivs1 as [|iv [|]]; [done|by exists entry|done]].
  intros Hk Hr Hc. assert (Hb : near d (secretMade w store) fs (without w fs ivs1)).
  { destruct ivs1 as [|iv [|]]; [done| |done]. apply Forall_cons in Hc as [Hc _].
    destruct Ho as (m & l & sc & cf & _ & Hd & _ & _ & _ & _ & Hnear). assert (iv_dir iv = d) by congruence.
    subst d. by eapply near_trans. }
  destruct Hb as [B1 B2]. eapply swept_all; [done..| |].
  - intros p Hp Hm. apply B1; [by apply Hp|congruence].
  - intros p Hp. apply B2. by apply Hp.
Qed.
End run.

(** ** Instances *)

Definition example_store : K6.SecretStore := {| ss_Url := "http://secrets"; ss_Token := "token" |}.
Definition example_world : @world Z :=
  {| w_binaries := sampleFiles; w_version := sampleVersion; w_environ := []; w_envOrder := envDefaults;
     w_workdir := Some "/tmp/k6-runner1"; w_metrics := Made "/tmp/k6-runner1/1.json";
     w_logs := Made "/tmp/k6-runner1/1.log"; w_script := Made "/tmp/k6-runner1/1.js"; w_written := None;
     w_secret := λ url token, {| sf_removed := true; sf_made := Some "/tmp/k6-secrets-1.json"; sf_chmod := true;
       sf_marshal := Some (chars (url +:+ token)); sf_written := None; sf_closed := true |};
     w_k6 := λ iv, (write "/tmp/screenshot.png" [] (iv_files iv), [], []);
     w_readable := λ _, true; w_kept := None |}%string.
Definition empty_files : fileSystem := {| fs_files := ∅; fs_dirs := ∅ |}.

Lemma example_fresh : fresh example_world empty_files.
Proof.
  split.
  - intros d p [= <-] _. split; [apply lookup_empty|set_solver].
  - intros d t n [= <-] Ht. repeat (apply elem_of_cons in Ht as [->|Ht]; [intros [= <-]; reflexivity|]). by apply elem_of_nil in Ht.
  - intros url token n [= <-]. split; [apply lookup_empty|]. intros d [= <-]. reflexivity.
Qed.

(** k6 writes a file elsewhere, which stays; the files of the run do not. *)
Lemma local_run_leaves_nothing_witness :
  let '(_, ((fs', ivs), r)) := Local_RunFiles joinSlash (λ _, ([], None)) (λ _, "error"%string) (λ _ _, []) (λ _, [])
      example_world "" sampleScript example_store "x" sampleRepository (empty_files, []) in
  swept example_world example_store (without example_world empty_files ivs) fs' ∧ length ivs = 1%nat ∧
  fs_files fs' !! "/tmp/screenshot.png"%string = Some [].
Proof.
  pose proof (local_run_leaves_nothing joinSlash (λ _, ([], None)) (λ _, "error"%string) (λ _ _, []) (λ _, [])
    example_world "" sampleScript example_store "x" sampleRepository empty_files example_fresh) as H.
  set (run := Local_RunFiles joinSlash _ _ _ _ _ _ _ _ _ _ _) in H |- *.
  assert (E : length run.2.1.2 = 1%nat ∧ fs_files run.2.1.1 !! "/tmp/screenshot.png"%string = Some [])
    by (split; vm_compute; reflexivity).
  clearbody run. destruct run as [repo' [[fs' ivs] r]]. destruct H as [Hfs _]. split; [exact Hfs|exact E].
Defined.
