(* ===== verification/Adhoc.v ===== *)
(** * Ad-hoc checks

    [internal/adhoc/adhoc.go]: the handler registers with the API, receives requests to
    run a check once, runs it and publishes the result as a log line.  The answers of
    the API, the messages of the stream and the results of probes are inputs. *)
From Stdlib Require Import SpecFloat.
From S2P Require Import Prelude Strs Checks Labels Collect Tenants Features Probers.

Open Scope Z_scope.

(** ** Errors of a session *)

(** [ErrStatus] is the error of a gRPC status the code has no name for, [ErrOther] any
    other error. *)
Inductive sessionErr :=
  | errNotAuthorized | errTransportClosing | errProbeUnregistered | errIncompatibleApi | errIdleTimeout
  | ctxCanceled | ctxDeadline
  | ErrStatus (code : Z) (message : string)
  | ErrOther (what : string).

(** A gRPC error: a status, or an error that has none. *)
Inductive grpcErr := Status (code : Z) (message : string) | NoStatus (what : string).

(** Codes: 1 Canceled, 7 PermissionDenied, 12 Unimplemented, 14 Unavailable. *)
Definition grpcErrorHandler (e : grpcErr) : sessionErr :=
  match e with
  | NoStatus what => ErrOther what
  | Status code message =>
      if code =? 1 then ctxCanceled
      else if String.eqb message "transport is closing" then errTransportClosing
      else if code =? 14 then errIdleTimeout
      else if code =? 7 then errNotAuthorized
      else if code =? 12 then errIncompatibleApi
      else ErrStatus code message
  end.

(** The error of [Recv] is returned as it is. *)
Definition rawErr (e : grpcErr) : sessionErr :=
  match e with Status code message => ErrStatus code message | NoStatus what => ErrOther what end.

(** ** Requests *)

Record AdHocRequest := { ar_Check : AdHocCheck; ar_Tenant : option Tenant }.

Record runner := { ru_kind : proberKind; ru_id : string; ru_target : string; ru_probe : string; ru_timeout : Z }.

Inductive requestErr := errInvalidAdHocRequest | ErrFactory (e : factoryErr).

Definition k6AdhocGraceTime : Z := 20 * 1000000000.

Definition checkOf (a : AdHocCheck) : Check :=
  {| Id := 0; TenantId := a_TenantId a; Frequency := 0; Offset := 0; Timeout := a_Timeout a; Enabled := true;
     Labels := []; Settings := a_Settings a; Probes := []; Target := a_Target a; Job := ""; BasicMetricsOnly := false;
     AlertSensitivity := ""; Created := SpecFloat.S754_zero false; Modified := SpecFloat.S754_zero false |}.

Record Handler := { h_features : Collection; h_hasRunner : bool; h_probe : option string }.

(** [defaultRunnerFactory]; [built] says whether the prober's constructor succeeds.  The
    probe is known once registered. *)
Definition defaultRunnerFactory (h : Handler) (built : bool) (req : AdHocRequest) : go (result requestErr runner) :=
  let a := ar_Check req in
  if a_TenantId a =? 0 then Ret (Err errInvalidAdHocRequest)
  else
    p ← factory_New (h_hasRunner h) (h_features h) built (checkOf a);
    match p with
    | Err e => Ret (Err (ErrFactory e))
    | Ok (kind, target) =>
        ct ← Type_ (checkOf a);
        let timeout := wrap64 (a_Timeout a * 1000000) in
        let timeout := match ct with
                       | CheckTypeMultiHttp | CheckTypeScripted | CheckTypeBrowser => wrap64 (timeout + k6AdhocGraceTime)
                       | _ => timeout
                       end in
        match h_probe h with
        | None => Panic "nil pointer dereference"
        | Some probe => Ret (Ok {| ru_kind := kind; ru_id := a_Id a; ru_target := target; ru_probe := probe;
                                   ru_timeout := timeout |})
        end
    end.

(** What handling a request does, in order: count it, start the run of its tenant, and
    forward the tenant. *)
Inductive action := Counted (ct : CheckType) | Started (tenantId : Z) (r : runner) | Forwarded (t : Tenant).

Definition handleAdHocCheck (h : Handler) (built : bool) (req : AdHocRequest) : go (list action * error requestErr) :=
  ct ← AdHoc_Type (ar_Check req);
  r ← defaultRunnerFactory h built req;
  Ret match r with
      | Err e => ([Counted ct], Some e)
      | Ok r => ([Counted ct; Started (a_TenantId (ar_Check req)) r] ++
                 match ar_Tenant req with Some t => [Forwarded t] | None => [] end, None)
      end.

(** ** The stream *)

(** What one round of [processAdHocChecks] meets. *)
Inductive streamEvent :=
  | StreamDone | CtxDone (e : sessionErr)
  | Message (req : AdHocRequest) (built : bool)
  | EOF | RecvFails (e : grpcErr).

(** The actions and the result; [None] while the stream goes on. *)
Fixpoint processAdHocChecks (h : Handler) (evs : list streamEvent) : go (list action * option (error sessionErr)) :=
  match evs with
  | [] => Ret ([], None)
  | StreamDone :: _ => Ret ([], Some None)
  | CtxDone e :: _ => Ret ([], Some (Some e))
  | EOF :: _ => Ret ([], Some None)
  | RecvFails e :: _ => Ret ([], Some (Some (rawErr e)))
  | Message req built :: evs =>
      '(acts, _) ← handleAdHocCheck h built req;
      '(acts', res) ← processAdHocChecks h evs;
      Ret (acts ++ acts', res)
  end.

(** ** One session: [loop] *)

Inductive registration :=
  | RegisterFails (e : grpcErr)
  | Registered (status : Z) (message : string) (probe : string).
(** Status codes of the API: 0 OK, 5 NOT_AUTHORIZED. *)
Definition StatusCode_OK : Z := 0.
Definition StatusCode_NOT_AUTHORIZED : Z := 5.

Record session := {
  se_client : option string;            (** the error of the client factory *)
  se_register : registration;
  se_stream : option grpcErr;           (** the error of [GetAdHocChecks] *)
  se_events : list streamEvent }.

Definition set_probe (p : string) (h : Handler) : Handler :=
  {| h_features := h_features h; h_hasRunner := h_hasRunner h; h_probe := Some p |}.

Definition loop (h : Handler) (s : session) : go (Handler * list action * option (error sessionErr)) :=
  match se_client s with
  | Some what => Ret (h, [], Some (Some (ErrOther what)))
  | None =>
      match se_register s with
      | RegisterFails e => Ret (h, [], Some (Some (grpcErrorHandler e)))
      | Registered status message probe =>
          if status =? StatusCode_OK then
            let h := set_probe probe h in
            match se_stream s with
            | Some e => Ret (h, [], Some (Some (grpcErrorHandler e)))
            | None => '(acts, res) ← processAdHocChecks h (se_events s); Ret (h, acts, res)
            end
          else if status =? StatusCode_NOT_AUTHORIZED then Ret (h, [], Some (Some errNotAuthorized))
          else Ret (h, [], Some (Some (ErrOther message)))
      end
  end.

(** ** [Run] *)

(** What [Run] does after a session ends: return, or go on after a sleep. *)
Inductive decision :=
  | Return (e : error sessionErr)
  | Again (reset : bool)                 (** at once *)
  | Sleep (resetBefore resetAfter : bool) (minute : bool).  (** then again *)

Definition decide_ (e : error sessionErr) : decision :=
  match e with
  | None => Return None
  | Some errNotAuthorized => Return e
  | Some errIncompatibleApi => Return e
  | Some errTransportClosing => Again true
  | Some errIdleTimeout => Sleep true false false
  | Some ctxCanceled => Return None
  | Some errProbeUnregistered => Sleep false true true
  | Some _ => Sleep false false false
  end.

(** A session with the error of the context when its sleep is interrupted.  [None] as
    result: [Run] has not returned. *)
Fixpoint Run (h : Handler) (ss : list (session * error sessionErr)) : go (list action * option (error sessionErr)) :=
  match ss with
  | [] => Ret ([], None)
  | (s, interrupted) :: ss =>
      '(h, acts, res) ← loop h s;
      match res with
      | None => Ret (acts, None)
      | Some e =>
          match decide_ e with
          | Return e => Ret (acts, Some e)
          | Again _ => '(acts', res) ← Run h ss; Ret (acts ++ acts', res)
          | Sleep _ _ _ =>
              match interrupted with
              | Some e => Ret (acts, Some (Some e))
              | None => '(acts', res) ← Run h ss; Ret (acts ++ acts', res)
              end
          end
      end
  end.

(** ** Streams of requests *)

(** The messages before the stream ends. *)
Fixpoint messages (evs : list streamEvent) : list (AdHocRequest * bool) :=
  match evs with Message req built :: evs => (req, built) :: messages evs | _ => [] end.
Fixpoint streamEnd (evs : list streamEvent) : option (error sessionErr) :=
  match evs with
  | [] => None
  | Message _ _ :: evs => streamEnd evs
  | StreamDone :: _ | EOF :: _ => Some None
  | CtxDone e :: _ => Some (Some e)
  | RecvFails e :: _ => Some (Some (rawErr e))
  end.

Definition counted (l : list action) : list CheckType := omap (λ a, match a with Counted ct => Some ct | _ => None end) l.
Definition started (l : list action) : list (Z * runner) :=
  omap (λ a, match a with Started t r => Some (t, r) | _ => None end) l.
Definition forwarded (l : list action) : list Tenant :=
  omap (λ a, match a with Forwarded t => Some t | _ => None end) l.

(** The run a request asks for, when it can be made: its tenant is known, its type
    belongs to a prober that can be made, and the timeout is that of the check, with 20
    seconds more for the types k6 runs. *)
Definition isK6 (ct : CheckType) : bool :=
  match ct with CheckTypeMultiHttp | CheckTypeScripted | CheckTypeBrowser => true | _ => false end.
Definition runOf (h : Handler) (m : AdHocRequest * bool) : option (Z * runner) :=
  let a := ar_Check m.1 in
  match h_probe h, AdHoc_Type a with
  | Some probe, Ret ct =>
      if negb (a_TenantId a =? 0) && m.2 && implb (isK6 ct) (h_hasRunner h) then
        Some (a_TenantId a,
              {| ru_kind := if (match ct with CheckTypeDns => true | _ => false end) && IsSet "experimental-dns-prober" (h_features h)
                            then KindExperimentalDns else KindOf ct;
                 ru_id := a_Id a;
                 ru_target := match ct, Dns (a_Settings a) with CheckTypeDns, Some d => dns_Server d | _, _ => a_Target a end;
                 ru_probe := probe;
                 ru_timeout := (let t := wrap64 (a_Timeout a * 1000000) in if isK6 ct then wrap64 (t + k6AdhocGraceTime) else t) |})
      else None
  | _, _ => None
  end.

Lemma dns_settings s : Settings_Type s = Ret CheckTypeDns → is_Some (Dns s).
Proof. unfold Settings_Type. destruct s. repeat case_match; intros; simplify_eq/=; eauto. Qed.

Lemma handle_spec h probe req built ct :
  h_probe h = Some probe → AdHoc_Type (ar_Check req) = Ret ct →
  ∃ acts e, handleAdHocCheck h built req = Ret (acts, e) ∧ counted acts = [ct] ∧
    started acts = match runOf h (req, built) with Some r => [r] | None => [] end ∧
    forwarded acts = match runOf h (req, built), ar_Tenant req with Some _, Some t => [t] | _, _ => [] end.
Proof.
  intros Hp Ht. unfold handleAdHocCheck, runOf. simpl. rewrite Hp, Ht. simpl. unfold defaultRunnerFactory.
  destruct (a_TenantId (ar_Check req) =? 0) eqn:Ez; simpl; [by eexists _, _|].
  assert (Ht' : Type_ (checkOf (ar_Check req)) = Ret ct) by exact Ht.
  unfold factory_New. rewrite Ht'. cbn [mbind go_bind]. rewrite Hp.
  destruct ct; simpl.
  1: destruct (dns_settings _ Ht) as [d Hd]; rewrite Hd; simpl.
  all: destruct built, (h_hasRunner h); simpl; try (by eexists _, _).
  all: try (destruct (IsSet _ _); simpl); destruct (ar_Tenant req) eqn:Et; simpl;
    (eexists _, _; (split; [reflexivity|]); by rewrite ?Et).
Qed.

(** A message with settings; without them reading its type panics. *)
Definition typed (m : AdHocRequest * bool) : Prop := ∃ ct, AdHoc_Type (ar_Check m.1) = Ret ct.

Definition forwardedBy (h : Handler) (m : AdHocRequest * bool) : option Tenant :=
  match runOf h m with Some _ => ar_Tenant m.1 | None => None end.

Lemma adhoc_stream_spec h probe evs :
  h_probe h = Some probe → Forall typed (messages evs) →
  ∃ acts, processAdHocChecks h evs = Ret (acts, streamEnd evs) ∧
    Forall2 (λ m ct, AdHoc_Type (ar_Check m.1) = Ret ct) (messages evs) (counted acts) ∧
    started acts = omap (runOf h) (messages evs) ∧ forwarded acts = omap (forwardedBy h) (messages evs).
Proof.
  intros Hp. induction evs as [|ev evs IH]; intros Hm; [by exists []|].
  destruct ev as [|e|req built| |e]; try (by exists []). simpl in Hm.
  apply Forall_cons in Hm as [[ct Ht] Hm]. destruct (IH Hm) as (acts & Hr & Hc & Hs & Hf).
  destruct (handle_spec h probe req built ct Hp Ht) as (a1 & e1 & H1 & Hc1 & Hs1 & Hf1).
  exists (a1 ++ acts). cbn [processAdHocChecks messages streamEnd]. rewrite H1. cbn [mbind go_bind]. rewrite Hr.
  split; [done|]. unfold counted, started, forwarded in *. rewrite !omap_app, Hc1, Hs1, Hf1, Hs, Hf.
  split; [by constructor|]. simpl. unfold forwardedBy at 2. simpl.
  destruct (runOf h (req, built)), (ar_Tenant req); done.
Qed.

(** C37: requests are handled one by one.  When every message of the stream has settings
    (one without panics),
    each is counted by its type; exactly those whose tenant is known and whose prober can
    be made are run, in order, with their target and timeout, and their tenants, when
    they come with one, are forwarded; a request that fails does not end the stream, and
    the result is what ends it. *)
Theorem adhoc_stream_handled h probe evs :
  h_probe h = Some probe → Forall typed (messages evs) →
  ∃ acts, processAdHocChecks h evs = Ret (acts, streamEnd evs) ∧
    Forall2 (λ m ct, AdHoc_Type (ar_Check m.1) = Ret ct) (messages evs) (counted acts) ∧
    started acts = omap (runOf h) (messages evs) ∧ forwarded acts = omap (forwardedBy h) (messages evs).
Proof. apply adhoc_stream_spec. Qed.

(** ** Sessions *)

(** How a session ends, whatever the handler. *)
Definition sessionEnd (s : session) : option (error sessionErr) :=
  match se_client s, se_register s, se_stream s with
  | Some what, _, _ => Some (Some (ErrOther what))
  | None, RegisterFails e, _ => Some (Some (grpcErrorHandler e))
  | None, Registered status message _, stream =>
      if status =? StatusCode_OK then
        match stream with Some e => Some (Some (grpcErrorHandler e)) | None => streamEnd (se_events s) end
      else if status =? StatusCode_NOT_AUTHORIZED then Some (Some errNotAuthorized)
      else Some (Some (ErrOther message))
  end.
Definition typedSession (s : session) : Prop := Forall typed (messages (se_events s)).

Lemma loop_end h s : typedSession s → ∃ h' acts, loop h s = Ret (h', acts, sessionEnd s).
Proof.
  intros Hs. unfold loop, sessionEnd. destruct (se_client s); [by eexists _, _|].
  destruct (se_register s) as [e|status message probe]; [by eexists _, _|].
  destruct (status =? StatusCode_OK); [|destruct (status =? _); by eexists _, _].
  destruct (se_stream s); [by eexists _, _|].
  destruct (adhoc_stream_spec (set_probe probe h) probe (se_events s) eq_refl Hs) as (acts & -> & _). by eexists _, _.
Qed.

(** A session after which [Run] goes on, and one that ends it with [x].  [i] is the
    error of the context when the sleep after the session is interrupted. *)
Definition final (e : sessionErr) : bool :=
  match e with errNotAuthorized | errIncompatibleApi | ctxCanceled => true | _ => false end.
Definition atOnce (e : sessionErr) : bool := match e with errTransportClosing => true | _ => false end.
Definition goesOn (si : session * error sessionErr) : Prop :=
  ∃ e, sessionEnd si.1 = Some (Some e) ∧ final e = false ∧ (atOnce e = true ∨ si.2 = None).
Definition endsRun (si : session * error sessionErr) (x : error sessionErr) : Prop :=
  (sessionEnd si.1 = Some None ∧ x = None) ∨
  (∃ e, sessionEnd si.1 = Some (Some e) ∧ final e = true ∧ x = match e with ctxCanceled => None | _ => Some e end) ∨
  (∃ e c, sessionEnd si.1 = Some (Some e) ∧ final e = false ∧ atOnce e = false ∧ si.2 = Some c ∧ x = Some c).

(** The handler reconnects.  [Run] goes on after every session that ends with an
    error, the transport closing at once and the others after a sleep, until one ends
    with the stream (then it returns nil, and ad-hoc checks stop), the probe is not
    authorized, the API does not know ad-hoc checks (that error is returned), or the
    context ends. *)
Theorem adhoc_run_reconnects h ss :
  Forall (λ si, typedSession si.1 ∧ is_Some (sessionEnd si.1)) ss →
  ∃ acts r, Run h ss = Ret (acts, r) ∧
    match r with
    | None => Forall goesOn ss
    | Some x => ∃ pre si post, ss = pre ++ si :: post ∧ Forall goesOn pre ∧ endsRun si x
    end.
Proof.
  intros Hss. revert h. induction Hss as [|[s i] ss [Ht [e He]] _ IH]; intros h; [by exists [], None|].
  simpl in Ht, He. cbn [Run]. destruct (loop_end h s Ht) as (h' & acts & ->). cbn [mbind go_bind]. rewrite He.
  assert (Hend : ∀ x, endsRun (s, i) x → ∃ acts' r, Ret (acts, Some x) = Ret (acts', r) ∧
    match r with None => Forall goesOn ((s, i) :: ss)
    | Some x => ∃ pre si post, (s, i) :: ss = pre ++ si :: post ∧ Forall goesOn pre ∧ endsRun si x end).
  { intros x Hx. eexists _, _. split; [done|]. exists [], (s, i), ss. by split_and!. }
  assert (Hgo : goesOn (s, i) → ∃ acts' r, ('(acts', res) ← Run h' ss; Ret (acts ++ acts', res)) = Ret (acts', r) ∧
    match r with None => Forall goesOn ((s, i) :: ss)
    | Some x => ∃ pre si post, (s, i) :: ss = pre ++ si :: post ∧ Forall goesOn pre ∧ endsRun si x end).
  { intros Hg. destruct (IH h') as (acts' & r & -> & Hr). eexists _, r. split; [done|].
    destruct r as [x|]; [|by constructor]. destruct Hr as (pre & si & post & -> & Hpre & Hx).
    exists ((s, i) :: pre), si, post. split; [done|]. split; [by constructor|done]. }
  unfold endsRun, goesOn in Hend, Hgo. simpl in Hend, Hgo. rewrite He in Hend, Hgo.
  destruct e as [[]|]; simpl; try (apply Hend; right; left; by eexists); try (apply Hend; by left);
    try (apply Hgo; eexists; split; [done|]; split; [done|]; by left);
    (destruct i as [c|]; [apply Hend; right; right; by eexists _, c|apply Hgo; eexists; split; [done|]; split; [done|by right]]).
Qed.

(** ** Instances *)

Definition sampleRequest : AdHocRequest :=
  {| ar_Check := {| a_Id := "x"; a_TenantId := 3; a_Timeout := 1000;
       a_Settings := {| Ping := None; Http := None; Dns := None; Tcp := None; Traceroute := None;
         Scripted := Some {| sc_Script := [] |}; Multihttp := None; Grpc := None; Browser := None |};
       a_Probes := []; a_Target := "t" |}%string; ar_Tenant := None |}.
Definition noSettings : AdHocRequest :=
  {| ar_Check := {| a_Id := "x"; a_TenantId := 3; a_Timeout := 1000;
       a_Settings := {| Ping := None; Http := None; Dns := None; Tcp := None; Traceroute := None;
         Scripted := None; Multihttp := None; Grpc := None; Browser := None |};
       a_Probes := []; a_Target := "t" |}%string; ar_Tenant := None |}.
Definition sampleHandler : Handler := {| h_features := NewCollection; h_hasRunner := true; h_probe := Some "p"%string |}.

Lemma adhoc_stream_handled_witness :
  ∃ acts, processAdHocChecks sampleHandler [Message sampleRequest false; Message sampleRequest true; EOF] =
    Ret (acts, Some None) ∧ length (started acts) = 1%nat.
Proof.
  destruct (adhoc_stream_handled sampleHandler "p" [Message sampleRequest false; Message sampleRequest true; EOF])
    as (acts & H & _ & Hs & _).
  - reflexivity.
  - repeat constructor; eexists; reflexivity.
  - exists acts. split; [exact H|]. rewrite Hs. reflexivity.
Defined.

Definition unavailable : session :=
  {| se_client := None; se_register := RegisterFails (Status 14 "x"); se_stream := None; se_events := [] |}.
Definition ended : session :=
  {| se_client := None; se_register := Registered 0 "" "p"; se_stream := None; se_events := [EOF] |}.
Lemma adhoc_run_reconnects_witness :
  ∃ acts r, Run sampleHandler [(unavailable, None); (unavailable, None); (ended, None)] = Ret (acts, r) ∧ r = Some None.
Proof.
  destruct (adhoc_run_reconnects sampleHandler [(unavailable, None); (unavailable, None); (ended, None)])
    as (acts & r & H & _).
  - repeat constructor; simpl; eauto.
  - exists acts, r. split; [exact H|]. vm_compute in H. congruence.
Defined.

(** A request without settings ends the process. *)
Lemma request_without_settings_panics h built :
  handleAdHocCheck h built noSettings = Panic "unhandled check type".
Proof. done. Qed.
(** The same gRPC error is an idle timeout when registering and an unknown error when
    receiving. *)
Lemma recv_unavailable_is_unknown h message :
  processAdHocChecks h [RecvFails (Status 14 message)] = Ret ([], Some (Some (ErrStatus 14 message))) ∧
  (message ≠ "transport is closing"%string → grpcErrorHandler (Status 14 message) = errIdleTimeout).
Proof.
  split; [done|]. intros Hm. unfold grpcErrorHandler. simpl. by destruct (String.eqb_spec message "transport is closing").
Qed.

(** ** The run of an ad-hoc check *)

(** [jsonLogger.Log]: the arguments are the texts of the values; an odd number of them is
    refused, and a key given twice keeps its last value. *)
Fixpoint jsonPairs (keyvals : list string) (m : gmap string string) : gmap string string :=
  match keyvals with
  | k :: v :: keyvals => jsonPairs keyvals (<[k := v]> m)
  | _ => m
  end.
Definition jsonLogger_Log (keyvals : list string) (entries : list (gmap string string))
    : list (gmap string string) * bool :=
  if Nat.odd (length keyvals) then (entries, false) else (entries ++ [jsonPairs keyvals ∅], true).

Record adhocData := { ad_tenantId : Z; ad_streams : list logStream }.
(** What [pusher.Payload] asks of it: there are no metrics. *)
Definition adhoc_Metrics (d : adhocData) : list (@TimeSeries spec_float) := [].

Section run.
Context {R : Type} `{Registry R}.
(** [%q]; the JSON line of a result; and microseconds as seconds. *)
Variables (quoted : string → string) (microseconds : Z → spec_float).
Variable resultLine : option (list MetricFamily) → runner → list (gmap string string) → string.

(** A gauge of the run has its final value when the registry is gathered; [elapsed] is in
    microseconds. *)
Definition runner_Run (r : runner) (tenantId start elapsed : Z) (executionID : string)
    (probe : Z → probing R) (calls : list (list string)) (reg : R) : go adhocData :=
  let p := probe (ru_timeout r) in
  let entries := fold_left (λ es c, (jsonLogger_Log c es).1) calls [] in
  let duration := if negb (SFeqb (pr_duration p) fzero) then pr_duration p else microseconds elapsed in
  reg ← mustRegister (gauge "probe_success" "whether the check was successful" []
                        (if pr_success p then f64_one else fzero)) reg;
  reg ← mustRegister (gauge "probe_duration_seconds" "duration of the check in seconds" [] duration) reg;
  Ret {| ad_tenantId := tenantId;
         ad_streams :=
           [{| str_Labels := "{probe=" +:+ quoted (ru_probe r) +:+ ",source=" +:+ quoteStr +:+ "synthetic-monitoring" +:+
                             quoteStr +:+ ",type=" +:+ quoteStr +:+ "adhoc" +:+ quoteStr +:+ "}";
               str_Entries :=
                 [{| en_Timestamp := start; en_Line := resultLine (r_gather (pr_register p reg)) r entries;
                     en_StructuredMetadata := [lbl "execution_id" executionID] |}] |}] |}.
End run.

(** The lines of a prober are kept in order, but for those with an odd number of values. *)
Lemma jsonLogger_keeps calls entries :
  fold_left (λ es c, (jsonLogger_Log c es).1) calls entries =
  entries ++ map (λ c, jsonPairs c ∅) (List.filter (λ c, Nat.even (length c)) calls).
Proof.
  revert entries. induction calls as [|c calls IH]; intros entries; simpl; [by rewrite app_nil_r|].
  rewrite IH. unfold jsonLogger_Log. rewrite <-Nat.negb_even. destruct (Nat.even (length c)); [|done].
  simpl. by rewrite <-(assoc_L (++)).
Qed.
