(* ===== verification/Service.v ===== *)
(** * The service around the agent

    [src/cmd/synthetic-monitoring-agent/] ([main.go], [http.go], [grpc.go]): the
    configuration from flags and environment, what is built from it and in which order
    it can fail, the HTTP server with its readiness and log level handlers;
    [internal/metamonitoring/metrics.go], which pushes the agent's own metrics for the
    tenant of its probe; [internal/k6version/k6version.go], which reports the versions
    of k6; and the identifier of [internal/usage/usage.go].

    Flag parsing, sockets, the Prometheus registry and the constructors that only wire
    objects are inputs: whether they fail. *)
From S2P Require Import Prelude Strs Hash Net Ids Checks Validate Labels Caches Features K6 Runner Connection ApiDb ApiServer.
From Stdlib Require Import Floats.SpecFloat.

Open Scope Z_scope.

(** ** The HTTP server *)

(** [readynessHandler]: set once, and for all. *)
Definition ready_Set (v ready : bool) : bool := if v then true else ready.
Definition StatusOK : Z := 200.
Definition StatusNotFound : Z := 404.
Definition StatusMethodNotAllowed : Z := 405.
Definition StatusBadRequest : Z := 400.
Definition StatusInternalServerError : Z := 500.
Definition StatusServiceUnavailable : Z := 503.
Definition ready_ServeHTTP (ready : bool) : Z := if ready then StatusOK else StatusServiceUnavailable.

Definition defaultHandler (path : string) : Z := if String.eqb path "/" then StatusOK else StatusNotFound.

Inductive Level := DebugLevel | InfoLevel | WarnLevel | ErrorLevel.

(** [loggerHandler]: the global level and the status; [body] is [None] when reading
    fails. At most ten bytes are read. *)
Definition loggerHandler (defaultLevel : Level) (method : string) (body : option string) (level : Level)
    : Level * Z :=
  if negb (String.eqb method "POST") then (level, StatusMethodNotAllowed)
  else match body with
       | None => (level, StatusInternalServerError)
       | Some body =>
           let word := TrimSpace (ToLower (of_chars (take 10 (chars body)))) in
           if String.eqb word "debug" then (DebugLevel, StatusOK)
           else if String.eqb word "default" then (defaultLevel, StatusOK)
           else (level, StatusBadRequest)
       end.

(** The level a request is logged at. *)
Definition requestLevel (code : Z) : Level :=
  match code ÷ 100 with
  | 1 | 2 | 3 => InfoLevel
  | 4 => WarnLevel
  | 5 => ErrorLevel
  | _ => WarnLevel
  end.

(** [disconnectHandler]: whether the process is found, and signalled. *)
Definition disconnectHandler (found signalled : bool) : Z :=
  if found && signalled then StatusOK else StatusInternalServerError.

(** The patterns [NewMux] handles. *)
Definition routes (changeLogLevel disconnect pprof : bool) : list string :=
  ["/"; "/metrics"; "/ready"]%string ++
  (if changeLogLevel then ["/logger"]%string else []) ++
  (if disconnect then ["/disconnect"]%string else []) ++
  (if pprof then ["/debug/pprof/"; "/debug/pprof/cmdline"; "/debug/pprof/profile"; "/debug/pprof/symbol";
                  "/debug/pprof/trace"]%string else []).

(** The agent is ready once it has been connected, even when it is not any more. *)
Lemma ready_after_first_connection n connected :
  fold_left (λ r v, ready_Set v r) (calls n connected) false = connected || negb (Nat.eqb n 0).
Proof.
  assert (Hs : ∀ l, fold_left (λ r v, ready_Set v r) l true = true).
  { induction l as [|[] l IH]; done. }
  unfold calls. destruct connected; simpl.
  - rewrite fold_left_app. simpl. done.
  - rewrite app_nil_r. destruct n as [|n]; [done|]. simpl. apply Hs.
Qed.

(** ** The configuration *)

Record config := {
  DevMode : bool; Debug : bool; Verbose : bool; ReportVersion : bool;
  GrpcApiServerAddr : string; ApiToken : string;
  EnableChangeLogLevel : bool; EnableDisconnect : bool; EnablePProf : bool;
  K6URI : string; K6Repository : string; K6BlacklistedIP : string; SelectedPublisher : string;
  AutoMemLimit : bool; DisableK6 : bool; DisableUsageReports : bool;
  features : Collection;                 (** of the flag [features] *)
  CacheType : Kind; CacheLocalCapacity : Z; CacheLocalTTL : Z; MemcachedServers : list string;
  PushTelemetry : bool }.

(** [stringFromEnv]: [env] gives an unset variable as the empty string. *)
Definition stringFromEnv (env : string → string) (name override : string) : string :=
  if negb (String.eqb override "") then override else env name.
Definition apiToken (env : string → string) (flag : string) : string :=
  stringFromEnv env "API_TOKEN" (stringFromEnv env "SM_AGENT_API_TOKEN" flag).

(** [StringList]: each use of the flag adds its parts. *)
Definition StringList_Set (l : list string) (value : string) : list string :=
  l ++ map TrimSpace (split ","%char value).
Definition StringList_String (l : list string) : string := join ", " l.

(** [Secret] shows nothing of itself. *)
Definition Secret_String (s : string) : string := "<redacted>".

(** [validateCIDR], with [net.ParseCIDR]. *)
Definition validateCIDR (ParseCIDR : string → bool) (ip : string) : bool :=
  if negb (String.eqb ip "") then ParseCIDR ip else true.

(** [grpcApiHost]: up to the last colon. *)
Definition grpcApiHost (addr : string) : string :=
  match cutLast colon addr with Some (host, _) => host | None => addr end.

(** [creds]: the metadata of every call. *)
Definition GetRequestMetadata (token : string) : gmap string string := {["authorization" := "Bearer " +:+ token]}%string.
Definition RequireTransportSecurity : bool := false.

(** [newAPIServerClient]: the options of the connection; TLS names the server without its
    port, unless the connection is insecure. *)
Record dialOptions := {
  do_Addr : string; do_Token : string; do_KeepaliveTime : Z; do_KeepaliveTimeout : Z;
  do_PermitWithoutStream : bool; do_ServerName : option string }.
Definition HealthCheckInterval : Z := 90 * 10^9.
Definition HealthCheckTimeout : Z := 30 * 10^9.
Definition newAPIServerClient (addr : string) (allowInsecure : bool) (token : string) : dialOptions :=
  {| do_Addr := addr; do_Token := token; do_KeepaliveTime := HealthCheckInterval;
     do_KeepaliveTimeout := HealthCheckTimeout; do_PermitWithoutStream := true;
     do_ServerName := if allowInsecure then None else Some (grpcApiHost addr) |}.

(** [signalHandler]: the error that ends the agent, or none when it ends by itself. *)
Inductive ending := GotSignal (sig : string) | ContextDone.
Definition signalHandler (e : ending) : error string :=
  match e with GotSignal sig => Some ("got signal " +:+ sig)%string | ContextDone => None end.

(** [notifyAboutDeprecatedFeatureFlags]: the flags it names. *)
Definition notifyAboutDeprecatedFeatureFlags (features : Collection) : list string :=
  List.filter (λ ff, IsSet ff features) ["k6"; "traceroute"]%string.

(** ** Starting *)

Inductive startErr :=
  | ErrMemLimit | ErrFeatures | ErrServerAddr | ErrToken | ErrMetricsRegistration
  | ErrCache (e : setupErr) | ErrListen | ErrDial | ErrBlockedNets | ErrRunner (e : repositoryErr)
  | ErrPublisher | ErrUpdater | ErrAdhoc | ErrK6Versions.

(** Which of the steps that only wire objects fail. *)
Record environment := {
  env_vars : string → string;
  env_memLimit : bool; env_metrics : bool; env_listen : bool; env_dial : bool;
  env_updater : bool; env_adhoc : bool; env_k6Versions : bool;
  env_localCache : bool; env_lookup : string → option (list string); env_setServers : list string → bool }.

(** What runs: the goroutines of the group, and what they were given. *)
Record plan {V} := {
  pl_level : Level; pl_token : string; pl_routes : list string; pl_usageReports : bool;
  pl_cache : cacheClient; pl_k6Runner : option (@runner V); pl_publisher : string;
  pl_features : Collection; pl_protocolSecrets : bool; pl_metamonitoring : bool }.

Inductive started {V} := Version | Running (p : @plan V).

Section start.
Context {V : Type}.
Variable ParseCIDR : string → bool.
(** [k6runner.New] with its file system. *)
Variable newRunner : string → string → string → result repositoryErr (@runner V).
(** The names the publishers are registered under. *)
Variable publishers : list string.

Definition require (ok : bool) (e : startErr) : result startErr unit := if ok then Ok tt else Err e.

Definition logLevel (c : config) : Level :=
  if DevMode c || Debug c then DebugLevel else if Verbose c then InfoLevel else WarnLevel.

(** The feature flags after the command line. *)
Definition effectiveFeatures (c : config) : Collection * error featureErr :=
  if DisableK6 c then (features c, None) else Features.Set_ "k6" (features c).

(** The runner of k6, when the feature is set. *)
Definition makeRunner (c : config) (f : Collection) : result startErr (option (@runner V)) :=
  if IsSet "k6" f then
    if negb (validateCIDR ParseCIDR (K6BlacklistedIP c)) then Err ErrBlockedNets
    else match newRunner (K6URI c) (K6Repository c) (K6BlacklistedIP c) with
         | Ok r => Ok (Some r)
         | Err e => Err (ErrRunner e)
         end
  else Ok None.

(** The rest of [run], up to [g.Wait]: the publisher, the updater and the handlers. *)
Definition wire (c : config) (e : environment) (f : Collection) (token : string) (cache : cacheClient)
    (r : option (@runner V)) : result startErr (@started V) :=
  _ ← require (bool_decide (SelectedPublisher c ∈ publishers)) ErrPublisher;
  _ ← require (env_updater e) ErrUpdater;
  _ ← require (env_adhoc e) ErrAdhoc;
  _ ← require (match r with Some _ => env_k6Versions e | None => true end) ErrK6Versions;
  Ok (Running {|
    pl_level := logLevel c; pl_token := token;
    pl_routes := routes (DevMode c || EnableChangeLogLevel c) (DevMode c || EnableDisconnect c)
                   (DevMode c || EnablePProf c);
    pl_usageReports := negb (DisableUsageReports c); pl_cache := cache; pl_k6Runner := r;
    pl_publisher := SelectedPublisher c; pl_features := f;
    pl_protocolSecrets := IsSet "protocol-secrets" f; pl_metamonitoring := PushTelemetry c |}).

(** [run] from the parsed flags on. *)
Definition start (c : config) (e : environment) : result startErr (@started V) :=
  if ReportVersion c then Ok Version
  else
    _ ← require (negb (AutoMemLimit c) || env_memLimit e) ErrMemLimit;
    let '(f, ferr) := effectiveFeatures c in
    _ ← require (bool_decide (ferr = None)) ErrFeatures;
    _ ← require (match SplitHostPort (GrpcApiServerAddr c) with Some _ => true | None => false end) ErrServerAddr;
    let token := apiToken (env_vars e) (ApiToken c) in
    _ ← require (negb (String.eqb token "")) ErrToken;
    _ ← require (env_metrics e) ErrMetricsRegistration;
    match setupCache (CacheType c) (MemcachedServers c) (CacheLocalCapacity c) (CacheLocalTTL c)
            (env_localCache e) (env_lookup e) (env_setServers e) with
    | Err err => Err (ErrCache err)
    | Ok cache =>
        _ ← require (env_listen e) ErrListen;
        _ ← require (env_dial e) ErrDial;
        r ← makeRunner c f;
        wire c e f token cache r
    end.

Lemma require_ok ok e x : require ok e = Ok x → ok = true.
Proof. by destruct ok. Qed.

Lemma require_bind {A} ok e (k : unit → result startErr A) x :
  (u ← require ok e; k u) = Ok x → ok = true ∧ k tt = Ok x.
Proof. by destruct ok. Qed.

Lemma set_k6 f f' : Features.Set_ "k6" f = (f', None) → IsSet "k6" f' = true.
Proof.
  unfold Features.Set_. destruct f as [s|]; [|done]. intros [= <-].
  change (bool_decide ("k6"%string ∈ ({["k6"%string]} ∪ s : gset string)) = true).
  apply bool_decide_eq_true. set_solver.
Qed.

(** What an agent that starts runs with. It has a token, from the command line or
    else from SM_AGENT_API_TOKEN or else from API_TOKEN; an address of the API with a
    port; one of the registered publishers; the cache [setupCache] makes of its flags; and
    a runner of k6 exactly when the k6 feature is set, which it always is unless k6 was
    disabled; the runner then only got networks to block that parse. *)
Theorem started_agent c e p :
  start c e = Ok (Running p) →
  pl_token p ≠ EmptyString ∧
  pl_token p = (if decide (ApiToken c ≠ EmptyString) then ApiToken c
                else if decide (env_vars e "SM_AGENT_API_TOKEN" ≠ EmptyString)
                     then env_vars e "SM_AGENT_API_TOKEN" else env_vars e "API_TOKEN") ∧
  is_Some (SplitHostPort (GrpcApiServerAddr c)) ∧ pl_publisher p ∈ publishers ∧
  setupCache (CacheType c) (MemcachedServers c) (CacheLocalCapacity c) (CacheLocalTTL c)
    (env_localCache e) (env_lookup e) (env_setServers e) = Ok (pl_cache p) ∧
  (pl_k6Runner p ≠ None ↔ IsSet "k6" (pl_features p) = true) ∧
  (DisableK6 c = false → pl_k6Runner p ≠ None) ∧
  (∀ r, pl_k6Runner p = Some r →
     newRunner (K6URI c) (K6Repository c) (K6BlacklistedIP c) = Ok r ∧
     (K6BlacklistedIP c = EmptyString ∨ ParseCIDR (K6BlacklistedIP c) = true)).
Proof.
  unfold start. destruct (ReportVersion c); [done|].
  intros [_ H]%require_bind. destruct (effectiveFeatures c) as [f ferr] eqn:Ef.
  apply require_bind in H as [Hferr%bool_decide_eq_true H]. subst ferr.
  apply require_bind in H as [Haddr H]. apply require_bind in H as [Htoken H].
  apply require_bind in H as [_ H]. destruct (setupCache _ _ _ _ _ _ _) as [cache|] eqn:Ec; [|done].
  apply require_bind in H as [_ H]. apply require_bind in H as [_ H].
  destruct (makeRunner c f) as [r|] eqn:Er; [|done]. cbn [mbind result_bind] in H. unfold wire in H.
  apply require_bind in H as [Hp%bool_decide_eq_true H]. apply require_bind in H as [_ H].
  apply require_bind in H as [_ H]. apply require_bind in H as [_ H]. injection H as <-. simpl.
  assert (Hr : (r ≠ None ↔ IsSet "k6" f = true) ∧ ∀ r', r = Some r' →
    newRunner (K6URI c) (K6Repository c) (K6BlacklistedIP c) = Ok r' ∧
    (K6BlacklistedIP c = EmptyString ∨ ParseCIDR (K6BlacklistedIP c) = true)).
  { unfold makeRunner in Er. destruct (IsSet "k6" f); [|by injection Er as <-].
    unfold validateCIDR in Er. destruct (String.eqb_spec (K6BlacklistedIP c) "") as [E|E]; simpl in Er.
    - destruct (newRunner _ _ _) as [r0|] eqn:En; [|done]. injection Er as <-. naive_solver.
    - destruct (ParseCIDR (K6BlacklistedIP c)); simpl in Er; [|done].
      destruct (newRunner _ _ _) as [r0|] eqn:En; [|done]. injection Er as <-. naive_solver. }
  destruct Hr as [Hr1 Hr2]. split_and!; try done.
  - intros E. by rewrite E in Htoken.
  - unfold apiToken, stringFromEnv.
    destruct (String.eqb_spec (ApiToken c) "") as [E|E]; simpl.
    + destruct (String.eqb_spec (env_vars e "SM_AGENT_API_TOKEN") "") as [E'|E']; simpl;
        repeat case_decide; congruence.
    + apply String.eqb_neq in E as E'. rewrite E'. simpl. by rewrite decide_True.
  - destruct (SplitHostPort (GrpcApiServerAddr c)); [by eexists|done].
  - intros Hd. apply Hr1. unfold effectiveFeatures in Ef. rewrite Hd in Ef. by eapply set_k6.
Qed.

(** [-disable-k6] does not disable k6 when the deprecated feature flag is given. *)
Lemma disable_k6_overridden c f :
  DisableK6 c = true → features c = Some f → "k6"%string ∈ f →
  IsSet "k6" (effectiveFeatures c).1 = true.
Proof. intros Hd Hf Hin. unfold effectiveFeatures. rewrite Hd, Hf. by apply bool_decide_eq_true. Qed.

End start.

(** An empty list of memcached servers on the command line is a server without a name, and
    keeps the agent from starting. *)
Lemma empty_servers_flag capacity ttl localOk lookup accepts :
  setupCache KindAuto (StringList_Set [] "") capacity ttl localOk lookup accepts = Err ErrEmptyServer.
Proof. done. Qed.

Definition example_config : config :=
  {| DevMode := false; Debug := false; Verbose := false; ReportVersion := false;
     GrpcApiServerAddr := "localhost:4031"; ApiToken := EmptyString; EnableChangeLogLevel := false;
     EnableDisconnect := false; EnablePProf := false; K6URI := EmptyString; K6Repository := EmptyString;
     K6BlacklistedIP := "10.0.0.0/8"; SelectedPublisher := "v2"; AutoMemLimit := false; DisableK6 := false;
     DisableUsageReports := false; features := NewCollection; CacheType := KindAuto;
     CacheLocalCapacity := 10000; CacheLocalTTL := 300; MemcachedServers := []; PushTelemetry := false |}.
Definition example_environment : environment :=
  {| env_vars := λ n, if String.eqb n "API_TOKEN" then "token" else EmptyString;
     env_memLimit := true; env_metrics := true; env_listen := true; env_dial := true; env_updater := true;
     env_adhoc := true; env_k6Versions := true; env_localCache := true; env_lookup := λ _, None;
     env_setServers := λ _, true |}.

Lemma started_agent_witness :
  ∃ p : @plan Z, start (λ _, true) (λ _ _ ip, Ok (LocalRunner ip {| Root := EmptyString; Override := EmptyString; entries := [] |}))
    ["v1"; "v2"]%string example_config example_environment = Ok (Running p) ∧
    pl_token p = "token"%string ∧ pl_k6Runner p ≠ None.
Proof.
  destruct (start (V := Z) (λ _, true) (λ _ _ ip, Ok (LocalRunner ip {| Root := EmptyString; Override := EmptyString; entries := [] |}))
    ["v1"; "v2"]%string example_config example_environment) as [[|p]|] eqn:E; [exfalso|exists p|exfalso].
  - vm_compute in E. discriminate.
  - destruct (started_agent _ _ _ _ _ _ E) as (_ & Ht & _ & _ & _ & _ & Hk & _).
    split; [reflexivity|]. split; [rewrite Ht; vm_compute; reflexivity|]. apply Hk. reflexivity.
  - vm_compute in E. discriminate.
Defined.

(** ** The agent's own metrics: [metamonitoring] *)

Section metamonitoring.
Context {float : Type}.
Notation Metric := (@Metric float).
Notation MetricFamily := (@MetricFamily float).
Notation TimeSeries := (@TimeSeries float).

(** The value of a scalar metric; the pointers may be nil. *)
Definition scalar (t : MetricType) (m : Metric) : option float :=
  match t with
  | COUNTER => v ← m_Counter m; v
  | GAUGE => v ← m_Gauge m; v
  | UNTYPED => v ← m_Untyped m; v
  | SUMMARY | HISTOGRAM => None
  end.

Definition seriesOf (stamp : Z) (probeName : string) (mf : MetricFamily) (m : Metric) : option TimeSeries :=
  v ← scalar (mf_Type mf) m;
  Some {| ts_Labels := lbl "__name__" (mf_Name mf) :: lbl "probe" probeName :: m_Label m;
          Samples := [{| Timestamp := stamp; Value := v |}] |}.

Definition mfsToTimeseries (now : Z) (mfs : list MetricFamily) (probeName : string) : list TimeSeries :=
  concat (map (λ mf, omap (seriesOf (Z.quot now 1000000) probeName mf) (mf_Metric mf)) mfs).

(** The handler: the tenant and the name of the probe, once they are known. *)
Record metricsHandler := { mh_tenantID : Z; mh_probeName : string }.

Inductive metaEvent :=
  | MetaProbe (p : option Checks.Probe)    (** received on [probeCh]; [None] when it is closed *)
  | MetaDone                        (** the context ended *)
  | MetaTick (now : Z) (gathered : option (list MetricFamily)).

(** What the handler does: a payload for a tenant, or its end, with an error or not. *)
Inductive metaAction := MetaPublished (tenantID : Z) (ts : list TimeSeries) | MetaReturned (failed : bool).

Definition reportUsage (h : metricsHandler) (now : Z) (gathered : option (list MetricFamily)) : list metaAction :=
  match gathered with
  | None => []
  | Some mfs =>
      match mfsToTimeseries now mfs (mh_probeName h) with
      | [] => []
      | ts => [MetaPublished (mh_tenantID h) ts]
      end
  end.

(** The loop over the ticker. *)
Fixpoint meta_loop (h : metricsHandler) (evs : list metaEvent) : list metaAction :=
  match evs with
  | [] => []
  | MetaDone :: _ => [MetaReturned false]
  | MetaTick now gathered :: evs => reportUsage h now gathered ++ meta_loop h evs
  | MetaProbe _ :: evs => meta_loop h evs
  end.

(** [waitForTenantID]; a closed channel gives a nil probe. *)
Fixpoint meta_wait (h : metricsHandler) (evs : list metaEvent) : go (list metaAction) :=
  match evs with
  | [] => Ret []
  | MetaDone :: _ => Ret [MetaReturned true]
  | MetaProbe (Some p) :: evs => Ret (meta_loop {| mh_tenantID := p_TenantId p; mh_probeName := p_Name p |} evs)
  | MetaProbe None :: _ => Panic "invalid memory address or nil pointer dereference"
  | MetaTick _ _ :: evs => meta_wait h evs
  end.

Definition meta_Run (h : metricsHandler) (evs : list metaEvent) : go (list metaAction) :=
  if mh_tenantID h =? 0 then meta_wait h evs else Ret (meta_loop h evs).

Lemma meta_loop_published h evs tenant ts :
  MetaPublished tenant ts ∈ meta_loop h evs →
  tenant = mh_tenantID h ∧ ts ≠ [] ∧
  ∃ now mfs, MetaTick now (Some mfs) ∈ evs ∧ ts = mfsToTimeseries now mfs (mh_probeName h).
Proof.
  assert (Hin : ∀ A (x y : A) l, x ∈ l → x ∈ y :: l) by (intros; by right).
  induction evs as [|[p| |now [mfs|]] evs IH]; simpl; [set_solver|naive_solver|set_solver| |naive_solver].
  rewrite elem_of_app. intros [H|H]; [|naive_solver].
  destruct (mfsToTimeseries now mfs (mh_probeName h)) as [|t ts0] eqn:E; [set_solver|].
  apply list_elem_of_singleton in H as [= -> ->]. split_and!; [done|done|]. exists now, mfs.
  split; [left|done].
Qed.

(** A payload is only pushed after the probe was announced, for the probe's tenant, and
    with one series for each scalar metric gathered, which carries the name of the family,
    the name of the probe and the labels of the metric. *)
Lemma meta_pushes_for_probe evs acts tenant ts :
  meta_Run {| mh_tenantID := 0; mh_probeName := EmptyString |} evs = Ret acts →
  MetaPublished tenant ts ∈ acts →
  ∃ p now mfs, MetaProbe (Some p) ∈ evs ∧ MetaTick now (Some mfs) ∈ evs ∧ tenant = p_TenantId p ∧ ts ≠ [] ∧
    ∀ s, s ∈ ts ↔ ∃ mf m v, mf ∈ mfs ∧ m ∈ mf_Metric mf ∧ scalar (mf_Type mf) m = Some v ∧
      s = {| ts_Labels := lbl "__name__" (mf_Name mf) :: lbl "probe" (p_Name p) :: m_Label m;
             Samples := [{| Timestamp := Z.quot now 1000000; Value := v |}] |}.
Proof.
  unfold meta_Run. simpl. induction evs as [|ev evs IH]; simpl; [intros [= <-]; set_solver|].
  destruct ev as [[p|]| |now g]; [|done| |].
  - intros [= <-] (-> & Hts & now & mfs & Hin & ->)%meta_loop_published. simpl in *.
    exists p, now, mfs. split_and!; [left|by right|done|done|]. intros s. unfold mfsToTimeseries.
    rewrite list_elem_of_In, in_concat. split.
    + intros (l & (mf & <- & Hmf)%in_map_iff & Hs). apply list_elem_of_In in Hs, Hmf.
      apply list_elem_of_omap in Hs as (m & Hm & E). unfold seriesOf in E.
      destruct (scalar (mf_Type mf) m) as [v|] eqn:Ev; [|done]. injection E as <-. eauto 10.
    + intros (mf & m & v & Hmf & Hm & Hv & ->). eexists. split.
      * apply in_map_iff. exists mf. split; [done|]. by apply list_elem_of_In.
      * apply list_elem_of_In, list_elem_of_omap. exists m. split; [done|]. unfold seriesOf. by rewrite Hv.
  - intros [= <-]. set_solver.
  - intros Hr Hp. destruct (IH Hr Hp) as (p & now' & mfs & ? & ? & ?). exists p, now', mfs.
    split_and!; [by right|by right|naive_solver..].
Qed.

End metamonitoring.

(** ** The versions of k6 *)

(** One attempt of [report], and how the wait that follows a failure ends. *)
Record attempt := { at_ok : bool; at_cancelled : bool }.

Definition Second : Z := 1000000000.

(** [report]: whether it succeeded, the attempts made and the waits; [None] when it goes
    on after the attempts. *)
Fixpoint report (backoff : Z) (l : list attempt) : option (bool * list Z) :=
  match l with
  | [] => None
  | a :: l =>
      if at_ok a then Some (true, [])
      else if at_cancelled a then Some (false, [backoff])
      else '(ok, ws) ← report (Z.min (backoff * 2) (60 * Second)) l; Some (ok, backoff :: ws)
  end.

(** The wait before the n-th retry. *)
Definition reportWait (n : nat) : Z := Z.min (2 ^ Z.of_nat n * Second) (60 * Second).

Lemma report_waits_from n l ok ws :
  report (reportWait n) l = Some (ok, ws) →
  (∀ i w, ws !! i = Some w → w = reportWait (n + i)) ∧
  ∃ k, (length ws ≤ S k)%nat ∧ (k < length l)%nat ∧
    (ok = true → length ws = k ∧ ∃ a, l !! k = Some a ∧ at_ok a = true).
Proof.
  revert n ws. induction l as [|a l IH]; intros n ws; [done|]. cbn [report].
  destruct (at_ok a) eqn:Ea.
  { intros [= <- <-]. split; [done|]. exists 0%nat. simpl. split_and!; [lia|lia|]. intros _. split; [done|]. by exists a. }
  destruct (at_cancelled a).
  { intros [= <- <-]. split.
    - intros [|i] w; [|done]. intros [= <-]. by rewrite Nat.add_0_r.
    - exists 0%nat. simpl. split_and!; [lia|lia|done]. }
  assert (E : Z.min (reportWait n * 2) (60 * Second) = reportWait (S n)).
  { unfold reportWait. rewrite Nat2Z.inj_succ, Z.pow_succ_r by lia. unfold Second. lia. }
  rewrite E. destruct (report (reportWait (S n)) l) as [[ok' ws']|] eqn:Er; [|done].
  intros [= <- <-]. destruct (IH _ _ Er) as (Hw & k & Hk & Hl & Hok). split.
  - intros [|i] w; simpl; [intros [= <-]; by rewrite Nat.add_0_r|]. intros Hi.
    rewrite Nat.add_succ_r. by apply Hw.
  - exists (S k). simpl. split_and!; [lia|lia|]. intros Ho. destruct (Hok Ho) as (<- & a' & Ha). split; [done|]. by exists a'.
Qed.

(** A report is retried until it succeeds or is cancelled, after 1, 2, 4, ... seconds, at
    most a minute. *)
Lemma report_waits l ok ws :
  report Second l = Some (ok, ws) → ∀ i w, ws !! i = Some w → w = reportWait i.
Proof. intros H. by apply (report_waits_from 0 l ok ws). Qed.

(** [Handle]: each list of versions received starts a report and cancels the one before. *)
Inductive versionEvent := Versions (l : list string) | VersionsClosed | VersionsDone.
Record handlerState := { hs_started : list (list string); hs_cancelled : list nat; hs_returned : bool }.

Definition version_step (s : handlerState) (ev : versionEvent) : handlerState :=
  if hs_returned s then s
  else
    let live := match hs_started s with [] => [] | _ => [length (hs_started s) - 1]%nat end in
    match ev with
    | VersionsClosed => s
    | Versions l => {| hs_started := hs_started s ++ [l]; hs_cancelled := hs_cancelled s ++ live; hs_returned := false |}
    | VersionsDone => {| hs_started := hs_started s; hs_cancelled := hs_cancelled s ++ live; hs_returned := true |}
    end.
Definition Handle (evs : list versionEvent) : handlerState :=
  fold_left version_step evs {| hs_started := []; hs_cancelled := []; hs_returned := false |}.

(** Only the report of the last versions received is not cancelled, and none after the end. *)
Lemma one_report_at_a_time evs :
  let s := Handle evs in
  hs_cancelled s = seq 0 (if hs_returned s then length (hs_started s) else length (hs_started s) - 1).
Proof.
  unfold Handle. cbn zeta.
  assert (H : ∀ s, hs_cancelled s = seq 0 (if hs_returned s then length (hs_started s) else length (hs_started s) - 1) →
    let s' := fold_left version_step evs s in
    hs_cancelled s' = seq 0 (if hs_returned s' then length (hs_started s') else length (hs_started s') - 1)).
  { induction evs as [|ev evs IH]; intros s Hs; [done|]. simpl. apply IH. unfold version_step.
    destruct s as [st ca re]. simpl in *. destruct re; [done|].
    assert (Hlive : ca ++ match st with [] => [] | _ => [length st - 1]%nat end = seq 0 (length st)).
    { destruct st as [|x st]; simpl in *; [by rewrite Hs|]. rewrite Hs, Nat.sub_0_r. symmetry. apply (seq_S (length st) 0). }
    destruct ev; simpl; [|done|done]. rewrite length_app. simpl. by rewrite Nat.add_sub. }
  by apply H.
Qed.

(** ** The identifier of usage reports *)

(** [hashOfProbe]. *)
Definition FormatBool (b : bool) : string := if b then "true" else "false".
Definition probeText (p : Checks.Probe) : string :=
  p_Name p +:+ itoa (p_Id p) +:+ p_Region p +:+ FormatBool (p_Public p) +:+ itoa (p_TenantId p).
Definition hashOfProbe (p : Checks.Probe) : string := itoa (New64a (map byteOf (chars (probeText p)))).

(** *** Reports *)

Record usageReport := {
  rep_CreatedAt : string; rep_OS : string; rep_Arch : string; rep_Report : string; rep_Version : string;
  rep_Public : bool; rep_Features : string; rep_UsageStatsId : string; rep_TenantID : Z; rep_ProbeID : Z }.

Definition ProdStatsEndpoint : string := "https://stats.grafana.org".
Definition UsageStatsApplication : string := "synthetic-monitoring-agent-usage-report".

Inductive reportErr := ErrMarshal | ErrRequest | ErrDo | ErrStatusCode (code : Z).

(** What is sent: method, URL, content type and body. *)
Record usageRequest := { ur_Method : string; ur_URL : string; ur_ContentType : string; ur_Body : list ascii }.

(** [submitReport]: [marshal] is the JSON of a report, [validURL] whether a request can be
    made, [answer] the status code or an error. *)
Definition submitReport (endpoint : string) (marshal : usageReport → option (list ascii)) (validURL : string → bool)
    (answer : option Z) (r : usageReport) : option usageRequest * error reportErr :=
  match marshal r with
  | None => (None, Some ErrMarshal)
  | Some body =>
      let url := endpoint +:+ "/" +:+ UsageStatsApplication in
      if negb (validURL url) then (None, Some ErrRequest)
      else
        (Some {| ur_Method := "POST"; ur_URL := url; ur_ContentType := "application/json"; ur_Body := body |},
         match answer with
         | None => Some ErrDo
         | Some 200 => None
         | Some code => Some (ErrStatusCode code)
         end)
  end.

(** [ReportProbe]; the text of the probe, the time and the platform are inputs. *)
Definition reportOf (now os arch : string) (text : Checks.Probe → string) (features : Collection) (p : Checks.Probe) : usageReport :=
  {| rep_Report := text p; rep_CreatedAt := now; rep_OS := os; rep_Arch := arch; rep_Version := p_Version p;
     rep_UsageStatsId := hashOfProbe p; rep_Features := String_ features; rep_Public := p_Public p;
     rep_TenantID := p_TenantId p; rep_ProbeID := p_Id p |}.
Definition ReportProbe endpoint marshal validURL answer now os arch text (p : Checks.Probe) (features : Collection) :=
  submitReport endpoint marshal validURL answer (reportOf now os arch text features p).
Definition NoOP_ReportProbe (p : Checks.Probe) (features : Collection) : option usageRequest * error reportErr := (None, None).

(** Without usage reports nothing is sent; with them a report is accepted exactly when it
    could be sent and was answered with 200. *)
Lemma report_accepted endpoint marshal validURL answer now os arch text p features :
  NoOP_ReportProbe p features = (None, None) ∧
  let '(rq, e) := ReportProbe endpoint marshal validURL answer now os arch text p features in
  (e = None ↔ is_Some rq ∧ answer = Some 200) ∧
  (∀ q, rq = Some q → ur_URL q = endpoint +:+ "/synthetic-monitoring-agent-usage-report" ∧
     marshal (reportOf now os arch text features p) = Some (ur_Body q)).
Proof.
  split; [done|]. unfold ReportProbe, submitReport. destruct (marshal _) as [b|] eqn:Em.
  2: { split; [split; [done|by intros [[? [=]] _]]|done]. }
  destruct (validURL _); simpl; [|split; [split; [done|by intros [[? [=]] _]]|done]].
  split; [|by intros q [= <-]]. destruct (decide (answer = Some 200)) as [->|Hne]; [split; [split; [by eexists|done]|done]|].
  split; [|by intros [_ ?]]. destruct answer as [code|]; [|done].
  destruct (decide (code = 200)) as [->|]; [done|]. by repeat (destruct code as [|code|code]; try done).
Qed.

(** The text runs its parts together: a probe named a1 with id 2 is reported under the
    identifier of the one named a with id 12. *)
Lemma usage_id_ambiguous :
  let probe n i := {| p_Id := i; p_TenantId := 1; p_Name := n; p_Latitude := S754_zero false;
    p_Longitude := S754_zero false; p_Labels := []; p_Region := "EU"; p_Public := false; p_Version := EmptyString;
    p_Created := S754_zero false; p_Modified := S754_zero false; p_Capabilities := None |} in
  hashOfProbe (probe "a1"%string 2) = hashOfProbe (probe "a"%string 12).
Proof. by vm_compute. Qed.

(** ** The agent and the API *)

(** The metadata as the server receives them. *)
Definition received (md : gmap string string) : option (option (list string)) :=
  Some ((λ v, [v]) <$> md !! "authorization"%string).

(** The calls of an agent are those of a probe exactly when the agent has the token of the
    probe and the token is base64. *)
Lemma agent_authenticates token db id :
  validateToken (received (GetRequestMetadata token)) db = Ok id ↔ b64valid token = true ∧ probeTokens db !! token = Some id.
Proof.
  rewrite validateToken_spec. unfold received, GetRequestMetadata. rewrite lookup_singleton_eq.
  assert (E : String.substring 7 (String.length ("Bearer " +:+ token) - 7) ("Bearer " +:+ token) = token).
  { change (String.length ("Bearer " +:+ token)) with (7 + String.length token)%nat.
    replace (7 + String.length token - 7)%nat with (String.length token) by lia. simpl. apply substring_all. }
  split.
  - intros (auth & [= <-] & _ & Hb). rewrite E in Hb. done.
  - intros Hb. eexists. split; [done|]. split; [done|]. rewrite E. done.
Qed.
