(* ===== verification/Lifecycle.v ===== *)
(** * The life of the agent: the goroutines of [run] and its shutdown

    [src/cmd/synthetic-monitoring-agent/main.go] from the first [g.Go] to [g.Wait],
    [src/internal/http/http.go], the goroutine of the tenant manager
    ([src/internal/tenants/manager.go]) and the unbuffered channel on which the updater
    and the ad-hoc handler give it tenants.

    A state holds what each goroutine of the error group is doing; a label is what one
    of them, or its environment, does next.  What a goroutine does between two labels
    is the business of its own file: the label of a batch of changes carries the batch,
    the one of the end of a connection the error [loop] returned, and the step asks
    [Updater.handleError], [Adhoc.decide_], [Service.meta_Run] or [Service.Handle] what
    comes of it.  Errors of [net/http] are names. *)
From stdpp Require Import countable fin_maps.
From Stdlib Require Import Floats.SpecFloat.
From S2P Require Import Prelude Checks Tenants Caches Updater Adhoc Service.

Open Scope Z_scope.

(** ** The HTTP server *)

Inductive serveErr := ErrServerClosed | ServeError (what : string).

(** [server.Run], on the error of [Serve], which always returns one. *)
Definition server_Run (addr : string) (err : serveErr) : error string :=
  match err with
  | ErrServerClosed => None
  | ServeError what => Some ("could not serve HTTP on " +:+ addr +:+ ": " +:+ what)%string
  end.

(** ** The state *)

(** The goroutines of the group. *)
Inductive task := SignalHandler | HttpShutdown | HttpServer | ChecksUpdater | AdhocHandler
  | MetricsHandler | K6Versions.

#[export] Instance task_eq_dec : EqDecision task.
Proof. solve_decision. Defined.

(** What they return. *)
Inductive runErr :=
  | ErrSignal (what : string) | ErrServe (what : string) | ErrShutdown (what : string)
  | ErrUpdaterRun (e : lerr) | ErrAdhocRun (e : sessionErr)
  | ErrTenantTimeout | ErrContext.

(** A goroutine runs, is blocked giving the tenant [t] to the manager with [ts] still to
    come, or has returned. *)
Inductive status := Working | Sending (t : Z) (ts : list Z) | Returned (e : option runErr).

(** The error group ([lc_ctx]: its context is cancelled; [lc_err]: the error it keeps), its
    goroutines, the manager's goroutine, whether [Shutdown] was called on the HTTP server,
    the back-off of the updater, and the tenants given to the manager, with who gave them. *)
Record state := {
  lc_tasks : list (task * status);
  lc_ctx : bool;
  lc_err : option runErr;
  lc_manager : bool;
  lc_closed : bool;
  lc_backoff : backoff;
  lc_given : list (task * Z);
}.

Definition statusOf (t : task) (s : state) : option status :=
  snd <$> List.find (λ p, bool_decide (p.1 = t)) (lc_tasks s).

Definition set_status (t : task) (x : status) (s : state) : state :=
  {| lc_tasks := map (λ p, if bool_decide (p.1 = t) then (p.1, x) else p) (lc_tasks s);
     lc_ctx := lc_ctx s; lc_err := lc_err s; lc_manager := lc_manager s; lc_closed := lc_closed s;
     lc_backoff := lc_backoff s; lc_given := lc_given s |}.

Definition set_backoff (b : backoff) (s : state) : state :=
  {| lc_tasks := lc_tasks s; lc_ctx := lc_ctx s; lc_err := lc_err s; lc_manager := lc_manager s;
     lc_closed := lc_closed s; lc_backoff := b; lc_given := lc_given s |}.

(** The error group: the first error is kept and cancels the context. *)
Definition groupFail (e : option runErr) (s : state) : state :=
  match e, lc_err s with
  | Some e, None =>
      {| lc_tasks := lc_tasks s; lc_ctx := true; lc_err := Some e; lc_manager := lc_manager s;
         lc_closed := lc_closed s; lc_backoff := lc_backoff s; lc_given := lc_given s |}
  | _, _ => s
  end.

Definition returns_ (t : task) (e : option runErr) (s : state) : state :=
  groupFail e (set_status t (Returned e) s).

Definition stop_manager (s : state) : state :=
  {| lc_tasks := lc_tasks s; lc_ctx := lc_ctx s; lc_err := lc_err s; lc_manager := false;
     lc_closed := lc_closed s; lc_backoff := lc_backoff s; lc_given := lc_given s |}.

Definition close_server (s : state) : state :=
  {| lc_tasks := lc_tasks s; lc_ctx := lc_ctx s; lc_err := lc_err s; lc_manager := lc_manager s;
     lc_closed := true; lc_backoff := lc_backoff s; lc_given := lc_given s |}.

Definition give (t : task) (tenant : Z) (s : state) : state :=
  {| lc_tasks := lc_tasks s; lc_ctx := lc_ctx s; lc_err := lc_err s; lc_manager := lc_manager s;
     lc_closed := lc_closed s; lc_backoff := lc_backoff s; lc_given := lc_given s ++ [(t, tenant)] |}.

(** The goroutines [run] starts: two are optional. *)
Definition tasksOf (metamonitoring k6 : bool) : list task :=
  [SignalHandler; HttpShutdown; HttpServer; ChecksUpdater; AdhocHandler] ++
  (if metamonitoring then [MetricsHandler] else []) ++ (if k6 then [K6Versions] else []).

(** [run] at [g.Wait], for what [start] built; [Updater.Run] has reset its back-off. *)
Definition running {V} (p : @plan V) : state :=
  {| lc_tasks := map (λ t, (t, Working)) (tasksOf (pl_metamonitoring p) (bool_decide (is_Some (pl_k6Runner p))));
     lc_ctx := false; lc_err := None; lc_manager := true; lc_closed := false;
     lc_backoff := {| durations := 0; resets := 1 |}; lc_given := [] |}.

(** ** Steps *)

Inductive label :=
  | Signal (sig : string)              (** SIGINT or SIGTERM reaches [signalHandler] *)
  | SignalDone
  | ShutdownCalled | ShutdownReturns (e : option string)
  | Serve (addr : string) (e : serveErr)
  | UpdaterBatch (changes : Changes) (firstBatch : bool)
  | UpdaterLoop (wasConnected : bool) (err : option lerr) (interrupted : bool)
  | AdhocCheck (h : Handler) (built : bool) (req : AdHocRequest)
  | AdhocLoop (err : error sessionErr) (interrupted : bool)
  | MetricsEnds (evs : list (@metaEvent spec_float))
  | VersionsEnds (evs : list versionEvent)
  | Receive (t : task)                 (** the manager takes a tenant from [t] *)
  | ManagerDone.

(** The tenants [handleChangeBatch] sends, one by one. *)
Definition batchTenants (changes : Changes) (firstBatch : bool) : list Z :=
  if firstBatch && negb (IsDeltaFirstBatch changes) then [] else Tenants changes.

(** The tenants [handleAdHocCheck] sends. *)
Definition requestTenants (h : Handler) (built : bool) (req : AdHocRequest) : option (list Z) :=
  match handleAdHocCheck h built req with
  | Ret (acts, _) => Some (map t_Id (forwarded acts))
  | Panic _ => None
  end.

Definition send (t : task) (tenants : list Z) (s : state) : state :=
  set_status t (match tenants with [] => Working | x :: l => Sending x l end) s.

(** A goroutine that is neither blocked nor finished. *)
Definition working (t : task) (s : state) : bool :=
  match statusOf t s with Some Working => true | _ => false end.

(** [sleepCtx]: a sleep that the end of the context may cut short. *)
Definition sleepCtx (interrupted : bool) : option lerr := if interrupted then Some Canceled else None.

Definition updaterLoop (wasConnected : bool) (err : option lerr) (interrupted : bool) (s : state) : state :=
  let '(done, err, b) := handleError (sleepCtx interrupted) (lc_backoff s) wasConnected err in
  let s := set_backoff b s in
  if done then returns_ ChecksUpdater (ErrUpdaterRun <$> err) s else s.

Definition adhocLoop (err : error sessionErr) (interrupted : bool) (s : state) : state :=
  match decide_ err with
  | Return e => returns_ AdhocHandler (ErrAdhocRun <$> e) s
  | Again _ => s
  | Sleep _ _ _ => if sleepCtx interrupted then returns_ AdhocHandler (Some (ErrAdhocRun ctxCanceled)) s else s
  end.

(** How [metricsHandler.Run] returns on these events, if it does. *)
Definition metricsEnd (evs : list (@metaEvent spec_float)) : option (option runErr) :=
  match meta_Run {| mh_tenantID := 0; mh_probeName := EmptyString |} evs with
  | Ret acts => match last acts with
                | Some (MetaReturned failed) => Some (if failed then Some ErrTenantTimeout else None)
                | _ => None
                end
  | Panic _ => None
  end.

(** A step; [None] when it cannot be made.  A sleep is only interrupted by the context, and
    a panic is not a step: it ends the process. *)
Definition step (l : label) (s : state) : option state :=
  match l with
  | Signal sig =>
      if working SignalHandler s
      then Some (returns_ SignalHandler (ErrSignal <$> signalHandler (GotSignal sig)) s) else None
  | SignalDone =>
      if working SignalHandler s && lc_ctx s
      then Some (returns_ SignalHandler (ErrSignal <$> signalHandler ContextDone) s) else None
  | ShutdownCalled =>
      if working HttpShutdown s && lc_ctx s && negb (lc_closed s) then Some (close_server s) else None
  | ShutdownReturns e =>
      if working HttpShutdown s && lc_closed s then Some (returns_ HttpShutdown (ErrShutdown <$> e) s) else None
  | Serve addr e =>
      if working HttpServer s && (match e with ErrServerClosed => lc_closed s | _ => true end)
      then Some (returns_ HttpServer (ErrServe <$> server_Run addr e) s) else None
  | UpdaterBatch changes firstBatch =>
      if working ChecksUpdater s then Some (send ChecksUpdater (batchTenants changes firstBatch) s) else None
  | UpdaterLoop wasConnected err interrupted =>
      if working ChecksUpdater s && implb interrupted (lc_ctx s)
      then Some (updaterLoop wasConnected err interrupted s) else None
  | AdhocCheck h built req =>
      if working AdhocHandler s
      then tenants ← requestTenants h built req; Some (send AdhocHandler tenants s) else None
  | AdhocLoop err interrupted =>
      if working AdhocHandler s && implb interrupted (lc_ctx s)
      then Some (adhocLoop err interrupted s) else None
  | MetricsEnds evs =>
      if working MetricsHandler s && lc_ctx s
      then e ← metricsEnd evs; Some (returns_ MetricsHandler e s) else None
  | VersionsEnds evs =>
      if working K6Versions s && lc_ctx s && hs_returned (Handle evs)
      then Some (returns_ K6Versions (Some ErrContext) s) else None
  | Receive t =>
      if lc_manager s then
        match statusOf t s with
        | Some (Sending x l) => Some (send t l (give t x s))
        | _ => None
        end
      else None
  | ManagerDone => if lc_manager s && lc_ctx s then Some (stop_manager s) else None
  end.

Fixpoint steps (ls : list label) (s : state) : option state :=
  match ls with [] => Some s | l :: ls => s ← step l s; steps ls s end.

(** ** [g.Wait] *)

Definition isReturned (x : status) : bool := match x with Returned _ => true | _ => false end.
Definition isSending (x : status) : bool := match x with Sending _ _ => true | _ => false end.

(** The result of [g.Wait], once every goroutine has returned. *)
Definition groupWait (s : state) : option (option runErr) :=
  if forallb (λ p, isReturned p.2) (lc_tasks s) then Some (lc_err s) else None.

Definition exitFail : Z := 1.
(** [main]: the exit status for what [run] returns. *)
Definition main_exit (err : option runErr) : Z := match err with Some _ => exitFail | None => 0 end.

(** ** Lemmas about the updates *)

Lemma statusOf_set t t' x s :
  statusOf t (set_status t' x s) = if decide (t = t') then (λ _, x) <$> statusOf t s else statusOf t s.
Proof.
  unfold statusOf. destruct s as [ts ? ? ? ? ? ?]. simpl. induction ts as [|[u y] ts IH]; simpl; [by case_decide|].
  repeat case_bool_decide; simpl; repeat case_bool_decide; simplify_eq/=; by repeat case_decide.
Qed.

Lemma names_set t x s : map fst (lc_tasks (set_status t x s)) = map fst (lc_tasks s).
Proof. simpl. rewrite map_map. apply map_ext. intros [u y]. by case_bool_decide. Qed.

Lemma fail_frame e s :
  lc_tasks (groupFail e s) = lc_tasks s ∧ lc_manager (groupFail e s) = lc_manager s ∧ lc_closed (groupFail e s) = lc_closed s ∧
  lc_given (groupFail e s) = lc_given s.
Proof. unfold groupFail. by destruct e, (lc_err s). Qed.

Lemma statusOf_fail t e s : statusOf t (groupFail e s) = statusOf t s.
Proof. unfold statusOf. by rewrite (proj1 (fail_frame e s)). Qed.

Lemma statusOf_returns t t' e s :
  statusOf t (returns_ t' e s) = if decide (t = t') then (λ _, Returned e) <$> statusOf t s else statusOf t s.
Proof. unfold returns_. by rewrite statusOf_fail, statusOf_set. Qed.

Lemma working_status t s : working t s = true ↔ statusOf t s = Some Working.
Proof. unfold working. destruct (statusOf t s) as [[]|]; naive_solver. Qed.

Lemma statusOf_is_Some t s : is_Some (statusOf t s) ↔ t ∈ map fst (lc_tasks s).
Proof.
  unfold statusOf. induction (lc_tasks s) as [|[u y] ts IH]; simpl; [split; [by intros []|by intros ?%elem_of_nil]|].
  rewrite elem_of_cons. case_bool_decide; simpl; [naive_solver|]. rewrite IH. naive_solver.
Qed.

Lemma statusOf_elem t x s : statusOf t s = Some x → (t, x) ∈ lc_tasks s.
Proof.
  unfold statusOf. induction (lc_tasks s) as [|[u y] ts IH]; simpl; [done|].
  case_bool_decide; simplify_eq/=; [intros [= ->]; left|]. intros Ht. right. by apply IH.
Qed.

Lemma elem_statusOf t x s : NoDup (map fst (lc_tasks s)) → (t, x) ∈ lc_tasks s → statusOf t s = Some x.
Proof.
  unfold statusOf. induction (lc_tasks s) as [|[u y] ts IH]; simpl; [by intros _ ?%elem_of_nil|].
  intros [Hu Hd]%NoDup_cons [[= -> ->]|Hin]%elem_of_cons; case_bool_decide; simplify_eq/=; try done; [|by apply IH].
  destruct Hu. change t with (t, x).1. by apply list_elem_of_fmap_2.
Qed.

Lemma steps_app ls ls' s : steps (ls ++ ls') s = s' ← steps ls s; steps ls' s'.
Proof. revert s. induction ls as [|l ls IH]; intros s; [done|]. simpl. destruct (step l s); simpl; [apply IH|done]. Qed.

(** ** What a step changes *)

(** Only two goroutines have the channel. *)
Definition sender (t : task) : bool := match t with ChecksUpdater | AdhocHandler => true | _ => false end.

(** The tenants a label makes a goroutine give. *)
Definition offers (l : label) : option (task * list Z) :=
  match l with
  | UpdaterBatch changes firstBatch => Some (ChecksUpdater, batchTenants changes firstBatch)
  | AdhocCheck h built req => pair AdhocHandler <$> requestTenants h built req
  | _ => None
  end.

Inductive effect (s : state) : option (task * list Z) → state → Prop :=
  | EffReturns t e b :
      working t s = true → (t = SignalHandler → lc_ctx s = true ∨ e ≠ None) →
      (t = HttpShutdown → lc_closed s = true) → effect s None (returns_ t e (set_backoff b s))
  | EffSend t ts : working t s = true → sender t = true → effect s (Some (t, ts)) (send t ts s)
  | EffGive t x l : lc_manager s = true → statusOf t s = Some (Sending x l) → effect s None (send t l (give t x s))
  | EffBackoff b : effect s None (set_backoff b s)
  | EffManager : lc_ctx s = true → effect s None (stop_manager s)
  | EffClose : lc_ctx s = true → effect s None (close_server s).

Lemma set_backoff_id s : set_backoff (lc_backoff s) s = s.
Proof. by destruct s. Qed.

Lemma eff_returns t e s :
  working t s = true → (t = SignalHandler → lc_ctx s = true ∨ e ≠ None) →
  (t = HttpShutdown → lc_closed s = true) → effect s None (returns_ t e s).
Proof. intros. rewrite <- (set_backoff_id s) at 2. by apply EffReturns. Qed.

Lemma eff_stays s : effect s None s.
Proof. rewrite <- (set_backoff_id s) at 2. apply EffBackoff. Qed.

Lemma guarded {A} (b : bool) (x y : option A) z : (if b then x else None) = Some z → b = true ∧ x = Some z.
Proof. by destruct b. Qed.

Ltac guards :=
  repeat match goal with
  | H : (if _ then _ else None) = Some _ |- _ => apply guarded in H as [? H]; [|exact None]
  | H : _ && _ = true |- _ => apply andb_prop in H as [? ?]
  end.

Lemma step_effect l s s' : step l s = Some s' → effect s (offers l) s'.
Proof.
  destruct l as [sig| | |e|addr e|changes first|was err i|h built req|err i|evs|evs|t|]; cbn [step offers]; intros H;
    guards; try (apply (inj Some) in H; subst s'); try (by apply EffSend).
  - apply eff_returns; [done|by right|done].
  - apply eff_returns; [done|by left|done].
  - by apply EffClose.
  - by apply eff_returns.
  - by apply eff_returns.
  - unfold updaterLoop. destruct (handleError _ _ _ _) as [[[] e] b]; [by apply EffReturns|apply EffBackoff].
  - destruct (requestTenants h built req); [|done]. injection H as <-. by apply EffSend.
  - unfold adhocLoop. destruct (decide_ err) as [e| |]; [by apply eff_returns|apply eff_stays|].
    destruct i; [by apply eff_returns|apply eff_stays].
  - destruct (metricsEnd evs); simplify_eq/=. by apply eff_returns.
  - by apply eff_returns.
  - destruct (statusOf t s) as [[|x l|]|] eqn:Et; simplify_eq/=. by apply EffGive.
  - by apply EffManager.
Qed.

(** ** The invariant *)

Definition isSome {A} (o : option A) : bool := match o with Some _ => true | None => false end.

Record inv (s : state) : Prop := {
  inv_nodup : NoDup (map fst (lc_tasks s));
  inv_names : SignalHandler ∈ map fst (lc_tasks s) ∧ HttpShutdown ∈ map fst (lc_tasks s);
  inv_ctx : lc_ctx s = isSome (lc_err s);
  inv_manager : lc_manager s = false → lc_ctx s = true;
  inv_closed : lc_closed s = true → lc_ctx s = true;
  inv_signal e : statusOf SignalHandler s = Some (Returned e) → lc_ctx s = true;
  inv_shutdown e : statusOf HttpShutdown s = Some (Returned e) → lc_closed s = true;
  inv_sender t x l : statusOf t s = Some (Sending x l) → sender t = true;
}.

Lemma fail_ctx e s : lc_ctx s = isSome (lc_err s) → lc_ctx (groupFail e s) = isSome (lc_err (groupFail e s)).
Proof. destruct s as [? ? err ? ? ? ?]. by destruct e, err. Qed.

Lemma fail_grows e s : lc_ctx s = true → lc_ctx (groupFail e s) = true.
Proof. destruct s as [? ? err ? ? ? ?]. by destruct e, err. Qed.

Lemma fail_some e s : lc_ctx s = isSome (lc_err s) → e ≠ None → lc_ctx (groupFail e s) = true.
Proof. destruct s as [? ? err ? ? ? ?]. by destruct e, err. Qed.

Lemma running_inv {V} (p : @plan V) : inv (running p).
Proof.
  assert (Hn : map fst (lc_tasks (running p)) = tasksOf (pl_metamonitoring p) (bool_decide (is_Some (pl_k6Runner p)))).
  { cbn [running lc_tasks]. rewrite map_map. apply map_id. }
  assert (Hw : ∀ t y, statusOf t (running p) = Some y → y = Working).
  { intros t y Ht%statusOf_elem. apply list_elem_of_fmap in Ht as (u & Eu & _). congruence. }
  split; rewrite ?Hn; try done; try (by intros ? ?%Hw); try (by intros ? ? ? ?%Hw).
  - destruct (pl_metamonitoring p), (bool_decide _); apply (bool_decide_unpack _); vm_compute; exact I.
  - unfold tasksOf. simpl. set_solver.
Qed.

Lemma returns_frame t e b s :
  let s' := returns_ t e (set_backoff b s) in
  map fst (lc_tasks s') = map fst (lc_tasks s) ∧ lc_manager s' = lc_manager s ∧ lc_closed s' = lc_closed s ∧
  lc_given s' = lc_given s.
Proof.
  cbn zeta. unfold returns_. destruct (fail_frame e (set_status t (Returned e) (set_backoff b s))) as (-> & -> & -> & ->).
  by rewrite names_set.
Qed.

Lemma returns_inv t e b s :
  (t = SignalHandler → lc_ctx s = true ∨ e ≠ None) → (t = HttpShutdown → lc_closed s = true) →
  inv s → inv (returns_ t e (set_backoff b s)).
Proof.
  intros Hsig Hsh [Hn Hm Hc Hma Hcl Hs Hh Hse]. destruct (returns_frame t e b s) as (En & Em & Ec & _).
  assert (Hup : lc_ctx s = true → lc_ctx (returns_ t e (set_backoff b s)) = true) by (intros; by apply fail_grows).
  split; rewrite ?En, ?Em, ?Ec; auto.
  - by apply fail_ctx.
  - intros e'. rewrite statusOf_returns. case_decide as Ed; [|intros ?; by eapply Hup, Hs].
    intros _. destruct (Hsig (eq_sym Ed)) as [|He]; [by apply Hup|]. by apply fail_some.
  - intros e'. rewrite statusOf_returns. case_decide as Ed; [|by apply Hh]. intros _. by apply Hsh.
  - intros u x l. rewrite statusOf_returns. case_decide; [|by apply Hse].
    change (statusOf u (set_backoff b s)) with (statusOf u s). by destruct (statusOf u s).
Qed.

Lemma send_inv t ts s :
  (∀ e, statusOf t s ≠ Some (Returned e)) → sender t = true → inv s → inv (send t ts s).
Proof.
  intros Ht Hst [Hn Hm Hc Hma Hcl Hs Hh Hse]. unfold send. split; rewrite ?names_set; try done.
  - intros e. rewrite statusOf_set. case_decide; [|by apply Hs]. destruct (statusOf SignalHandler s), ts; done.
  - intros e. rewrite statusOf_set. case_decide; [|by apply Hh]. destruct (statusOf HttpShutdown s), ts; done.
  - intros u x l. rewrite statusOf_set. case_decide; [by subst|by apply Hse].
Qed.

Lemma effect_inv o s s' : effect s o s' → inv s → inv s'.
Proof.
  intros He Hi. destruct He as [t e b Hw Hsig Hsh|t ts Hw Hst|t x l Hma' Ht|b|Hx|Hx]; [by apply returns_inv| | |by destruct Hi..].
  - apply send_inv; [|done|done]. apply working_status in Hw. by rewrite Hw.
  - apply send_inv; [|by eapply inv_sender|by destruct Hi]. intros e.
    change (statusOf t (give t x s)) with (statusOf t s). by rewrite Ht.
Qed.

Lemma steps_inv ls s s' : steps ls s = Some s' → inv s → inv s'.
Proof.
  revert s. induction ls as [|l ls IH]; intros s; simpl; [by intros [= <-]|].
  destruct (step l s) as [s1|] eqn:E; [|done]. intros H Hi. eapply IH; [done|]. by eapply effect_inv, Hi; apply (step_effect l).
Qed.

Lemma running_reachable_inv {V} (p : @plan V) ls s : steps ls (running p) = Some s → inv s.
Proof. intros H. eapply steps_inv, running_inv. exact H. Qed.

(** The first error stays. *)
Lemma step_err l s s' e : step l s = Some s' → lc_err s = Some e → lc_err s' = Some e.
Proof.
  intros He%step_effect Hs. destruct He as [t x b _ _ _| | | | |]; try done.
  unfold returns_, groupFail. simpl. rewrite Hs. by destruct x.
Qed.

Lemma steps_err ls s s' e : steps ls s = Some s' → lc_err s = Some e → lc_err s' = Some e.
Proof.
  revert s. induction ls as [|l ls IH]; intros s; simpl; [by intros [= <-]|].
  destruct (step l s) as [s1|] eqn:E; [|done]. intros H Hs. eapply IH; [done|]. by eapply step_err.
Qed.

(** ** A goroutine that gives a tenant to nobody *)

Lemma step_blocked l s s' t x ts :
  step l s = Some s' → lc_manager s = false → statusOf t s = Some (Sending x ts) →
  lc_manager s' = false ∧ statusOf t s' = Some (Sending x ts).
Proof.
  intros He%step_effect Hm Ht. destruct He as [u e b Hw _ _|u us Hw _|u y us Hm' _|b|_|_]; try done; [| |congruence].
  - destruct (returns_frame u e b s) as (_ & -> & _). rewrite statusOf_returns, decide_False; [done|].
    intros ->. apply working_status in Hw. congruence.
  - unfold send. rewrite statusOf_set, decide_False; [done|]. intros ->. apply working_status in Hw. congruence.
Qed.

Lemma steps_blocked ls s s' t x ts :
  steps ls s = Some s' → lc_manager s = false → statusOf t s = Some (Sending x ts) →
  statusOf t s' = Some (Sending x ts).
Proof.
  revert s. induction ls as [|l ls IH]; intros s; simpl; [by intros [= <-]|].
  destruct (step l s) as [s1|] eqn:E; [|done]. intros H Hm Ht.
  destruct (step_blocked _ _ _ _ _ _ E Hm Ht). by eapply IH.
Qed.

Lemma wait_returned s r t x : groupWait s = Some r → statusOf t s = Some x → r = lc_err s ∧ isReturned x = true.
Proof.
  unfold groupWait. destruct (forallb _ _) eqn:E; [|done]. intros [= <-] H%statusOf_elem. split; [done|].
  rewrite forallb_forall in E. apply list_elem_of_In in H. by apply (E _ H).
Qed.

(** ** Every goroutine can return *)

(** The tenants a goroutine has still to give. *)
Definition pendingOf (t : task) (s : state) : list Z :=
  match statusOf t s with Some (Sending x l) => x :: l | _ => [] end.

(** [s'] is [s] but for what [t] is doing, what it gave, and the server's shutdown. *)
Record only (t : task) (s s' : state) : Prop := {
  only_others u : u ≠ t → statusOf u s' = statusOf u s;
  only_names : map fst (lc_tasks s') = map fst (lc_tasks s);
  only_manager : lc_manager s' = lc_manager s;
  only_ctx : lc_ctx s = true → lc_ctx s' = true;
  only_closed : lc_closed s' = lc_closed s;
}.

Lemma only_trans t s1 s2 s3 : only t s1 s2 → only t s2 s3 → only t s1 s3.
Proof.
  intros [O1 N1 M1 C1 D1] [O2 N2 M2 C2 D2]. split; [|congruence|congruence|auto|congruence].
  intros u Hu. by rewrite O2, O1.
Qed.

Lemma only_send t ts x s : only t s (send t ts (give t x s)).
Proof.
  split; [|by unfold send; rewrite names_set|done..].
  intros u Hu. unfold send. by rewrite statusOf_set, decide_False.
Qed.

Lemma only_returns t e s : only t s (returns_ t e s).
Proof.
  rewrite <- (set_backoff_id s) at 2. destruct (returns_frame t e (lc_backoff s) s) as (N & M & C & _).
  split; [|done|done|intros; by apply fail_grows|done].
  intros u Hu. by rewrite statusOf_returns, decide_False.
Qed.

(** The manager takes what a goroutine has to give. *)
Lemma drain t s :
  lc_manager s = true → t ∈ map fst (lc_tasks s) → (∀ e, statusOf t s ≠ Some (Returned e)) →
  ∃ s', steps (replicate (length (pendingOf t s)) (Receive t)) s = Some s' ∧
    statusOf t s' = Some Working ∧ only t s s'.
Proof.
  intros Hm [y Hy]%statusOf_is_Some Hr. remember (pendingOf t s) as l eqn:El. unfold pendingOf in El.
  rewrite Hy in El. revert s y Hm Hy Hr El. induction l as [|x l IH]; intros s y Hm Hy Hr El.
  - exists s. destruct y; [done|done|]. by destruct (Hr e).
  - destruct y as [|x' l'|]; simplify_eq/=. rewrite Hm, Hy. cbn [mbind option_bind].
    set (s1 := send t l' (give t x' s)).
    assert (H1 : statusOf t s1 = Some (match l' with [] => Working | x :: l => Sending x l end)).
    { unfold s1, send. rewrite statusOf_set, decide_True by done.
      change (statusOf t (give t x' s)) with (statusOf t s). by rewrite Hy. }
    destruct (IH s1 _ Hm H1) as (s' & Es & Hs & Ho); [intros e; rewrite H1; by destruct l'|by destruct l'|].
    exists s'. split_and!; [done|done|]. eapply only_trans, Ho. apply only_send.
Qed.

(** How each goroutine returns once the context is cancelled and, for the server, once
    its shutdown was called. *)
Definition farewell (t : task) : label :=
  match t with
  | SignalHandler => SignalDone
  | HttpShutdown => ShutdownReturns None
  | HttpServer => Serve "" ErrServerClosed
  | ChecksUpdater => UpdaterLoop true (Some Canceled) false
  | AdhocHandler => AdhocLoop (Some ctxCanceled) false
  | MetricsHandler => MetricsEnds [MetaDone]
  | K6Versions => VersionsEnds [VersionsDone]
  end.

Lemma farewell_returns t s :
  lc_ctx s = true → lc_closed s = true → statusOf t s = Some Working →
  ∃ e, step (farewell t) s = Some (returns_ t e s).
Proof.
  intros Hc Hcl Hw%working_status. destruct t; cbn [farewell step]; rewrite Hw, ?Hc, ?Hcl; try (by eexists).
Qed.

Lemma shutdown_called s :
  inv s → lc_ctx s = true → ∃ ls s', (length ls ≤ 1)%nat ∧ steps ls s = Some s' ∧ lc_closed s' = true ∧
    lc_ctx s' = true ∧ lc_manager s' = lc_manager s ∧ lc_tasks s' = lc_tasks s.
Proof.
  intros Hi Hc. destruct (lc_closed s) eqn:Hcl; [exists [], s; split; [simpl; lia|done]|].
  exists [ShutdownCalled], (close_server s). split; [simpl; lia|]. split; [|done]. simpl.
  destruct (proj2 (statusOf_is_Some HttpShutdown s) (proj2 (inv_names _ Hi))) as [y Hy].
  assert (working HttpShutdown s = true) as ->; [|by rewrite Hc, Hcl].
  apply working_status. rewrite Hy. destruct y as [|x l|e]; [done| |].
  - by apply (inv_sender _ Hi) in Hy.
  - apply (inv_shutdown _ Hi) in Hy. congruence.
Qed.

(** One goroutine returns, after the manager took its tenants. *)
Lemma finish_one t s :
  lc_ctx s = true → lc_closed s = true → t ∈ map fst (lc_tasks s) →
  lc_manager s = true ∨ pendingOf t s = [] →
  ∃ ls s' e, (length ls ≤ S (length (pendingOf t s)))%nat ∧ steps ls s = Some s' ∧
    statusOf t s' = Some (Returned e) ∧ only t s s'.
Proof.
  intros Hc Hcl Ht Hm. destruct (proj2 (statusOf_is_Some _ _) Ht) as [y Hy].
  assert (Hd : (∃ e, y = Returned e) ∨ ∃ s', steps (replicate (length (pendingOf t s)) (Receive t)) s = Some s' ∧
    statusOf t s' = Some Working ∧ only t s s').
  { destruct y as [|x l|e]; [right|right|by left; exists e].
    - exists s. unfold pendingOf. by rewrite Hy.
    - apply drain; [|done|by rewrite Hy]. destruct Hm as [|Hm]; [done|]. unfold pendingOf in Hm. by rewrite Hy in Hm. }
  destruct Hd as [[e ->]|(s1 & E1 & H1 & O1)]; [exists [], s, e; split; [simpl; lia|done]|].
  destruct (farewell_returns t s1) as [e E2]; [by apply O1|by rewrite (only_closed _ _ _ O1)|done|].
  exists (replicate (length (pendingOf t s)) (Receive t) ++ [farewell t]), (returns_ t e s1), e.
  rewrite length_app, length_replicate, steps_app, E1. cbn [mbind option_bind steps length]. rewrite E2.
  split_and!; [lia|done| |].
  - by rewrite statusOf_returns, decide_True, H1.
  - eapply only_trans; [done|]. apply only_returns.
Qed.

(** The tenants these goroutines have still to give. *)
Definition pendings (l : list task) (s : state) : nat := sum_list_with (λ t, length (pendingOf t s)) l.

Lemma pendings_only t l s s' : t ∉ l → only t s s' → pendings l s' = pendings l s.
Proof.
  intros Ht O. induction l as [|u l IH]; [done|]. apply not_elem_of_cons in Ht as [Hu Hl].
  unfold pendings in *. simpl. rewrite IH by done. unfold pendingOf. by rewrite (only_others _ _ _ O) by done.
Qed.

Lemma finish_all l s :
  NoDup l → lc_ctx s = true → lc_closed s = true → (∀ t, t ∈ l → t ∈ map fst (lc_tasks s)) →
  lc_manager s = true ∨ (∀ t, t ∈ l → pendingOf t s = []) →
  ∃ ls s', (length ls ≤ length l + pendings l s)%nat ∧ steps ls s = Some s' ∧
    map fst (lc_tasks s') = map fst (lc_tasks s) ∧
    (∀ t, t ∈ l → ∃ e, statusOf t s' = Some (Returned e)) ∧ ∀ t, t ∉ l → statusOf t s' = statusOf t s.
Proof.
  intros Hd. revert s. induction Hd as [|t l Ht Hd IH]; intros s Hc Hcl Hn Hm.
  - exists [], s. split_and!; try done. set_solver.
  - destruct (finish_one t s) as (ls1 & s1 & e & L1 & E1 & H1 & O); [done|done|apply Hn; set_solver|naive_solver set_solver|].
    destruct (IH s1) as (ls2 & s2 & L2 & E2 & N2 & R2 & F2).
    { by apply O. } { by rewrite (only_closed _ _ _ O). }
    { intros u Hu. rewrite (only_names _ _ _ O). apply Hn. set_solver. }
    { rewrite (only_manager _ _ _ O). destruct Hm as [|Hm]; [by left|right]. intros u Hu. unfold pendingOf.
      rewrite (only_others _ _ _ O) by congruence. apply Hm. set_solver. }
    exists (ls1 ++ ls2), s2. rewrite length_app, steps_app, E1. cbn [mbind option_bind].
    rewrite (pendings_only t l s s1 Ht O) in L2. unfold pendings in *. simpl. split_and!; [lia|done| | |].
    + by rewrite N2, (only_names _ _ _ O).
    + intros u [->|Hu]%elem_of_cons; [|by apply R2]. exists e. by rewrite F2.
    + intros u [Hut Hu]%not_elem_of_cons. by rewrite F2, (only_others _ _ _ O).
Qed.

Lemma all_returned s :
  NoDup (map fst (lc_tasks s)) → (∀ t, t ∈ map fst (lc_tasks s) → ∃ e, statusOf t s = Some (Returned e)) →
  groupWait s = Some (lc_err s).
Proof.
  intros Hd H. unfold groupWait. assert (forallb (λ p, isReturned p.2) (lc_tasks s) = true) as ->; [|done].
  apply forallb_forall. intros [t x] Hin%list_elem_of_In. destruct (H t) as [e He].
  { change t with (t, x).1. by apply list_elem_of_fmap_2. }
  apply elem_statusOf in Hin; [|done]. simpl. by rewrite Hin in He; injection He as ->.
Qed.

(** ** Shutdown *)

(** A goroutine is waiting for the manager to take a tenant. *)
Definition blocked (s : state) : bool := existsb (λ p, isSending p.2) (lc_tasks s).

Lemma blocked_true s : NoDup (map fst (lc_tasks s)) → blocked s = true ↔ ∃ t x l, statusOf t s = Some (Sending x l).
Proof.
  intros Hd. unfold blocked. rewrite existsb_exists. split.
  - intros ([t [|x l|]] & Hin%list_elem_of_In & Hs); try done. exists t, x, l. by apply elem_statusOf.
  - intros (t & x & l & H%statusOf_elem). exists (t, Sending x l). by rewrite <- list_elem_of_In.
Qed.

Lemma step_names l s s' : step l s = Some s' → map fst (lc_tasks s') = map fst (lc_tasks s).
Proof.
  intros He%step_effect. destruct He as [t e b _ _ _|t ts _ _|t x l' _ _|b|_|_]; try done.
  - by destruct (returns_frame t e b s).
  - unfold send. apply names_set.
  - unfold send. by rewrite names_set.
Qed.

Lemma reachable_names {V} (p : @plan V) ls s :
  steps ls (running p) = Some s →
  map fst (lc_tasks s) = tasksOf (pl_metamonitoring p) (bool_decide (is_Some (pl_k6Runner p))).
Proof.
  transitivity (map fst (lc_tasks (running p))); [|cbn [running lc_tasks]; rewrite map_map; apply map_id].
  revert H. generalize (running p). induction ls as [|l ls IH]; intros s0; simpl; [by intros [= <-]|].
  destruct (step l s0) as [s1|] eqn:E; [|done]. intros H. rewrite <- (step_names _ _ _ E). by apply IH.
Qed.

(** Only the two that have the channel have anything to give. *)
Lemma pendings_bound s m k :
  inv s → (pendings (tasksOf m k) s ≤ pendings [ChecksUpdater; AdhocHandler] s)%nat ∧ (length (tasksOf m k) ≤ 7)%nat.
Proof.
  intros Hi. assert (H : ∀ t, sender t = false → pendingOf t s = []).
  { intros t Ht. unfold pendingOf. destruct (statusOf t s) as [[|x l|]|] eqn:E; try done.
    apply (inv_sender _ Hi) in E. congruence. }
  unfold pendings, tasksOf. destruct m, k; simpl; rewrite ?(H SignalHandler), ?(H HttpShutdown), ?(H HttpServer),
    ?(H MetricsHandler), ?(H K6Versions) by done; simpl; lia.
Qed.

Lemma not_blocked s t : NoDup (map fst (lc_tasks s)) → blocked s = false → pendingOf t s = [].
Proof.
  intros Hd Hb. unfold pendingOf. destruct (statusOf t s) as [[|x l|]|] eqn:E; try done.
  assert (blocked s = true); [|congruence]. apply blocked_true; eauto.
Qed.

(** Once the context is cancelled every goroutine can return, if none is stuck. *)
Lemma shutdown_possible {V} (p : @plan V) ls s :
  steps ls (running p) = Some s → lc_ctx s = true → lc_manager s = true ∨ blocked s = false →
  ∃ ls' s', (length ls' ≤ 8 + pendings [ChecksUpdater; AdhocHandler] s)%nat ∧
    steps ls' s = Some s' ∧ groupWait s' = Some (lc_err s).
Proof.
  intros Hr Hc Hm. pose proof (running_reachable_inv _ _ _ Hr) as Hi. pose proof (reachable_names _ _ _ Hr) as Hn.
  destruct (shutdown_called s Hi Hc) as (ls1 & s1 & L1 & E1 & C1 & X1 & M1 & T1).
  assert (P1 : ∀ t, pendingOf t s1 = pendingOf t s) by (intros t; unfold pendingOf, statusOf; by rewrite T1).
  assert (Hd : NoDup (map fst (lc_tasks s1))) by (rewrite T1; apply Hi).
  destruct (finish_all (map fst (lc_tasks s1)) s1) as (ls2 & s2 & L2 & E2 & N2 & R2 & _); try done.
  { destruct Hm as [Hm|Hm]; [left; congruence|right]. intros t _. rewrite P1. apply not_blocked; [apply Hi|done]. }
  exists (ls1 ++ ls2), s2. rewrite length_app, steps_app, E1. split_and!; [|done|].
  - assert (EP : pendings (map fst (lc_tasks s1)) s1 = pendings (map fst (lc_tasks s)) s).
    { rewrite T1. unfold pendings. clear -P1. induction (map fst (lc_tasks s)) as [|t l IH]; simpl; congruence. }
    rewrite EP, T1, Hn in L2. destruct (pendings_bound s (pl_metamonitoring p) (bool_decide (is_Some (pl_k6Runner p))) Hi).
    lia.
  - destruct (lc_err s) as [e|] eqn:Ee; [|by rewrite (inv_ctx _ Hi), Ee in Hc].
    rewrite (all_returned s2); [|by rewrite N2|intros t Ht; rewrite N2 in Ht; by apply R2].
    f_equal. eapply (steps_err (ls1 ++ ls2)); [|done]. by rewrite steps_app, E1.
Qed.

(** C10: The agent shuts down, unless a goroutine is giving a tenant to a manager that has
    stopped.  In every interleaving, as long as nothing failed a signal is enough to end
    the agent.  Once the context is cancelled, and while the manager runs or no goroutine
    is waiting for it, all of them can return, in at most one step each, one for the
    tenants still to be given and one for the shutdown of the server; and otherwise
    [g.Wait] never returns, whatever happens.  When it does, it is with the first error,
    and the agent exits with status 1, also after SIGTERM. *)
Theorem agent_shuts_down {V} (p : @plan V) ls s :
  steps ls (running p) = Some s →
  (lc_ctx s = false → ∀ sig, ∃ s', step (Signal sig) s = Some s' ∧ lc_ctx s' = true ∧ lc_manager s' = true ∧
     lc_err s' = Some (ErrSignal ("got signal " +:+ sig)%string)) ∧
  (lc_ctx s = true →
     if lc_manager s || negb (blocked s)
     then ∃ ls' s', (length ls' ≤ 8 + pendings [ChecksUpdater; AdhocHandler] s)%nat ∧
            steps ls' s = Some s' ∧ groupWait s' = Some (lc_err s)
     else ∀ ls' s', steps ls' s = Some s' → groupWait s' = None) ∧
  (∀ r, groupWait s = Some r → lc_ctx s = true ∧ r = lc_err s ∧ r ≠ None ∧ main_exit r = exitFail).
Proof.
  intros Hr. pose proof (running_reachable_inv _ _ _ Hr) as Hi. pose proof (inv_ctx _ Hi) as Hctx. split_and!.
  - intros Hc sig. exists (returns_ SignalHandler (ErrSignal <$> signalHandler (GotSignal sig)) s). simpl.
    assert (working SignalHandler s = true) as ->.
    { apply working_status. destruct (proj2 (statusOf_is_Some SignalHandler s) (proj1 (inv_names _ Hi))) as [[|x l|e] Hy]; [done| |].
      - by apply (inv_sender _ Hi) in Hy.
      - apply (inv_signal _ Hi) in Hy. congruence. }
    assert (lc_manager s = true) by (destruct (lc_manager s) eqn:E; [done|]; apply (inv_manager _ Hi) in E; congruence).
    rewrite Hc in Hctx. unfold returns_, groupFail. simpl. by destruct (lc_err s).
  - intros Hc. destruct (lc_manager s) eqn:Em; simpl; [by eapply shutdown_possible; eauto|].
    destruct (blocked s) eqn:Eb; simpl; [|by eapply shutdown_possible; eauto].
    intros ls' s' Hs. apply blocked_true in Eb as (t & x & l & Ht); [|apply Hi].
    destruct (groupWait s') as [r|] eqn:Ew; [|done].
    by apply (wait_returned s' r t (Sending x l)) in Ew as [_ ?]; [|by eapply steps_blocked].
  - intros r Hw. destruct (proj2 (statusOf_is_Some SignalHandler s) (proj1 (inv_names _ Hi))) as [y Hy].
    destruct (wait_returned _ _ _ _ Hw Hy) as [-> Hret]. destruct y as [| |e]; try done.
    apply (inv_signal _ Hi) in Hy as Hc. rewrite Hc in Hctx. destruct (lc_err s); [done|done].
Qed.

(** ** The tenants *)

(** The tenants the manager got from a goroutine. *)
Definition givenBy (t : task) (s : state) : list Z :=
  map snd (List.filter (λ p, bool_decide (p.1 = t)) (lc_given s)).

Definition offered (t : task) (o : option (task * list Z)) : list Z :=
  match o with Some (u, l) => if bool_decide (u = t) then l else [] | None => [] end.

Lemma pendingOf_send u t l s :
  is_Some (statusOf t s) → pendingOf u (send t l s) = if decide (u = t) then l else pendingOf u s.
Proof.
  intros [y Hy]. unfold pendingOf, send. rewrite statusOf_set. case_decide; [subst; rewrite Hy; by destruct l|done].
Qed.

Lemma effect_tenants o s s' u :
  effect s o s' → givenBy u s' ++ pendingOf u s' = (givenBy u s ++ pendingOf u s) ++ offered u o.
Proof.
  intros He. destruct He as [t e b Hw _ _|t ts Hw _|t x l _ Ht|b|_|_]; cbn [offered]; rewrite ?app_nil_r; try done.
  - destruct (returns_frame t e b s) as (_ & _ & _ & Eg). unfold givenBy, pendingOf. rewrite Eg, statusOf_returns.
    apply working_status in Hw. change (statusOf u (set_backoff b s)) with (statusOf u s).
    case_decide; [subst; by rewrite Hw|done].
  - apply working_status in Hw. rewrite pendingOf_send by eauto. rewrite <- app_assoc. change (givenBy u (send t ts s)) with (givenBy u s).
    f_equal. case_decide; case_bool_decide; try congruence; [|by rewrite app_nil_r].
    subst. unfold pendingOf. by rewrite Hw.
  - rewrite pendingOf_send by (by eexists).
    change (givenBy u (send t l (give t x s))) with (givenBy u (give t x s)). unfold givenBy. cbn [give lc_given].
    rewrite List.filter_app, map_app, <- app_assoc. f_equal. simpl.
    change (pendingOf u (give t x s)) with (pendingOf u s). unfold pendingOf.
    case_bool_decide; case_decide; try congruence; [subst; by rewrite Ht|done].
Qed.

(** The tenants of a goroutine reach the manager in the order it sent them: those it
    gave, and then the ones it is still waiting to give, are those of the batches of
    changes, or of the requests, it handled. *)
Theorem tenants_given_in_order {V} (p : @plan V) ls s t :
  steps ls (running p) = Some s →
  givenBy t s ++ pendingOf t s = concat (map (λ l, offered t (offers l)) ls).
Proof.
  assert (H : ∀ s0, steps ls s0 = Some s →
    givenBy t s ++ pendingOf t s = (givenBy t s0 ++ pendingOf t s0) ++ concat (map (λ l, offered t (offers l)) ls)).
  { induction ls as [|l ls IH]; intros s0; simpl; [intros [= <-]; by rewrite app_nil_r|].
    destruct (step l s0) as [s1|] eqn:E; [|done]. intros H. rewrite (IH _ H), (effect_tenants _ _ _ t (step_effect _ _ _ E)).
    by rewrite <- !app_assoc. }
  intros Hr. rewrite (H _ Hr). assert (pendingOf t (running p) = []) as ->; [|done].
  unfold pendingOf. destruct (statusOf t (running p)) as [[]|] eqn:E; try done.
  apply statusOf_elem, list_elem_of_fmap in E as (u & ? & _). congruence.
Qed.

(** The batch of a label is what [Updater.handleChangeBatch] sends. *)
Section batch.
Context `{V : Validator}.
Variable recode : Check → option Check.
Variable k6 : bool.
Variable metricsError scraperFactory : mCheck → option string.

(** An operation of the updater that sends no tenant. *)
Definition keeps {A} (tenants : A → list Z) (r : go A) (u : Updater) : Prop :=
  match r with Ret a => tenants a = tenantCh u | Panic _ => True end.
Notation keeps_upd := (keeps (λ a : Updater * error updErr, tenantCh a.1)) (only parsing).
Notation keeps_u := (keeps tenantCh) (only parsing).

Lemma keeps_bind {A B} ta tb (r : go A) (k : A → go B) u u0 :
  keeps ta r u → tenantCh u = tenantCh u0 → (∀ a, ta a = tenantCh u0 → keeps tb (k a) u0) → keeps tb (a ← r; k a) u0.
Proof. destruct r; simpl; [|done]. intros ? ? Hk. apply Hk. congruence. Qed.

Lemma addAndStart_keeps check u u0 :
  tenantCh u = tenantCh u0 → keeps_upd (addAndStartScraperWithLock k6 metricsError scraperFactory check u) u0.
Proof.
  intros E. unfold addAndStartScraperWithLock. destruct (Type_ (sm check)); [|done]. simpl.
  destruct (_ && _); [done|]. destruct (metricsError check); [done|]. by destruct (scraperFactory check).
Qed.

Lemma stopScraper_keeps cid c u u0 : tenantCh u = tenantCh u0 → keeps_u (stopScraper cid c u) u0.
Proof. intros E. unfold stopScraper, Stop. case_bool_decide; [done|]. simpl. by destruct (scraper_type c). Qed.

Lemma updateWithLock_keeps check u u0 :
  tenantCh u = tenantCh u0 → keeps_upd (handleCheckUpdateWithLock k6 metricsError scraperFactory check u) u0.
Proof.
  intros E. unfold handleCheckUpdateWithLock. destruct (scrapers u !! _); [|by apply addAndStart_keeps].
  eapply keeps_bind; [by apply (stopScraper_keeps _ _ u u0)|done|]. intros u1 E1. by apply addAndStart_keeps.
Qed.

Lemma handlers_keep check u u0 :
  tenantCh u = tenantCh u0 →
  keeps_upd (handleCheckAdd k6 metricsError scraperFactory check u) u0 ∧
  keeps_upd (handleCheckUpdate k6 metricsError scraperFactory check u) u0 ∧
  keeps_upd (handleCheckDelete check u) u0 ∧
  keeps_upd (handleInitialChangeAddWithLock k6 metricsError scraperFactory check u) u0.
Proof.
  intros E. split_and!.
  - unfold handleCheckAdd. destruct (validate (sm check)) as [[e|]|]; try done. simpl.
    destruct (scrapers u !! _); [done|by apply addAndStart_keeps].
  - unfold handleCheckUpdate. destruct (validate (sm check)) as [[e|]|]; try done. by apply updateWithLock_keeps.
  - unfold handleCheckDelete. simpl. destruct (scrapers u !! _) as [c|]; [|done].
    eapply keeps_bind; [by apply (stopScraper_keeps _ _ (count_change "delete" u) u0)|done|]. done.
  - unfold handleInitialChangeAddWithLock. destruct (scrapers u !! _) as [c|].
    + case_bool_decide; [done|by apply updateWithLock_keeps].
    + destruct (validate (sm check)) as [[e|]|]; try done. simpl.
      eapply keeps_bind; [by apply (addAndStart_keeps check (count_change "add" u) u0)|done|]. by intros [u1 [e|]].
Qed.

Lemma batch_loop_keeps l u u0 :
  tenantCh u = tenantCh u0 → keeps_u (batch_loop recode k6 metricsError scraperFactory l u) u0.
Proof.
  revert u. induction l as [|c l IH]; intros u E; [done|]. cbn [batch_loop].
  destruct (FromSM recode (change_Check c)) as [check|]; [|by apply IH].
  destruct (handlers_keep check u u0 E) as (Ha & Hu & Hd & _).
  repeat case_match; try (by apply IH);
    (eapply keeps_bind; [eassumption|done|]; intros [u1 [e|]] E1; by apply IH).
Qed.

Lemma firstBatch_adds_keeps l ids u u0 :
  tenantCh u = tenantCh u0 →
  keeps (λ a, tenantCh a.2) (firstBatch_adds recode k6 metricsError scraperFactory l ids u) u0.
Proof.
  revert ids u. induction l as [|c l IH]; intros ids u E; [done|]. cbn [firstBatch_adds].
  case_match; [|by apply IH]. destruct (FromSM recode (change_Check c)) as [check|]; [|by apply IH].
  destruct (handlers_keep check u u0 E) as (_ & _ & _ & Hi).
  eapply keeps_bind; [eassumption|done|]. intros [u1 [e|]] E1; by apply IH.
Qed.

Lemma firstBatch_removes_keeps l ids u u0 : tenantCh u = tenantCh u0 → keeps_u (firstBatch_removes l ids u) u0.
Proof.
  revert u. induction l as [|[id c] l IH]; intros u E; [done|]. cbn [firstBatch_removes].
  case_bool_decide; [by apply IH|]. eapply keeps_bind; [by apply (stopScraper_keeps id c u u0)|done|]. intros; by apply IH.
Qed.

Lemma batch_sends changes firstBatch u u' :
  handleChangeBatch recode k6 metricsError scraperFactory changes firstBatch u = Ret u' →
  tenantCh u' = tenantCh u ++ batchTenants changes firstBatch.
Proof.
  unfold handleChangeBatch, batchTenants. destruct (_ && _).
  - rewrite app_nil_r. intros H. unfold handleFirstBatch in H.
    assert (Hk : keeps_u (handleFirstBatch recode k6 metricsError scraperFactory changes u) u).
    { unfold handleFirstBatch. eapply keeps_bind; [by apply (firstBatch_adds_keeps _ _ u u)|done|].
      intros [ids u1] E1. by apply firstBatch_removes_keeps. }
    unfold handleFirstBatch in Hk. by rewrite H in Hk.
  - intros H. pose proof (batch_loop_keeps (ch_Checks changes) (send_tenants (Tenants changes) u) _ eq_refl) as Hk.
    by rewrite H in Hk.
Qed.
End batch.

(** ** Instances *)

Definition example_plan : @plan Z :=
  {| pl_level := InfoLevel; pl_token := "token"; pl_routes := []; pl_usageReports := false; pl_cache := UsesNoop;
     pl_k6Runner := None; pl_publisher := "v2"; pl_features := Features.NewCollection; pl_protocolSecrets := false;
     pl_metamonitoring := true |}.
Definition example_batch (l : list Z) : label :=
  UpdaterBatch {| Tenants := l; ch_Checks := []; IsDeltaFirstBatch := true |} true.

(** SIGTERM while the updater has a second tenant to give: the agent still ends. *)
Lemma agent_shuts_down_witness :
  ∃ s, steps [example_batch [3; 4]; Receive ChecksUpdater; Signal "terminated"] (running example_plan) = Some s ∧
    blocked s = true ∧
    ∃ ls s', (length ls ≤ 9)%nat ∧ steps ls s = Some s' ∧ groupWait s' = Some (Some (ErrSignal "got signal terminated")).
Proof.
  eexists. split; [reflexivity|]. split; [reflexivity|].
  match goal with |- ∃ ls s', _ ∧ steps ls ?s = _ ∧ _ =>
    destruct (agent_shuts_down example_plan [example_batch [3; 4]; Receive ChecksUpdater; Signal "terminated"] s eq_refl)
      as (_ & H & _) end.
  exact (H eq_refl).
Defined.

Lemma tenants_given_in_order_witness :
  ∃ s, steps [example_batch [3; 4]; Receive ChecksUpdater] (running example_plan) = Some s ∧
    givenBy ChecksUpdater s ++ pendingOf ChecksUpdater s = [3; 4].
Proof.
  eexists. split; [reflexivity|].
  match goal with |- givenBy _ ?s ++ _ = _ =>
    exact (tenants_given_in_order example_plan [example_batch [3; 4]; Receive ChecksUpdater] s ChecksUpdater eq_refl) end.
Defined.

(** The manager may stop before it takes a tenant: then the agent never ends, and a second
    signal has no effect. *)
Lemma shutdown_hangs :
  ∃ s, steps [example_batch [3]; Signal "terminated"; ManagerDone] (running example_plan) = Some s ∧
    (∀ sig, step (Signal sig) s = None) ∧ ∀ ls s', steps ls s = Some s' → groupWait s' = None.
Proof.
  eexists. split; [reflexivity|]. split; [done|]. intros ls s' Hs.
  destruct (groupWait s') as [r|] eqn:Ew; [|done].
  apply (wait_returned s' r ChecksUpdater (Sending 3 [])) in Ew as [_ ?]; [done|].
  eapply steps_blocked; [exact Hs|done|done].
Qed.

(** When the API answers with the status Canceled the updater returns without an error: the
    agent goes on without one, and is not restarted. *)
Lemma updater_leaves_agent_running m :
  ∃ s, steps [UpdaterLoop true (Some (Updater.grpcErrorHandler "getting changes" (GStatus CodeCanceled m))) false]
         (running example_plan) = Some s ∧
    statusOf ChecksUpdater s = Some (Returned None) ∧ lc_ctx s = false.
Proof. eexists. split; [reflexivity|]. done. Qed.
