(* ===== verification/Meters.v ===== *)
(** * The agent's own metrics

    The metrics that the parts of the agent register and use: [pusher/metrics.go],
    [telemetry/telemeter.go], [k6runner/http.go], [checks/checks.go], [adhoc/adhoc.go],
    [scraper/metrics.go], [cmd/synthetic-monitoring-agent/metrics.go] and [http.go], and
    the order of [main.go].

    The Prometheus client is a library: registerers and vectors are given by two classes
    that state what it documents; a vector that is used with other labels than it has
    panics. *)
From S2P Require Import Prelude Strs Ids Checks PushV1 Service.

Open Scope Z_scope.

(** ** The library *)

(** A collector has the names of its metrics; it is refused when one is registered. *)
Class Registerer (R : Type) := {
  r_names : R → gset string;
  r_register : list string → R → option R;
  r_register_new ns r : (∀ n, n ∈ ns → n ∉ r_names r) →
    ∃ r', r_register ns r = Some r' ∧ r_names r' = list_to_set ns ∪ r_names r;
  r_register_dup ns r n : n ∈ ns → n ∈ r_names r → r_register ns r = None;
}.

Notation labels := (gmap string string).

(** A vector: the names of the labels that are left to give, and those given. *)
Class MetricVec (V : Type) := {
  v_new : list string → V;
  v_left : V → list string;
  v_given : V → labels;
  v_curry : labels → V → option V;
  v_values : list string → V → option labels;
  v_with : labels → V → option labels;
  v_left_new ls : v_left (v_new ls) = ls;
  v_given_new ls : v_given (v_new ls) = ∅;
  v_curry_ok m v : dom m ⊆ list_to_set (v_left v) →
    ∃ v', v_curry m v = Some v' ∧ v_left v' = filter (λ l, l ∉ dom m) (v_left v) ∧ v_given v' = v_given v ∪ m;
  v_curry_bad m v : ¬ dom m ⊆ list_to_set (v_left v) → v_curry m v = None;
  v_values_eq ls v : v_values ls v =
    if bool_decide (length ls = length (v_left v)) then Some (v_given v ∪ list_to_map (zip (v_left v) ls)) else None;
  v_with_eq m v : v_with m v = if bool_decide (dom m = list_to_set (v_left v)) then Some (v_given v ∪ m) else None;
}.

(** [prometheus.BuildFQName], for names with all parts but perhaps the subsystem. *)
Definition fqName (namespace subsystem name : string) : string :=
  if String.eqb subsystem "" then namespace +:+ "_" +:+ name else namespace +:+ "_" +:+ subsystem +:+ "_" +:+ name.

Definition must {A} (o : option A) : go A :=
  match o with Some a => Ret a | None => Panic "prometheus" end.

Section meters.
Context {R V : Type} `{Registerer R, MetricVec V}.

(** [MustRegister] and [Register] of collectors in order. *)
Definition MustRegister (n : string) (r : R) : go R := must (r_register [n] r).
Fixpoint mustRegisterAll (ns : list string) (r : R) : go R :=
  match ns with [] => Ret r | n :: ns => r ← MustRegister n r; mustRegisterAll ns r end.
Fixpoint registerAll (cs : list (list string)) (r : R) : option R :=
  match cs with [] => Some r | c :: cs => r ← r_register c r; registerAll cs r end.

(** ** Publishers *)

Record Metrics := {
  PushCounter : V; ErrorCounter : V; BytesOut : V; FailedCounter : V; RetriesCounter : V;
  DroppedCounter : V; ResponseCounter : V; InstalledHandlers : V }.

Definition labelsWithTenantType : list string := ["regionID"; "tenantID"; "type"].
Definition labelsWithTenantTypeStatus : list string := ["regionID"; "tenantID"; "type"; "status"].
Definition labelsWithTenantTypeReason : list string := ["regionID"; "tenantID"; "type"; "reason"].

Definition publisherNames : list string :=
  map (fqName "sm_agent" "publisher")
    ["push_total"; "push_errors_total"; "push_failed_total"; "push_bytes"; "retries_total"; "drop_total";
     "responses_total"; "handlers_total"].
Definition theMetrics : Metrics :=
  {| PushCounter := v_new labelsWithTenantType; ErrorCounter := v_new labelsWithTenantTypeStatus;
     BytesOut := v_new labelsWithTenantType; FailedCounter := v_new labelsWithTenantTypeReason;
     RetriesCounter := v_new labelsWithTenantType; DroppedCounter := v_new labelsWithTenantType;
     ResponseCounter := v_new labelsWithTenantTypeStatus; InstalledHandlers := v_new [] |}.
Definition NewMetrics (r : R) : go (R * Metrics) := r ← mustRegisterAll publisherNames r; Ret (r, theMetrics).

(** [MustCurryWith] of every vector, in the order of the literal. *)
Definition curryAll (ls : labels) (m : Metrics) : go Metrics :=
  push ← must (v_curry ls (PushCounter m)); errors ← must (v_curry ls (ErrorCounter m));
  bytes ← must (v_curry ls (BytesOut m)); failed ← must (v_curry ls (FailedCounter m));
  retries ← must (v_curry ls (RetriesCounter m)); dropped ← must (v_curry ls (DroppedCounter m));
  responses ← must (v_curry ls (ResponseCounter m));
  Ret {| PushCounter := push; ErrorCounter := errors; BytesOut := bytes; FailedCounter := failed;
         RetriesCounter := retries; DroppedCounter := dropped; ResponseCounter := responses;
         InstalledHandlers := InstalledHandlers m |}.
Definition WithTenant (localID regionID : Z) (m : Metrics) : go Metrics :=
  curryAll {["regionID" := itoa regionID; "tenantID" := itoa localID]} m.
Definition WithType (t : string) (m : Metrics) : go Metrics := curryAll {["type" := t]} m.

(** [withTenant] and [withType] of the options of the second publisher. *)
Definition withTenant (tenantID : Z) (m : Metrics) : go Metrics :=
  let '(localID, regionID) := GetLocalAndRegionIDs tenantID in WithTenant localID regionID m.

(** The counters that the first publisher increments for an effect of [PushV1]. *)
Definition kindLabel (k : dataKind) : string := match k with Logs => "logs" | MetricsKind => "metrics" end.
Definition reasonLabel (why : failReason) : string :=
  match why with ClientFailed => "client" | RetryExhausted => "retry_exhausted" end.
Definition v1_uses {url} (tenantID : Z) (m : Metrics) (e : @effect url) : list (option labels) :=
  let '(localID, regionID) := GetLocalAndRegionIDs tenantID in
  let ids := [itoa regionID; itoa localID] in
  match e with
  | Pushed k _ _ =>
      [v_values (ids ++ [kindLabel k]) (PushCounter m); v_values (ids ++ [kindLabel k]) (BytesOut m)]
  | Errored k _ status => [v_values (ids ++ [kindLabel k; itoa status]) (ErrorCounter m)]
  | PushV1.Failed k why => [v_values (ids ++ [kindLabel k; reasonLabel why]) (FailedCounter m)]
  end.
(** The counter of retries of a client. *)
Definition v1_retries (tenantID : Z) (k : dataKind) (m : Metrics) : option labels :=
  let '(localID, regionID) := GetLocalAndRegionIDs tenantID in
  v_values [itoa regionID; itoa localID; kindLabel k] (RetriesCounter m).

(** The counters that a queue of the second publisher uses for an answer with a status,
    and those of its handlers, which have no type. *)
Definition queue_uses (status : string) (m : Metrics) : list (option labels) :=
  [v_values ["client"] (FailedCounter m); v_values [status] (ResponseCounter m); v_values [status] (ErrorCounter m);
   v_values [] (RetriesCounter m); v_values [] (PushCounter m); v_values [] (BytesOut m);
   v_values ["retry_exhausted"] (FailedCounter m); v_values [] (DroppedCounter m)].
Definition tenant_uses (m : Metrics) : list (option labels) :=
  [v_with {["type" := "metrics"; "reason" := "tenant"]} (FailedCounter m);
   v_with {["type" := "logs"; "reason" := "tenant"]} (FailedCounter m);
   v_values ["metrics"] (DroppedCounter m); v_values ["logs"] (DroppedCounter m)].

(** ** The other parts *)

Definition telemetryNames : list string :=
  map (fqName "sm_agent" "telemetry")
    ["push_requests_active"; "push_requests_duration_seconds"; "push_requests_total"; "push_requests_errors_total";
     "add_execution_duration_seconds"].
Definition Telemeter_registerMetrics (r : R) : go R := mustRegisterAll telemetryNames r.
Definition telemetryVec : V := v_new ["region_id"].
Definition telemetry_uses (regionID : Z) : list (option labels) :=
  replicate 5 (v_with {["region_id" := itoa regionID]} telemetryVec).

Definition k6Names : list string := map (fqName "sm_agent" "k6runner") ["requests_total"; "requests_per_run"].
Definition NewHTTPMetrics (r : R) : go R := mustRegisterAll k6Names r.
Definition k6_uses : list (option labels) :=
  let requests := v_new ["success"; "retriable"] in
  let perRun := v_new ["success"] in
  [v_with {["success" := "1"; "retriable" := ""]} requests; v_with {["success" := "0"; "retriable" := "0"]} requests;
   v_with {["success" := "0"; "retriable" := "1"]} requests; v_values ["1"] perRun; v_values ["0"] perRun].

Definition updaterNames : list (list string) :=
  [[fqName "sm_agent" "updater" "changes_total"]; [fqName "sm_agent" "updater" "change_errors_total"];
   [fqName "sm_agent" "updater" "scrapers_total"]; [fqName "sm_agent" "scraper" "operations_total"];
   [fqName "sm_agent" "scraper" "errors_total"]; [fqName "sm_agent" "api_connection" "status"];
   [fqName "sm_agent" "" "info"]].
Definition NewUpdater_register (r : R) : option R := registerAll updaterNames r.

(** [scraper.NewMetrics] and its methods, from the counters of the updater. *)
Record scraperMetrics := { scrapeCounter : labels; errorCounter : V }.
Definition newScraperMetrics (checkType tenantId regionId : string) : option scraperMetrics :=
  let ids := {["type" := checkType; "tenantId" := tenantId; "regionId" := regionId]} in
  c ← v_with ids (v_new ["type"; "tenantId"; "regionId"]);
  e ← v_curry ids (v_new ["type"; "source"; "tenantId"; "regionId"]);
  Some {| scrapeCounter := c; errorCounter := e |}.
Definition AddCheckError (m : scraperMetrics) : option labels := v_values ["check"] (errorCounter m).
Definition AddCollectorError (m : scraperMetrics) : option labels := v_values ["collector"] (errorCounter m).
Definition updater_uses (checkType id name version commit buildstamp : string) : list (option labels) :=
  map (λ op, v_values [op] (v_new ["type"])) ["add"; "update"; "delete"] ++
  [v_values [checkType] (v_new ["type"]);
   v_with {["id" := id; "name" := name; "version" := version; "commit" := commit; "buildstamp" := buildstamp]}
     (v_new ["id"; "name"; "version"; "commit"; "buildstamp"])].

Definition adhocNames : list (list string) := [[fqName "sm" "adhoc" "ops_total"]].
Definition NewHandler_register (r : R) : option R := registerAll adhocNames r.
Definition adhoc_use (checkType : string) : option labels := v_values [checkType] (v_new ["type"]).

Definition muxNames : list (list string) :=
  [[fqName "http" "requests" "duration_seconds"]; [fqName "http" "requests" "written_bytes"];
   [fqName "http" "requests" "in_flight"]].
(** [None] is the nil [*Mux] of a registration that fails. *)
Definition NewMux_register (handlerNames : list string) (r : R) : go (option R) :=
  r ← mustRegisterAll handlerNames r; Ret (registerAll muxNames r).
Definition mux_uses (code : Z) (method : string) : list (option labels) :=
  replicate 2 (v_with {["code" := itoa code; "method" := method]} (v_new ["code"; "method"])).

(** ** The agent *)

(** The names of the collectors of the library: build information, the Go runtime, the
    process, and those of the handler of [/metrics]. *)
Record libraryNames := { ln_build : list string; ln_go : list string; ln_process : list string; ln_handler : list string }.

Definition registerMetrics (l : libraryNames) (r : R) : option R :=
  registerAll [ln_build l; ln_go l; ln_process l] r.

(** The registrations of [run], in its order; [remoteK6]: k6 runs remotely. *)
Definition agent_registrations (l : libraryNames) (remoteK6 : bool) (r : R) : go (option R) :=
  match registerMetrics l r with
  | None => Ret None
  | Some r =>
      m ← NewMux_register (ln_handler l) r;
      match m with
      | None => Panic "nil pointer dereference"
      | Some r =>
          r ← (if remoteK6 then NewHTTPMetrics r else Ret r);
          '(r, _) ← NewMetrics r;
          r ← Telemeter_registerMetrics r;
          Ret (r ← NewUpdater_register r; NewHandler_register r)
      end
  end.
End meters.
Arguments Metrics V : clear implicits.

(** ** Every registration succeeds *)

Section registered.
Context {R : Type} `{Registerer R}.

(** The registry has the names of [done], none of which is to come. *)
Definition ready (done rest : list string) (r : R) : Prop := NoDup (done ++ rest) ∧ r_names r = list_to_set done.

Lemma register_ready c done rest r :
  ready done (c ++ rest) r → ∃ r', r_register c r = Some r' ∧ ready (done ++ c) rest r'.
Proof.
  intros [Hnd Hr]. destruct (r_register_new c r) as (r1 & -> & E1).
  - intros n Hc. rewrite Hr, elem_of_list_to_set. intros Hd. apply NoDup_app in Hnd as (_ & Hdis & _).
    apply (Hdis n); [done|]. apply elem_of_app. by left.
  - exists r1. split; [done|]. split; [by rewrite <-(assoc_L (++))|]. rewrite E1, Hr, list_to_set_app_L. by rewrite (comm_L (∪)).
Qed.

Lemma registerAll_ready cs done rest r :
  ready done (concat cs ++ rest) r → ∃ r', registerAll cs r = Some r' ∧ ready (done ++ concat cs) rest r'.
Proof.
  revert done r. induction cs as [|c cs IH]; intros done r Hr; cbn [concat registerAll] in *.
  - exists r. by rewrite app_nil_r.
  - rewrite <-(assoc_L (++)) in Hr. destruct (register_ready _ _ _ _ Hr) as (r1 & -> & H1). cbn [mbind option_bind].
    destruct (IH _ _ H1) as (r2 & -> & H2). exists r2. by rewrite (assoc_L (++)).
Qed.

Lemma mustRegisterAll_ready ns done rest r :
  ready done (ns ++ rest) r → ∃ r', mustRegisterAll ns r = Ret r' ∧ ready (done ++ ns) rest r'.
Proof.
  revert done r. induction ns as [|n ns IH]; intros done r Hr; cbn [mustRegisterAll].
  - exists r. by rewrite app_nil_r.
  - destruct (register_ready [n] done (ns ++ rest) r Hr) as (r1 & E & H1). unfold MustRegister. rewrite E. cbn [must mbind go_bind].
    destruct (IH _ _ H1) as (r2 & -> & H2). exists r2. rewrite <-(assoc_L (++)) in H2. by split.
Qed.

(** The names of the library begin otherwise than those of the agent. *)
Definition libraryNames_all (l : libraryNames) : list string := ln_build l ++ ln_go l ++ ln_process l ++ ln_handler l.
Definition libraryPrefixes : list string := ["go_"; "process_"; "promhttp_"].
Definition libraryOk (l : libraryNames) : Prop :=
  NoDup (libraryNames_all l) ∧ Forall (λ n, existsb (λ p, hasPrefix p n) libraryPrefixes = true) (libraryNames_all l).

Definition agentNames (remoteK6 : bool) : list string :=
  concat muxNames ++ (if remoteK6 then k6Names else []) ++ publisherNames ++ telemetryNames ++
  concat updaterNames ++ concat adhocNames.

Lemma agentNames_ok remoteK6 :
  NoDup (agentNames remoteK6) ∧ Forall (λ n, existsb (λ p, hasPrefix p n) libraryPrefixes = false) (agentNames remoteK6).
Proof. apply (bool_decide_unpack _). by destruct remoteK6; vm_compute. Qed.

Context {V : Type} `{MetricVec V}.

(** The metrics of the agent can be registered. When the collectors of the client
    library have distinct names that begin as they do, every registration of a starting
    agent succeeds, with or without a remote k6 runner: nothing panics, no constructor
    fails and the HTTP handler is made; the registry then has exactly the names of the
    library and of the parts of the agent, which are pairwise different. *)
Theorem agent_metrics_registered l remoteK6 r :
  libraryOk l → r_names r = ∅ →
  ∃ r', agent_registrations l remoteK6 r = Ret (Some r') ∧
    r_names r' = list_to_set (libraryNames_all l ++ agentNames remoteK6) ∧
    NoDup (libraryNames_all l ++ agentNames remoteK6).
Proof.
  intros [Hnd Hpre] Hr. destruct (agentNames_ok remoteK6) as [Hand Hapre].
  assert (Hall : NoDup (libraryNames_all l ++ agentNames remoteK6)).
  { apply NoDup_app. split_and!; [done| |done]. intros n Hl Ha. rewrite Forall_forall in Hpre, Hapre.
    apply Hpre in Hl. apply Hapre in Ha. congruence. }
  set (k6 := if remoteK6 then k6Names else []).
  assert (K0 : ready [] (concat [ln_build l; ln_go l; ln_process l] ++ ln_handler l ++ concat muxNames ++ k6 ++
    publisherNames ++ telemetryNames ++ concat updaterNames ++ concat adhocNames ++ []) r).
  { split; [|done]. unfold libraryNames_all, agentNames in Hall. cbn [concat app]. rewrite !app_nil_r.
    rewrite <-!(assoc_L (++)) in *. exact Hall. }
  unfold agent_registrations, registerMetrics, NewMux_register.
  apply registerAll_ready in K0 as (r1 & -> & K1). apply mustRegisterAll_ready in K1 as (r2 & -> & K2). cbn [mbind go_bind].
  apply registerAll_ready in K2 as (r3 & -> & K3).
  assert (K4 : ∃ r4, (if remoteK6 then NewHTTPMetrics r3 else Ret r3) = Ret r4 ∧
    ready ((([] ++ concat [ln_build l; ln_go l; ln_process l]) ++ ln_handler l) ++ concat muxNames ++ k6)
      (publisherNames ++ telemetryNames ++ concat updaterNames ++ concat adhocNames ++ []) r4).
  { subst k6. rewrite (assoc_L (++)). destruct remoteK6; [by apply mustRegisterAll_ready|]. exists r3. by rewrite app_nil_r. }
  destruct K4 as (r4 & -> & K4). cbn [mbind go_bind]. unfold NewMetrics, Telemeter_registerMetrics.
  apply mustRegisterAll_ready in K4 as (r5 & -> & K5). cbn [mbind go_bind].
  apply mustRegisterAll_ready in K5 as (r6 & -> & K6). cbn [mbind go_bind]. unfold NewUpdater_register, NewHandler_register.
  apply registerAll_ready in K6 as (r7 & -> & K7). cbn [mbind option_bind].
  apply registerAll_ready in K7 as (r8 & -> & [_ K8]). exists r8. split; [done|]. split; [|done]. rewrite K8. f_equal.
  unfold libraryNames_all, agentNames. fold k6. cbn [concat app]. rewrite !app_nil_r. by rewrite <-!(assoc_L (++)).
Qed.
End registered.

(** ** Every use gives the labels of its vector *)

Section used.
Context {V : Type} `{MetricVec V}.

(** A series whose labels have exactly these names, with some values fixed. *)
Definition series (names : list string) (fixed : list (string * string)) (o : option labels) : Prop :=
  ∃ m, o = Some m ∧ dom m = list_to_set names ∧ Forall (λ kv, m !! kv.1 = Some kv.2) fixed.

(** A vector after currying: its given labels and those left make up its names. *)
Definition vecOf (names : list string) (given : list (string * string)) (left : list string) (v : V) : Prop :=
  v_left v = left ∧ v_given v = list_to_map given ∧ names = given.*1 ++ left ∧ NoDup names.

Lemma vec_new names : NoDup names → vecOf names [] names (v_new names).
Proof. intros Hn. split_and!; [apply v_left_new|apply v_given_new|done|done]. Qed.

Lemma curry_vec names given k left kvs v :
  vecOf names given (kvs.*1 ++ left) v → k = list_to_map kvs →
  ∃ v', v_curry k v = Some v' ∧ vecOf names (given ++ kvs) left v'.
Proof.
  intros (Hl & Hg & -> & Hnd) ->. pose proof Hnd as Hnd0. apply NoDup_app in Hnd as (_ & Hdis & Hnd).
  apply NoDup_app in Hnd as (Hk & Hkl & _).
  assert (Hdom : dom (list_to_map kvs : labels) = list_to_set (kvs.*1)) by apply dom_list_to_map_L.
  destruct (v_curry_ok (list_to_map kvs) v) as (v' & E & El & Eg); [rewrite Hdom, Hl; set_solver|].
  exists v'. split; [done|]. rewrite Hl, Hdom in El. split_and!.
  - rewrite El, filter_app. rewrite filter_none, filter_all; [done| |].
    + apply Forall_forall. intros x Hx. rewrite elem_of_list_to_set. intros Hy. by apply (Hkl x).
    + apply Forall_forall. intros x Hx. rewrite elem_of_list_to_set. by intros [].
  - rewrite Eg, Hg, list_to_map_app. done.
  - by rewrite fmap_app, <-(assoc_L (++)).
  - done.
Qed.

Lemma values_series names given left v vals :
  vecOf names given left v → length vals = length left →
  series names (given ++ zip left vals) (v_values vals v).
Proof.
  intros (Hl & Hg & -> & Hnd) Hlen. exists (list_to_map (given ++ zip left vals)).
  assert (Hfst : (given ++ zip left vals).*1 = given.*1 ++ left) by (rewrite fmap_app, fst_zip; [done|lia]).
  split_and!.
  - rewrite v_values_eq, Hl, bool_decide_true by done. by rewrite Hg, list_to_map_app.
  - by rewrite dom_list_to_map_L, Hfst.
  - apply Forall_forall. intros [k x] Hin. apply elem_of_list_to_map_1; [by rewrite Hfst|done].
Qed.

Lemma with_series names given left v kvs :
  vecOf names given left v → NoDup (kvs.*1) → left ≡ₚ kvs.*1 →
  series names (given ++ kvs) (v_with (list_to_map kvs) v).
Proof.
  intros (Hl & Hg & -> & Hnd) Hk Hp. exists (list_to_map (given ++ kvs)).
  assert (Hfst : (given ++ kvs).*1 ≡ₚ given.*1 ++ left) by by rewrite fmap_app, Hp.
  split_and!.
  - rewrite v_with_eq, Hl, bool_decide_true; [by rewrite Hg, list_to_map_app|].
    rewrite dom_list_to_map_L. apply leibniz_equiv. by rewrite Hp.
  - rewrite dom_list_to_map_L. apply leibniz_equiv. by rewrite Hfst.
  - apply Forall_forall. intros [k x] Hin. apply elem_of_list_to_map_1; [by rewrite Hfst|done].
Qed.

(** The vectors of a publisher, after the labels [given]. *)
Definition metricsOf (given : list (string * string)) (left : list string) (m : Metrics V) : Prop :=
  vecOf labelsWithTenantType given left (PushCounter m) ∧
  vecOf labelsWithTenantTypeStatus given (left ++ ["status"]) (ErrorCounter m) ∧
  vecOf labelsWithTenantType given left (BytesOut m) ∧
  vecOf labelsWithTenantTypeReason given (left ++ ["reason"]) (FailedCounter m) ∧
  vecOf labelsWithTenantType given left (RetriesCounter m) ∧
  vecOf labelsWithTenantType given left (DroppedCounter m) ∧
  vecOf labelsWithTenantTypeStatus given (left ++ ["status"]) (ResponseCounter m).

Lemma theMetrics_ok : metricsOf [] labelsWithTenantType (theMetrics (V := V)).
Proof. unfold metricsOf, theMetrics. split_and!; apply vec_new; apply (bool_decide_unpack _); by vm_compute. Qed.

Lemma curryAll_ok given kvs left k m :
  metricsOf given (kvs.*1 ++ left) m → k = list_to_map kvs →
  ∃ m', curryAll k m = Ret m' ∧ metricsOf (given ++ kvs) left m'.
Proof.
  unfold metricsOf. rewrite <-!(assoc_L (++)). intros (H1 & H2 & H3 & H4 & H5 & H6 & H7) Hk. unfold curryAll.
  destruct (curry_vec _ _ _ _ _ _ H1 Hk) as (v1 & -> & ?). destruct (curry_vec _ _ _ _ _ _ H2 Hk) as (v2 & -> & ?).
  destruct (curry_vec _ _ _ _ _ _ H3 Hk) as (v3 & -> & ?). destruct (curry_vec _ _ _ _ _ _ H4 Hk) as (v4 & -> & ?).
  destruct (curry_vec _ _ _ _ _ _ H5 Hk) as (v5 & -> & ?). destruct (curry_vec _ _ _ _ _ _ H6 Hk) as (v6 & -> & ?).
  destruct (curry_vec _ _ _ _ _ _ H7 Hk) as (v7 & -> & ?). eexists. split; [reflexivity|]. by split_and!.
Qed.

Lemma withTenant_ok tenantID :
  let '(localID, regionID) := GetLocalAndRegionIDs tenantID in
  ∃ mt, withTenant tenantID theMetrics = Ret mt ∧
    metricsOf [("regionID", itoa regionID); ("tenantID", itoa localID)] ["type"] mt.
Proof.
  unfold withTenant, WithTenant. destruct (GetLocalAndRegionIDs tenantID) as [localID regionID].
  exact (curryAll_ok [] [("regionID", itoa regionID); ("tenantID", itoa localID)] ["type"] _ _ theMetrics_ok eq_refl).
Qed.

Lemma withType_ok given t mt :
  metricsOf given ["type"] mt → ∃ mq, WithType t mt = Ret mq ∧ metricsOf (given ++ [("type", t)]) [] mq.
Proof. intros Hm. exact (curryAll_ok given [("type", t)] [] _ mt Hm eq_refl). Qed.

Lemma series_weaken names fixed fixed' o :
  series names fixed o → (∀ kv, kv ∈ fixed' → kv ∈ fixed) → series names fixed' o.
Proof.
  intros (m & -> & Hd & Hf) Hsub. exists m. split_and!; [done..|]. rewrite Forall_forall in Hf |- *. auto.
Qed.

(** The metrics of the publishers are used with their labels. Whatever the first
    publisher counts for a tenant, and whatever status, type and outcome a queue or a handler of
    the second one counts, no currying and no use panics; every series has exactly the label
    names its vector was made with, and it is labelled with the region and the local
    identifier of the tenant and with the kind of data; asking for a type again would
    panic. *)
Theorem publisher_metrics_labelled {url} tenantID t status (es : list (@effect url)) :
  let '(localID, regionID) := GetLocalAndRegionIDs tenantID in
  let ids := [("regionID", itoa regionID); ("tenantID", itoa localID)] in
  Forall (λ e, Forall (λ o, ∃ names k, series names (ids ++ [("type", kindLabel k)]) o) (v1_uses tenantID theMetrics e)) es ∧
  (∀ k, series labelsWithTenantType (ids ++ [("type", kindLabel k)]) (v1_retries tenantID k theMetrics)) ∧
  ∃ mt mq, withTenant tenantID theMetrics = Ret mt ∧ WithType t mt = Ret mq ∧
    Forall (λ o, ∃ names, series names (ids ++ [("type", t)]) o) (queue_uses status mq) ∧
    Forall (λ o, ∃ names k, series names (ids ++ [("type", kindLabel k)]) o) (tenant_uses mt) ∧
    WithType t mq = Panic "prometheus".
Proof.
  pose proof (withTenant_ok tenantID) as Ht. destruct theMetrics_ok as (P1 & P2 & P3 & P4 & P5 & _ & _).
  unfold v1_uses, v1_retries. destruct (GetLocalAndRegionIDs tenantID) as [localID regionID]. cbv zeta.
  set (ids := [_; _]). destruct Ht as (mt & Emt & Hmt). destruct (withType_ok _ t _ Hmt) as (mq & Emq & Hmq).
  split_and!.
  - apply Forall_forall. intros e _.
    destruct e as [k c n|k c st|k why]; repeat (apply Forall_cons; split); try apply Forall_nil; try done; eexists; exists k;
      (eapply series_weaken; [apply values_series; [eassumption|done]|simpl; subst ids; set_solver]).
  - intros k. eapply series_weaken; [apply values_series; [exact P5|done]|simpl; subst ids; set_solver].
  - exists mt, mq. split_and!; [done|done| | |].
    + destruct Hmq as (Q1 & Q2 & Q3 & Q4 & Q5 & Q6 & Q7). unfold queue_uses.
      repeat (apply Forall_cons; split); try apply Forall_nil; try done; eexists;
        (eapply series_weaken; [apply values_series; [eassumption|done]|simpl; subst ids; set_solver]).
    + destruct Hmt as (Q1 & Q2 & Q3 & Q4 & Q5 & Q6 & Q7). unfold tenant_uses.
      assert (Hf : ∀ k, series labelsWithTenantTypeReason (ids ++ [("type", kindLabel k); ("reason", "tenant")])
        (v_with {["type" := kindLabel k; "reason" := "tenant"]} (FailedCounter mt))).
      { intros k. apply (with_series _ _ _ _ [("type", kindLabel k); ("reason", "tenant")] Q4);
          [apply (bool_decide_unpack _); by vm_compute|done]. }
      assert (Hd : ∀ k, series labelsWithTenantType (ids ++ [("type", kindLabel k)]) (v_values [kindLabel k] (DroppedCounter mt))).
      { intros k. by apply (values_series _ _ _ _ [kindLabel k] Q6). }
      assert (Hw : ∀ k o names, series names (ids ++ [("type", kindLabel k); ("reason", "tenant")]) o → series names (ids ++ [("type", kindLabel k)]) o).
      { intros k o names Hs. eapply series_weaken; [exact Hs|simpl; subst ids; set_solver]. }
      repeat apply Forall_cons_2; [..|by apply Forall_nil]; eexists.
      * exists MetricsKind. apply Hw, (Hf MetricsKind).
      * exists Logs. apply Hw, (Hf Logs).
      * exists MetricsKind. apply (Hd MetricsKind).
      * exists Logs. apply (Hd Logs).
    + destruct Hmq as ((Hleft & _) & _). unfold WithType, curryAll. rewrite (v_curry_bad _ (PushCounter mq)); [reflexivity|].
      rewrite Hleft, dom_singleton_L. set_solver.
Qed.

Lemma new_values ls vals : NoDup ls → length vals = length ls → series ls (zip ls vals) (v_values vals (v_new (V := V) ls)).
Proof. intros Hn Hl. by apply (values_series ls [] ls _ vals (vec_new ls Hn)). Qed.
Lemma new_with ls kvs : NoDup ls → NoDup kvs.*1 → ls ≡ₚ kvs.*1 → series ls kvs (v_with (list_to_map kvs) (v_new (V := V) ls)).
Proof. intros Hn Hk Hp. by apply (with_series ls [] ls _ kvs (vec_new ls Hn)). Qed.

(** The other parts: no use panics, and the series of a check are labelled with it. *)
Lemma other_metrics_labelled regionID code method op id name version commit buildstamp checkType tenantId regionId :
  Forall is_Some (telemetry_uses (V := V) regionID ++ k6_uses (V := V) ++ mux_uses (V := V) code method ++
    updater_uses (V := V) checkType id name version commit buildstamp ++ [adhoc_use (V := V) op]) ∧
  ∃ m, newScraperMetrics (V := V) checkType tenantId regionId = Some m ∧
    let ids := [("type", checkType); ("tenantId", tenantId); ("regionId", regionId)] in
    series ["type"; "tenantId"; "regionId"] ids (Some (scrapeCounter m)) ∧
    series ["type"; "source"; "tenantId"; "regionId"] (("source", "check") :: ids) (AddCheckError m) ∧
    series ["type"; "source"; "tenantId"; "regionId"] (("source", "collector") :: ids) (AddCollectorError m).
Proof.
  assert (Hser : ∀ ls fixed o, series ls fixed o → is_Some o) by (intros ls fixed o (m & -> & _); by eexists).
  split.
  - assert (Hv : ∀ ls vals, NoDup ls → length vals = length ls → is_Some (v_values vals (v_new (V := V) ls))).
    { intros ls vals Hn Hl. by eapply Hser, new_values. }
    assert (Hw : ∀ ls kvs, NoDup ls → ls = kvs.*1 → is_Some (v_with (list_to_map kvs) (v_new (V := V) ls))).
    { intros ls kvs Hn ->. by eapply Hser, new_with. }
    repeat (apply Forall_app; split); repeat apply Forall_cons_2; try apply Forall_nil_2; try done;
      first [apply Hv; [apply (bool_decide_unpack _); by vm_compute|done]|idtac].
    all: first [apply (Hw ["region_id"] [("region_id", _)])
               |apply (Hw ["success"; "retriable"] [("success", _); ("retriable", _)])
               |apply (Hw ["code"; "method"] [("code", _); ("method", _)])
               |apply (Hw ["id"; "name"; "version"; "commit"; "buildstamp"]
                         [("id", _); ("name", _); ("version", _); ("commit", _); ("buildstamp", _)])];
      [apply (bool_decide_unpack _); by vm_compute|done].
  - unfold newScraperMetrics. set (ids := [("type", checkType); ("tenantId", tenantId); ("regionId", regionId)]).
    destruct (new_with ["type"; "tenantId"; "regionId"] ids) as (c & Ec & Hc);
      [apply (bool_decide_unpack _); by vm_compute..|done|].
    change (list_to_map ids) with ({["type" := checkType; "tenantId" := tenantId; "regionId" := regionId]} : labels) in Ec.
    rewrite Ec. cbn [mbind option_bind].
    set (all := ["type"; "source"; "tenantId"; "regionId"]).
    assert (Hdom : dom ({["type" := checkType; "tenantId" := tenantId; "regionId" := regionId]} : labels) =
      {["type"; "tenantId"; "regionId"]}) by set_solver.
    destruct (v_curry_ok {["type" := checkType; "tenantId" := tenantId; "regionId" := regionId]} (v_new (V := V) all))
      as (e & Ee & El & Eg); [rewrite Hdom, v_left_new; set_solver|].
    rewrite Ee. cbn [mbind option_bind]. eexists. split; [done|]. cbn [scrapeCounter].
    assert (Hl : v_left e = ["source"]).
    { rewrite El, Hdom, v_left_new. apply (bool_decide_unpack _). by vm_compute. }
    rewrite v_given_new, (left_id_L ∅ (∪)) in Eg.
    assert (Hadd : ∀ x, series all (("source", x) :: ids) (v_values [x] e)).
    { intros x. exists (v_given e ∪ list_to_map [("source", x)]). split_and!.
      - by rewrite v_values_eq, Hl.
      - rewrite dom_union_L, Eg, Hdom, dom_list_to_map_L. apply (bool_decide_unpack _). by vm_compute.
      - rewrite Eg. repeat apply Forall_cons_2; try apply Forall_nil_2; done. }
    split_and!; [exists c; split_and!; [done|apply Hc|apply Hc]|apply Hadd|apply Hadd].
Qed.
End used.

(** ** Instances *)

#[local] Instance set_registerer : Registerer (gset string).
Proof.
  refine {| r_names := λ r, r;
            r_register := λ ns r, if existsb (λ n, bool_decide (n ∈ r)) ns then None else Some (list_to_set ns ∪ r) |}.
  - intros ns r Hn. exists (list_to_set ns ∪ r). split; [|done].
    destruct (existsb _ ns) eqn:E; [|done]. apply existsb_exists in E as (n & Hin & Hr%bool_decide_eq_true).
    by destruct (Hn n); [by apply list_elem_of_In|].
  - intros ns r n Hin Hr. replace (existsb _ ns) with true; [done|]. symmetry. apply existsb_exists.
    exists n. split; [by apply list_elem_of_In|by apply bool_decide_eq_true].
Defined.

#[local] Instance pair_vec : MetricVec (list string * labels).
Proof.
  refine {| v_new := λ ls, (ls, ∅); v_left := fst; v_given := snd;
            v_curry := λ m v, if bool_decide (dom m ⊆ list_to_set v.1) then Some (filter (λ l, l ∉ dom m) v.1, v.2 ∪ m) else None;
            v_values := λ ls v, if bool_decide (length ls = length v.1) then Some (v.2 ∪ list_to_map (zip v.1 ls)) else None;
            v_with := λ m v, if bool_decide (dom m = list_to_set v.1) then Some (v.2 ∪ m) else None |}; try done.
  - intros m v Hm. rewrite bool_decide_true by done. by eexists.
  - intros m v Hm. by rewrite bool_decide_false.
Defined.

Definition sampleNames : libraryNames :=
  {| ln_build := ["go_build_info"]; ln_go := ["go_goroutines"; "go_threads"]; ln_process := ["process_open_fds"];
     ln_handler := ["promhttp_metric_handler_requests_total"; "promhttp_metric_handler_requests_in_flight"] |}.
Lemma agent_metrics_registered_witness :
  ∃ r', agent_registrations (V := list string * labels) sampleNames true (∅ : gset string) = Ret (Some r') ∧
    NoDup (libraryNames_all sampleNames ++ agentNames true).
Proof.
  destruct (agent_metrics_registered (V := list string * labels) sampleNames true (∅ : gset string)) as (r' & E & _ & Hnd).
  - split; [apply (bool_decide_unpack _); vm_compute; reflexivity|].
    repeat constructor.
  - reflexivity.
  - exists r'. split; [exact E|exact Hnd].
Defined.

Lemma publisher_metrics_labelled_witness :
  ∃ mt mq, withTenant (V := list string * labels) (-1000001002) theMetrics = Ret mt ∧ WithType "logs" mt = Ret mq ∧
    Forall (λ o, ∃ names, series names [("regionID", "2"); ("tenantID", "1000001"); ("type", "logs")] o) (queue_uses "200" mq).
Proof.
  destruct (publisher_metrics_labelled (V := list string * labels) (url := string) (-1000001002) "logs" "200" [])
    as (_ & _ & mt & mq & E1 & E2 & E3 & _).
  exists mt, mq. split; [exact E1|]. split; [exact E2|exact E3].
Defined.
