(* ===== verification/Tools.v ===== *)
(** * The programs beside the agent

    [cmd/synthetic-monitoring-proto/main.go]: reading and writing of example checks.
    [pkg/accounting/generate-active-series-counts.go], with [bufio.Scanner]: the count of the
    series of a check in the file of a test, from which the table of [Features] is made.
    [cmd/test-api/main.go] and [internal/grpc/grpc.go]: the life of the test API. *)
From Stdlib Require Import SpecFloat.
From S2P Require Import Prelude Strs Version Checks Validate Updater Features ApiDb.

Open Scope Z_scope.

(** ** Example checks *)

Module Proto.

Inductive checkType := CHECK_PING | CHECK_HTTP | CHECK_DNS.

(** The values of the enumerations that the examples use. *)
Definition IpVersion_V4 : Z := 1.
Definition HttpMethod_GET : Z := 0.
Definition DnsRecordType_A : Z := 1.
Definition DnsProtocol_TCP : Z := 0.

Definition pingExample : PingSettings :=
  {| ping_IpVersion := IpVersion_V4; ping_SourceIpAddress := ""; ping_PayloadSize := 0;
     ping_DontFragment := false; ping_PacketCount := 0 |}.
Definition httpExample : HttpSettings :=
  {| http_IpVersion := IpVersion_V4; http_Method := HttpMethod_GET; http_Headers := []; http_Body := "";
     http_NoFollowRedirects := false; http_BearerToken := ""; http_ProxyURL := "";
     http_ProxyConnectHeaders := []; http_FailIfSSL := false; http_FailIfNotSSL := true;
     http_ValidStatusCodes := []; http_ValidHTTPVersions := [];
     http_FailIfBodyMatchesRegexp := []; http_FailIfBodyNotMatchesRegexp := [];
     http_FailIfHeaderMatchesRegexp := []; http_FailIfHeaderNotMatchesRegexp := [];
     http_Compression := 0; http_CacheBustingQueryParamName := ""; http_SecretManagerEnabled := false |}.
Definition dnsExample : DnsSettings :=
  {| dns_IpVersion := IpVersion_V4; dns_SourceIpAddress := ""; dns_Server := "8.8.4.4"; dns_Port := 53;
     dns_RecordType := DnsRecordType_A; dns_Protocol := DnsProtocol_TCP; dns_ValidRCodes := [] |}.

Definition settingsOf (t : checkType) : string * CheckSettings :=
  match t with
  | CHECK_PING => ("grafana.com",
      {| Ping := Some pingExample; Http := None; Dns := None; Tcp := None; Traceroute := None;
         Scripted := None; Multihttp := None; Grpc := None; Browser := None |})
  | CHECK_HTTP => ("https://grafana.com/",
      {| Ping := None; Http := Some httpExample; Dns := None; Tcp := None; Traceroute := None;
         Scripted := None; Multihttp := None; Grpc := None; Browser := None |})
  | CHECK_DNS => ("grafana.com",
      {| Ping := None; Http := None; Dns := Some dnsExample; Tcp := None; Traceroute := None;
         Scripted := None; Multihttp := None; Grpc := None; Browser := None |})
  end.

(** The check that [write] builds, with given probes and job. *)
Definition document (probes : list Z) (job : string) (t : checkType) : Check :=
  let '(target, settings) := settingsOf t in
  {| Id := 123; TenantId := 27172; Frequency := 5000; Offset := 2300; Timeout := 2500; Enabled := true;
     Labels := [{| l_Name := "environment"; l_Value := "production" |}]; Settings := settings;
     Probes := probes; Target := target; Job := job; BasicMetricsOnly := false; AlertSensitivity := "";
     Created := S754_zero false; Modified := S754_zero false |}.

(** What a run prints.  [json.Marshal] is the codec's: [Printed] has the check. *)
Inductive output := CannotRead | CannotUnmarshal | InvalidInput (e : verr) | ValidInput | Printed (c : Check).

Definition write `{Validator} (t : checkType) : go output :=
  let check := document [] "" t in
  err ← validate check;
  Ret match err with Some e => InvalidInput e | None => Printed check end.

(** The input: not readable, not a check, or a check. *)
Definition read `{Validator} (input : option (option Check)) : go output :=
  match input with
  | None => Ret CannotRead
  | Some None => Ret CannotUnmarshal
  | Some (Some check) =>
      err ← validate check;
      Ret match err with Some e => InvalidInput e | None => ValidInput end
  end.

(** The flags are tried in order. *)
Definition main_ `{Validator} (doWritePing doWriteHttp doWriteDns : bool) (input : option (option Check))
    : go output :=
  if doWritePing then write CHECK_PING
  else if doWriteHttp then write CHECK_HTTP
  else if doWriteDns then write CHECK_DNS
  else read input.

(** With [os.Exit]: only an input that is not a check fails the program. *)
Definition exitStatus (o : output) : Z :=
  match o with CannotRead | CannotUnmarshal => 1 | _ => 0 end.

Section documents.
Context (urlParse : string → option url) (regexpCompile ParseMediaType vn vv : string → bool).

#[local] Instance V : Validator := checks_extra_validator urlParse regexpCompile ParseMediaType vn vv.

(** The program cannot write an example: the check has no probes. *)
Theorem examples_are_invalid t : write t = Ret (InvalidInput ErrInvalidCheckProbes).
Proof. by destruct t. Qed.

(** With a probe, a job and the settings otherwise as they are, two of them are valid, ... *)
Theorem repaired_examples_valid t probe job :
  t ≠ CHECK_HTTP → job ≠ "" → job ≠ internalMarker → validate (document [probe] job t) = Ret None.
Proof.
  intros Ht Hj Hm. unfold V, checks_extra_validator, validate, Check_Validate.
  destruct job as [|a job]; [done|]. destruct t; [|done|]; simpl;
    rewrite (bool_decide_eq_false_2 (String a job = internalMarker)) by done; vm_compute; done.
Qed.

(** ... and what [read] says of them is what the updater would. *)
Lemma read_agrees c : exitStatus ValidInput = 0 ∧
  (read (Some (Some c)) = Ret ValidInput ↔ validate c = Ret None).
Proof.
  split; [done|]. unfold read. destruct (validate c) as [[e|]|]; split; simpl; intros; simplify_eq; done.
Qed.

End documents.

Lemma repaired_examples_valid_witness :
  CHECK_DNS ≠ CHECK_HTTP ∧
  validate (Validator := checks_extra_validator (λ _, None) (λ _, true) (λ _, true) (λ _, true) (λ _, true))
    (document [1] "job" CHECK_DNS) = Ret None.
Proof. split; [done|]. apply repaired_examples_valid; done. Defined.

End Proto.

(** ** Counting series *)

Module ActiveSeries.

(** [bufio.MaxScanTokenSize]. *)
Definition MaxScanTokenSize : Z := 65536.

Definition newline : ascii := Ascii.ascii_of_N 10.
Definition dropCR (l : list ascii) : list ascii :=
  match reverse l with a :: l' => if (code a =? 13)%N then reverse l' else l | [] => l end.

(** [bufio.ScanLines] on the rest of the input: the next line, without its end, and what follows. *)
Fixpoint untilNewline (l : list ascii) : list ascii * option (list ascii) :=
  match l with
  | [] => ([], None)
  | a :: l => if Ascii.eqb a newline then ([], Some l)
              else let '(x, rest) := untilNewline l in (a :: x, rest)
  end.

(** The lines that [Scan] returns before it stops, and whether it stopped with an error: a
    line does not fit in the buffer.  Each round takes a byte at least. *)
Fixpoint scanLines (fuel : nat) (l : list ascii) : list (list ascii) * bool :=
  match fuel, l with
  | O, _ | _, [] => ([], false)
  | S fuel, _ =>
      let '(x, rest) := untilNewline l in
      if MaxScanTokenSize <=? llen x then ([], true)
      else match rest with
           | None => ([dropCR x], false)
           | Some rest => let '(ls, err) := scanLines fuel rest in (dropCR x :: ls, err)
           end
  end.
Definition scanText (s : string) : list (list ascii) * bool := scanLines (String.length s) (chars s).

Definition isComment (line : list ascii) : bool := match line with a :: _ => Ascii.eqb a "#" | [] => false end.

(** The error of the scanner is not read. *)
Definition countActiveSeries (fn : string) (contents : option string) : option (string * Z) :=
  contents ← contents;
  Some (trimSuffix ".txt" (Base fn), llen (filter (λ line, isComment line = false) (scanText contents).1)).

(** The map that the template prints, by name; [None] when a file cannot be read. *)
Fixpoint counts (files : list (string * option string)) (data : gmap string Z) : option (gmap string Z) :=
  match files with
  | [] => Some data
  | (fn, contents) :: files =>
      '(name, count) ← countActiveSeries fn contents; counts files (<[name := count]> data)
  end.
Definition generate (files : list (string * option string)) : option (gmap string Z) := counts files ∅.

(** *** Reading back lines *)

Definition unlines (ls : list (list ascii)) : list ascii := concat (map (λ l, l ++ [newline]) ls).

(** A line that a scanner gives back. *)
Definition plain (l : list ascii) : Prop :=
  newline ∉ l ∧ llen l < MaxScanTokenSize ∧ (∀ a, last l = Some a → (code a =? 13)%N = false).

Lemma dropCR_plain l : plain l → dropCR l = l.
Proof.
  intros (_ & _ & Hl). unfold dropCR. destruct (reverse l) as [|a l'] eqn:E; [done|].
  apply (f_equal reverse) in E. rewrite reverse_involutive, reverse_cons in E.
  rewrite Hl; [done|]. by rewrite E, last_snoc.
Qed.

Lemma untilNewline_line l rest : newline ∉ l → untilNewline (l ++ newline :: rest) = (l, Some rest).
Proof.
  induction l as [|a l IH]; intros Hn; [done|]. apply not_elem_of_cons in Hn as [Ha Hn].
  cbn [app untilNewline]. destruct (Ascii.eqb_spec a newline); [congruence|]. by rewrite IH.
Qed.

Lemma scanLines_step fuel l rest : plain l →
  scanLines (S fuel) (l ++ newline :: rest) = (l :: (scanLines fuel rest).1, (scanLines fuel rest).2).
Proof.
  intros Hp. pose proof Hp as (Hn & Hl & _). cbn [scanLines]. rewrite untilNewline_line by done.
  destruct (l ++ newline :: rest) eqn:E; [by destruct l|].
  destruct (Z.leb_spec MaxScanTokenSize (llen l)); [lia|]. rewrite dropCR_plain by done.
  by destruct (scanLines fuel rest).
Qed.

(** Enough fuel is enough: a round per line, and at least a byte in each. *)
Lemma scanLines_unlines fuel ls rest : (length (unlines ls ++ rest) ≤ fuel)%nat → Forall plain ls →
  ∃ fuel', (length rest ≤ fuel')%nat ∧
    scanLines fuel (unlines ls ++ rest) = (ls ++ (scanLines fuel' rest).1, (scanLines fuel' rest).2).
Proof.
  revert fuel. induction ls as [|l ls IH]; intros fuel Hf Hp; simpl in *.
  - exists fuel. split; [done|]. by destruct (scanLines fuel rest).
  - apply Forall_cons in Hp as [Hl Hp]. unfold unlines in Hf. simpl in Hf. rewrite !length_app in Hf. simpl in Hf.
    destruct fuel as [|fuel]; [lia|].
    destruct (IH fuel) as (fuel' & Hr & E); [rewrite length_app; unfold unlines; lia|done|].
    exists fuel'. split; [done|]. unfold unlines. cbn [map concat].
    rewrite <-!app_assoc. cbn [app]. rewrite scanLines_step by done. unfold unlines in E. by rewrite E.
Qed.

(** A file of lines is counted in full: every line that is not a comment, empty ones included. *)
Theorem series_counted fn ls : Forall plain ls →
  countActiveSeries fn (Some (of_chars (unlines ls))) =
    Some (trimSuffix ".txt" (Base fn), llen (filter (λ l, isComment l = false) ls)).
Proof.
  intros Hp. unfold countActiveSeries, scanText. simpl. rewrite chars_of_chars, <-length_chars, chars_of_chars.
  destruct (scanLines_unlines (length (unlines ls)) ls []) as (fuel' & _ & E);
    [by rewrite app_nil_r|done|]. rewrite app_nil_r in E. rewrite E.
  by destruct fuel'; simpl; rewrite app_nil_r.
Qed.

(** From a line that is too long on nothing is counted, and nobody is told. *)
Theorem long_line_ends_count fn ls x rest : Forall plain ls → newline ∉ x → MaxScanTokenSize ≤ llen x →
  countActiveSeries fn (Some (of_chars (unlines ls ++ x ++ newline :: rest))) =
    countActiveSeries fn (Some (of_chars (unlines ls))).
Proof.
  intros Hp Hn Hx. rewrite series_counted by done. unfold countActiveSeries, scanText. simpl.
  rewrite chars_of_chars, <-length_chars, chars_of_chars.
  destruct (scanLines_unlines (length (unlines ls ++ x ++ newline :: rest)) ls (x ++ newline :: rest))
    as ([|fuel'] & Hf & E); [done|done|rewrite length_app in Hf; simpl in Hf; lia|].
  rewrite E. cbn [scanLines]. rewrite untilNewline_line by done.
  destruct (x ++ newline :: rest) eqn:Ex; [by destruct x|].
  destruct (Z.leb_spec MaxScanTokenSize (llen x)); [|lia]. simpl. by rewrite app_nil_r.
Qed.

(** *** The table *)

(** [internal/scraper/testdata/tcp_basic.txt], with a backquote for a double quote. *)
Definition tcp_basic_text : string := "# HELP probe_dns_lookup_time_seconds Returns the time taken for probe dns lookup in seconds
# TYPE probe_dns_lookup_time_seconds gauge
probe_dns_lookup_time_seconds 1.3936e-05
# HELP probe_duration_seconds Returns how long the probe took to complete in seconds
# TYPE probe_duration_seconds gauge
probe_duration_seconds 0.000236708
# HELP probe_failed_due_to_bytes Indicates if probe failed due to bytes
# TYPE probe_failed_due_to_bytes gauge
probe_failed_due_to_bytes 0
# HELP probe_failed_due_to_regex Indicates if probe failed due to regex
# TYPE probe_failed_due_to_regex gauge
probe_failed_due_to_regex 0
# HELP probe_ip_addr_hash Specifies the hash of IP address. It's useful to detect if the IP address changes.
# TYPE probe_ip_addr_hash gauge
probe_ip_addr_hash 1.268118805e+09
# HELP probe_ip_protocol Specifies whether probe ip protocol is IP4 or IP6
# TYPE probe_ip_protocol gauge
probe_ip_protocol 4
# HELP probe_success Displays whether or not the probe was a success
# TYPE probe_success gauge
probe_success 1
# HELP sm_check_info Provides information about a single check configuration
# TYPE sm_check_info gauge
sm_check_info 1
# HELP probe_all_duration_seconds Returns how long the probe took to complete in seconds (histogram)
# TYPE probe_all_duration_seconds histogram
probe_all_duration_seconds_bucket{le=`0.005`} 1
probe_all_duration_seconds_bucket{le=`0.01`} 1
probe_all_duration_seconds_bucket{le=`0.025`} 1
probe_all_duration_seconds_bucket{le=`0.05`} 1
probe_all_duration_seconds_bucket{le=`0.1`} 1
probe_all_duration_seconds_bucket{le=`0.25`} 1
probe_all_duration_seconds_bucket{le=`0.5`} 1
probe_all_duration_seconds_bucket{le=`1`} 1
probe_all_duration_seconds_bucket{le=`2.5`} 1
probe_all_duration_seconds_bucket{le=`5`} 1
probe_all_duration_seconds_bucket{le=`10`} 1
probe_all_duration_seconds_bucket{le=`+Inf`} 1
probe_all_duration_seconds_sum 0.000236708
probe_all_duration_seconds_count 1
# HELP probe_all_success Displays whether or not the probe was a success (summary)
# TYPE probe_all_success summary
probe_all_success_sum 1
probe_all_success_count 1
".
Definition quoted (s : string) : string :=
  of_chars (map (λ a, if Ascii.eqb a "`" then Ascii.ascii_of_N 34 else a) (chars s)).

(** The table is not the one that the program makes of the file. *)
Theorem table_is_stale :
  generate [("internal/scraper/testdata/tcp_basic.txt", Some (quoted tcp_basic_text))]
    = Some {[ "tcp_basic" := 24 ]} ∧ seriesOf "tcp_basic" = Some 23.
Proof. split; vm_compute; done. Qed.

End ActiveSeries.

(** ** The life of the test API *)

Module TestApi.

(** [getLogger]: the level and whether the caller is written. *)
Inductive level := DebugLevel | InfoLevel | ErrorLevel.
Definition getLogger (verbose debug : bool) : level * bool :=
  if debug then (DebugLevel, true) else if verbose then (InfoLevel, false) else (ErrorLevel, false).

Inductive runErr := ErrOpen | ErrDecode | ErrLoad (e : loadErr) | ErrListen | ErrServe.

(** [Server.Run]: [listen] says whether the address could be taken, [serve] how [Serve]
    returns, if it does. *)
Definition grpcServer_Run (listen : bool) (serve : option (error unit)) : option (error runErr) :=
  if negb listen then Some (Some ErrListen)
  else match serve with
       | None => None
       | Some (Some _) => Some (Some ErrServe)
       | Some None => Some None
       end.

(** How a run ends, and the database that it serves, if it gets that far: a run
    that still serves has no end. *)
Record runOutcome := { ended : option (error runErr); served : option Db }.
Definition stopped (e : runErr) : runOutcome := {| ended := Some (Some e); served := None |}.

Definition run `{Validator} (tenantsAt probesAt checksAt : nat → Z) (file : option (option data))
    (listen : bool) (serve : option (error unit)) : go runOutcome :=
  match file with
  | None => Ret (stopped ErrOpen)
  | Some None => Ret (stopped ErrDecode)
  | Some (Some d) =>
      '(db, err) ← loadData tenantsAt probesAt checksAt d New;
      match err with
      | Some e => Ret (stopped (ErrLoad e))
      | None => Ret {| ended := grpcServer_Run listen serve; served := if listen then Some db else None |}
      end
  end.

(** [main]: [log.Fatal] for an error. *)
Definition exitStatus_ (o : runOutcome) : option Z :=
  match ended o with None => None | Some (Some _) => Some 1 | Some None => Some 0 end.

Section run.
Context `{Validator}.

(** The server only ever serves a database that is consistent and that has all of its file;
    whatever goes wrong before ends the program with a failure. *)
Theorem test_api_run tenantsAt probesAt checksAt file listen serve o :
  run tenantsAt probesAt checksAt file listen serve = Ret o →
  match served o with
  | Some db => (∃ d, file = Some (Some d) ∧ loadData tenantsAt probesAt checksAt d New = Ret (db, None)) ∧
      dbinv db ∧ indexed db ∧ (exitStatus_ o = None ↔ serve = None)
  | None => exitStatus_ o = Some 1
  end.
Proof.
  unfold run. destruct file as [[d|]|]; [|by intros [= <-]|by intros [= <-]].
  destruct (loadData tenantsAt probesAt checksAt d New) as [[db [e|]]|] eqn:E; cbn [mbind go_bind];
    intros Ho; [by injection Ho as <-| |done]. injection Ho as <-.
  destruct listen; [|done]. destruct (loadData_good _ _ _ _ _ _ E) as [Hi Hx]. simpl.
  split; [by exists d|]. split; [done|]. split; [done|].
  by destruct serve as [[]|].
Qed.

End run.

(** An empty file is served, by a validator that is not asked. *)
Lemma test_api_run_witness :
  let _ : Validator := checks_extra_validator (λ _, None) (λ _, true) (λ _, true) (λ _, true) (λ _, true) in
  let d := {| d_Tenants := []; d_Probes := []; d_ProbeTokens := ∅; d_Checks := [] |} in
  run (λ _, 0) (λ _, 0) (λ _, 0) (Some (Some d)) true None = Ret {| ended := None; served := Some New |} ∧
  dbinv New.
Proof.
  intros V d. assert (E : run (λ _, 0) (λ _, 0) (λ _, 0) (Some (Some d)) true None
    = Ret {| ended := None; served := Some New |}) by done.
  split; [done|]. apply (test_api_run _ _ _ _ _ _ _ E).
Defined.

End TestApi.
